(* ===== verification/_CoqProject ===== *)
-Q . S2P
Prelude.v
CppString.v
Uri.v
WorkQueue.v
Net.v
Events.v
WsSession.v
Threads.v
HttpWrapper.v
Server.v
ServerOps.v
Registry.v
System.v
Delivery.v
Steady.v
HttpConnection.v
HttpSystem.v
Requests.v
ServerApi.v
EchoServer.v
EchoSystem.v
IoPool.v
ClientSession.v
ClientSteps.v
Client.v
EchoClient.v
ClientSystem.v
EndToEnd.v
