(* ===== verification/Prelude.v ===== *)
(** * The websocket client and server library, verified

    The library under src/src has a server, a client and what they share: a thread
    pool, a workqueue on which every application callback runs, an ssl context.  Boost's
    Asio and Beast do the networking.  This development translates the C++ into
    functions and step relations and proves what makes it correct.

    ** How the program is put together

    - CWorkQueue (CWorkQueue.h): one thread that calls posted functions in order.
    - CWebsocketServer::CImpl (CWebsocketServer.cpp): the registry of clients, uris and
      counts behind one mutex; IServerEvents is the interface its connections call it by.
      An accepted socket becomes a CHttpConnection (directly, or after CDetectSession has
      looked for ssl); an upgrade request turns that into a CWsSession; other requests go
      to the handler of their uri as a CHttpWrapper.  CWebsocketServer and CUriWrapper
      are the public face.
    - CWebsocketClient::CImpl (CWebsocketClient.cpp): the current CSession and the
      callbacks; ISessionEvents is the interface a CSession calls it by.
    - CIoPool, CSslContext: the threads that run Asio, the settings of OpenSSL.

    Sessions and connections run their handlers one at a time on a strand.  The server,
    the client and the queue are called by any thread, and protect their state by mutexes.

    ** Conventions

    A handler that runs on a strand is a function in the monad [cpp] below: state passing,
    exceptions as [Throw], started operations and outgoing calls as emitted effects in
    program order.  An operation that other threads may interleave with is a [prog]
    (Threads.v): a sequence of atomic steps, one for each critical section or atomic
    access, with effects between them; [run] executes it alone, [pool_step] among others.
    Names are the source's; [X_locked] is the body of the critical section of [X], and
    [X_posted] the closure [X] posts.  [uint32_t] and [size_t] counters are integers with
    their wrap-around, strings are [string], payload bytes are lists of [byte], maps are
    [gmap]s, shared pointers to sessions are numbers.

    ** Files

    - Prelude: the monad, reflexive-transitive closure.  CppString: the members of
      [std::string], [std::isxdigit], [std::stoi] and [std::to_string] that the source uses.
    - Uri: UrlDecode, ParseTarget, UriMatches (CWebsocketServer.cpp 84-151) and the loop of
      LongestUriMatchLocked.  Total decoding, inverse of percent-encoding; what a target
      parses to; matching is by path segments.
    - WorkQueue: CWorkQueue as critical sections and as a step relation of its worker,
      callers, a stopping thread and the condition variable, with a history of what was
      asked of it and what it called.  FIFO, no lost wake-up, no call after the Stop that
      stopped it has returned, progress; the histories are those of an ordered channel.
    - Net: error codes, payloads, settings, timeouts.  Events: HttpMsg, posted closures, the
      class IServerEvents with the laws an implementation promises, and [lock_call], the
      weak pointer's [lock()] followed by a call.
    - WsSession: CWsSession, then a session with its strand and outstanding operations
      as a transition system.  One operation of each kind at a time, writes in order, the
      sequence of calls on the server, backlog, draining before close.  Stated over any
      implementation of IServerEvents.
    - Threads: programs, pools of threads, and a logic of tokens for reasoning about one
      thread at a time ([wp], [pool_ok], [observed_ok]).  What a program can do among others
      whose sections are of a given kind ([among], [moves]).
    - HttpWrapper: CHttpWrapper, HttpErrorMessage.  A wrapper with its message, which is shared,
      and the strand its reply function posts to: one response per request, and which;
      when the error body is JSON.
    - Server: CImpl of the server, every operation.  ServerOps: what each does when it
      runs alone.  Registry: the invariants under every interleaving; the closed callback
      as a token that moves from the registry to the queue, the worker and the callback.
    - System: the server with its sessions.  IServerEvents is implemented by the server's
      operations, SessionSend and SessionClose are delivered to the strands.  A registered
      client is an open session; an open session is registered or closing; a connection
      that ended has its callback called once; an emptied server closes every session.
    - Delivery: that system with the worker as one thread.  The callbacks about clients follow
      the posted closures in order and without a gap, and these are, in order, some of what
      each session reported; none is lost while the queue runs.  Http handlers are followed too.
      The closed and connection-change callbacks
      are left out, being also called outside the worker: such a closed callback may come
      before the added one of the same client ([added_after_closed]).
    - Steady: what stays constant in that system: settings, and whether a client uses ssl.
    - HttpConnection: CHttpConnection with its outstanding operations, CDetectSession.  What is
      done about each request it reads ([decides]).
    - HttpSystem: the server with everything it accepts: a socket is examined for ssl, is an
      http connection, may end as a session; the wrappers of requests are objects that the
      application holds and uses when it likes.  Without connections and wrappers it is the
      system above ([http_system_refines]).  Requests: every request is answered, became a
      session, or is in the hands of its handler; handlers are called in order; sessions
      come from allowed upgrades, as ssl or not like their connection.
    - ServerApi: CWebsocketServer, CUriWrapper.
    - IoPool: CIoPool, CSslContext.
    - ClientSession: CSession as WsSession does CWsSession.  ClientSteps: what one of its
      steps does to the client, and how a requested close gets out.  Client: CImpl and the
      public class of the client, each operation run alone.
    - ClientSystem: the client with its sessions, as System does for the server; threads
      that wait for a promise, the connect handler with what it captured, a client that
      goes away before its sessions.  A waiting Connect gets the answer of its session; a
      session that was replaced, or forgotten by Shutdown, closes; the race in which a
      connection outlives its client ([reconnect_outlives_client]).
    - EndToEnd: a session of the client and the session of the server it is connected to,
      joined by an ordered stream.  Each side is given what the other accepted, in order;
      the end of a connection comes after everything; a close delivers what was sent.
    - EchoServer, EchoClient: the programs of examples/ as applications: their callbacks and
      [main], on every branch.  EchoClient follows [main] while the sessions, the worker and
      the connect handler run.  EchoSystem: the echo server in the system of Delivery; every
      client is sent back what it sent.

    ** Bounds and fuel

    The loops of UrlDecode and ParseTarget and the decimal printer take fuel; the first two
    are started with more than the length of their input and are proved never to run out
    ([UrlDecode_total_roundtrip], [ParseTarget_functional]), the printer has twenty digits, enough for
    64 bits.  The registry's theorems hold while fewer than 2^32 ids have been given out
    ([in_range]); [id_counter_wraps] shows what happens then.

    ** What is assumed of the libraries

    Beast completes an operation once, and after one operation on a websocket stream has
    failed no later one succeeds: the parameter [contract] of WsSession.v, built into the
    runs of ClientSession.v ([ws_pop_empty_without_contract] shows it is needed).  Between the
    two ends of a connection messages keep their order and the close frame follows them
    ([lk_exec] of EndToEnd.v).  Setting a
    status code and preparing a payload may throw, as parameters of HttpConnection.v.  Opening
    the listening socket is a parameter of [Start].  The application is a parameter:
    what each callback calls on the server or the client (any program made of public
    operations, [Behaves]), and whether it ends with an exception.

    ** What is not modelled

    The bytes on the wire and the ssl and websocket protocols (Beast, OpenSSL); timers, of
    which only the settings are kept; memory and object lifetimes, apart from weak
    pointers that may expire, and the wrappers of HttpSystem.v; a caller that changes a vector after passing it to the
    client's SendContent by shared pointer.  Handlers of sessions are not interrupted by other
    threads in System.v and ClientSystem.v, while threads interleave freely with each other and between
    handlers.  What an io context does after its pool has been stopped.  The tests
    and the build files.

    ** Next

    Handlers of sessions and connections that other threads interrupt; a server that goes
    away before its connections. *)

From Stdlib Require Export Ascii.
From stdpp Require Export base tactics list strings gmap.

(** ** The effect monad of the development

    A member function of the C++ program is a function of the state [S] of the
    object (or objects) it works on.  It returns a value or leaves with a fault,
    it leaves a new state behind in both cases (C++ does not roll back), and it
    emits a list of effects [E] in program order: asynchronous operations it
    started, virtual calls it made, user callbacks it invoked. *)

(** What ends a function early. *)
Inductive fault : Type :=
  | OutOfRange (where_ : string)        (** [std::out_of_range] *)
  | InvalidArgument (where_ : string)   (** [std::invalid_argument] *)
  | RuntimeError (what : string)        (** [std::runtime_error] *)
  | SystemError (what : string)         (** [boost::system::system_error] *)
  | UndefinedBehaviour (what : string)  (** the call has no defined meaning *)
  | OutOfFuel.                          (** the model's own loop bound ran out *)

Inductive res (A : Type) : Type :=
  | Ok (a : A)
  | Throw (f : fault).
Arguments Ok {A} a.
Arguments Throw {A} f.

#[export] Instance res_ret : MRet res := λ A a, Ok a.
#[export] Instance res_bind : MBind res := λ A B f m,
  match m with Ok a => f a | Throw e => Throw e end.

Definition cpp (S E A : Type) : Type := S → res A * S * list E.

Section Monad.
  Context {S E : Type}.

Definition ret {A} (a : A) : cpp S E A := λ s, (Ok a, s, []).

Definition bind {A B} (m : cpp S E A) (k : A → cpp S E B) : cpp S E B := λ s,
  match m s with
  | (Ok a, s', w) =>
      match k a s' with (r, s'', w') => (r, s'', w ++ w') end
  | (Throw e, s', w) => (Throw e, s', w)
  end.

Definition throw {A} (e : fault) : cpp S E A := λ s, (Throw e, s, []).

Definition gets {A} (f : S → A) : cpp S E A := λ s, (Ok (f s), s, []).

Definition modify (f : S → S) : cpp S E unit := λ s, (Ok tt, f s, []).

Definition emit (e : E) : cpp S E unit := λ s, (Ok tt, s, [e]).

Definition of_res {A} (r : res A) : cpp S E A := λ s, (r, s, []).

Definition when (b : bool) (m : cpp S E unit) : cpp S E unit :=
  if b then m else ret tt.

(** [for (x : l) f(x)]. *)
Fixpoint for_each {A} (l : list A) (f : A → cpp S E unit) : cpp S E unit :=
  match l with
  | [] => ret tt
  | x :: l' => bind (f x) (λ _, for_each l' f)
  end.

End Monad.

Declare Scope cpp_scope.
Delimit Scope cpp_scope with cpp.
Notation "x <- m ;; k" := (bind m (λ x, k))
  (at level 100, m at next level, right associativity) : cpp_scope.
Notation "m ;; k" := (bind m (λ _, k))
  (at level 100, right associativity) : cpp_scope.

(** Runs of a function: its result, the state it leaves, what it emits. *)
Definition result_of {S E A} (r : res A * S * list E) : res A := r.1.1.
Definition state_of {S E A} (r : res A * S * list E) : S := r.1.2.
Definition effects_of {S E A} (r : res A * S * list E) : list E := r.2.

(** Unfolds the monad in the goal and in the context. *)
Ltac cpp_unfold :=
  unfold bind, ret, throw, gets, modify, emit, of_res, when,
    result_of, state_of, effects_of in *; simpl in *.

(** Splits on the next test a handler makes. *)
Ltac case_test :=
  match goal with
  | |- context [match ?b with true => _ | false => _ end] =>
      let E := fresh "Htest" in destruct b eqn:E; simpl
  | |- context [match ?o with Some _ => _ | None => _ end] =>
      let E := fresh "Htest" in destruct o eqn:E; simpl
  end.

(** ** Runs of a transition relation *)

Inductive star {A : Type} (R : A → A → Prop) : A → A → Prop :=
  | star_refl a : star R a a
  | star_step a b c : R a b → star R b c → star R a c.

Section Star.
  Context {A : Type} {R : A → A → Prop}.

Lemma star_one a b : R a b → star R a b.
Proof. eauto using star. Qed.

Lemma star_trans a b c : star R a b → star R b c → star R a c.
Proof. induction 1; eauto using star. Qed.

(** Rule induction in the form the invariants use. *)
Lemma star_invariant (P : A → Prop) a b :
  (∀ x y, P x → R x y → P y) → P a → star R a b → P b.
Proof. intros Hstep Ha Hab. induction Hab; eauto. Qed.

End Star.

(** What a list with one place replaced holds. *)
Lemma list_insert_cases {A} (l : list A) i a j b :
  <[i := a]> l !! j = Some b → (j = i ∧ b = a) ∨ (j ≠ i ∧ l !! j = Some b).
Proof. rewrite list_lookup_insert_Some. naive_solver. Qed.

(** What a map with one value changed holds. *)
Lemma map_alter_cases {K A} `{Countable K} (f : A → A) (m : gmap K A) i j b :
  alter f i m !! j = Some b →
  (j = i ∧ ∃ a, m !! i = Some a ∧ b = f a) ∨ (j ≠ i ∧ m !! j = Some b).
Proof.
  destruct (decide (j = i)) as [->|Hne].
  - rewrite lookup_alter_eq. destruct (m !! i); [|done]. cbn. naive_solver.
  - rewrite lookup_alter_ne by done. naive_solver.
Qed.

Lemma map_alter_insert {K A} `{Countable K} (f : A → A) (m : gmap K A) i a :
  m !! i = Some a → alter f i m = <[i := f a]> m.
Proof.
  intros Hi. apply map_eq. intros j. destruct (decide (j = i)) as [->|Hne].
  - by rewrite lookup_insert_eq, lookup_alter_eq, Hi.
  - by rewrite lookup_insert_ne, lookup_alter_ne.
Qed.

(** A test that one element passes, all its copies pass. *)
Lemma forallb_replicate {A} (f : A → bool) n a : f a = true → forallb f (replicate n a) = true.
Proof. intros Ha. induction n as [|n IH]; [done|]. cbn. by rewrite Ha. Qed.

Lemma prefix_take {A} n (l : list A) : take n l `prefix_of` l.
Proof. exists (drop n l). by rewrite take_drop. Qed.

(** ** Counting *)

Section Count.
  Context {A : Type} (f : A → bool).

Definition count (l : list A) : nat := length (List.filter f l).

Lemma count_app l l' : count (l ++ l') = count l + count l'.
Proof. unfold count. by rewrite List.filter_app, length_app. Qed.

Lemma count_one a : count [a] = if f a then 1 else 0.
Proof. unfold count. cbn. by destruct (f a). Qed.

Lemma count_insert l n a b :
  l !! n = Some a → count (<[n := b]> l) + count [a] = count l + count [b].
Proof.
  intros Hn. apply list_elem_of_split_length in Hn as (l1 & l2 & -> & ->).
  rewrite insert_app_r_alt by lia. rewrite Nat.sub_diag. cbn [insert list_insert].
  change (b :: l2) with ([b] ++ l2). change (a :: l2) with ([a] ++ l2). rewrite !count_app. lia.
Qed.

Lemma count_delete l n a : l !! n = Some a → count (delete n l) + count [a] = count l.
Proof.
  intros Hn. apply list_elem_of_split_length in Hn as (l1 & l2 & -> & ->).
  rewrite delete_middle. change (a :: l2) with ([a] ++ l2). rewrite !count_app. lia.
Qed.

Lemma count_pos l n a : l !! n = Some a → f a = true → 0 < count l.
Proof.
  intros Hn Ha. pose proof (count_delete l n a Hn) as Hd. rewrite count_one, Ha in Hd. lia.
Qed.

(** If at most one place passes, two that do are the same. *)
Lemma count_unique l i j a b :
  count l ≤ 1 → l !! i = Some a → l !! j = Some b → f a = true → f b = true → i = j.
Proof.
  intros Hle Hi Hj Ha Hb. destruct (decide (i = j)) as [|Hne]; [done|exfalso].
  assert (Hd : ∀ n m c d, n < m → l !! n = Some c → l !! m = Some d → f c = true → f d = true → False).
  { intros n m c d Hlt Hn Hm Hc Hd. apply list_elem_of_split_length in Hn as (l1 & l2 & -> & ->).
    rewrite lookup_app_r in Hm by lia. destruct (m - length l1) as [|k] eqn:Hk; [lia|]. cbn in Hm.
    pose proof (count_pos l2 k d Hm Hd) as Hp. change (c :: l2) with ([c] ++ l2) in Hle.
    rewrite !count_app, count_one, Hc in Hle. lia. }
  destruct (Nat.lt_total i j) as [?|[?|?]]; [by eapply (Hd i j)|done|by eapply (Hd j i)].
Qed.

End Count.
Arguments count {A} f l : simpl never.

Lemma count_ext {A} (f g : A → bool) l : (∀ a, a ∈ l → f a = g a) → count f l = count g l.
Proof.
  intros Hfg. unfold count. induction l as [|a l IH]; [done|]. cbn.
  rewrite (Hfg a) by by left. assert (Hl : ∀ b, b ∈ l → f b = g b) by (intros; apply Hfg; by right).
  destruct (g a); cbn; by rewrite IH.
Qed.

Lemma count_map {A B} (f : A → bool) (g : B → A) l : count f (g <$> l) = count (λ b, f (g b)) l.
Proof. unfold count. induction l as [|b l IH]; [done|]. cbn. destruct (f (g b)); cbn; by rewrite IH. Qed.

Lemma count_none {A} (f : A → bool) l : (∀ a, a ∈ l → f a = false) → count f l = 0.
Proof.
  intros Hf. unfold count. induction l as [|a l IH]; [done|]. cbn.
  rewrite (Hf a) by by left. apply IH. intros; apply Hf; by right.
Qed.

Lemma count_all {A} (f : A → bool) l : (∀ a, a ∈ l → f a = true) → count f l = length l.
Proof.
  intros Hf. unfold count. induction l as [|a l IH]; [done|]. cbn.
  rewrite (Hf a) by by left. cbn. f_equal. apply IH. intros; apply Hf; by right.
Qed.

Create HintDb cpp.
#[export] Hint Resolve star_refl star_one : cpp.
