(* ===== verification/CppString.v ===== *)
(** * [std::string] and the character functions of the C library

    The program's strings are byte strings, so [std::string] is [string] of
    the Standard Library (its characters are 8-bit).  This file models the
    members the program calls ([substr], [find], [operator[]], [compare],
    [back], [operator+=]) and [std::isxdigit], [std::stoi(_, _, 16)], [std::stoul],
    [std::to_string], with the lemmas the other components use.  Positions are
    [nat]: a [size_t] that indexes a string in memory cannot wrap. *)

From S2P Require Import Prelude.

Abbreviation size_of := String.length.

(** ** Members of [std::string] *)

Fixpoint sdrop (n : nat) (s : string) : string :=
  match n, s with
  | O, _ => s
  | S n', String _ s' => sdrop n' s'
  | S _, EmptyString => EmptyString
  end.

Fixpoint stake (n : nat) (s : string) : string :=
  match n, s with
  | O, _ => EmptyString
  | S n', String c s' => String c (stake n' s')
  | S _, EmptyString => EmptyString
  end.

(** [s[i]]; [s[s.size()]] is the terminating NUL. *)
Definition sget (s : string) (i : nat) : ascii :=
  default "000"%char (String.get i s).

(** [s.substr(pos, n)] throws [std::out_of_range] when [pos > s.size()]. *)
Definition substr (s : string) (pos n : nat) : res string :=
  if Nat.leb pos (size_of s) then Ok (stake n (sdrop pos s))
  else Throw (OutOfRange "basic_string::substr").

(** [s.substr(pos)], that is [s.substr(pos, npos)]. *)
Definition substr_from (s : string) (pos : nat) : res string :=
  substr s pos (size_of s).

(** [s.find(c)]; [None] is [npos]. *)
Fixpoint find_char (c : ascii) (s : string) : option nat :=
  match s with
  | EmptyString => None
  | String d s' => if decide (c = d) then Some 0 else S <$> find_char c s'
  end.

(** [s.find(c, start)]. *)
Definition find_from (s : string) (c : ascii) (start : nat) : option nat :=
  Nat.add start <$> find_char c (sdrop start s).

Definition is_empty (s : string) : bool :=
  match s with EmptyString => true | String _ _ => false end.

(** [s.compare(0, t.size(), t) == 0]. *)
Definition compare_prefix (s t : string) : bool :=
  bool_decide (stake (size_of t) s = t).

(** [s.back()] of a non-empty string. *)
Definition back (s : string) : ascii := sget s (size_of s - 1).

(** [s += c]. *)
Definition push_back (s : string) (c : ascii) : string := s +:+ String c "".

(** ** Characters and numbers *)

Definition char_code (c : ascii) : Z := Z.of_N (N_of_ascii c).

Definition in_range (c lo hi : ascii) : bool :=
  Z.leb (char_code lo) (char_code c) && Z.leb (char_code c) (char_code hi).

(** [std::isxdigit] in the C locale. *)
Definition isxdigit (c : ascii) : bool :=
  in_range c "0" "9" || in_range c "a" "f" || in_range c "A" "F".

(** Value of a hexadecimal digit. *)
Definition hex_val (c : ascii) : Z :=
  (if in_range c "0" "9" then char_code c - char_code "0"
   else if in_range c "a" "f" then char_code c - char_code "a" + 10
   else char_code c - char_code "A" + 10)%Z.

(** The digits [strtol] consumes, most significant first. *)
Fixpoint hex_prefix (acc : Z) (s : string) : Z :=
  match s with
  | String c s' => if isxdigit c then hex_prefix (16 * acc + hex_val c)%Z s' else acc
  | EmptyString => acc
  end.

Fixpoint skip_space (s : string) : string :=
  match s with
  | String c s' => if Ascii.is_space c then skip_space s' else s
  | EmptyString => s
  end.

(** [std::stoi(s, nullptr, 16)]: blanks, a sign, an optional [0x] and the
    longest run of digits; no digit is [std::invalid_argument], a value outside
    [int] is [std::out_of_range]. *)
Definition stoi16 (s : string) : res Z :=
  let s1 := skip_space s in
  let '(neg, s2) :=
    match s1 with
    | String "-" r => (true, r)
    | String "+" r => (false, r)
    | _ => (false, s1)
    end%char in
  let s3 :=
    match s2 with
    | String "0" (String x r) =>
        if bool_decide (x = "x"%char ∨ x = "X"%char) && isxdigit (sget r 0)
        then r else s2
    | _ => s2
    end%char in
  if isxdigit (sget s3 0) then
    let v := (if neg : bool then Z.opp else id) (hex_prefix 0 s3) in
    if Z.leb (-2 ^ 31)%Z v && Z.ltb v (2 ^ 31)%Z then Ok v
    else Throw (OutOfRange "stoi")
  else Throw (InvalidArgument "stoi").

(** The decimal digits [strtoul] consumes. *)
Definition isdigit (c : ascii) : bool := in_range c "0" "9".

Fixpoint dec_prefix (acc : Z) (s : string) : Z :=
  match s with
  | String c s' => if isdigit c then dec_prefix (10 * acc + (char_code c - 48))%Z s' else acc
  | EmptyString => acc
  end.

(** [std::stoul(s)]: blanks, a sign, the longest run of digits; a minus sign negates modulo
    2^64; no digit is [std::invalid_argument], more than 64 bits [std::out_of_range]. *)
Definition stoul (s : string) : res Z :=
  let s1 := skip_space s in
  let '(neg, s2) :=
    match s1 with
    | String "-" r => (true, r)
    | String "+" r => (false, r)
    | _ => (false, s1)
    end%char in
  if isdigit (sget s2 0) then
    let v := dec_prefix 0 s2 in
    if Z.ltb v (2 ^ 64) then Ok (if neg : bool then (- v) mod 2 ^ 64 else v)%Z
    else Throw (OutOfRange "stoul")
  else Throw (InvalidArgument "stoul").

(** [static_cast<char>(v)]: the low eight bits. *)
Definition char_of_int (v : Z) : ascii := ascii_of_N (Z.to_N (v mod 256)%Z).

(** [std::to_string] of an unsigned integer. *)
Definition digit (d : Z) : ascii := char_of_int (48 + d)%Z.

Fixpoint to_string_fuel (fuel : nat) (n : Z) : string :=
  match fuel with
  | O => EmptyString
  | S fuel' =>
      if Z.ltb n 10 then String (digit n) ""
      else to_string_fuel fuel' (n / 10)%Z +:+ String (digit (n mod 10)%Z) ""
  end.

(** Twenty decimal digits hold every 64-bit value. *)
Definition to_string (n : Z) : string := to_string_fuel 20 n.
#[global] Arguments to_string : simpl never.

(** The double quote, and the bytes of a string. *)
Definition dquote : string := String "034" "".

Definition bytes_of_string (s : string) : list Byte.byte :=
  String.list_byte_of_string s.
Definition string_of_bytes (b : list Byte.byte) : string :=
  String.string_of_list_byte b.

(** ** Lemmas *)

Lemma sapp_cons c s t : String c s +:+ t = String c (s +:+ t).
Proof. reflexivity. Qed.

Lemma sapp_nil_l s : "" +:+ s = s.
Proof. reflexivity. Qed.

Lemma sapp_nil_r s : s +:+ "" = s.
Proof. induction s as [|c s IH]; [done|]. by rewrite sapp_cons, IH. Qed.

Lemma sapp_assoc s t u : (s +:+ t) +:+ u = s +:+ (t +:+ u).
Proof. induction s as [|c s IH]; [done|]. by rewrite !sapp_cons, IH. Qed.

Lemma size_app s t : size_of (s +:+ t) = size_of s + size_of t.
Proof. induction s as [|c s IH]; [done|]. rewrite sapp_cons. simpl. by rewrite IH. Qed.

Create Rewrite HintDb str.
#[export] Hint Rewrite sapp_cons sapp_nil_l sapp_nil_r sapp_assoc size_app : str.

(** Appends pushed to the right. *)
Ltac str_simpl := unfold push_back in *; autorewrite with str in *; simpl in *.

Lemma sdrop_0 s : sdrop 0 s = s.
Proof. by destruct s. Qed.

Lemma sdrop_all s : sdrop (size_of s) s = "".
Proof. induction s; simpl; auto. Qed.

Lemma sdrop_ge n s : size_of s ≤ n → sdrop n s = "".
Proof. revert n; induction s; intros [|n] ?; simpl in *; auto; try lia; apply IHs; lia. Qed.

Lemma sdrop_sdrop a b s : sdrop a (sdrop b s) = sdrop (b + a) s.
Proof.
  revert b; induction s as [|c s IH]; intros [|b]; simpl; auto.
  by destruct a.
Qed.

Lemma sdrop_app_size s t : sdrop (size_of s) (s +:+ t) = t.
Proof. induction s as [|c s IH]; [apply sdrop_0|]. by rewrite sapp_cons. Qed.

Lemma stake_app_size s t : stake (size_of s) (s +:+ t) = s.
Proof. induction s as [|c s IH]; [done|]. rewrite sapp_cons. simpl. by rewrite IH. Qed.

Lemma stake_ge n s : size_of s ≤ n → stake n s = s.
Proof.
  revert n; induction s as [|c s IH]; intros [|n] ?; simpl in *; auto; [lia|].
  rewrite IH; auto with lia.
Qed.

Lemma stake_sdrop n s : stake n s +:+ sdrop n s = s.
Proof.
  revert n; induction s as [|c s IH]; intros [|n]; simpl; auto.
  by rewrite sapp_cons, IH.
Qed.

Lemma size_stake n s : n ≤ size_of s → size_of (stake n s) = n.
Proof. revert n; induction s; intros [|n] ?; simpl in *; auto; try lia; rewrite IHs; lia. Qed.

Lemma size_stake_le n s : size_of (stake n s) ≤ size_of s.
Proof. revert n; induction s as [|c s IH]; intros [|n]; simpl; auto with lia. specialize (IH n). lia. Qed.

Lemma size_sdrop n s : size_of (sdrop n s) = size_of s - n.
Proof. revert n; induction s; intros [|n]; simpl; auto. Qed.

Lemma sdrop_step i s :
  i < size_of s → sdrop i s = String (sget s i) (sdrop (S i) s).
Proof.
  unfold sget. revert i; induction s as [|c s IH]; intros [|i] Hi; simpl in *; [lia..| |].
  - by destruct s.
  - apply IH. lia.
Qed.

Lemma sget_sdrop i j s : sget (sdrop i s) j = sget s (i + j).
Proof.
  unfold sget. revert i; induction s as [|c s IH]; intros [|i]; simpl; auto.
Qed.

Lemma sget_app_r s t i : sget (s +:+ t) (size_of s + i) = sget t i.
Proof. by rewrite <-sget_sdrop, sdrop_app_size. Qed.

Lemma substr_ok s pos n :
  pos ≤ size_of s → substr s pos n = Ok (stake n (sdrop pos s)).
Proof. unfold substr. intros ?%Nat.leb_le. by case_match. Qed.

Lemma substr_from_ok s pos :
  pos ≤ size_of s → substr_from s pos = Ok (sdrop pos s).
Proof.
  intros Hpos. unfold substr_from. rewrite substr_ok by done.
  rewrite stake_ge; [done|]. rewrite size_sdrop. lia.
Qed.

Lemma is_empty_true s : is_empty s = true ↔ s = "".
Proof. by destruct s. Qed.

Lemma compare_prefix_spec s t :
  compare_prefix s t = true ↔ ∃ r, s = t +:+ r.
Proof.
  unfold compare_prefix. rewrite bool_decide_eq_true. split.
  - intros Ht. exists (sdrop (size_of t) s). rewrite <-Ht at 1. symmetry. apply stake_sdrop.
  - intros [r ->]. apply stake_app_size.
Qed.

(** [find] returns the first occurrence. *)
Fixpoint has_char (c : ascii) (s : string) : Prop :=
  match s with
  | EmptyString => False
  | String d s' => d = c ∨ has_char c s'
  end.

#[export] Instance has_char_dec c s : Decision (has_char c s).
Proof. induction s; simpl; apply _. Defined.

Lemma has_char_app c s t : has_char c (s +:+ t) ↔ has_char c s ∨ has_char c t.
Proof.
  induction s as [|d s IH]; simpl.
  - tauto.
  - rewrite IH. tauto.
Qed.

Lemma find_char_None c s : find_char c s = None ↔ ¬ has_char c s.
Proof.
  induction s as [|d s IH]; simpl; [tauto|].
  case_decide as Hd; [split; [done|intros []; by left]|].
  rewrite fmap_None, IH. intuition congruence.
Qed.

Lemma find_char_app c s t :
  ¬ has_char c s → find_char c (s +:+ String c t) = Some (size_of s).
Proof.
  induction s as [|d s IH]; simpl; intros Hs.
  - by rewrite decide_True.
  - rewrite decide_False by naive_solver.
    rewrite IH by naive_solver. done.
Qed.

Lemma find_char_Some c s n :
  find_char c s = Some n →
  s = stake n s +:+ String c (sdrop (S n) s) ∧ ¬ has_char c (stake n s) ∧ n < size_of s.
Proof.
  revert n; induction s as [|d s IH]; simpl; intros n Hn; [done|].
  case_decide as Hd.
  - simplify_eq. simpl.
    split_and!; [done|tauto|lia].
  - apply fmap_Some in Hn as (m & Hm & ->). destruct (IH _ Hm) as (Hs & Hno & Hlt).
    simpl. split_and!; [rewrite sapp_cons; by f_equal| |lia].
    intros [?|?]; congruence.
Qed.

Lemma find_char_bound c s n : find_char c s = Some n → n < size_of s.
Proof. by intros (? & ? & ?)%find_char_Some. Qed.

(** Bytes and strings convert without loss. *)
Lemma bytes_of_string_of_bytes b : bytes_of_string (string_of_bytes b) = b.
Proof. apply String.list_byte_of_string_of_list_byte. Qed.

Lemma string_of_bytes_of_string s : string_of_bytes (bytes_of_string s) = s.
Proof. apply String.string_of_list_byte_of_string. Qed.

(** Two hexadecimal digits convert without an exception. *)
Lemma isxdigit_not_special c :
  isxdigit c = true →
  Ascii.is_space c = false ∧ c ≠ "-"%char ∧ c ≠ "+"%char ∧ c ≠ "x"%char ∧ c ≠ "X"%char.
Proof.
  intros H. destruct c as [[] [] [] [] [] [] [] []]; vm_compute in H; try discriminate;
    repeat split; vm_compute; congruence.
Qed.

Lemma hex_val_bound c : isxdigit c = true → (0 ≤ hex_val c < 16)%Z.
Proof.
  intros H. destruct c as [[] [] [] [] [] [] [] []]; vm_compute in H; try discriminate;
    vm_compute; split; congruence.
Qed.

Lemma stoi16_two h l :
  isxdigit h = true → isxdigit l = true →
  stoi16 (String h (String l "")) = Ok (16 * hex_val h + hex_val l)%Z.
Proof.
  intros Hh Hl.
  destruct (isxdigit_not_special h Hh) as (Hsp & Hm & Hp & _).
  destruct (isxdigit_not_special l Hl) as (_ & _ & _ & Hx & HX).
  pose proof (hex_val_bound h Hh) as Bh. pose proof (hex_val_bound l Hl) as Bl.
  unfold stoi16. cbn [skip_space]. rewrite Hsp.
  assert (Hbool : bool_decide (l = "x"%char ∨ l = "X"%char) = false)
    by (apply bool_decide_eq_false; tauto).
  set (v := (16 * hex_val h + hex_val l)%Z) in *.
  assert (Hv : hex_prefix 0 (String h (String l "")) = v).
  { cbn [hex_prefix]. rewrite Hh, Hl. unfold v. lia. }
  transitivity (if Z.leb (-2 ^ 31)%Z v && Z.ltb v (2 ^ 31)%Z
                then Ok v else Throw (OutOfRange "stoi")).
  - destruct h as [[] [] [] [] [] [] [] []]; try congruence;
      rewrite ?Hbool; cbn [andb]; cbn [sget String.get default];
      try (vm_compute in Hh; discriminate); cbv zeta; cbn -[hex_prefix Z.leb Z.ltb];
      rewrite ?Hv; reflexivity.
  - replace (_ && _) with true; [done|].
    symmetry. apply andb_true_iff. rewrite Z.leb_le, Z.ltb_lt. lia.
Qed.

(** *** Decimal numbers *)

Lemma digit_value d : (0 ≤ d < 10)%Z → isdigit (digit d) = true ∧ (char_code (digit d) - 48 = d)%Z.
Proof.
  intros Hd.
  assert (Hc : (d = 0 ∨ d = 1 ∨ d = 2 ∨ d = 3 ∨ d = 4 ∨ d = 5 ∨ d = 6 ∨ d = 7 ∨ d = 8 ∨ d = 9)%Z)
    by lia.
  by repeat (destruct Hc as [->|Hc]; [by vm_compute|]); subst.
Qed.

Fixpoint all_digits (s : string) : bool :=
  match s with String c s' => isdigit c && all_digits s' | EmptyString => true end.

Lemma dec_prefix_snoc acc s d :
  all_digits s = true → (0 ≤ d < 10)%Z →
  dec_prefix acc (s +:+ String (digit d) "") = (10 * dec_prefix acc s + d)%Z.
Proof.
  intros Hs Hd. destruct (digit_value d Hd) as [Hdig Hval]. revert acc.
  induction s as [|c s IH]; intros acc.
  - rewrite sapp_nil_l. cbn [dec_prefix]. rewrite Hdig, Hval. done.
  - cbn in Hs. apply andb_prop in Hs as [Hc Hs]. rewrite sapp_cons. cbn [dec_prefix]. rewrite Hc. by apply IH.
Qed.

Lemma all_digits_snoc s d :
  all_digits s = true → (0 ≤ d < 10)%Z → all_digits (s +:+ String (digit d) "") = true.
Proof.
  intros Hs Hd. destruct (digit_value d Hd) as [Hdig _]. induction s as [|c s IH].
  - rewrite sapp_nil_l. cbn [all_digits]. by rewrite Hdig.
  - cbn in Hs. apply andb_prop in Hs as [Hc Hs]. rewrite sapp_cons. cbn [all_digits]. rewrite Hc.
    by apply IH.
Qed.

Lemma to_string_fuel_digits fuel n :
  (0 ≤ n < 10 ^ Z.of_nat fuel)%Z → fuel ≠ 0 →
  all_digits (to_string_fuel fuel n) = true ∧ dec_prefix 0 (to_string_fuel fuel n) = n
  ∧ to_string_fuel fuel n ≠ "".
Proof.
  revert n. induction fuel as [|fuel IH]; intros n Hn Hf; [done|]. cbn [to_string_fuel].
  destruct (Z.ltb_spec n 10) as [Hlt|Hge].
  - destruct (digit_value n) as [Hd Hv]; [lia|]. cbn [all_digits dec_prefix]. rewrite Hd. split_and!; [done| |done].
    rewrite Hv. lia.
  - rewrite Nat2Z.inj_succ, Z.pow_succ_r in Hn by lia.
    destruct fuel as [|fuel]; [cbn in Hn; lia|].
    assert (0 ≤ n / 10 < 10 ^ Z.of_nat (S fuel))%Z as Hq.
    { split; [by apply Z.div_pos; lia|]. apply Z.div_lt_upper_bound; lia. }
    destruct (IH (n / 10)%Z Hq ltac:(done)) as (Hall & Hval & Hne).
    assert (0 ≤ n mod 10 < 10)%Z as Hm by (apply Z.mod_pos_bound; lia). split_and!.
    + by apply all_digits_snoc.
    + rewrite dec_prefix_snoc, Hval by done. pose proof (Z.div_mod n 10). lia.
    + destruct (to_string_fuel _ _); [done|by rewrite sapp_cons].
Qed.

Lemma isdigit_not_special c :
  isdigit c = true → Ascii.is_space c = false ∧ c ≠ "-"%char ∧ c ≠ "+"%char.
Proof.
  intros H. destruct c as [[] [] [] [] [] [] [] []]; vm_compute in H; try discriminate;
    repeat split; vm_compute; congruence.
Qed.

(** Reading what was printed. *)
Lemma stoul_to_string n : (0 ≤ n < 2 ^ 64)%Z → stoul (to_string n) = Ok n.
Proof.
  intros Hn. assert (0 ≤ n < 10 ^ Z.of_nat 20)%Z as Hn' by (cbn -[Z.pow]; lia).
  destruct (to_string_fuel_digits 20 n Hn' ltac:(done)) as (Hall & Hval & Hne).
  unfold stoul, to_string. destruct (to_string_fuel 20 n) as [|c s]; [done|].
  cbn in Hall. apply andb_prop in Hall as [Hc _].
  destruct (isdigit_not_special c Hc) as (Hsp & Hm & Hp). cbn [skip_space]. rewrite Hsp.
  assert ((match String c s with String "-" r => (true, r) | String "+" r => (false, r)
           | _ => (false, String c s) end%char) = (false, String c s)) as ->.
  { destruct c as [[] [] [] [] [] [] [] []]; try done; congruence. }
  replace (isdigit (sget (String c s) 0)) with true by (symmetry; exact Hc).
  rewrite Hval. destruct (Z.ltb_spec n (2 ^ 64)); [done|lia].
Qed.
