(* ===== verification/Uri.v ===== *)
(** * Request targets: [UrlDecode], [ParseTarget], [UriMatches]

    The free functions at the top of CWebsocketServer.cpp.  The loops are
    index loops over a [std::string]; each is modelled with its index, and shown
    equal to a reference definition by structural recursion.  Fuel is the number
    of characters plus one: every iteration moves the index forward. *)

From S2P Require Import Prelude CppString.

Abbreviation HttpQueryParameters := (gmap string string).

(** ** The functions of the source *)

Fixpoint UrlDecode_loop (fuel : nat) (in_ : string) (i : nat) (out : string) : res string :=
  match fuel with
  | O => Throw OutOfFuel
  | S fuel' =>
      if Nat.ltb i (size_of in_) then
        if bool_decide (sget in_ i = "%"%char) && Nat.ltb (i + 2) (size_of in_)
           && isxdigit (sget in_ (i + 1)) && isxdigit (sget in_ (i + 2))
        then
          hex ← substr in_ (i + 1) 2;
          v ← stoi16 hex;
          UrlDecode_loop fuel' in_ (i + 2 + 1) (push_back out (char_of_int v))
        else if bool_decide (sget in_ i = "+"%char)
        then UrlDecode_loop fuel' in_ (i + 1) (push_back out " ")
        else UrlDecode_loop fuel' in_ (i + 1) (push_back out (sget in_ i))
      else Ok out
  end.

Definition UrlDecode (in_ : string) : res string :=
  UrlDecode_loop (S (size_of in_)) in_ 0 "".

(** One [name=value] item of a query string. *)
Definition ParseTarget_pair (pair : string) (parameters : HttpQueryParameters)
    : res HttpQueryParameters :=
  if is_empty pair then Ok parameters
  else
    match find_from pair "=" 0 with
    | None =>
        name ← UrlDecode pair;
        Ok (<[name := ""]> parameters)
    | Some eq_ =>
        value_part ← substr_from pair (eq_ + 1);
        value ← UrlDecode value_part;
        name_part ← substr pair 0 eq_;
        name ← UrlDecode name_part;
        Ok (<[name := value]> parameters)
    end.

Fixpoint ParseTarget_loop (fuel : nat) (query : string) (start : nat)
    (parameters : HttpQueryParameters) : res HttpQueryParameters :=
  match fuel with
  | O => Throw OutOfFuel
  | S fuel' =>
      if Nat.leb start (size_of query) then
        let end_ := default (size_of query) (find_from query "&" start) in
        pair ← substr query start (end_ - start);
        parameters' ← ParseTarget_pair pair parameters;
        ParseTarget_loop fuel' query (end_ + 1) parameters'
      else Ok parameters
  end.

(** [path] and [parameters] are out-parameters in the source; [parameters] comes
    in with what the caller put there. *)
Definition ParseTarget (target : string) (parameters : HttpQueryParameters)
    : res (string * HttpQueryParameters) :=
  match find_from target "?" 0 with
  | None => path ← substr_from target 0; Ok (path, parameters)
  | Some queryPos =>
      path ← substr target 0 queryPos;
      query ← substr_from target (queryPos + 1);
      parameters' ← ParseTarget_loop (S (S (size_of query))) query 0 parameters;
      Ok (path, parameters')
  end.

Definition UriMatches (uri path : string) : bool :=
  if is_empty uri || negb (compare_prefix path uri) then false
  else Nat.eqb (size_of path) (size_of uri)
       || bool_decide (sget path (size_of uri) = "/"%char)
       || bool_decide (back uri = "/"%char).

(** ** Reference definitions *)

Fixpoint url_decode (s : string) : string :=
  match s with
  | EmptyString => ""
  | String c s' =>
      let plain := String (if decide (c = "+"%char) then " "%char else c) (url_decode s') in
      match s' with
      | String h (String l r) =>
          if decide (c = "%"%char) then
            if isxdigit h && isxdigit l
            then String (char_of_int (16 * hex_val h + hex_val l)) (url_decode r)
            else plain
          else plain
      | _ => plain
      end
  end.

(** The pieces of [s] between the separators [c]; never the empty list. *)
Fixpoint split_on (c : ascii) (s : string) : list string :=
  match s with
  | EmptyString => [""]
  | String d s' =>
      if decide (c = d) then "" :: split_on c s'
      else match split_on c s' with
           | p :: ps => String d p :: ps
           | [] => [String d ""]
           end
  end.

(** The item of one piece: nothing for an empty piece, an empty value without a
    [=], and the first [=] separates. *)
Definition parse_item (piece : string) : option (string * string) :=
  if is_empty piece then None
  else match find_char "=" piece with
       | None => Some (url_decode piece, "")
       | Some n => Some (url_decode (stake n piece), url_decode (sdrop (S n) piece))
       end.

(** Later items win, as assignments to a map do. *)
Definition add_items (m : HttpQueryParameters) (l : list (string * string))
    : HttpQueryParameters :=
  foldl (λ m kv, <[kv.1 := kv.2]> m) m l.

Definition parse_query (query : string) : list (string * string) :=
  omap parse_item (split_on "&" query).

(** ** An encoder, to state the round trips *)

Definition hex_digit (n : Z) : ascii :=
  (if Z.ltb n 10 then char_of_int (48 + n) else char_of_int (55 + n))%Z.

Definition pct_encode_char (c : ascii) : string :=
  String "%" (String (hex_digit (char_code c / 16)%Z)
             (String (hex_digit (char_code c mod 16)%Z) "")).

Fixpoint pct_encode (s : string) : string :=
  match s with
  | EmptyString => ""
  | String c s' => pct_encode_char c +:+ pct_encode s'
  end.

Definition encode_item (kv : string * string) : string :=
  pct_encode kv.1 +:+ String "=" (pct_encode kv.2).

Fixpoint intercalate (c : ascii) (l : list string) : string :=
  match l with
  | [] => ""
  | [s] => s
  | s :: l' => s +:+ String c (intercalate c l')
  end.

(** ** [UrlDecode] *)

Section UrlDecode_correct.

Lemma url_decode_step c s :
  url_decode (String c s) =
    match s with
    | String h (String l r) =>
        if decide (c = "%"%char) then
          if isxdigit h && isxdigit l
          then String (char_of_int (16 * hex_val h + hex_val l)) (url_decode r)
          else String c (url_decode s)
        else String (if decide (c = "+"%char) then " "%char else c) (url_decode s)
    | _ => String (if decide (c = "+"%char) then " "%char else c) (url_decode s)
    end.
Proof.
  destruct s as [|h [|l r]]; try reflexivity.
  cbn [url_decode]. case_decide as Hc; [|done].
  destruct (isxdigit h && isxdigit l); [done|].
  rewrite decide_False; [done|]. by rewrite Hc.
Qed.

Lemma UrlDecode_loop_correct in_ fuel i out :
  i ≤ size_of in_ → size_of in_ - i < fuel →
  UrlDecode_loop fuel in_ i out = Ok (out +:+ url_decode (sdrop i in_)).
Proof.
  revert i out. induction fuel as [|fuel IH]; intros i out Hi Hfuel; [lia|].
  cbn [UrlDecode_loop]. destruct (Nat.ltb_spec i (size_of in_)) as [Hlt|Hge].
  2: { rewrite sdrop_ge by lia. cbn. by rewrite sapp_nil_r. }
  rewrite (sdrop_step i) by done. rewrite url_decode_step.
  rewrite !Nat.add_1_r. replace (i + 2) with (S (S i)) by lia.
  assert (Hone : ∀ c, UrlDecode_loop fuel in_ (S i) (push_back out c)
                      = Ok (out +:+ String c (url_decode (sdrop (S i) in_)))).
  { intros c. rewrite IH by lia. by str_simpl. }
  destruct (Nat.ltb_spec (S (S i)) (size_of in_)) as [H2|H2].
  - rewrite (sdrop_step (S i)), (sdrop_step (S (S i))) by lia.
    case_decide as Hpct.
    + rewrite bool_decide_true by done. cbn [andb].
      destruct (isxdigit (sget in_ (S i))) eqn:Hh;
        destruct (isxdigit (sget in_ (S (S i)))) eqn:Hl; cbn [andb].
      1: { rewrite substr_ok by lia. rewrite (sdrop_step (S i)), (sdrop_step (S (S i))) by lia.
           cbn [stake mbind res_bind]. rewrite stoi16_two by done. cbn.
           rewrite IH by lia. by str_simpl. }
      all: rewrite bool_decide_false by (rewrite Hpct; done).
      all: rewrite Hone; do 3 f_equal; by rewrite !(sdrop_step) by lia.
    + rewrite (bool_decide_false (_ = "%"%char)) by done. cbn [andb].
      case_bool_decide as Hplus; rewrite Hone, !(sdrop_step) by lia;
        [rewrite decide_True by done|rewrite decide_False by done]; done.
  - rewrite andb_false_r. cbn [andb].
    assert (Htail : ∀ A (x : A) (f : ascii → ascii → string → A),
      match sdrop (S i) in_ with String h (String l r) => f h l r | _ => x end = x).
    { intros. pose proof (size_sdrop (S i) in_) as Hsz.
      destruct (sdrop (S i) in_) as [|h [|l r]]; simpl in *; auto; lia. }
    rewrite Htail. case_bool_decide; rewrite Hone; by case_decide.
Qed.

Lemma UrlDecode_correct s : UrlDecode s = Ok (url_decode s).
Proof. unfold UrlDecode. rewrite UrlDecode_loop_correct by lia. by rewrite sdrop_0. Qed.

Lemma url_decode_size s : size_of (url_decode s) ≤ size_of s.
Proof.
  remember (size_of s) as n eqn:Hn. assert (Hle : size_of s ≤ n) by lia. clear Hn.
  revert s Hle. induction n as [n IH] using lt_wf_ind. intros [|c s] Hle; [simpl; lia|].
  rewrite url_decode_step. simpl in Hle.
  assert (IHs : size_of (url_decode s) ≤ size_of s) by (apply (IH (size_of s)); lia).
  destruct s as [|h [|l r]]; [simpl in *; lia..|].
  case_decide; [destruct (_ && _)|]; simpl in *; try lia.
  assert (size_of (url_decode r) ≤ size_of r) by (apply (IH (size_of r)); lia). lia.
Qed.

End UrlDecode_correct.

(** ** [ParseTarget] *)

Section ParseTarget_correct.

Lemma split_on_find c s :
  split_on c s =
    match find_char c s with
    | None => [s]
    | Some n => stake n s :: split_on c (sdrop (S n) s)
    end.
Proof.
  induction s as [|d s IH]; [done|]. cbn [split_on find_char].
  case_decide as Hd; [by destruct s|].
  rewrite IH. by destruct (find_char c s).
Qed.

Lemma find_from_0 s c : find_from s c 0 = find_char c s.
Proof. unfold find_from. rewrite sdrop_0. by destruct (find_char c s). Qed.

Lemma ParseTarget_pair_correct pair m :
  ParseTarget_pair pair m = Ok (add_items m (option_list (parse_item pair))).
Proof.
  unfold ParseTarget_pair, parse_item. destruct (is_empty pair); [done|].
  rewrite find_from_0. destruct (find_char "=" pair) as [n|] eqn:Hn.
  - apply find_char_bound in Hn. rewrite Nat.add_1_r.
    rewrite substr_from_ok by lia. cbn [mbind res_bind]. rewrite UrlDecode_correct. cbn [mbind res_bind].
    rewrite substr_ok, sdrop_0 by lia. cbn [mbind res_bind]. by rewrite UrlDecode_correct.
  - by rewrite UrlDecode_correct.
Qed.

Lemma add_items_app m l1 l2 : add_items m (l1 ++ l2) = add_items (add_items m l1) l2.
Proof. apply foldl_app. Qed.

Lemma omap_cons_option {A B} (f : A → option B) x l :
  omap f (x :: l) = option_list (f x) ++ omap f l.
Proof. cbn. by destruct (f x). Qed.

Lemma ParseTarget_loop_correct fuel query start m :
  S (size_of query) - start < fuel →
  ParseTarget_loop fuel query start m =
    Ok (add_items m (if Nat.leb start (size_of query)
                     then parse_query (sdrop start query) else [])).
Proof.
  unfold parse_query. revert start m. induction fuel as [|fuel IH]; intros start m Hf; [lia|].
  cbn [ParseTarget_loop]. destruct (Nat.leb_spec start (size_of query)) as [Hle|Hgt]; [|done].
  unfold find_from. rewrite split_on_find.
  pose proof (size_sdrop start query) as Hsz.
  destruct (find_char "&" (sdrop start query)) as [n|] eqn:Hn;
    cbn [fmap option_fmap option_map default]; unfold id;
    rewrite substr_ok by lia; cbn [mbind res_bind];
    rewrite ParseTarget_pair_correct; cbn [mbind res_bind].
  - apply find_char_bound in Hn. rewrite IH by lia.
    destruct (Nat.leb_spec (start + n + 1) (size_of query)) as [_|?]; [|lia].
    rewrite omap_cons_option, add_items_app, sdrop_sdrop.
    replace (start + n - start) with n by lia.
    by replace (start + n + 1) with (start + S n) by lia.
  - rewrite IH by lia.
    destruct (Nat.leb_spec (size_of query + 1) (size_of query)) as [?|_]; [lia|].
    rewrite stake_ge by lia. by rewrite omap_cons_option, app_nil_r.
Qed.

Lemma ParseTarget_correct target m :
  ParseTarget target m =
    Ok (match find_char "?" target with
        | None => (target, m)
        | Some n => (stake n target, add_items m (parse_query (sdrop (S n) target)))
        end).
Proof.
  unfold ParseTarget. rewrite find_from_0.
  destruct (find_char "?" target) as [n|] eqn:Hn.
  - apply find_char_bound in Hn.
    rewrite substr_ok, sdrop_0 by lia. cbn [mbind res_bind].
    rewrite substr_from_ok by lia. cbn [mbind res_bind].
    rewrite ParseTarget_loop_correct by lia. rewrite Nat.add_1_r. cbn. by rewrite ?sdrop_0.
  - rewrite substr_from_ok by lia. done.
Qed.

(** The path as a pure function of the target. *)
Definition target_path (target : string) : string :=
  default target ((λ n, stake n target) <$> find_char "?" target).

Lemma ParseTarget_path target m :
  ∃ m', ParseTarget target m = Ok (target_path target, m').
Proof.
  rewrite ParseTarget_correct. unfold target_path.
  destruct (find_char "?" target); simpl; eauto.
Qed.

Lemma target_path_prefix target : ∃ rest, target = target_path target +:+ rest.
Proof.
  unfold target_path. destruct (find_char "?" target) as [n|]; simpl.
  - exists (sdrop n target). by rewrite stake_sdrop.
  - exists "". by rewrite sapp_nil_r.
Qed.

Lemma target_path_no_query target : ¬ has_char "?" (target_path target).
Proof.
  unfold target_path. destruct (find_char "?" target) as [n|] eqn:Hn; simpl.
  - by apply find_char_Some in Hn as (_ & ? & _).
  - by apply find_char_None.
Qed.

End ParseTarget_correct.

(** ** Round trips *)

Section RoundTrip.

Lemma char_code_bound c : (0 ≤ char_code c < 256)%Z.
Proof. destruct c as [[] [] [] [] [] [] [] []]; vm_compute; split; congruence. Qed.

(** A property of all 256 characters, by evaluation. *)
Definition all_chars : list ascii := ascii_of_nat <$> seq 0 256.

Lemma all_chars_spec (P : ascii → bool) : forallb P all_chars = true → ∀ c, P c = true.
Proof.
  rewrite forallb_forall. intros H c. apply H.
  rewrite <-(ascii_nat_embedding c). apply in_map, in_seq.
  pose proof (nat_ascii_bounded c). lia.
Qed.

Definition pct_digits_ok (c : ascii) : bool :=
  let h := hex_digit (char_code c / 16) in
  let l := hex_digit (char_code c mod 16) in
  isxdigit h && isxdigit l
  && bool_decide (char_of_int (16 * hex_val h + hex_val l) = c).

Lemma pct_digits c : pct_digits_ok c = true.
Proof. apply all_chars_spec. vm_compute. reflexivity. Qed.

Lemma url_decode_pct_char c s : url_decode (pct_encode_char c +:+ s) = String c (url_decode s).
Proof.
  unfold pct_encode_char. rewrite !sapp_cons, sapp_nil_l, url_decode_step.
  rewrite decide_True by done.
  pose proof (pct_digits c) as H. apply andb_true_iff in H as [H1 H2%bool_decide_eq_true].
  by rewrite H1, H2.
Qed.

Lemma url_decode_pct_encode s : url_decode (pct_encode s) = s.
Proof.
  induction s as [|c s IH]; [done|]. cbn [pct_encode]. by rewrite url_decode_pct_char, IH.
Qed.

(** The encoder's output has hexadecimal digits and [%] only. *)
Lemma pct_encode_no_char d s :
  isxdigit d = false → d ≠ "%"%char → ¬ has_char d (pct_encode s).
Proof.
  intros Hd Hp. induction s as [|c s IH]; [simpl; tauto|].
  cbn [pct_encode]. unfold pct_encode_char. rewrite !sapp_cons, sapp_nil_l. simpl.
  pose proof (pct_digits c) as [[H1 H2]%andb_true_iff _]%andb_true_iff.
  intuition congruence.
Qed.

Lemma split_on_none c s : ¬ has_char c s → split_on c s = [s].
Proof. intros H. rewrite split_on_find. by apply find_char_None in H as ->. Qed.

Lemma split_on_app c s t :
  ¬ has_char c s → split_on c (s +:+ String c t) = s :: split_on c t.
Proof.
  intros H. rewrite split_on_find, find_char_app by done.
  rewrite stake_app_size. f_equal.
  by rewrite <-Nat.add_1_r, <-sdrop_sdrop, sdrop_app_size.
Qed.

Lemma split_on_intercalate c l :
  l ≠ [] → Forall (λ s, ¬ has_char c s) l → split_on c (intercalate c l) = l.
Proof.
  intros Hne Hl. induction Hl as [|s l Hs Hl IH]; [done|].
  destruct l as [|s' l]; [by apply split_on_none|].
  cbn [intercalate]. rewrite split_on_app by done. f_equal. by apply IH.
Qed.

Lemma encode_item_no_amp kv : ¬ has_char "&" (encode_item kv).
Proof.
  unfold encode_item. rewrite has_char_app. simpl.
  pose proof (pct_encode_no_char "&" kv.1). pose proof (pct_encode_no_char "&" kv.2).
  intuition congruence.
Qed.

Lemma parse_encode_item kv : parse_item (encode_item kv) = Some kv.
Proof.
  unfold parse_item, encode_item.
  rewrite find_char_app by (apply pct_encode_no_char; [done|congruence]).
  rewrite stake_app_size, <-Nat.add_1_r, <-sdrop_sdrop, sdrop_app_size.
  cbn [sdrop]. rewrite !url_decode_pct_encode.
  destruct kv as [k v]. by destruct k.
Qed.

Lemma parse_query_encode l :
  parse_query (intercalate "&" (encode_item <$> l)) = l.
Proof.
  destruct l as [|kv l]; [done|]. unfold parse_query.
  rewrite split_on_intercalate; [|done|].
  - generalize (kv :: l). intros l'. induction l' as [|x l' IH]; [done|].
    cbn. by rewrite parse_encode_item, IH.
  - apply Forall_fmap, Forall_true. intros x. apply encode_item_no_amp.
Qed.

End RoundTrip.

(** ** [UriMatches] *)

Section UriMatches_correct.

Lemma UriMatches_spec uri path :
  UriMatches uri path = true ↔
  uri ≠ "" ∧ ∃ rest, path = uri +:+ rest
                     ∧ (rest = "" ∨ sget rest 0 = "/"%char ∨ back uri = "/"%char).
Proof.
  unfold UriMatches. destruct (is_empty uri) eqn:He; cbn [orb].
  { apply is_empty_true in He. split; [done|]. intros [? _]. congruence. }
  assert (uri ≠ "") by (intros ->; done).
  destruct (compare_prefix path uri) eqn:Hp; cbn [negb].
  - apply compare_prefix_spec in Hp as [rest ->].
    rewrite !orb_true_iff, !bool_decide_eq_true, Nat.eqb_eq, size_app.
    rewrite <-(Nat.add_0_r (size_of uri)) at 3. rewrite sget_app_r. split.
    + intros Hor. split; [done|]. exists rest. split; [done|].
      destruct Hor as [[?| ?]|?]; auto. left. destruct rest; simpl in *; [done|lia].
    + intros (_ & rest' & Heq & Hor). apply (inj _) in Heq as <-.
      destruct Hor as [->|[?|?]]; simpl; auto with lia.
  - split; [done|]. intros (_ & rest & -> & _).
    assert (compare_prefix (uri +:+ rest) uri = true) by (apply compare_prefix_spec; eauto).
    congruence.
Qed.

Lemma UriMatches_prefix uri path :
  UriMatches uri path = true → ∃ rest, path = uri +:+ rest.
Proof. intros (_ & rest & -> & _)%UriMatches_spec. eauto. Qed.

Lemma UriMatches_nonempty uri path : UriMatches uri path = true → uri ≠ "".
Proof. by intros (? & _)%UriMatches_spec. Qed.

Lemma UriMatches_size uri path :
  UriMatches uri path = true → 0 < size_of uri ≤ size_of path.
Proof.
  intros (Hne & rest & -> & _)%UriMatches_spec. rewrite size_app.
  destruct uri; simpl in *; [done|lia].
Qed.

(** Two uris of one length that match the same path are the same uri. *)
Lemma UriMatches_same_size u1 u2 path :
  UriMatches u1 path = true → UriMatches u2 path = true →
  size_of u1 = size_of u2 → u1 = u2.
Proof.
  intros [r1 H1]%UriMatches_prefix [r2 H2]%UriMatches_prefix Hsz.
  rewrite <-(stake_app_size u1 r1), <-H1, Hsz, H2. apply stake_app_size.
Qed.

Lemma intercalate_split c s : intercalate c (split_on c s) = s.
Proof.
  induction s as [|d s IH]; [done|]. cbn [split_on].
  case_decide as Hd.
  - subst d. destruct (split_on c s) eqn:Hs; [by destruct s; simpl in Hs; repeat case_match|].
    cbn [intercalate] in *. by rewrite sapp_nil_l, IH.
  - destruct (split_on c s) as [|p ps] eqn:Hs;
      [by destruct s; simpl in Hs; repeat case_match|].
    destruct ps; cbn [intercalate] in *; by rewrite ?sapp_cons, IH.
Qed.

Lemma split_on_nonempty c s : split_on c s ≠ [].
Proof. rewrite split_on_find. by destruct (find_char c s). Qed.

Lemma split_on_app_sep c s t : split_on c (s +:+ String c t) = split_on c s ++ split_on c t.
Proof.
  induction s as [|d s IH].
  - rewrite sapp_nil_l. cbn [split_on]. by rewrite decide_True.
  - rewrite sapp_cons. cbn [split_on]. rewrite IH. case_decide; [done|].
    pose proof (split_on_nonempty c s). by destruct (split_on c s).
Qed.

Lemma intercalate_app c l1 l2 :
  l1 ≠ [] → l2 ≠ [] →
  intercalate c (l1 ++ l2) = intercalate c l1 +:+ String c (intercalate c l2).
Proof.
  intros H1 H2. induction l1 as [|s l1 IH]; [done|].
  destruct l1 as [|s' l1].
  - cbn [app intercalate]. by destruct l2.
  - change ((s :: s' :: l1) ++ l2) with (s :: (s' :: l1) ++ l2).
    assert (Hne : (s' :: l1) ++ l2 ≠ []) by done.
    assert (Hstep : ∀ l, l ≠ [] → intercalate c (s :: l) = s +:+ String c (intercalate c l))
      by (intros []; done).
    rewrite (Hstep _ Hne), IH, (Hstep (s' :: l1)) by done. by rewrite sapp_assoc, sapp_cons.
Qed.

Lemma split_on_prefix c s t :
  split_on c s `prefix_of` split_on c t ↔ t = s ∨ ∃ r, t = s +:+ String c r.
Proof.
  split.
  - intros [l Hl]. rewrite <-(intercalate_split c s), <-(intercalate_split c t), Hl.
    destruct l as [|p l]; [left; by rewrite app_nil_r|]. right.
    rewrite intercalate_app by (done || apply split_on_nonempty). eauto.
  - intros [->|[r ->]]; [done|]. rewrite split_on_app_sep. by apply prefix_app_r.
Qed.

(** Matching by path segments, for a uri without a trailing slash. *)
Lemma UriMatches_segments uri path :
  uri ≠ "" → back uri ≠ "/"%char →
  UriMatches uri path = true ↔ split_on "/" uri `prefix_of` split_on "/" path.
Proof.
  intros Hne Hback. rewrite UriMatches_spec, split_on_prefix. split.
  - intros (_ & rest & -> & [->|[Hr|?]]); [left; apply sapp_nil_r| |done].
    right. destruct rest as [|c r]; [done|]. unfold sget in Hr. simpl in Hr. subst. eauto.
  - intros [->|[r ->]]; split; try done.
    + exists "". rewrite sapp_nil_r. auto.
    + exists (String "/" r). auto.
Qed.

End UriMatches_correct.

(** ** The longest matching uri *)

(** [for (u : uris) if (UriMatches(u, path) && u.size() > best.size()) best = u;] *)
Fixpoint longest_match (uris : list string) (path best : string) : string :=
  match uris with
  | [] => best
  | u :: uris' =>
      longest_match uris' path
        (if UriMatches u path && Nat.ltb (size_of best) (size_of u) then u else best)
  end.

Section Longest.

(** The result is the best so far, or a match longer than it; nothing beats it. *)
Lemma longest_match_spec uris path best :
  (longest_match uris path best = best
   ∨ (longest_match uris path best ∈ uris
      ∧ UriMatches (longest_match uris path best) path = true))
  ∧ size_of best ≤ size_of (longest_match uris path best)
  ∧ ∀ u, u ∈ uris → UriMatches u path = true →
         size_of u ≤ size_of (longest_match uris path best).
Proof.
  revert best. induction uris as [|u uris IH]; intros best; simpl.
  { split_and!; [by left|done|]. intros u Hu. by apply not_elem_of_nil in Hu. }
  destruct (UriMatches u path) eqn:Hu; cbn [andb].
  2: { destruct (IH best) as (H1 & H2 & H3). split_and!; [|done|].
       - destruct H1 as [?|[? ?]]; [by left|right]. split; [by right|done].
       - intros v [->|Hv]%elem_of_cons ?; [congruence|auto]. }
  destruct (Nat.ltb_spec (size_of best) (size_of u)) as [Hlt|Hge].
  - destruct (IH u) as (H1 & H2 & H3). split_and!; [|lia|].
    + right. destruct H1 as [->|[? ?]]; [split; [by left|done]|split; [by right|done]].
    + intros v [->|Hv]%elem_of_cons ?; auto.
  - destruct (IH best) as (H1 & H2 & H3). split_and!; [|done|].
    + destruct H1 as [?|[? ?]]; [by left|right]. split; [by right|done].
    + intros v [->|Hv]%elem_of_cons ?; [lia|auto].
Qed.

Lemma longest_match_empty uris path :
  longest_match uris path "" = "" ↔ ∀ u, u ∈ uris → UriMatches u path = false.
Proof.
  destruct (longest_match_spec uris path "") as (H1 & _ & H3). split.
  - intros Heq u Hu. destruct (UriMatches u path) eqn:Hm; [|done].
    specialize (H3 u Hu Hm). apply UriMatches_size in Hm. rewrite Heq in H3. simpl in H3. lia.
  - intros Hnone. destruct H1 as [?|[Hin Hm]]; [done|]. by rewrite Hnone in Hm.
Qed.

Lemma longest_match_elem uris path :
  longest_match uris path "" ≠ "" →
  longest_match uris path "" ∈ uris ∧ UriMatches (longest_match uris path "") path = true.
Proof. destruct (longest_match_spec uris path "") as ([?|?] & _ & _); tauto. Qed.

(** The order of the iteration does not matter. *)
Lemma longest_match_order uris1 uris2 path :
  (∀ u, u ∈ uris1 ↔ u ∈ uris2) →
  longest_match uris1 path "" = longest_match uris2 path "".
Proof.
  intros Hperm.
  destruct (decide (longest_match uris1 path "" = "")) as [He|Hne].
  - rewrite He. symmetry. apply longest_match_empty. intros u Hu.
    apply (proj1 (longest_match_empty uris1 path) He). by apply Hperm.
  - destruct (decide (longest_match uris2 path "" = "")) as [He2|Hne2].
    { destruct Hne. apply longest_match_empty. intros u Hu.
      apply (proj1 (longest_match_empty uris2 path) He2). by apply Hperm. }
    destruct (longest_match_elem _ _ Hne) as [Hin1 Hm1].
    destruct (longest_match_elem _ _ Hne2) as [Hin2 Hm2].
    apply (UriMatches_same_size _ _ path); [done..|].
    pose proof (longest_match_spec uris1 path "") as (_ & _ & M1).
    pose proof (longest_match_spec uris2 path "") as (_ & _ & M2).
    apply Nat.le_antisymm; [apply M2|apply M1]; try done; by apply Hperm.
Qed.

End Longest.

(** ** Properties *)

(** C34. [UrlDecode] never throws and computes the percent-decoding of its input:
    decoding undoes the percent-encoding of every byte string, and the result is
    never longer than the input (the capacity the function reserves). *)
Theorem UrlDecode_total_roundtrip (s : string) :
  UrlDecode s = Ok (url_decode s)
  ∧ size_of (url_decode s) ≤ size_of s
  ∧ UrlDecode (pct_encode s) = Ok s.
Proof.
  rewrite !UrlDecode_correct, url_decode_pct_encode. auto using url_decode_size.
Qed.

(** C35. [ParseTarget] never throws, splits at the first [?], and stores the decoded
    items of the query in order, the last value of a name winning. *)
Theorem ParseTarget_functional (target : string) (m : HttpQueryParameters) :
  ParseTarget target m =
    Ok (target_path target,
        match find_char "?" target with
        | None => m
        | Some n => add_items m (parse_query (sdrop (S n) target))
        end)
  ∧ ¬ has_char "?" (target_path target)
  ∧ ∃ rest, target = target_path target +:+ rest.
Proof.
  split_and!; [|apply target_path_no_query|apply target_path_prefix].
  rewrite ParseTarget_correct. unfold target_path. by destruct (find_char "?" target).
Qed.

(** Round trip: the target built from a path and a list of names and values is
    parsed back into them. *)
Theorem ParseTarget_roundtrip (path : string) (items : list (string * string)) :
  ¬ has_char "?" path →
  ParseTarget (path +:+ String "?" (intercalate "&" (encode_item <$> items))) ∅
    = Ok (path, add_items ∅ items).
Proof.
  intros Hp. rewrite ParseTarget_correct, find_char_app by done.
  rewrite stake_app_size, <-Nat.add_1_r, <-sdrop_sdrop, sdrop_app_size.
  cbn [sdrop]. by rewrite parse_query_encode.
Qed.

(** C36. [UriMatches] is matching by path segments: a uri without a trailing slash
    matches the paths whose segments extend its own, one with a trailing slash
    every path that starts with it, the empty uri nothing. *)
Theorem UriMatches_by_segments (uri path : string) :
  UriMatches uri path = true ↔
  uri ≠ "" ∧ if decide (back uri = "/"%char) then ∃ rest, path = uri +:+ rest
             else split_on "/" uri `prefix_of` split_on "/" path.
Proof.
  case_decide as Hb.
  - rewrite UriMatches_spec. naive_solver.
  - destruct (decide (uri = "")) as [->|Hne]; [split; [done|by intros []]|].
    rewrite UriMatches_segments by done. tauto.
Qed.

Lemma ParseTarget_roundtrip_witness :
  ¬ has_char "?" "/a b"
  ∧ ParseTarget ("/a b" +:+ String "?" (intercalate "&"
      (encode_item <$> [("k", "1&2"); ("", "="); ("k", "v%")]))) ∅
    = Ok ("/a b", add_items ∅ [("k", "1&2"); ("", "="); ("k", "v%")]).
Proof.
  split; [intros H; vm_compute in H; intuition congruence|].
  apply ParseTarget_roundtrip. intros H. vm_compute in H. intuition congruence.
Defined.
