(* ===== verification/WorkQueue.v ===== *)
(** * [CWorkQueue]: the single-threaded callback queue (CWorkQueue.h)

    [Post], [Stop] and the worker's [Run] are split at the mutex: each
    definition below is one critical section of the source, and the step relation
    [wq_step] interleaves the critical sections, [notify_one], the wait on the
    condition variable, the call of the posted function and the join.  Posting
    threads are anonymous: [wq_notifies] counts those between the end of the
    critical section of [Post] and their [notify_one].

    Nothing bounds a run; no fuel is used. *)

From S2P Require Import Prelude.

Section WorkQueue.
Context {Fn : Type}.

(** ** The object *)

(** [mThread]: default-constructed, joinable, or joined/detached. *)
Inductive thread_handle := NoThread | Joinable | Released.

Record CWorkQueue := mkWorkQueue {
  mQueue : list Fn;
  mStopped : bool;
  mThread : thread_handle
}.

Definition new_queue : CWorkQueue := mkWorkQueue [] false NoThread.

(** The locked part of [Post]: whether the function was queued (and the caller
    goes on to [notify_one]), and the queue. *)
Definition Post_locked (fn : Fn) (q : CWorkQueue) : bool * CWorkQueue :=
  if mStopped q then (false, q)
  else (true, mkWorkQueue (mQueue q ++ [fn]) (mStopped q) (mThread q)).

Definition Post (fn : Fn) (q : CWorkQueue) : CWorkQueue := (Post_locked fn q).2.

(** The locked part of [Stop]: whether this call is the one that goes on to join. *)
Definition Stop_locked (q : CWorkQueue) : bool * CWorkQueue :=
  if mStopped q then (false, q) else (true, mkWorkQueue [] true (mThread q)).

(** What [Run] finds each time it holds the mutex: it returns, waits on the
    condition variable, or takes the front of the queue. *)
Inductive run_outcome := RunReturn | RunWait | RunTake (fn : Fn) (q : CWorkQueue).

Definition Run_locked (q : CWorkQueue) : run_outcome :=
  if mStopped q then RunReturn
  else match mQueue q with
       | [] => RunWait
       | fn :: rest => RunTake fn (mkWorkQueue rest (mStopped q) (mThread q))
       end.

(** After the notification, [Stop] detaches the worker when it is the worker
    itself, joins it otherwise, and does neither when no thread was started. *)
Inductive stop_release := StopDetach | StopJoin | StopNothing.

Definition Stop_release (self : bool) (q : CWorkQueue) : stop_release :=
  match mThread q with
  | Joinable => if self then StopDetach else StopJoin
  | NoThread | Released => StopNothing
  end.

Definition release_thread (q : CWorkQueue) : CWorkQueue :=
  mkWorkQueue (mQueue q) (mStopped q) Released.

Definition Start (q : CWorkQueue) : CWorkQueue :=
  mkWorkQueue (mQueue q) (mStopped q) Joinable.

(** ** The threads *)

Inductive worker_pc :=
  | WNone                (** no thread yet *)
  | WLock                (** about to evaluate the wait predicate *)
  | WWait                (** blocked in [mCondition.wait] *)
  | WRun (fn : Fn)       (** inside [fn()] *)
  | WExit.               (** [Run] returned *)

(** The caller of [Stop] that found [mStopped] false. *)
Inductive stop_pc :=
  | SNone
  | SNotify (self : bool)  (** before [notify_one]; [self]: on the worker thread *)
  | SJoin                  (** in [mThread.join()] *)
  | SDone (self : bool).   (** [Stop] returned *)

(** What callers and the worker see: calls of [Post] and [Stop], whatever the queue makes of
    them, and the functions the worker begins to call. *)
Inductive wq_event :=
  | EvPost (fn : Fn)
  | EvCall (fn : Fn)
  | EvStop (self : bool).

Record wq_state := mkWq {
  wq : CWorkQueue;
  wq_worker : worker_pc;
  wq_notifies : nat;
  wq_stop : stop_pc;
  wq_history : list wq_event   (** oldest first *)
}.

Definition wq_init : wq_state := mkWq new_queue WNone 0 SNone [].

(** The functions posted before the first call of [Stop], and those called. *)
Fixpoint wq_posted (h : list wq_event) : list Fn :=
  match h with
  | [] | EvStop _ :: _ => []
  | EvPost fn :: h' => fn :: wq_posted h'
  | EvCall _ :: h' => wq_posted h'
  end.

Definition wq_called (h : list wq_event) : list Fn :=
  omap (λ e, match e with EvCall fn => Some fn | _ => None end) h.

Definition wq_has_stop (h : list wq_event) : bool :=
  existsb (λ e, match e with EvStop _ => true | _ => false end) h.

Definition wake (w : worker_pc) : worker_pc :=
  match w with WWait => WLock | _ => w end.

Inductive wq_label :=
  | LStart | LPost (fn : Fn) | LNotify | LSpurious | LWorker | LReturn
  | LStop (self : bool) | LStopNotify | LJoined.

(** Steps taken by the worker or by threads already inside the queue, as opposed
    to new calls. *)
Definition internal (l : wq_label) : bool :=
  match l with
  | LNotify | LWorker | LReturn | LStopNotify | LJoined => true
  | _ => false
  end.

Inductive wq_step : wq_label → wq_state → wq_state → Prop :=
  | step_start q n s h :
      mThread q = NoThread →
      wq_step LStart (mkWq q WNone n s h) (mkWq (Start q) WLock n s h)
  | step_post fn q q' (pushed : bool) w n s h :
      Post_locked fn q = (pushed, q') →
      wq_step (LPost fn) (mkWq q w n s h)
        (mkWq q' w (if pushed then S n else n) s (h ++ [EvPost fn]))
  | step_notify q w n s h :
      wq_step LNotify (mkWq q w (S n) s h) (mkWq q (wake w) n s h)
  | step_spurious q n s h :
      wq_step LSpurious (mkWq q WWait n s h) (mkWq q WLock n s h)
  | step_take q q' fn n s h :
      Run_locked q = RunTake fn q' →
      wq_step LWorker (mkWq q WLock n s h) (mkWq q' (WRun fn) n s (h ++ [EvCall fn]))
  | step_wait q n s h :
      Run_locked q = RunWait →
      wq_step LWorker (mkWq q WLock n s h) (mkWq q WWait n s h)
  | step_exit q n s h :
      Run_locked q = RunReturn →
      wq_step LWorker (mkWq q WLock n s h) (mkWq q WExit n s h)
  | step_return q fn n s h :
      wq_step LReturn (mkWq q (WRun fn) n s h) (mkWq q WLock n s h)
  | step_stop q q' (self : bool) w n h :
      Stop_locked q = (true, q') →
      (self = true → ∃ fn, w = WRun fn) →
      wq_step (LStop self) (mkWq q w n SNone h) (mkWq q' w n (SNotify self) (h ++ [EvStop self]))
  | step_stop_again q (self : bool) w n s h :
      Stop_locked q = (false, q) →
      wq_step (LStop self) (mkWq q w n s h) (mkWq q w n s (h ++ [EvStop self]))
  | step_stop_detach q (self : bool) w n h :
      Stop_release self q = StopDetach →
      wq_step LStopNotify (mkWq q w n (SNotify self) h)
        (mkWq (release_thread q) (wake w) n (SDone self) h)
  | step_stop_join q (self : bool) w n h :
      Stop_release self q = StopJoin →
      wq_step LStopNotify (mkWq q w n (SNotify self) h) (mkWq q (wake w) n SJoin h)
  | step_stop_nothing q (self : bool) w n h :
      Stop_release self q = StopNothing →
      wq_step LStopNotify (mkWq q w n (SNotify self) h)
        (mkWq q (wake w) n (SDone self) h)
  | step_joined q n h :
      wq_step LJoined (mkWq q WExit n SJoin h)
        (mkWq (release_thread q) WExit n (SDone false) h).

Definition wq_any (s s' : wq_state) : Prop := ∃ l, wq_step l s s'.
Definition wq_internal (s s' : wq_state) : Prop := ∃ l, internal l = true ∧ wq_step l s s'.

Definition wq_reachable (s : wq_state) : Prop := star wq_any wq_init s.

(** The steps as a function, to evaluate runs. *)
Definition wq_exec (l : wq_label) (s : wq_state) : option wq_state :=
  let '(mkWq q w n st h) := s in
  match l, w, st with
  | LStart, WNone, _ =>
      match mThread q with
      | NoThread => Some (mkWq (Start q) WLock n st h)
      | _ => None
      end
  | LPost fn, _, _ =>
      let '(pushed, q') := Post_locked fn q in
      Some (mkWq q' w (if pushed then S n else n) st (h ++ [EvPost fn]))
  | LNotify, _, _ =>
      match n with S n' => Some (mkWq q (wake w) n' st h) | O => None end
  | LSpurious, WWait, _ => Some (mkWq q WLock n st h)
  | LWorker, WLock, _ =>
      Some (match Run_locked q with
            | RunTake fn q' => mkWq q' (WRun fn) n st (h ++ [EvCall fn])
            | RunWait => mkWq q WWait n st h
            | RunReturn => mkWq q WExit n st h
            end)
  | LReturn, WRun _, _ => Some (mkWq q WLock n st h)
  | LStop self, _, _ =>
      match Stop_locked q, st, self, w with
      | (true, q'), SNone, false, _ | (true, q'), SNone, true, WRun _ =>
          Some (mkWq q' w n (SNotify self) (h ++ [EvStop self]))
      | (true, _), _, _, _ => None
      | (false, _), _, _, _ => Some (mkWq q w n st (h ++ [EvStop self]))
      end
  | LStopNotify, _, SNotify self =>
      Some (match Stop_release self q with
            | StopDetach => mkWq (release_thread q) (wake w) n (SDone self) h
            | StopJoin => mkWq q (wake w) n SJoin h
            | StopNothing => mkWq q (wake w) n (SDone self) h
            end)
  | LJoined, WExit, SJoin => Some (mkWq (release_thread q) WExit n (SDone false) h)
  | _, _, _ => None
  end.

Lemma wq_exec_sound l s s' : wq_exec l s = Some s' → wq_step l s s'.
Proof.
  destruct s as [q w n st h]. destruct l as [|fn| | | | |self| |]; simpl; intros H.
  2: { destruct (Post_locked fn q) as [p q'] eqn:E. simplify_eq. by apply step_post. }
  6: { destruct (Stop_locked q) as [[] q'] eqn:E.
       - destruct st, self, w; simplify_eq/=; constructor; (done || (intros _; by eexists)).
       - assert (q' = q) as -> by (unfold Stop_locked in E; destruct (mStopped q); congruence).
         destruct st, self, w; simplify_eq/=; by constructor. }
  all: destruct w, st; repeat case_match; simplify_eq/=; econstructor; eauto; done.
Qed.

Fixpoint wq_run (ls : list wq_label) (s : wq_state) : option wq_state :=
  match ls with
  | [] => Some s
  | l :: ls' => s' ← wq_exec l s; wq_run ls' s'
  end.

Lemma wq_run_sound ls s s' : wq_run ls s = Some s' → star wq_any s s'.
Proof.
  revert s. induction ls as [|l ls IH]; simpl; intros s Hr; [simplify_eq; constructor|].
  destruct (wq_exec l s) as [s1|] eqn:He; simpl in Hr; [|done].
  eapply star_step; [exists l; by apply wq_exec_sound|auto].
Qed.

(** ** Invariant *)

Lemma wq_called_app h h' : wq_called (h ++ h') = wq_called h ++ wq_called h'.
Proof. apply omap_app. Qed.

Lemma wq_has_stop_app h h' : wq_has_stop (h ++ h') = wq_has_stop h || wq_has_stop h'.
Proof. apply existsb_app. Qed.

(** What comes after the first [Stop] does not count as posted. *)
Lemma wq_posted_app h h' :
  wq_posted (h ++ h') = wq_posted h ++ (if wq_has_stop h then [] else wq_posted h').
Proof. induction h as [|[fn|fn|self] h IH]; cbn; [done|by rewrite IH|done|done]. Qed.

Record wq_inv (s : wq_state) : Prop := {
  inv_fifo : mStopped (wq s) = false →
    wq_posted (wq_history s) = wq_called (wq_history s) ++ mQueue (wq s);
  inv_prefix : wq_called (wq_history s) `prefix_of` wq_posted (wq_history s);
  inv_closed : mStopped (wq s) = wq_has_stop (wq_history s);
  inv_cleared : mStopped (wq s) = true → mQueue (wq s) = [];
  inv_wakeup :
    wq_worker s = WWait → mStopped (wq s) = true ∨ mQueue (wq s) ≠ [] →
    0 < wq_notifies s ∨ ∃ self, wq_stop s = SNotify self;
  inv_stop : wq_stop s = SNone ↔ mStopped (wq s) = false;
  inv_thread : mThread (wq s) = NoThread ↔ wq_worker s = WNone;
  inv_released : mThread (wq s) = Released → ∃ self, wq_stop s = SDone self;
  inv_done : wq_stop s = SDone false → ∀ fn, wq_worker s ≠ WRun fn;
  inv_joining : wq_stop s = SJoin → wq_worker s ≠ WNone;
  inv_exit : wq_worker s = WExit → mStopped (wq s) = true
}.

Lemma wq_inv_init : wq_inv wq_init.
Proof. split; simpl; try done; try naive_solver. Qed.

Lemma Post_locked_spec fn q pushed q' :
  Post_locked fn q = (pushed, q') →
  (mStopped q = true ∧ pushed = false ∧ q' = q)
  ∨ (mStopped q = false ∧ pushed = true ∧ mQueue q' = mQueue q ++ [fn]
     ∧ mStopped q' = false ∧ mThread q' = mThread q).
Proof. unfold Post_locked. destruct (mStopped q) eqn:E; intros; simplify_eq/=; auto 10. Qed.

Lemma Stop_locked_spec q first q' :
  Stop_locked q = (first, q') →
  (mStopped q = true ∧ first = false ∧ q' = q)
  ∨ (mStopped q = false ∧ first = true ∧ mQueue q' = [] ∧ mStopped q' = true
     ∧ mThread q' = mThread q).
Proof. unfold Stop_locked. destruct (mStopped q) eqn:E; intros; simplify_eq/=; auto 10. Qed.

Lemma Run_locked_take q fn q' :
  Run_locked q = RunTake fn q' →
  mStopped q = false ∧ mQueue q = fn :: mQueue q' ∧ mStopped q' = false
  ∧ mThread q' = mThread q.
Proof.
  unfold Run_locked. destruct (mStopped q) eqn:E; [done|].
  destruct (mQueue q); intros; simplify_eq/=; auto.
Qed.

Lemma Run_locked_wait q : Run_locked q = RunWait → mStopped q = false ∧ mQueue q = [].
Proof. unfold Run_locked. destruct (mStopped q), (mQueue q); naive_solver. Qed.

Lemma Run_locked_return q : Run_locked q = RunReturn → mStopped q = true.
Proof. unfold Run_locked. destruct (mStopped q), (mQueue q); naive_solver. Qed.

Lemma Stop_release_spec self q r :
  Stop_release self q = r →
  match r with
  | StopDetach => mThread q = Joinable ∧ self = true
  | StopJoin => mThread q = Joinable ∧ self = false
  | StopNothing => mThread q ≠ Joinable
  end.
Proof. unfold Stop_release. destruct (mThread q), self; intros <-; auto. Qed.

Ltac wq_facts :=
  repeat match goal with
  | H : Post_locked _ _ = _ |- _ =>
      apply Post_locked_spec in H as [(? & -> & ->)|(? & -> & ? & ? & ?)]
  | H : Stop_locked _ = _ |- _ =>
      apply Stop_locked_spec in H as [(? & ? & ?)|(? & ? & ? & ? & ?)]; simplify_eq
  | H : Run_locked _ = RunTake _ _ |- _ => apply Run_locked_take in H as (? & ? & ? & ?)
  | H : Run_locked _ = RunWait |- _ => apply Run_locked_wait in H as [? ?]
  | H : Run_locked _ = RunReturn |- _ => apply Run_locked_return in H
  | H : Stop_release _ _ = _ |- _ => apply Stop_release_spec in H as ?; clear H; destruct_and?
  end.

Lemma wake_none w : wake w = WNone ↔ w = WNone.
Proof. by destruct w. Qed.

Lemma wake_run w fn : wake w = WRun fn → w = WRun fn.
Proof. by destruct w. Qed.

Lemma wake_exit w : wake w = WExit → w = WExit.
Proof. by destruct w. Qed.

Lemma wake_wait w : wake w ≠ WWait.
Proof. by destruct w. Qed.

(** The obligations of a step that concern only the threads. *)
Ltac wq_control :=
  match goal with
  | |- wake _ = WWait → _ => intros []%wake_wait
  | |- wake _ = WExit → _ => intros ?%wake_exit; auto
  | |- _ ↔ wake _ = WNone => rewrite wake_none; tauto || (split; intros; exfalso; intuition congruence)
  | |- _ = SJoin → wake _ ≠ WNone => rewrite wake_none; intuition congruence
  | |- _ = Released → ∃ self, SDone _ = SDone self => by eexists
  | H : _ = Released → ∃ self, _ = SDone self
    |- _ = Released → ∃ self, _ = SDone self =>
      intros; destruct H as [? ?]; [congruence|simplify_eq; by eexists]
  | |- _ = WWait → _ → 0 < S _ ∨ _ => intros; left; lia
  | |- _ = WWait → _ → _ ∨ ∃ self, SNotify _ = SNotify self => intros; right; by eexists
  end.

Lemma wq_inv_step l s s' : wq_inv s → wq_step l s s' → wq_inv s'.
Proof.
  intros [F P B C W S T R D J E] Hstep.
  destruct Hstep; simpl in *; wq_facts; split; simpl in *;
    rewrite ?wq_called_app, ?wq_posted_app, ?wq_has_stop_app, ?orb_false_r, ?orb_true_r, ?app_nil_r;
    simpl; rewrite <-?B, ?H, ?app_nil_r; try done.
  all: try (intros; congruence).
  all: try (intros; destruct_and?; subst; intuition congruence).
  all: try wq_control.
  - (* Post queues *) intros _. rewrite F by done. rewrite H0. by rewrite app_assoc.
  - by apply prefix_app_r.
  - intros Hs fn Hw%wake_run. by apply (D Hs fn).
  - (* the front is taken *) intros _. rewrite F by done. rewrite H0. by rewrite <-app_assoc.
  - rewrite F by done. rewrite H0. exists (mQueue q'). by rewrite <-app_assoc.
  - rewrite H2, T. split; congruence.
  - (* no thread was started *)
    intros _ fn Hw%wake_run. destruct (mThread q) eqn:Ht.
    + destruct T as [T _]. rewrite T in Hw; congruence.
    + by destruct H0.
    + destruct R as [? ?]; congruence.
Qed.

Lemma wq_reachable_inv s : wq_reachable s → wq_inv s.
Proof.
  apply (star_invariant wq_inv); [|apply wq_inv_init].
  intros x y Hx [l Hl]. by eapply wq_inv_step.
Qed.

(** ** Progress and termination *)

(** Bounds the number of internal steps from a state: four for each queued
    function, two for each pending notification. *)
Definition wq_measure (s : wq_state) : nat :=
  4 * length (mQueue (wq s)) + 2 * wq_notifies s
  + match wq_worker s with WRun _ => 2 | WLock => 1 | _ => 0 end
  + match wq_stop s with SNotify _ => 4 | SJoin => 1 | _ => 0 end.

Lemma wq_measure_decreases l s s' :
  internal l = true → wq_step l s s' → wq_measure s' < wq_measure s.
Proof.
  intros Hl Hstep. destruct Hstep; try done; wq_facts; unfold wq_measure; simpl;
    try (destruct w; simpl; lia); try lia.
  match goal with H : mQueue q = _ |- _ => rewrite H; simpl; lia end.
Qed.

(** Nothing is enabled but new calls and spurious wake-ups. *)
Definition quiescent (s : wq_state) : Prop := ∀ s', ¬ wq_internal s s'.

Ltac quiet Hq l :=
  exfalso; eapply Hq; exists l; split; [reflexivity|]; econstructor; (reflexivity || eassumption).

Lemma quiescent_no_notify s : quiescent s → wq_notifies s = 0 ∧ ∀ self, wq_stop s ≠ SNotify self.
Proof.
  intros Hq. destruct s as [q w n st h]; simpl. split.
  - destruct n; [done|]. quiet Hq LNotify.
  - intros self ->. destruct (Stop_release self q) eqn:Hr.
    + quiet Hq LStopNotify.
    + eapply Hq. exists LStopNotify. split; [done|]. by eapply step_stop_join.
    + eapply Hq. exists LStopNotify. split; [done|]. by eapply step_stop_nothing.
Qed.

Lemma quiescent_worker s :
  wq_inv s → quiescent s →
  wq_worker s = WNone ∨ wq_worker s = WExit
  ∨ (wq_worker s = WWait ∧ mStopped (wq s) = false ∧ mQueue (wq s) = []).
Proof.
  intros [_ _ _ _ W _ _ _ _ _ _] Hq. destruct (quiescent_no_notify s Hq) as [Hn Hs].
  destruct s as [q w n st h]; simpl in *. destruct w; auto.
  - destruct (Run_locked q) as [| |fn q'] eqn:Hr; exfalso; eapply Hq; exists LWorker;
      (split; [done|]); [by apply step_exit|by apply step_wait|by apply step_take].
  - right; right. split; [done|].
    destruct (mStopped q) eqn:Hst.
    + destruct W as [?|[self ?]]; auto; [lia|by destruct (Hs self)].
    + split; [done|]. destruct (mQueue q) eqn:Hmq; [done|].
      destruct W as [?|[self ?]]; auto; [lia|by destruct (Hs self)].
  - quiet Hq LReturn.
Qed.

(** After [mStopped] is set no function is called any more. *)
Lemma stopped_step l s s' :
  mStopped (wq s) = true → wq_step l s s' →
  mStopped (wq s') = true ∧ wq_called (wq_history s') = wq_called (wq_history s)
  ∧ (wq_stop s = SDone false → wq_stop s' = SDone false).
Proof.
  intros Hs Hstep. destruct Hstep; simpl in *; wq_facts; rewrite ?wq_called_app, ?app_nil_r;
    split_and?; intros; congruence.
Qed.

Lemma stopped_run s s' :
  star wq_any s s' → mStopped (wq s) = true →
  mStopped (wq s') = true ∧ wq_called (wq_history s') = wq_called (wq_history s)
  ∧ (wq_stop s = SDone false → wq_stop s' = SDone false).
Proof.
  intros Hrun. induction Hrun as [|x y z [l Hl] _ IH]; intros Hs; [auto|].
  destruct (stopped_step l x y Hs Hl) as (H1 & H2 & H3).
  destruct (IH H1) as (H4 & H5 & H6). split_and!; [done|congruence|auto].
Qed.

(** ** The abstract queue *)

(** What a [CWorkQueue] promises to those who see only calls: whatever is posted while it is
    open is pending, what is called is what has been pending longest, and closing it
    discards what is pending and ends the calls. *)
Record chan := mkChan { pending : list Fn; closed : bool }.

Inductive chan_step : wq_event → chan → chan → Prop :=
  | chan_post fn p : chan_step (EvPost fn) (mkChan p false) (mkChan (p ++ [fn]) false)
  | chan_call fn p : chan_step (EvCall fn) (mkChan (fn :: p) false) (mkChan p false)
  | chan_close self p : chan_step (EvStop self) (mkChan p false) (mkChan [] true)
  | chan_post_closed fn : chan_step (EvPost fn) (mkChan [] true) (mkChan [] true)
  | chan_close_again self : chan_step (EvStop self) (mkChan [] true) (mkChan [] true).

(** The channel goes through a history. *)
Inductive chan_runs : list wq_event → chan → chan → Prop :=
  | chan_nil c : chan_runs [] c c
  | chan_snoc h e c c1 c2 : chan_runs h c c1 → chan_step e c1 c2 → chan_runs (h ++ [e]) c c2.

Definition wq_abs (s : wq_state) : chan := mkChan (mQueue (wq s)) (mStopped (wq s)).

(** A step of the implementation is one of the channel with the same event, or has no event
    and leaves the channel alone. *)
Lemma wq_simulates l s s' :
  wq_inv s → wq_step l s s' →
  (wq_history s' = wq_history s ∧ wq_abs s' = wq_abs s)
  ∨ ∃ e, wq_history s' = wq_history s ++ [e] ∧ chan_step e (wq_abs s) (wq_abs s').
Proof.
  intros [_ _ _ C _ _ _ _ _ _ _] Hstep. unfold wq_abs.
  destruct Hstep; simpl in *; wq_facts; auto; right; eexists; (split; [reflexivity|]).
  - rewrite H, (C H). constructor.
  - rewrite H, H0, H1. constructor.
  - rewrite H0, H, H1. constructor.
  - rewrite H, H2, H3. constructor.
  - rewrite H, (C H). constructor.
Qed.

End WorkQueue.

Arguments CWorkQueue : clear implicits.
Arguments wq_state : clear implicits.
Arguments chan : clear implicits.
Arguments wq_event : clear implicits.

(** ** Properties *)

(** C22. Functions are called in the order they were posted, each at most once, and only if
    they were posted before the first call of [Stop]; before that none is lost: what was
    posted is what was called followed by what is queued. *)
Theorem workqueue_fifo {Fn} (s : wq_state Fn) :
  wq_reachable s →
  let h := wq_history s in
  wq_called h `prefix_of` wq_posted h
  ∧ (wq_has_stop h = false → wq_posted h = wq_called h ++ mQueue (wq s)).
Proof. intros [F P B _ _ _ _ _ _ _ _]%wq_reachable_inv. cbn. rewrite <-B. auto. Qed.

(** C37. The interleaved implementation refines the abstract queue: the history of every run,
    all calls of [Post] and [Stop] and all functions called, in order, is one of the
    channel, which it leaves with the functions that are queued. *)
Theorem workqueue_refines {Fn} (s : wq_state Fn) :
  wq_reachable s → chan_runs (wq_history s) (mkChan [] false) (wq_abs s).
Proof.
  intros Hs. apply (star_invariant (λ s, wq_inv s ∧ chan_runs (wq_history s) (mkChan [] false) (wq_abs s))
                      _ _) in Hs; [by destruct Hs| |split; [apply wq_inv_init|constructor]].
  intros x y [Hx Hr] [l Hl]. split; [by eapply wq_inv_step|].
  destruct (wq_simulates l x y Hx Hl) as [[-> ->]|(e & -> & He)]; [done|by econstructor].
Qed.

(** C29. When the call of [Stop] that stopped the queue has returned, no posted function is
    called any more, whatever runs next; and when that call was not made by a posted
    function itself, none is running either. *)
Theorem workqueue_stop_barrier {Fn} (s s' : wq_state Fn) (self : bool) :
  wq_reachable s → wq_stop s = SDone self → star wq_any s s' →
  wq_called (wq_history s') = wq_called (wq_history s)
  ∧ (self = false → ∀ fn, wq_worker s' ≠ WRun fn).
Proof.
  intros Hs Hdone Hrun.
  assert (Hstopped : mStopped (wq s) = true).
  { pose proof (inv_stop s (wq_reachable_inv s Hs)) as S.
    destruct (mStopped (wq s)); [done|]. destruct S as [_ S]. rewrite S in Hdone; done. }
  destruct (stopped_run s s' Hrun Hstopped) as (_ & Hstart & Hstop). split; [done|].
  intros ->. apply (inv_done s'); [|auto]. apply wq_reachable_inv. by eapply star_trans.
Qed.

(** A later call of [Stop] is no such barrier: on another thread it returns at once, while
    the function that was running when the queue was stopped still runs. *)
Lemma second_stop_returns_at_once :
  ∃ s s' : wq_state nat, wq_reachable s ∧ wq_step (LStop false) s s'
    ∧ wq_stop s = SJoin ∧ wq_stop s' = SJoin ∧ wq_worker s' = WRun 1.
Proof.
  destruct (wq_run [LStart; LPost 1; LNotify; LWorker; LStop false; LStopNotify] (wq_init (Fn:=nat)))
    as [s|] eqn:Hr; [|vm_compute in Hr; discriminate].
  assert (Hs : wq_reachable s) by (by eapply wq_run_sound).
  vm_compute in Hr. injection Hr as <-. eexists _, _. split; [exact Hs|].
  split; [by apply step_stop_again|done].
Qed.

(** The worker never sleeps through work or a stop request: while it is blocked
    and the predicate holds, a thread is about to notify it. *)
Theorem workqueue_no_lost_wakeup {Fn} (s : wq_state Fn) :
  wq_reachable s → wq_worker s = WWait →
  mStopped (wq s) = true ∨ mQueue (wq s) ≠ [] →
  ∃ l s', internal l = true ∧ wq_step l s s' ∧ wq_worker s' = WLock.
Proof.
  intros Hs Hw Hp. apply wq_reachable_inv in Hs.
  destruct (inv_wakeup s Hs Hw Hp) as [Hn|[self Hn]];
    destruct s as [q w n st h]; simpl in *; subst.
  - destruct n as [|n]; [lia|]. exists LNotify. eexists. by repeat constructor.
  - exists LStopNotify. destruct (Stop_release self q) eqn:Hr; eexists;
      (split; [done|]); split;
      [by apply step_stop_detach|done|by apply step_stop_join|done
      |by apply step_stop_nothing|done].
Qed.

(** C38. Every run of the threads already inside the queue is finite.  Where it ends, either
    [Stop] was never called, everything posted has been called and the worker waits; or the
    queue is stopped, the call of [Stop] that did it has returned, the worker has left its
    loop, and what was called is the first part of what was posted before. *)
Theorem workqueue_drains {Fn} (s : wq_state Fn) :
  wq_reachable s → wq_worker s ≠ WNone →
  let h := wq_history s in
  Acc (λ s2 s1, wq_internal s1 s2) s
  ∧ (quiescent s →
     if wq_has_stop h
     then (∃ self, wq_stop s = SDone self) ∧ wq_worker s = WExit ∧ wq_called h `prefix_of` wq_posted h
     else wq_called h = wq_posted h ∧ wq_worker s = WWait).
Proof.
  intros Hs Hw h. apply wq_reachable_inv in Hs. split.
  - clear. induction (well_founded_ltof _ wq_measure s) as [x _ IH].
    constructor. intros y [l [Hl Hy]]. apply IH. by eapply wq_measure_decreases.
  - intros Hq. subst h. rewrite <-(inv_closed s Hs).
    destruct (quiescent_worker s Hs Hq) as [?|[He|(Hwait & Hns & Hempty)]]; [done| |].
    + rewrite (inv_exit s Hs He). destruct (quiescent_no_notify s Hq) as [_ Hn].
      split_and!; [|done|apply Hs].
      destruct (wq_stop s) as [|self| |self] eqn:Hstop; eauto.
      * destruct (inv_stop s Hs) as [H _]. rewrite (inv_exit s Hs He) in H. by discriminate H.
      * by destruct (Hn self).
      * exfalso. destruct s as [q w n st h]; simpl in *; subst.
        eapply Hq. exists LJoined. split; [done|constructor].
    + rewrite Hns. split; [|done]. by rewrite (inv_fifo s Hs Hns), Hempty, app_nil_r.
Qed.

(** ** Witnesses *)

(** Two functions posted, the first one running, the second one queued. *)
Definition wq_sample : list (@wq_label nat) :=
  [LStart; LWorker; LPost 1; LPost 2; LNotify; LNotify; LWorker].

Lemma workqueue_fifo_witness :
  ∃ s : wq_state nat, wq_reachable s ∧ wq_called (wq_history s) = [1] ∧ mQueue (wq s) = [2]
    ∧ wq_posted (wq_history s) = wq_called (wq_history s) ++ mQueue (wq s).
Proof.
  destruct (wq_run wq_sample wq_init) as [s|] eqn:Hr; [|vm_compute in Hr; discriminate].
  exists s. assert (Hs : wq_reachable s) by (by eapply wq_run_sound).
  vm_compute in Hr. injection Hr as <-. split; [exact Hs|]. split; [reflexivity|].
  split; [reflexivity|]. apply (proj2 (workqueue_fifo _ Hs)). reflexivity.
Defined.

Lemma workqueue_refines_witness :
  ∃ s : wq_state nat, wq_reachable s
    ∧ chan_runs [EvPost 1; EvPost 2; EvCall 1] (mkChan [] false) (mkChan [2] false).
Proof.
  destruct (wq_run wq_sample wq_init) as [s|] eqn:Hr; [|vm_compute in Hr; discriminate].
  exists s. assert (Hs : wq_reachable s) by (by eapply wq_run_sound).
  split; [exact Hs|]. pose proof (workqueue_refines _ Hs) as H.
  vm_compute in Hr. injection Hr as <-. exact H.
Defined.

(** The queue is stopped while the first function runs; the second is dropped. *)
Definition wq_sample_stop : list (@wq_label nat) :=
  wq_sample ++ [LStop false; LStopNotify; LReturn; LWorker; LJoined].

Lemma workqueue_stop_barrier_witness :
  ∃ s : wq_state nat, wq_reachable s ∧ wq_stop s = SDone false
    ∧ wq_posted (wq_history s) = [1; 2]
    ∧ ∀ s', star wq_any s s' → wq_called (wq_history s') = [1].
Proof.
  destruct (wq_run wq_sample_stop wq_init) as [s|] eqn:Hr; [|vm_compute in Hr; discriminate].
  exists s. assert (Hs : wq_reachable s) by (by eapply wq_run_sound).
  pose proof (λ s', workqueue_stop_barrier s s' false) as H.
  vm_compute in Hr. injection Hr as <-. split; [exact Hs|]. split; [reflexivity|].
  split; [reflexivity|]. intros s' Hs'. exact (proj1 (H s' Hs eq_refl Hs')).
Defined.

(** The worker blocks, a function is posted, its notification is pending. *)
Definition wq_sample_wait : list (@wq_label nat) := [LStart; LWorker; LPost 1].

Lemma workqueue_no_lost_wakeup_witness :
  ∃ s : wq_state nat, wq_reachable s ∧ wq_worker s = WWait
    ∧ ∃ l s', internal l = true ∧ wq_step l s s' ∧ wq_worker s' = WLock.
Proof.
  destruct (wq_run wq_sample_wait wq_init) as [s|] eqn:Hr; [|vm_compute in Hr; discriminate].
  exists s. assert (Hs : wq_reachable s) by (by eapply wq_run_sound).
  vm_compute in Hr. injection Hr as <-. split; [exact Hs|]. split; [reflexivity|].
  apply (workqueue_no_lost_wakeup _ Hs); [reflexivity|right; discriminate].
Defined.

Lemma workqueue_drains_witness :
  ∃ s : wq_state nat, wq_reachable s ∧ wq_worker s = WRun 1
    ∧ Acc (λ s2 s1, wq_internal s1 s2) s.
Proof.
  destruct (wq_run wq_sample wq_init) as [s|] eqn:Hr; [|vm_compute in Hr; discriminate].
  exists s. assert (Hs : wq_reachable s) by (by eapply wq_run_sound).
  vm_compute in Hr. injection Hr as <-. split; [exact Hs|]. split; [reflexivity|].
  refine (proj1 (workqueue_drains _ Hs _)). discriminate.
Defined.
