(* ===== verification/Net.v ===== *)
(** * Values exchanged with Boost.Asio and Boost.Beast

    The networking libraries are not part of the repository.  What crosses the
    border is data: error codes, timeouts, buffers.  This file fixes those types,
    [DescribeError], the two payload types and the settings, whose constructors are in
    the repository. *)

From S2P Require Import Prelude CppString.

Abbreviation byte := Byte.byte.

(** ** Error codes *)

(** The values the program compares with; any other code is [EcOther]. *)
Inductive ec_kind :=
  | EcAborted          (** [net::error::operation_aborted] *)
  | EcClosed           (** [websocket::error::closed] *)
  | EcEof              (** [net::error::eof] *)
  | EcReset            (** [net::error::connection_reset] *)
  | EcTimeout          (** [beast::error::timeout] *)
  | EcEndOfStream      (** [http::error::end_of_stream] *)
  | EcOther (value : Z).

#[export] Instance ec_kind_eq_dec : EqDecision ec_kind.
Proof. solve_decision. Defined.

(** A failing [error_code], with what [message()] and [operator<<] give for it.
    Success is [None] of [option error_code]. *)
Record error_code := mkEc {
  ec_of : ec_kind;
  ec_message : string;
  ec_printed : string
}.

Definition ec_is (k : ec_kind) (ec : error_code) : bool := bool_decide (ec_of ec = k).

Definition DescribeError (stage : string) (ec : error_code) : string :=
  stage +:+ " failed: " +:+ ec_message ec +:+ " (" +:+ ec_printed ec +:+ ")".

#[global] Arguments DescribeError : simpl never.

(** [LogError] of both implementation classes writes this line to [stderr]. *)
Definition log_line (name message : string) : string :=
  (if is_empty name then message else "[" +:+ name +:+ "] " +:+ message)
  +:+ String "010" "".

(** ** Timeouts *)

(** [websocket::stream_base::timeout]; [None] is [none()], seconds otherwise. *)
Record ws_timeout := mkWsTimeout {
  handshake_timeout : option Z;
  idle_timeout : option Z;
  keep_alive_pings : bool
}.

(** [expires_after(seconds(n))] or [expires_never()]. *)
Inductive expiry := ExpiresAfter (seconds : Z) | ExpiresNever.

(** [n ? duration(seconds(n)) : none()]. *)
Definition seconds_or_none (n : Z) : option Z := if Z.eqb n 0 then None else Some n.

Definition expiry_of (n : Z) : expiry := if Z.eqb n 0 then ExpiresNever else ExpiresAfter n.

(** ** Payloads *)

(** [SPayload]: exactly one of the two shared pointers is used. *)
Record SPayload := mkPayload {
  isText : bool;
  text : option string;
  content : option (list byte)
}.

(** The buffer of a payload; dereferencing the null pointer has no meaning. *)
Definition Buffer (p : SPayload) : res (list byte) :=
  if isText p then
    match text p with
    | Some t => Ok (bytes_of_string t)
    | None => Throw (UndefinedBehaviour "null text")
    end
  else
    match content p with
    | Some c => Ok c
    | None => Throw (UndefinedBehaviour "null content")
    end.

Definition MakeTextPayload (message : string) : SPayload := mkPayload true (Some message) None.

Definition MakeContentPayload (content : list byte) : SPayload :=
  mkPayload false None (Some content).

(** The payloads the program builds. *)
Definition payload_ok (p : SPayload) : bool :=
  match Buffer p with Ok _ => true | Throw _ => false end.

(** A websocket message on the wire: text or binary, and its bytes. *)
Definition frame : Type := bool * list byte.

Definition frame_of (p : SPayload) : frame :=
  (isText p, match Buffer p with Ok b => b | Throw _ => [] end).

Lemma payload_ok_buffer p : payload_ok p = true → Buffer p = Ok (frame_of p).2.
Proof. unfold payload_ok, frame_of. by destruct (Buffer p). Qed.

Lemma MakeTextPayload_ok m : payload_ok (MakeTextPayload m) = true.
Proof. done. Qed.

Lemma MakeContentPayload_ok c : payload_ok (MakeContentPayload c) = true.
Proof. done. Qed.

#[export] Hint Resolve MakeTextPayload_ok MakeContentPayload_ok : cpp.

(** ** Settings *)

(** [std::optional<ISslContextPtr>]: an absent value, a null pointer, or a context. *)
Definition ssl_setting : Type := option (option nat).

(** [sslContext && *sslContext]. *)
Definition ssl_of (s : ssl_setting) : option nat :=
  match s with Some (Some ctx) => Some ctx | _ => None end.

Definition StandardMaxOutstandingWrites : Z := 1024.

Record CServerSettings := mkServerSettings {
  handshakeTimeoutS : Z;
  idleTimeoutS : Z;
  enablePings : bool;
  sslContext : ssl_setting;
  sslRequired : bool;
  allowedUris : option (gset string);
  maxSessionBacklog : Z;
  internalMutex : option nat;
  ioPool : option nat
}.

(** The defaults; [new_mutex] names the mutex [make_shared] creates. *)
Definition default_server_settings (new_mutex : nat) : CServerSettings :=
  mkServerSettings 30 30 true None false None StandardMaxOutstandingWrites
    (Some new_mutex) None.

(** The copy handed to sessions, without the pool reference. *)
Definition session_settings (s : CServerSettings) : CServerSettings :=
  mkServerSettings (handshakeTimeoutS s) (idleTimeoutS s) (enablePings s) (sslContext s)
    (sslRequired s) (allowedUris s) (maxSessionBacklog s) (internalMutex s) None.

(** The timeouts a websocket session sets on its stream. *)
Definition ws_timeout_of (handshake idle : Z) (pings : bool) : ws_timeout :=
  mkWsTimeout (seconds_or_none handshake) (seconds_or_none idle) pings.
