(* ===== verification/Events.v ===== *)
(** * The interface between connections and the server

    [HttpMsg] and [CHttpWrapper] are declared in CWebsocketServer.h,
    [IServerEvents] in CWebsocketServer.cpp.  Sessions and connections are
    written against [IServerEvents], here a type class over the state [Srv] of the
    object behind the interface; [Server.v] has its instance. *)

From S2P Require Import Prelude CppString Uri Net.

(** ** Callbacks *)

(** A non-empty [std::function] of the application is known by a name; an empty
    one is [None]. *)
Abbreviation callback := nat.

(** What the application does besides calling the library. *)
Inductive app_op :=
  | Cout (text : string) | Cerr (text : string)
  | SleepMs (milliseconds : Z)
  | OnSigint.                      (** [std::signal(SIGINT, ...)] *)

(** ** Http messages *)

Record HttpMsg := mkHttpMsg {
  body : list byte;
  keepAlive : bool;
  version : Z;
  uri : string;
  method : string;
  reason : string;
  responseCode : Z;
  clientId : Z;
  contextType : string;
  queryParameters : HttpQueryParameters
}.

Definition default_HttpMsg : HttpMsg :=
  mkHttpMsg [] true 11 "" "" "OK" 200 0 "application/json" ∅.

(** [CHttpWrapper]: the message pointer, the reply function (here the connection
    it answers on; [None] when empty) and whether a reply was sent. *)
Record CHttpWrapper := mkHttpWrapper {
  mHttpMsg : option HttpMsg;
  mReplyFn : option nat;
  mResponseSent : bool
}.

(** ** Posted closures *)

(** The closures the server posts to its workqueue, with what they capture. *)
Inductive task :=
  | TaskAdded (cb : callback) (clientId : Z) (uriAppend : string) (isSsl : bool)
  | TaskConnectionChange (cb : callback) (uriCount : Z)
  | TaskClosed (cb : callback) (clientId : Z)
  | TaskMessage (globalCb uriCb : option callback) (clientId : Z) (message : string)
  | TaskContent (globalCb uriCb : option callback) (clientId : Z) (content : list byte)
  | TaskHttp (handler : callback) (wrapper : CHttpWrapper).

(** ** [IServerEvents] *)

Class IServerEvents (Srv : Type) := {
  RegisterWsClient : nat → string → bool → Srv → res Z * Srv;
  OnWsClosed : Z → Srv → res unit * Srv;
  OnWsMessage : Z → string → Srv → res unit * Srv;
  OnWsContent : Z → list byte → Srv → res unit * Srv;
  UpgradeAllowed : string → Srv → res bool * Srv;
  FindHttpHandler : string → Srv → res (option callback) * Srv;
  NextConnectionId : Srv → res Z * Srv;
  PostCallback : task → Srv → res unit * Srv;
  LogError : string → Srv → res unit * Srv
}.

(** What an implementation promises: no call of the interface throws. *)
Class ServerEventsLaws (Srv : Type) `{IServerEvents Srv} := {
  RegisterWsClient_total s t b srv : ∃ v srv', RegisterWsClient s t b srv = (Ok v, srv');
  OnWsClosed_total i srv : ∃ srv', OnWsClosed i srv = (Ok tt, srv');
  OnWsMessage_total i m srv : ∃ srv', OnWsMessage i m srv = (Ok tt, srv');
  OnWsContent_total i c srv : ∃ srv', OnWsContent i c srv = (Ok tt, srv');
  UpgradeAllowed_total p srv : ∃ v srv', UpgradeAllowed p srv = (Ok v, srv');
  FindHttpHandler_total p srv : ∃ v srv', FindHttpHandler p srv = (Ok v, srv');
  NextConnectionId_total srv : ∃ v srv', NextConnectionId srv = (Ok v, srv');
  PostCallback_total t srv : ∃ srv', PostCallback t srv = (Ok tt, srv');
  LogError_total m srv : ∃ srv', LogError m srv = (Ok tt, srv')
}.

(** [if (auto events = mEvents.lock())] followed by a call on [events], in an object of
    state [St]: nothing happens once the server is gone; [ev] is the call as the trace
    shows it, from its result. *)
Definition lock_call {Srv St Op A} (call : Srv → res A * Srv) (ev : A → Op)
    : cpp (St * option Srv) Op (option A) :=
  λ w,
    match w.2 with
    | None => (Ok None, w, [])
    | Some srv =>
        match call srv with
        | (Ok a, srv') => (Ok (Some a), (w.1, Some srv'), [ev a])
        | (Throw f, srv') => (Throw f, (w.1, Some srv'), [])
        end
    end.

(** A recording implementation: it accepts every client under the next number and
    keeps the calls it got.  Used to evaluate sessions on their own. *)
Inductive recorded :=
  | RecRegister (session : nat) (target : string) (isSsl : bool)
  | RecClosed (clientId : Z) | RecMessage (clientId : Z) (m : string)
  | RecContent (clientId : Z) (c : list byte) | RecPost (t : task) | RecLog (m : string).

Record recorder := mkRecorder { rec_next : Z; rec_calls : list recorded }.

Definition record_call (c : recorded) (r : recorder) : recorder :=
  mkRecorder (rec_next r) (rec_calls r ++ [c]).

#[export] Instance recorder_events : IServerEvents recorder := {|
  RegisterWsClient s t b r :=
    (Ok (rec_next r),
     mkRecorder (rec_next r + 1) (rec_calls r ++ [RecRegister s t b]));
  OnWsClosed i r := (Ok tt, record_call (RecClosed i) r);
  OnWsMessage i m r := (Ok tt, record_call (RecMessage i m) r);
  OnWsContent i c r := (Ok tt, record_call (RecContent i c) r);
  UpgradeAllowed p r := (Ok true, r);
  FindHttpHandler p r := (Ok (Some 0), r);
  NextConnectionId r := (Ok (rec_next r), mkRecorder (rec_next r + 1) (rec_calls r));
  PostCallback t r := (Ok tt, record_call (RecPost t) r);
  LogError m r := (Ok tt, record_call (RecLog m) r)
|}.

#[export] Instance recorder_laws : ServerEventsLaws recorder.
Proof. split; intros; simpl; eauto. Qed.
