(* ===== verification/WsSession.v ===== *)
(** * [CWsSession]: a websocket client from the server's side

    Each member function of the class template is a definition over the session
    and the object behind its weak [IServerEvents] pointer ([None] once that object
    is gone).  The functions start asynchronous operations; [ws_op] lists them in
    program order.  [IS_SSL] is the template's constant, [self] the identity of
    [shared_from_this()].

    The second half runs a session: its strand executes posted closures in order,
    asynchronous operations complete one at a time with any outcome the
    environment chooses, and the server may disappear at any moment. *)

From S2P Require Import Prelude CppString Net Events.
Open Scope cpp_scope.

(** ** The object *)

Record WsSession := mkWsSession {
  mSettings : CServerSettings;
  mWriteQueue : list SPayload;
  mTarget : string;
  mClientId : Z;
  mOpen : bool;
  mCloseRequested : bool;
  mCloseSent : bool;
  mDropLogged : bool
}.

Definition new_ws_session (settings : CServerSettings) : WsSession :=
  mkWsSession settings [] "" 0 false false false false.

Definition set_mWriteQueue (q : list SPayload) (s : WsSession) : WsSession :=
  mkWsSession (mSettings s) q (mTarget s) (mClientId s) (mOpen s) (mCloseRequested s)
    (mCloseSent s) (mDropLogged s).
Definition set_mTarget (t : string) (s : WsSession) : WsSession :=
  mkWsSession (mSettings s) (mWriteQueue s) t (mClientId s) (mOpen s) (mCloseRequested s)
    (mCloseSent s) (mDropLogged s).
Definition set_mClientId (i : Z) (s : WsSession) : WsSession :=
  mkWsSession (mSettings s) (mWriteQueue s) (mTarget s) i (mOpen s) (mCloseRequested s)
    (mCloseSent s) (mDropLogged s).
Definition set_mOpen (b : bool) (s : WsSession) : WsSession :=
  mkWsSession (mSettings s) (mWriteQueue s) (mTarget s) (mClientId s) b (mCloseRequested s)
    (mCloseSent s) (mDropLogged s).
Definition set_mCloseRequested (b : bool) (s : WsSession) : WsSession :=
  mkWsSession (mSettings s) (mWriteQueue s) (mTarget s) (mClientId s) (mOpen s) b
    (mCloseSent s) (mDropLogged s).
Definition set_mCloseSent (b : bool) (s : WsSession) : WsSession :=
  mkWsSession (mSettings s) (mWriteQueue s) (mTarget s) (mClientId s) (mOpen s)
    (mCloseRequested s) b (mDropLogged s).
Definition set_mDropLogged (b : bool) (s : WsSession) : WsSession :=
  mkWsSession (mSettings s) (mWriteQueue s) (mTarget s) (mClientId s) (mOpen s)
    (mCloseRequested s) (mCloseSent s) b.

(** The calls a session makes on the server, as its trace shows them. *)
Inductive ws_event :=
  | EvRegister (target : string) (isSsl : bool) (result : Z)
  | EvClosed (id : Z)
  | EvMessage (id : Z) (m : string)
  | EvContent (id : Z) (c : list byte)
  | EvLog (m : string).

(** The closures a session posts to its strand. *)
Inductive ws_task := TaskSend (p : SPayload) | TaskClose.

Inductive ws_op :=
  | OpExpiresNever                    (** [get_lowest_layer(mWs).expires_never()] *)
  | OpSetTimeout (t : ws_timeout)     (** [mWs.set_option(timeoutOptions)] *)
  | OpSetServerHeader                 (** [mWs.set_option(decorator(...))] *)
  | OpAsyncAccept (target : string)
  | OpAsyncRead
  | OpText (isText : bool)            (** [mWs.text(isText)] *)
  | OpAsyncWrite (data : list byte)
  | OpAsyncClose
  | OpCancel                          (** [get_lowest_layer(mWs).cancel()] *)
  | OpPost (t : ws_task)              (** [net::post(mWs.get_executor(), ...)] *)
  | OpEvent (e : ws_event).

(** What [got_text()] and the read buffer hold after a successful read. *)
Inductive received := GotText (data : list byte) | GotBinary (data : list byte).

Section Handlers.
Context {Srv : Type} `{IServerEvents Srv}.
Context (IS_SSL : bool) (self : nat).

Definition ws_world : Type := WsSession * option Srv.
Definition WS : Type → Type := cpp ws_world ws_op.

Definition session (f : WsSession → WsSession) : WS unit := modify (λ w, (f w.1, w.2)).

Definition call_events {A} (call : Srv → res A * Srv) (ev : A → ws_event) : WS (option A) :=
  lock_call call (λ a, OpEvent (ev a)).

Definition lock_events : WS bool := gets (λ w, match w.2 with Some _ => true | None => false end).

Definition ws_LogError (message : string) : WS unit :=
  _ <- call_events (LogError message) (λ _, EvLog message) ;; ret tt.

Definition Accept (request_target : string) : WS unit :=
  session (set_mTarget request_target) ;;
  emit OpExpiresNever ;;
  settings <- gets (λ w, mSettings w.1) ;;
  emit (OpSetTimeout (ws_timeout_of (handshakeTimeoutS settings) (idleTimeoutS settings)
                        (enablePings settings))) ;;
  emit OpSetServerHeader ;;
  emit (OpAsyncAccept request_target).

Definition DoRead : WS unit := emit OpAsyncRead.

Definition DoWrite : WS unit :=
  queue <- gets (λ w, mWriteQueue w.1) ;;
  match queue with
  | [] => throw (UndefinedBehaviour "front() of an empty deque")
  | payload :: _ =>
      emit (OpText (isText payload)) ;;
      data <- of_res (Buffer payload) ;;
      emit (OpAsyncWrite data)
  end.

Definition MaybeSendClose : WS unit :=
  s <- gets fst ;;
  if mCloseSent s || negb (bool_decide (mWriteQueue s = [])) then ret tt
  else
    session (set_mCloseSent true) ;;
    emit OpAsyncClose.

(** [Send] and [Close] post a closure; [Send_posted] and [Close_posted] are what it
    does when the strand runs it. *)
Definition Send (payload : SPayload) : WS unit := emit (OpPost (TaskSend payload)).

Definition Send_posted (payload : SPayload) : WS unit :=
  s <- gets fst ;;
  if negb (mOpen s) || mCloseRequested s then ret tt
  else
    if Z.ltb 0 (maxSessionBacklog (mSettings s))
       && Z.leb (maxSessionBacklog (mSettings s)) (Z.of_nat (length (mWriteQueue s)))
    then
      if negb (mDropLogged s) then
        session (set_mDropLogged true) ;;
        ws_LogError ("Session backlog full (" +:+ to_string (maxSessionBacklog (mSettings s))
                     +:+ "); dropping payload(s) for client " +:+ to_string (mClientId s))
      else ret tt
    else
      session (set_mWriteQueue (mWriteQueue s ++ [payload])) ;;
      n <- gets (λ w, length (mWriteQueue w.1)) ;;
      when (Nat.eqb n 1) DoWrite.

Definition Close : WS unit := emit (OpPost TaskClose).

Definition Close_posted : WS unit :=
  session (set_mCloseRequested true) ;;
  s <- gets fst ;;
  if negb (mOpen s) then emit OpCancel else MaybeSendClose.

Definition OnAccept (ec : option error_code) : WS unit :=
  events <- lock_events ;;
  match ec, events with
  | None, true =>
      session (set_mOpen true) ;;
      s <- gets fst ;;
      r <- call_events (RegisterWsClient self (mTarget s) IS_SSL)
             (λ id, EvRegister (mTarget s) IS_SSL id) ;;
      session (set_mClientId (default 0%Z r)) ;;
      s' <- gets fst ;;
      if Z.eqb (mClientId s') 0 then
        session (set_mCloseRequested true) ;;
        MaybeSendClose
      else
        when (mCloseRequested s') MaybeSendClose ;;
        DoRead
  | Some e, true =>
      when (negb (ec_is EcAborted e)) (ws_LogError (DescribeError "websocket accept" e))
  | _, false => ret tt
  end.

Definition HandleClosed (ec : error_code) : WS unit :=
  session (set_mWriteQueue []) ;;
  s <- gets fst ;;
  session (set_mOpen false) ;;
  if negb (mOpen s) then ret tt
  else
    let expected := ec_is EcClosed ec || ec_is EcAborted ec || ec_is EcEof ec
                    || ec_is EcReset ec || ec_is EcTimeout ec || mCloseRequested s in
    when (negb expected)
      (ws_LogError (DescribeError ("client " +:+ to_string (mClientId s) +:+ " connection") ec)) ;;
    _ <- call_events (OnWsClosed (mClientId s)) (λ _, EvClosed (mClientId s)) ;;
    ret tt.

Definition OnRead (r : error_code + received) : WS unit :=
  match r with
  | inl ec => HandleClosed ec
  | inr got =>
      s <- gets fst ;;
      _ <- match got with
           | GotText data =>
               call_events (OnWsMessage (mClientId s) (string_of_bytes data))
                 (λ _, EvMessage (mClientId s) (string_of_bytes data))
           | GotBinary data =>
               call_events (OnWsContent (mClientId s) data)
                 (λ _, EvContent (mClientId s) data)
           end ;;
      DoRead
  end.

Definition OnWrite (ec : option error_code) : WS unit :=
  match ec with
  | Some e => HandleClosed e
  | None =>
      s <- gets fst ;;
      match mWriteQueue s with
      | [] => throw (UndefinedBehaviour "pop_front() of an empty deque")
      | _ :: rest =>
          session (set_mWriteQueue rest) ;;
          s' <- gets fst ;;
          if negb (bool_decide (mWriteQueue s' = [])) then DoWrite
          else when (mCloseRequested s') MaybeSendClose
      end
  end.

End Handlers.

(** ** Running a session *)

(** The session with its strand and its outstanding operations.  [rt_failed]: an
    operation on the stream has completed with an error.  [rt_events] and
    [rt_wire] are histories: the calls made on the server, and the messages handed
    to [async_write].  [rt_accepted]: the payloads [Send] put in the write queue. *)
Record ws_rt (Srv : Type) := mkRt {
  rt_session : WsSession;
  rt_srv : option Srv;
  rt_tasks : list ws_task;
  rt_accepts : nat;
  rt_reads : nat;
  rt_text : bool;
  rt_writes : list frame;
  rt_closes : nat;
  rt_failed : bool;
  rt_fault : option fault;
  rt_events : list ws_event;
  rt_wire : list frame;
  rt_accepted : list SPayload
}.
Arguments mkRt {Srv}.
Arguments rt_session {Srv}.
Arguments rt_srv {Srv}.
Arguments rt_tasks {Srv}.
Arguments rt_accepts {Srv}.
Arguments rt_reads {Srv}.
Arguments rt_text {Srv}.
Arguments rt_writes {Srv}.
Arguments rt_closes {Srv}.
Arguments rt_failed {Srv}.
Arguments rt_fault {Srv}.
Arguments rt_events {Srv}.
Arguments rt_wire {Srv}.
Arguments rt_accepted {Srv}.

Section Run.
Context {Srv : Type} `{IServerEvents Srv}.
Context (IS_SSL : bool) (self : nat).

Definition apply_op (o : ws_op) (r : ws_rt Srv) : ws_rt Srv :=
  let '(mkRt s v t a rd tx w c fl ft ev wi ac) := r in
  match o with
  | OpAsyncAccept _ => mkRt s v t (S a) rd tx w c fl ft ev wi ac
  | OpAsyncRead => mkRt s v t a (S rd) tx w c fl ft ev wi ac
  | OpText b => mkRt s v t a rd b w c fl ft ev wi ac
  | OpAsyncWrite d => mkRt s v t a rd tx (w ++ [(tx, d)]) c fl ft ev (wi ++ [(tx, d)]) ac
  | OpAsyncClose => mkRt s v t a rd tx w (S c) fl ft ev wi ac
  | OpPost k => mkRt s v (t ++ [k]) a rd tx w c fl ft ev wi ac
  | OpEvent e => mkRt s v t a rd tx w c fl ft (ev ++ [e]) wi ac
  | OpExpiresNever | OpSetTimeout _ | OpSetServerHeader | OpCancel => r
  end.

Definition apply_ops (ops : list ws_op) (r : ws_rt Srv) : ws_rt Srv :=
  foldl (λ r o, apply_op o r) r ops.

(** A handler runs to its end on the strand. *)
Definition run_handler (m : WS unit) (r : ws_rt Srv) : ws_rt Srv :=
  let '(mkRt s v t a rd tx w c fl ft ev wi ac) := r in
  match m (s, v) with
  | (res, (s', v'), ops) =>
      apply_ops ops
        (mkRt s' v' t a rd tx w c fl
           (match res with Ok _ => ft | Throw f => Some f end) ev wi ac)
  end.

(** The history of accepted payloads grows with the queue. *)
Definition note_accepted (p : SPayload) (before after : ws_rt Srv) : ws_rt Srv :=
  let '(mkRt s v t a rd tx w c fl ft ev wi ac) := after in
  mkRt s v t a rd tx w c fl ft ev wi
    (if Nat.ltb (length (mWriteQueue (rt_session before))) (length (mWriteQueue s))
     then ac ++ [p] else ac).

Inductive ws_label :=
  | WPost (k : ws_task)                        (** a call of [Send] or [Close] *)
  | WTask                                      (** the strand runs a posted closure *)
  | WAccepted (ec : option error_code)
  | WRead (r : error_code + received)
  | WWritten (ec : option error_code)
  | WClosed                                    (** [async_close] completes *)
  | WServer (srv : Srv)                        (** the server's state changed *)
  | WServerGone.                               (** the weak pointer expires *)

(** With [contract] set, the stream keeps the rule of Beast's error handling: once
    an operation has completed with an error, no later one succeeds. *)
Definition ws_exec (contract : bool) (l : ws_label) (r : ws_rt Srv) : option (ws_rt Srv) :=
  let '(mkRt s v t a rd tx w c fl ft ev wi ac) := r in
  match l with
  | WPost k => Some (mkRt s v (t ++ [k]) a rd tx w c fl ft ev wi ac)
  | WTask =>
      match t with
      | [] => None
      | TaskSend p :: t' =>
          let r' := mkRt s v t' a rd tx w c fl ft ev wi ac in
          Some (note_accepted p r' (run_handler (Send_posted p) r'))
      | TaskClose :: t' =>
          Some (run_handler Close_posted (mkRt s v t' a rd tx w c fl ft ev wi ac))
      end
  | WAccepted ec =>
      match a with
      | O => None
      | S a' => Some (run_handler (OnAccept IS_SSL self ec)
                        (mkRt s v t a' rd tx w c fl ft ev wi ac))
      end
  | WRead x =>
      match rd with
      | O => None
      | S rd' =>
          let bad := match x with inl _ => true | inr _ => false end in
          if contract && fl && negb bad then None
          else Some (run_handler (OnRead x)
                       (mkRt s v t a rd' tx w c (fl || bad) ft ev wi ac))
      end
  | WWritten ec =>
      match w with
      | [] => None
      | _ :: w' =>
          let bad := match ec with Some _ => true | None => false end in
          if contract && fl && negb bad then None
          else Some (run_handler (OnWrite ec)
                       (mkRt s v t a rd tx w' c (fl || bad) ft ev wi ac))
      end
  | WClosed =>
      match c with
      | O => None
      | S c' => Some (mkRt s v t a rd tx w c' fl ft ev wi ac)
      end
  | WServer srv =>
      match v with
      | Some _ => Some (mkRt s (Some srv) t a rd tx w c fl ft ev wi ac)
      | None => None
      end
  | WServerGone => Some (mkRt s None t a rd tx w c fl ft ev wi ac)
  end.

Fixpoint ws_exec_all (contract : bool) (ls : list ws_label) (r : ws_rt Srv)
    : option (ws_rt Srv) :=
  match ls with
  | [] => Some r
  | l :: ls' =>
      match ws_exec contract l r with
      | Some r' => ws_exec_all contract ls' r'
      | None => None
      end
  end.

(** A session starts when the http connection calls [Accept]. *)
Definition ws_start (settings : CServerSettings) (srv : option Srv) (target : string)
    : ws_rt Srv :=
  run_handler (Accept target)
    (mkRt (new_ws_session settings) srv [] 0 0 true [] 0 false None [] [] []).

(** Runs in which callers only send payloads the program can build. *)
Definition label_ok (l : ws_label) : bool :=
  match l with WPost (TaskSend p) => payload_ok p | _ => true end.

Definition ws_step (contract : bool) (r r' : ws_rt Srv) : Prop :=
  ∃ l, label_ok l = true ∧ ws_exec contract l r = Some r'.

Definition ws_reachable (contract : bool) (settings : CServerSettings) (r : ws_rt Srv) : Prop :=
  ∃ srv target, star (ws_step contract) (ws_start settings srv target) r.

End Run.

(** ** Invariant *)

(** The calls on the server other than log lines. *)
Definition is_call (e : ws_event) : bool := match e with EvLog _ => false | _ => true end.
Definition calls (ev : list ws_event) : list ws_event := List.filter is_call ev.
#[global] Arguments calls : simpl never.

Definition received_for (id : Z) (e : ws_event) : Prop :=
  match e with EvMessage i _ | EvContent i _ => i = id | _ => False end.

(** The calls between registration and closing. *)
Definition call_order (id : Z) (closed : bool) (ev : list ws_event) : Prop :=
  ∃ t b ms, calls ev = EvRegister t b id :: ms ++ (if closed then [EvClosed id] else [])
            ∧ Forall (received_for id) ms.

Section Phases.
Context {Srv : Type} (settings : CServerSettings).
Implicit Type r : ws_rt Srv.

Definition sess_ok r : Prop :=
  rt_fault r = None ∧ mSettings (rt_session r) = settings
  ∧ (∀ p, TaskSend p ∈ rt_tasks r → payload_ok p = true).

(** Before the accept completes, or after it failed. *)
Definition idle_phase r : Prop :=
  mOpen (rt_session r) = false ∧ mCloseSent (rt_session r) = false
  ∧ mWriteQueue (rt_session r) = [] ∧ rt_accepts r ≤ 1 ∧ rt_reads r = 0
  ∧ rt_writes r = [] ∧ rt_closes r = 0 ∧ rt_failed r = false
  ∧ calls (rt_events r) = [] ∧ rt_wire r = [] ∧ rt_accepted r = []
  ∧ mClientId (rt_session r) = 0%Z.

(** The queue within the backlog limit. *)
Definition backlog_ok r : Prop :=
  (0 < maxSessionBacklog settings)%Z →
  (Z.of_nat (length (mWriteQueue (rt_session r))) ≤ maxSessionBacklog settings)%Z.

Definition close_ok r : Prop :=
  rt_closes r ≤ (if mCloseSent (rt_session r) then 1 else 0)
  ∧ (mCloseSent (rt_session r) = true →
     mCloseRequested (rt_session r) = true ∧ mWriteQueue (rt_session r) = []
     ∧ rt_writes r = []).

(** A requested close waits for nothing but the queue. *)
Definition close_due r : Prop :=
  mCloseRequested (rt_session r) = true → mWriteQueue (rt_session r) = [] →
  mCloseSent (rt_session r) = true.

(** The head of the queue is what the outstanding write sends. *)
Definition open_phase r : Prop :=
  mOpen (rt_session r) = true ∧ rt_accepts r = 0 ∧ rt_failed r = false
  ∧ rt_reads r ≤ 1
  ∧ Forall (λ p, payload_ok p = true) (mWriteQueue (rt_session r))
  ∧ rt_writes r = frame_of <$> take 1 (mWriteQueue (rt_session r))
  ∧ frame_of <$> rt_accepted r
    = rt_wire r ++ (frame_of <$> drop 1 (mWriteQueue (rt_session r)))
  ∧ close_ok r ∧ close_due r ∧ backlog_ok r
  ∧ call_order (mClientId (rt_session r)) false (rt_events r).

Definition shut_phase r : Prop :=
  mOpen (rt_session r) = false ∧ rt_accepts r = 0 ∧ rt_failed r = true
  ∧ rt_reads r ≤ 1 ∧ length (rt_writes r) ≤ 1
  ∧ mWriteQueue (rt_session r) = []
  ∧ rt_wire r `prefix_of` (frame_of <$> rt_accepted r)
  ∧ close_ok r
  ∧ (∃ closed, call_order (mClientId (rt_session r)) closed (rt_events r)).

Definition ws_inv r : Prop := sess_ok r ∧ (idle_phase r ∨ open_phase r ∨ shut_phase r).

End Phases.

(** Symbolic execution of a handler: unfold it, take the calls' results from the
    laws of the interface. *)
Ltac ws_run :=
  unfold run_handler, Accept, DoRead, DoWrite, MaybeSendClose, Send_posted, Close_posted,
    OnAccept, HandleClosed, OnRead, OnWrite, note_accepted, ws_LogError, call_events, lock_call, lock_events, session,
    bind, ret, throw, gets, modify, emit, of_res, when,
    set_mWriteQueue, set_mTarget, set_mClientId, set_mOpen, set_mCloseRequested,
    set_mCloseSent, set_mDropLogged; cbn.

Ltac ws_calls :=
  match goal with
  | |- context [RegisterWsClient ?a ?b ?c ?d] =>
      destruct (RegisterWsClient_total a b c d) as (? & ? & ->)
  | |- context [OnWsClosed ?a ?b] => destruct (OnWsClosed_total a b) as (? & ->)
  | |- context [OnWsMessage ?a ?b ?c] => destruct (OnWsMessage_total a b c) as (? & ->)
  | |- context [OnWsContent ?a ?b ?c] => destruct (OnWsContent_total a b c) as (? & ->)
  | |- context [LogError ?a ?b] => destruct (LogError_total a b) as (? & ->)
  end; cbn.

(** The same, keeping the equations of the calls, and with every test decided. *)
Ltac ws_calls_as :=
  match goal with
  | |- context [RegisterWsClient ?a ?b ?c ?d] =>
      let E := fresh "Hreg" in destruct (RegisterWsClient_total a b c d) as (? & ? & E); rewrite E
  | |- context [OnWsClosed ?a ?b] =>
      let E := fresh "Hclosed" in destruct (OnWsClosed_total a b) as (? & E); rewrite E
  | |- context [OnWsMessage ?a ?b ?c] =>
      let E := fresh "Hmsg" in destruct (OnWsMessage_total a b c) as (? & E); rewrite E
  | |- context [OnWsContent ?a ?b ?c] =>
      let E := fresh "Hcont" in destruct (OnWsContent_total a b c) as (? & E); rewrite E
  | |- context [LogError ?a ?b] =>
      let E := fresh "Hlog" in destruct (LogError_total a b) as (? & E); rewrite E
  end; cbn.

Ltac ws_case :=
  match goal with
  | |- context [match ?x with _ => _ end] =>
      lazymatch x with
      | context [match _ with _ => _ end] => fail
      | _ => destruct x eqn:?; cbn
      end
  end.
Ltac ws_cases := repeat (first [ws_calls_as | ws_case]).

Section Invariant.
#[local] Arguments Nat.ltb : simpl never.
#[local] Arguments Nat.eqb : simpl nomatch.
Context {Srv : Type} `{ServerEventsLaws Srv}.
Context (IS_SSL : bool) (self : nat) (settings : CServerSettings).
Implicit Type r : ws_rt Srv.

Definition live r : Prop := sess_ok settings r ∧ open_phase settings r.
Definition shut r : Prop := sess_ok settings r ∧ shut_phase r.

(** Introduces a live session with its record taken apart. *)
Ltac ws_intro r :=
  destruct r as [[st q tg id op cr cs dl] v tk a rd tx w c fl ft ev wi ac];
  unfold live, sess_ok, open_phase, close_ok, close_due, backlog_ok; cbn;
  intros [(Hft & Hst & Htk)
          (Hop & Ha & Hfl & Hrd & Hqok & Hw & Hac & [Hcl Hcs] & Hdue & Hbl & Hord)];
  subst op a fl w ft st.

Lemma inv_start srv target : ws_inv settings (ws_start (Srv:=Srv) settings srv target).
Proof.
  unfold ws_start. ws_run. split; [|left]; split_and!; try done; cbn; try lia.
  intros p Hp. by apply not_elem_of_nil in Hp.
Qed.

Lemma calls_log ev m : calls (ev ++ [EvLog m]) = calls ev.
Proof. unfold calls. rewrite List.filter_app. cbn. apply app_nil_r. Qed.

Lemma calls_snoc ev e : is_call e = true → calls (ev ++ [e]) = calls ev ++ [e].
Proof. intros He. unfold calls. rewrite List.filter_app. cbn. by rewrite He. Qed.

Lemma call_order_log id closed ev m :
  call_order id closed ev → call_order id closed (ev ++ [EvLog m]).
Proof. unfold call_order. by rewrite calls_log. Qed.

Lemma call_order_received id ev e :
  received_for id e → call_order id false ev → call_order id false (ev ++ [e]).
Proof.
  intros He (t & b & ms & Hc & Hms). exists t, b, (ms ++ [e]).
  rewrite calls_snoc, Hc by (by destruct e). rewrite !app_nil_r. split; [done|].
  by apply Forall_app_2; [|constructor].
Qed.

Lemma call_order_closed id ev :
  call_order id false ev → call_order id true (ev ++ [EvClosed id]).
Proof.
  intros (t & b & ms & Hc & Hms). exists t, b, ms.
  rewrite calls_snoc, Hc by done. by rewrite app_nil_r.
Qed.

Hint Resolve call_order_log call_order_received call_order_closed : cpp.

(** One handler at a time, in each phase. *)

Lemma run_MaybeSendClose r :
  live r → mCloseRequested (rt_session r) = true → live (run_handler MaybeSendClose r).
Proof.
  ws_intro r. intros Hcr. cbn in Hcr. ws_run.
  destruct cs; cbn; [by split_and!|]. destruct q; cbn; [|by split_and!].
  split_and!; try done; lia.
Qed.

Lemma run_Send_closed p r :
  mOpen (rt_session r) = false → run_handler (Send_posted p) r = r.
Proof. intros Ho. destruct r as [[]]. cbn in Ho. subst. by ws_run. Qed.

Lemma run_Close_closed r :
  mOpen (rt_session r) = false → 
  run_handler Close_posted r =
    mkRt (set_mCloseRequested true (rt_session r)) (rt_srv r) (rt_tasks r) (rt_accepts r)
      (rt_reads r) (rt_text r) (rt_writes r) (rt_closes r) (rt_failed r) (rt_fault r)
      (rt_events r) (rt_wire r) (rt_accepted r).
Proof. intros Ho. destruct r as [[]]. cbn in Ho. subst. by ws_run. Qed.

Lemma run_Close_open r : live r → live (run_handler Close_posted r).
Proof.
  ws_intro r. ws_run. destruct cs; cbn; [split_and!; try done; tauto|].
  destruct q; cbn; split_and!; try done; lia.
Qed.

(** A full backlog drops the payload; a queue of one starts the write. *)
Lemma run_Send_open p r :
  live r → payload_ok p = true →
  live (note_accepted p r (run_handler (Send_posted p) r)).
Proof.
  ws_intro r. intros Hp. ws_run.
  destruct cr; cbn; [by rewrite Nat.ltb_irrefl; split_and!|].
  destruct cs; [by destruct (Hcs eq_refl)|].
  destruct (_ && _) eqn:Hfull; cbn.
  { destruct dl; cbn; [by rewrite Nat.ltb_irrefl; split_and!|].
    destruct v; cbn; try ws_calls; rewrite Nat.ltb_irrefl; split_and!; try done.
    by apply call_order_log. }
  apply andb_false_iff in Hfull. rewrite Z.ltb_ge, Z.leb_gt in Hfull.
  destruct q as [|p0 q]; cbn.
  - rewrite (payload_ok_buffer p Hp). cbn. rewrite (proj2 (Nat.ltb_lt 0 1)) by lia. split_and!; try done; try lia.
    + by constructor.
    + rewrite fmap_app, Hac. cbn. by rewrite !app_nil_r.
  - rewrite length_app, Nat.add_1_r. cbn. rewrite length_app, Nat.add_1_r.
    rewrite (proj2 (Nat.ltb_lt _ _)) by lia. cbn in *. split_and!; try done; try lia.
    + change (p0 :: q ++ [p]) with ((p0 :: q) ++ [p]). by apply Forall_app_2; [|constructor].
    + by rewrite fmap_app, Hac, ?drop_0, fmap_app, <-app_assoc.
Qed.

(** The first error shuts the session and reports it once, whatever operation it
    came from ([rd'] and [w'] are what is still outstanding). *)
Lemma run_HandleClosed_open e r rd' w' :
  live r → rd' ≤ 1 → w' = rt_writes r ∨ w' = [] →
  shut (run_handler (HandleClosed e)
    (mkRt (rt_session r) (rt_srv r) (rt_tasks r) (rt_accepts r) rd' (rt_text r)
       w' (rt_closes r) true (rt_fault r) (rt_events r) (rt_wire r) (rt_accepted r))).
Proof.
  ws_intro r. intros Hrd' Hw'. cbn in Hw'.
  assert (Hwire : wi `prefix_of` (frame_of <$> ac)) by (rewrite Hac; by apply prefix_app_r).
  assert (Hlen : length w' ≤ 1) by (destruct Hw' as [-> | ->], q; simpl; lia).
  assert (Hcs' : cs = true → cr = true ∧ [] = [] ∧ w' = [])
    by (intros Hc; destruct (Hcs Hc) as (? & ? & ?); destruct Hw'; subst; auto).
  ws_run. destruct (negb _); destruct v; cbn; repeat ws_calls;
    unfold shut, sess_ok, shut_phase, close_ok; cbn; split_and!; try done;
    eauto using call_order_log, call_order_closed.
Qed.

Lemma run_HandleClosed_shut e r rd' w' :
  shut r → rd' ≤ 1 → w' = rt_writes r ∨ w' = [] →
  shut (run_handler (HandleClosed e)
    (mkRt (rt_session r) (rt_srv r) (rt_tasks r) (rt_accepts r) rd' (rt_text r)
       w' (rt_closes r) true (rt_fault r) (rt_events r) (rt_wire r) (rt_accepted r))).
Proof.
  destruct r as [[st q tg id op cr cs dl] v tk a rd tx w c fl ft ev wi ac].
  unfold shut, sess_ok, shut_phase, close_ok; cbn.
  intros [(Hft & Hst & Htk) (Hop & Ha & Hfl & Hrd & Hw & Hq & Hwi & [Hcl Hcs] & Hord)].
  intros Hrd' Hw'. subst. ws_run. split_and!; try done.
  - destruct Hw' as [-> | ->]; simpl; lia.
  - intros Hc. destruct (Hcs Hc) as (? & ? & ?). destruct Hw'; subst; auto.
Qed.

Lemma run_OnRead_got got r :
  live r → 0 < rt_reads r →
  live (run_handler (OnRead (inr got))
    (mkRt (rt_session r) (rt_srv r) (rt_tasks r) (rt_accepts r) (pred (rt_reads r)) (rt_text r)
       (rt_writes r) (rt_closes r) false (rt_fault r) (rt_events r) (rt_wire r)
       (rt_accepted r))).
Proof.
  ws_intro r. intros Hpos. ws_run. destruct got, v; cbn; try ws_calls;
    split_and!; try done; try lia; by apply call_order_received.
Qed.

Lemma run_OnWrite_ok r w' :
  live r → (∃ f, rt_writes r = f :: w') →
  live (run_handler (OnWrite None)
    (mkRt (rt_session r) (rt_srv r) (rt_tasks r) (rt_accepts r) (rt_reads r) (rt_text r)
       w' (rt_closes r) false (rt_fault r) (rt_events r) (rt_wire r) (rt_accepted r))).
Proof.
  ws_intro r. intros [f Hf]. cbn in Hf. destruct q as [|p q]; [done|].
  cbn in Hf. simplify_eq. destruct cs; [by destruct (Hcs eq_refl) as (_ & ? & _)|].
  ws_run. destruct q as [|p' q]; cbn.
  - destruct cr; cbn; split_and!; try done; lia.
  - inversion_clear Hqok as [|? ? Hp Hqok']. pose proof Hqok' as Hqok2.
    inversion_clear Hqok' as [|? ? Hp' _].
    rewrite (payload_ok_buffer p' Hp'). cbn in *. split_and!; try done; try lia.
    rewrite Hac, <-app_assoc. by rewrite ?drop_0.
Qed.

(** A completed accept opens the session, unless the server is gone or the accept
    failed; a rejected client is closed at once and not read from. *)
Lemma run_OnAccept ec r :
  sess_ok settings r → idle_phase r → 0 < rt_accepts r →
  ws_inv settings (run_handler (OnAccept IS_SSL self ec)
    (mkRt (rt_session r) (rt_srv r) (rt_tasks r) (pred (rt_accepts r)) (rt_reads r)
       (rt_text r) (rt_writes r) (rt_closes r) (rt_failed r) (rt_fault r) (rt_events r)
       (rt_wire r) (rt_accepted r))).
Proof.
  destruct r as [[st q tg id op cr cs dl] v tk a rd tx w c fl ft ev wi ac].
  unfold sess_ok, idle_phase; cbn.
  intros (Hft & Hst & Htk) (Hop & Hcs & Hq & Ha & Hrd & Hw & Hc & Hfl & Hev & Hwi & Hac & Hid) Hpos.
  subst. unfold ws_inv. ws_run. destruct ec as [e|], v as [srv|]; cbn.
  - destruct (negb _); cbn; try ws_calls; (split; [by split_and!|left]);
      unfold idle_phase; cbn; rewrite ?calls_log; split_and!; try done; lia.
  - split; [by split_and!|left]. unfold idle_phase. cbn. split_and!; try done; lia.
  - ws_calls.
    match goal with |- context [EvRegister tg IS_SSL ?i] =>
      assert (Hord : call_order i false (ev ++ [EvRegister tg IS_SSL i]))
        by (exists tg, IS_SSL, []; by rewrite calls_snoc, Hev by done) end.
    destruct (Z.eqb _ _); cbn; [|destruct cr; cbn]; (split; [by split_and!|right; left]);
      unfold open_phase, close_ok, close_due, backlog_ok; cbn; split_and!; try done; try lia.
  - split; [by split_and!|left]. unfold idle_phase. cbn. split_and!; try done; lia.
Qed.

Lemma live_inv r : live r → ws_inv settings r.
Proof. intros [? ?]. split; auto. Qed.

Lemma shut_inv r : shut r → ws_inv settings r.
Proof. intros [? ?]. split; auto. Qed.

Lemma idle_shut_closed r :
  idle_phase r ∨ shut_phase r → mOpen (rt_session r) = false.
Proof. by intros [(? & _)|(? & _)]. Qed.

Lemma inv_task_send p r :
  ws_inv settings r → payload_ok p = true →
  ws_inv settings (note_accepted p r (run_handler (Send_posted p) r)).
Proof.
  intros [Hs Hph] Hp.
  assert (Hclosed : mOpen (rt_session r) = false →
                    note_accepted p r (run_handler (Send_posted p) r) = r).
  { intros Ho. rewrite run_Send_closed by done. destruct r as [[]].
    unfold note_accepted. cbn. by rewrite Nat.ltb_irrefl. }
  destruct Hph as [Hi|[Ho|Hsh]].
  - rewrite Hclosed by eauto using idle_shut_closed. split; auto.
  - apply live_inv, run_Send_open; [by split|done].
  - rewrite Hclosed by eauto using idle_shut_closed. split; auto.
Qed.

Lemma inv_task_close r : ws_inv settings r → ws_inv settings (run_handler Close_posted r).
Proof.
  intros [Hs [Hi|[Ho|Hsh]]].
  - rewrite run_Close_closed by eauto using idle_shut_closed.
    split; [exact Hs|]. left. exact Hi.
  - apply live_inv, run_Close_open. by split.
  - rewrite run_Close_closed by eauto using idle_shut_closed.
    split; [exact Hs|]. right; right. unfold shut_phase, close_ok in *. cbn.
    destruct Hsh as (? & ? & ? & ? & ? & ? & ? & [? Hcs] & ?). split_and!; try done.
    intros Hc. by destruct (Hcs Hc) as (_ & ? & ?).
Qed.

(** No read or write is outstanding before the accept completes, and none succeeds
    once the stream has failed. *)
Lemma inv_read x r :
  ws_inv settings r → 0 < rt_reads r →
  (true && rt_failed r && negb (match x with inl _ => true | inr _ => false end)) = false →
  ws_inv settings (run_handler (OnRead x)
    (mkRt (rt_session r) (rt_srv r) (rt_tasks r) (rt_accepts r) (pred (rt_reads r)) (rt_text r)
       (rt_writes r) (rt_closes r)
       (rt_failed r || match x with inl _ => true | inr _ => false end) (rt_fault r)
       (rt_events r) (rt_wire r) (rt_accepted r))).
Proof.
  intros [Hs [Hi|[Ho|Hsh]]] Hpos Hok.
  - destruct Hi as (_ & _ & _ & _ & ? & _). lia.
  - pose proof Ho as (_ & _ & Hfl & Hrd & _). rewrite Hfl in *. destruct x as [e|got].
    + apply shut_inv, (run_HandleClosed_open e r); [by split|lia|by left].
    + apply live_inv, run_OnRead_got; [by split|done].
  - pose proof Hsh as (_ & _ & Hfl & Hrd & _). rewrite Hfl in *. destruct x as [e|got]; [|done].
    apply shut_inv, (run_HandleClosed_shut e r); [by split|lia|by left].
Qed.

Lemma inv_write x r f w' :
  ws_inv settings r → rt_writes r = f :: w' →
  (true && rt_failed r && negb (match x with Some _ => true | None => false end)) = false →
  ws_inv settings (run_handler (OnWrite x)
    (mkRt (rt_session r) (rt_srv r) (rt_tasks r) (rt_accepts r) (rt_reads r) (rt_text r)
       w' (rt_closes r)
       (rt_failed r || match x with Some _ => true | None => false end) (rt_fault r)
       (rt_events r) (rt_wire r) (rt_accepted r))).
Proof.
  intros [Hs [Hi|[Ho|Hsh]]] Hw Hok.
  - destruct Hi as (_ & _ & _ & _ & _ & Hw0 & _). by rewrite Hw0 in Hw.
  - pose proof Ho as (_ & _ & Hfl & Hrd & _ & Hw0 & _). rewrite Hfl in *. destruct x as [e|].
    + apply shut_inv, (run_HandleClosed_open e r); [by split|done|right].
      rewrite Hw0 in Hw. by destruct (mWriteQueue (rt_session r)); simplify_eq/=.
    + apply live_inv, run_OnWrite_ok; [by split|eauto].
  - pose proof Hsh as (_ & _ & Hfl & Hrd & Hlen & _). rewrite Hfl in *. destruct x as [e|]; [|done].
    apply shut_inv, (run_HandleClosed_shut e r); [by split|done|right].
    rewrite Hw in Hlen. destruct w'; simpl in *; [done|lia].
Qed.

Lemma inv_closed r c' :
  ws_inv settings r → rt_closes r = S c' →
  ws_inv settings
    (mkRt (rt_session r) (rt_srv r) (rt_tasks r) (rt_accepts r) (rt_reads r) (rt_text r)
       (rt_writes r) c' (rt_failed r) (rt_fault r) (rt_events r) (rt_wire r) (rt_accepted r)).
Proof.
  intros [Hs Hph] Hc. split; [exact Hs|].
  destruct Hph as [Hi|[Ho|Hsh]].
  - destruct Hi as (_ & _ & _ & _ & _ & _ & Hc0 & _). congruence.
  - right; left. destruct Ho as (? & ? & ? & ? & ? & ? & ? & [Hle ?] & ? & ? & ?).
    unfold open_phase, close_ok. cbn. split_and!; try done. lia.
  - right; right. destruct Hsh as (? & ? & ? & ? & ? & ? & ? & [Hle ?] & ?).
    unfold shut_phase, close_ok. cbn. split_and!; try done. lia.
Qed.

Lemma ws_inv_step l r r' :
  label_ok l = true → ws_inv settings r →
  ws_exec IS_SSL self true l r = Some r' → ws_inv settings r'.
Proof.
  intros Hl Hinv He. pose proof Hinv as [Hs Hph]. pose proof Hs as (_ & _ & Htk).
  destruct r as [s v tk a rd tx w c fl ft ev wi ac].
  destruct l as [k| |ec|x|ec| |srv|]; cbn [ws_exec] in He.
  - simplify_eq. split; [|exact Hph]. destruct Hs as (? & ? & _). split_and!; try done. cbn.
    intros p [?|Heq%list_elem_of_singleton]%elem_of_app; [by apply Htk|].
    by subst k.
  - destruct tk as [|[p|] tk]; simplify_eq.
    + apply inv_task_send; [|apply Htk; by left]. split; [|exact Hph].
      destruct Hs as (? & ? & _). split_and!; try done. intros p' Hp'. apply Htk. by right.
    + apply inv_task_close. split; [|exact Hph].
      destruct Hs as (? & ? & _). split_and!; try done. intros p' Hp'. apply Htk. by right.
  - destruct a as [|a]; simplify_eq. destruct Hph as [Hi|[Ho|Hsh]].
    + eapply (run_OnAccept ec (mkRt s v tk (S a) rd tx w c fl ft ev wi ac));
        [exact Hs|exact Hi|simpl; lia].
    + by destruct Ho as (_ & ? & _).
    + by destruct Hsh as (_ & ? & _).
  - destruct rd as [|rd]; [done|]. case_match eqn:Hb; simplify_eq.
    by apply (inv_read x (mkRt s v tk a (S rd) tx w c fl ft ev wi ac)); [|simpl; lia|].
  - destruct w as [|f w]; [done|]. case_match eqn:Hb; simplify_eq.
    by apply (inv_write ec (mkRt s v tk a rd tx (f :: w) c fl ft ev wi ac) f).
  - destruct c as [|c]; simplify_eq.
    by apply (inv_closed (mkRt s v tk a rd tx w (S c) fl ft ev wi ac)).
  - destruct v; simplify_eq. split; [exact Hs|exact Hph].
  - simplify_eq. split; [exact Hs|exact Hph].
Qed.

Lemma ws_reachable_inv r : ws_reachable IS_SSL self true settings r → ws_inv settings r.
Proof.
  intros (srv & target & Hrun).
  apply (star_invariant (ws_inv settings) _ _) in Hrun; [done| |apply inv_start].
  intros x y Hx (l & Hl & He). by eapply ws_inv_step.
Qed.

Lemma reachable_open r :
  ws_reachable IS_SSL self true settings r → mOpen (rt_session r) = true → live r.
Proof.
  intros Hr Ho. destruct (ws_reachable_inv r Hr) as [Hs [Hi|[Hop|Hsh]]].
  - destruct Hi as (? & _). congruence.
  - by split.
  - destruct Hsh as (? & _). congruence.
Qed.

(** *** What a step asks of the server *)

(** The steps of the session itself: a posted closure, a completion. *)
Definition own_label (l : ws_label (Srv:=Srv)) : bool :=
  match l with WPost _ | WServer _ | WServerGone => false | _ => true end.

(** A close is requested, or about to be. *)
Definition closing r : Prop := mCloseRequested (rt_session r) = true ∨ TaskClose ∈ rt_tasks r.

(** Calls that leave the registration alone. *)
Inductive quiet : Srv → Srv → Prop :=
  | quiet_none v : quiet v v
  | quiet_log m v v' : LogError m v = (Ok tt, v') → quiet v v'
  | quiet_message i m v v' : OnWsMessage i m v = (Ok tt, v') → quiet v v'
  | quiet_content i c v v' : OnWsContent i c v = (Ok tt, v') → quiet v v'.

(** A step registers the session, reports its end, or does neither. *)
Inductive ws_effect r r' (v v' : Srv) : Prop :=
  | eff_quiet :
      quiet v v' → mOpen (rt_session r') = mOpen (rt_session r) →
      mClientId (rt_session r') = mClientId (rt_session r) → (closing r → closing r') →
      ws_effect r r' v v'
  | eff_register target :
      mOpen (rt_session r) = false → mOpen (rt_session r') = true →
      mClientId (rt_session r) = 0%Z →
      RegisterWsClient self target IS_SSL v = (Ok (mClientId (rt_session r')), v') →
      (mClientId (rt_session r') = 0%Z → closing r') → ws_effect r r' v v'
  | eff_closed v1 :
      mOpen (rt_session r) = true → mOpen (rt_session r') = false →
      mClientId (rt_session r') = mClientId (rt_session r) → quiet v v1 →
      OnWsClosed (mClientId (rt_session r)) v1 = (Ok tt, v') → ws_effect r r' v v'.

Hint Constructors quiet : cpp.

Lemma closing_task_send s v tk a rd tx w c fl ft ev wi ac p s' v' tx' w' c' fl' ft' ev' wi' ac' :
  mCloseRequested s' = mCloseRequested s →
  closing (mkRt s v (TaskSend p :: tk) a rd tx w c fl ft ev wi ac) →
  closing (mkRt s' v' tk a rd tx' w' c' fl' ft' ev' wi' ac').
Proof.
  unfold closing. cbn. intros -> [?|Hin]; [by left|right]. by apply elem_of_cons in Hin as [|].
Qed.

Lemma ws_exec_effect l r r' v :
  ws_inv settings r → rt_srv r = Some v → own_label l = true →
  ws_exec IS_SSL self true l r = Some r' →
  ∃ v', rt_srv r' = Some v' ∧ ws_effect r r' v v'.
Proof.
  intros [_ Hph] Hv Hl He.
  assert (Hacc : rt_accepts r ≠ 0 → mOpen (rt_session r) = false ∧ mClientId (rt_session r) = 0%Z).
  { destruct Hph as [Hph|[(_ & ? & _)|(_ & ? & _)]]; [|done..].
    split; [apply Hph|]. by repeat destruct Hph as [_ Hph]. }
  clear Hph. destruct r as [[st q tg id op cr cs dl] ? tk a rd tx w c fl ft ev wi ac].
  cbn in Hv, Hacc. subst. destruct l as [k| |ec|x|ec| |srv|]; try done; cbn [ws_exec] in He.
  - destruct tk as [|[p|] tk]; simplify_eq.
    + ws_run. ws_cases. all: eexists; (split; [reflexivity|]).
      all: apply eff_quiet; [by eauto with cpp|done|done|by apply closing_task_send].
    + ws_run. ws_cases. all: eexists; (split; [reflexivity|]).
      all: apply eff_quiet; eauto with cpp; by left.
  - destruct a as [|a]; simplify_eq. destruct (Hacc ltac:(done)). subst.
    ws_run. ws_cases. all: eexists; (split; [reflexivity|]).
    all: try (apply eff_quiet; by eauto with cpp).
    all: eapply eff_register; [done|done|done|eassumption|].
    all: unfold closing; cbn; intros ->; by auto.
  - destruct rd as [|rd]; [done|]. case_match; simplify_eq.
    unfold OnRead. destruct op. all: ws_run; ws_cases. all: eexists; (split; [reflexivity|]).
    all: try (apply eff_quiet; by eauto with cpp).
    all: eapply eff_closed; [done|done|done| |eassumption]; eauto with cpp.
  - destruct w as [|f w]; [done|]. case_match; simplify_eq.
    unfold OnWrite. destruct op. all: ws_run; ws_cases. all: eexists; (split; [reflexivity|]).
    all: try (apply eff_quiet; by eauto with cpp).
    all: eapply eff_closed; [done|done|done| |eassumption]; eauto with cpp.
  - destruct c; simplify_eq. eexists. split; [reflexivity|]. apply eff_quiet; eauto with cpp.
Qed.

(** One completed write of an open session: the next queued payload is written, or
    the requested close sent. *)
Lemma exec_written r p ps :
  live r → mWriteQueue (rt_session r) = p :: ps →
  ∃ r', ws_exec IS_SSL self true (WWritten None) r = Some r' ∧ live r'
        ∧ mWriteQueue (rt_session r') = ps
        ∧ mCloseRequested (rt_session r') = mCloseRequested (rt_session r)
        ∧ rt_accepted r' = rt_accepted r
        ∧ rt_closes r' = (if bool_decide (ps = []) && mCloseRequested (rt_session r)
                          then 1 else 0).
Proof.
  intros Hl Hq.
  assert (Hw : rt_writes r = [frame_of p]).
  { destruct Hl as (_ & _ & _ & _ & _ & _ & Hw & _). by rewrite Hq in Hw. }
  eexists. split; [|split; [by apply (run_OnWrite_ok r []); eauto|]].
  - destruct Hl as (_ & _ & _ & Hf & _). destruct r. cbn in *. by subst.
  - clear Hw. revert Hl Hq. ws_intro r. cbn. intros ->.
    destruct cs; [by destruct (Hcs eq_refl) as (_ & ? & _)|].
    ws_run. destruct ps; cbn; [destruct cr; cbn; split_and!; try done; lia|].
    inversion_clear Hqok as [|? ? _ Hqok']. inversion_clear Hqok' as [|? ? Hp' _].
    rewrite (payload_ok_buffer _ Hp'). cbn. split_and!; try done. lia.
Qed.

Lemma drain q r :
  live r → mWriteQueue (rt_session r) = q → q ≠ [] → mCloseRequested (rt_session r) = true →
  ∃ r', ws_exec_all IS_SSL self true (replicate (length q) (WWritten None)) r = Some r'
        ∧ live r' ∧ mWriteQueue (rt_session r') = []
        ∧ mCloseRequested (rt_session r') = true
        ∧ rt_accepted r' = rt_accepted r ∧ rt_closes r' = 1.
Proof.
  revert r. induction q as [|p q IH]; [done|]. intros r Hl Hq _ Hcr.
  destruct (exec_written r p q Hl Hq) as (r1 & He & Hl1 & Hq1 & Hcr1 & Hac1 & Hcl1).
  cbn. rewrite He. destruct q as [|p' q].
  - exists r1. cbn in *. rewrite Hcr in *. split_and!; done.
  - destruct (IH r1 Hl1 Hq1) as (r' & Hr' & ? & ? & ? & ? & ?); [done|congruence|].
    exists r'. split_and!; try done; congruence.
Qed.
(** A posted closure of an open session. *)
Lemma exec_task r k tk :
  live r → rt_tasks r = k :: tk →
  ∃ r', ws_exec IS_SSL self true WTask r = Some r' ∧ live r' ∧ rt_tasks r' = tk
        ∧ (mCloseRequested (rt_session r) = true ∨ k = TaskClose →
           mCloseRequested (rt_session r') = true).
Proof.
  intros Hl Htk. set (r1 := mkRt (rt_session r) (rt_srv r) tk (rt_accepts r) (rt_reads r)
    (rt_text r) (rt_writes r) (rt_closes r) (rt_failed r) (rt_fault r) (rt_events r) (rt_wire r)
    (rt_accepted r)).
  assert (Hl1 : live r1).
  { destruct Hl as [(? & ? & Hp) Ho]. split; [|exact Ho]. split_and!; [done|done|].
    intros p Hin. apply Hp. rewrite Htk. by right. }
  destruct k as [p|].
  - assert (Hp : payload_ok p = true) by (apply Hl; rewrite Htk; by left).
    exists (note_accepted p r1 (run_handler (Send_posted p) r1)).
    split; [destruct r; cbn in *; by subst|]. split; [by apply run_Send_open|].
    destruct r as [[st q tg id op cr cs dl] v tk' a rd tx w c fl ft ev wi ac].
    subst r1. clear Hl Hl1 Htk. cbn in *. ws_run. ws_cases.
    all: split; [done|intros [?|?]; congruence].
  - exists (run_handler Close_posted r1).
    split; [destruct r; cbn in *; by subst|]. split; [by apply run_Close_open|].
    destruct r as [[st q tg id op cr cs dl] v tk' a rd tx w c fl ft ev wi ac].
    subst r1. clear Hl Hl1 Htk. cbn in *. ws_run. ws_cases. all: done.
Qed.

Lemma run_tasks tk r :
  live r → rt_tasks r = tk →
  ∃ r', ws_exec_all IS_SSL self true (replicate (length tk) WTask) r = Some r' ∧ live r'
        ∧ (closing r → mCloseRequested (rt_session r') = true).
Proof.
  revert r. induction tk as [|k tk IH]; intros r Hl Htk.
  - exists r. split_and!; [done|done|]. unfold closing. rewrite Htk.
    intros [?|?%not_elem_of_nil]; done.
  - destruct (exec_task r k tk Hl Htk) as (r1 & He & Hl1 & Htk1 & Hcr).
    destruct (IH r1 Hl1 Htk1) as (r' & Hr' & Hl' & Hc). exists r'.
    cbn [length replicate ws_exec_all]. rewrite He. split_and!; [done|done|].
    intros Hcl. apply Hc. unfold closing in *. rewrite Htk in Hcl. rewrite Htk1.
    destruct Hcl as [?|[<-|?]%elem_of_cons]; [left; by auto..|by right].
Qed.

Lemma ws_exec_all_app l1 l2 r r1 :
  ws_exec_all IS_SSL self true l1 r = Some r1 →
  ws_exec_all IS_SSL self true (l1 ++ l2) r = ws_exec_all IS_SSL self true l2 r1.
Proof.
  revert r. induction l1 as [|l l1 IH]; intros r He; cbn in *; [by simplify_eq|].
  destruct (ws_exec _ _ _ l r); [by apply IH|done].
Qed.

(** What is posted and queued when a close is due delays it, and no more. *)
Lemma closing_sends r :
  live r → closing r →
  ∃ n r', ws_exec_all IS_SSL self true
            (replicate (length (rt_tasks r)) WTask ++ replicate n (WWritten None)) r = Some r'
          ∧ mCloseSent (rt_session r') = true ∧ mWriteQueue (rt_session r') = [].
Proof.
  intros Hl Hc. destruct (run_tasks _ r Hl eq_refl) as (r1 & He & Hl1 & Hcr).
  specialize (Hcr Hc). destruct (mWriteQueue (rt_session r1)) as [|p q] eqn:Hq.
  - exists 0, r1. rewrite app_nil_r. split_and!; [done| |done].
    destruct Hl1 as (_ & _ & _ & _ & _ & _ & _ & _ & _ & Hdue & _). by apply Hdue.
  - destruct (drain (p :: q) r1 Hl1 Hq) as (r' & He' & Hl' & Hq' & Hcr' & _ & _); [done..|].
    exists (length (p :: q)), r'. rewrite (ws_exec_all_app _ _ _ _ He). split_and!; [done| |done].
    destruct Hl' as (_ & _ & _ & _ & _ & _ & _ & _ & _ & Hdue & _). by apply Hdue.
Qed.

(** *** One close frame *)

(** Every [async_close] that is outstanding or has completed is paid for by [mCloseSent],
    which is set once. *)
Definition close_sent r : nat := if mCloseSent (rt_session r) then 1 else 0.

Definition closes_done (l : ws_label (Srv:=Srv)) : nat := match l with WClosed => 1 | _ => 0 end.

Lemma ws_exec_closes contract l r r' :
  ws_exec IS_SSL self contract l r = Some r' →
  rt_closes r' + closes_done l + close_sent r ≤ rt_closes r + close_sent r'.
Proof.
  destruct r as [[st q tg id op cr cs dl] v tk a rd tx w c fl ft ev wi ac]. unfold close_sent.
  destruct l as [k| |ec|x|ec| |srv|]; cbn [ws_exec]; intros He.
  - simplify_eq. cbn. lia.
  - destruct tk as [|[p|] tk]; simplify_eq; ws_run; ws_cases; cbn; lia.
  - destruct a; simplify_eq; ws_run; ws_cases; cbn; lia.
  - destruct rd; [done|]. case_match; simplify_eq. unfold OnRead.
    destruct op; ws_run; ws_cases; cbn; lia.
  - destruct w; [done|]. case_match; simplify_eq. unfold OnWrite.
    destruct op; ws_run; ws_cases; cbn; lia.
  - destruct c; simplify_eq. cbn. lia.
  - destruct v; simplify_eq. cbn. lia.
  - simplify_eq. cbn. lia.
Qed.

Lemma ws_exec_all_closes contract ls r r' :
  ws_exec_all IS_SSL self contract ls r = Some r' →
  rt_closes r' + sum_list (closes_done <$> ls) + close_sent r ≤ rt_closes r + close_sent r'.
Proof.
  revert r. induction ls as [|l ls IH]; intros r He; cbn in He |- *; [simplify_eq; lia|].
  destruct (ws_exec _ _ _ l r) as [r1|] eqn:H1; [|done].
  pose proof (ws_exec_closes _ _ _ _ H1). pose proof (IH r1 He). lia.
Qed.

End Invariant.

Lemma ws_exec_all_reachable {Srv} `{IServerEvents Srv} isSsl self contract settings srv target
    ls (r0 r : ws_rt Srv) :
  star (ws_step isSsl self contract) (ws_start settings srv target) r0 →
  forallb label_ok ls = true → ws_exec_all isSsl self contract ls r0 = Some r →
  ws_reachable isSsl self contract settings r.
Proof.
  revert r0. induction ls as [|l ls IH]; intros r0 Hs Hok Hx; cbn in Hok, Hx.
  { simplify_eq. by exists srv, target. }
  apply andb_prop in Hok as [Hl Hok].
  destruct (ws_exec isSsl self contract l r0) as [r1|] eqn:He; [|done].
  eapply IH; [|done..]. eapply star_trans; [done|]. apply star_one. by exists l.
Qed.

(** ** Properties of every run *)

(** C20. No handler has undefined behaviour whatever the order of posted closures,
    completions and errors; at most one read is outstanding, and at most one operation
    that writes ([async_write] or [async_close]), as the stream requires; and in the whole
    run [async_close] is started at most once: those that have completed and those that
    are outstanding are together at most one. *)
Theorem ws_session_operations {Srv} `{ServerEventsLaws Srv} isSsl self settings srv target ls
    (r : ws_rt Srv) :
  forallb label_ok ls = true →
  ws_exec_all isSsl self true ls (ws_start settings srv target) = Some r →
  rt_fault r = None ∧ rt_accepts r ≤ 1 ∧ rt_reads r ≤ 1
  ∧ length (rt_writes r) + rt_closes r ≤ 1
  ∧ rt_closes r + sum_list (closes_done <$> ls) ≤ 1.
Proof.
  intros Hls He. assert (Hone : rt_closes r + sum_list (closes_done <$> ls) ≤ 1).
  { pose proof (ws_exec_all_closes _ _ _ _ _ _ He) as Hc.
    assert (close_sent r ≤ 1) by (unfold close_sent; destruct (mCloseSent _); lia).
    change (rt_closes (ws_start settings srv target)) with 0 in Hc. lia. }
  assert (Hr : ws_reachable isSsl self true settings r)
    by (eapply ws_exec_all_reachable; [apply star_refl|exact Hls|exact He]).
  destruct (ws_reachable_inv isSsl self settings r Hr)
    as [(Hft & _) [Hi|[Ho|Hsh]]].
  - destruct Hi as (_ & _ & _ & ? & -> & -> & -> & _). simpl. split_and!; try done; lia.
  - destruct Ho as (_ & -> & _ & ? & _ & Hw & _ & [Hcl Hcs] & _).
    assert (length (rt_writes r) ≤ 1) by (rewrite Hw, length_fmap, length_take; lia).
    destruct (mCloseSent _); [|split_and!; try done; lia].
    destruct Hcs as (_ & _ & ->); [done|]. simpl. split_and!; try done; lia.
  - destruct Hsh as (_ & -> & _ & ? & ? & _ & _ & [Hcl Hcs] & _).
    destruct (mCloseSent _); [|split_and!; try done; lia].
    destruct Hcs as (_ & _ & ->); [done|]. simpl. split_and!; try done; lia.
Qed.

(** C21. What reaches the wire is, message by message, the accepted payloads in the order
    their closures ran: a prefix of them always, and while the session is open exactly
    all but those still queued behind the write in flight. *)
Theorem ws_session_fifo {Srv} `{ServerEventsLaws Srv} isSsl self settings (r : ws_rt Srv) :
  ws_reachable isSsl self true settings r →
  rt_wire r `prefix_of` (frame_of <$> rt_accepted r)
  ∧ (mOpen (rt_session r) = true →
     frame_of <$> rt_accepted r = rt_wire r ++ (frame_of <$> drop 1 (mWriteQueue (rt_session r)))
     ∧ rt_writes r = frame_of <$> take 1 (mWriteQueue (rt_session r))).
Proof.
  intros Hr. split.
  - destruct (ws_reachable_inv isSsl self settings r Hr) as [_ [Hi|[Ho|Hsh]]].
    + destruct Hi as (_ & _ & _ & _ & _ & _ & _ & _ & _ & -> & -> & _). done.
    + destruct Ho as (_ & _ & _ & _ & _ & _ & -> & _). by apply prefix_app_r.
    + by destruct Hsh as (_ & _ & _ & _ & _ & _ & ? & _).
  - intros Ho. destruct (reachable_open isSsl self settings r Hr Ho) as [_ Hp].
    by destruct Hp as (_ & _ & _ & _ & _ & ? & ? & _).
Qed.

(** C24. The calls a session makes on the server, log lines apart: none before the accept,
    then one registration, the messages received under the id it returned, and at
    most one closing call, after which there are none. *)
Theorem ws_session_calls {Srv} `{ServerEventsLaws Srv} isSsl self settings (r : ws_rt Srv) :
  ws_reachable isSsl self true settings r →
  calls (rt_events r) = []
  ∨ ∃ closed, call_order (mClientId (rt_session r)) closed (rt_events r)
              ∧ (mOpen (rt_session r) = true → closed = false).
Proof.
  intros Hr. destruct (ws_reachable_inv isSsl self settings r Hr) as [_ [Hi|[Ho|Hsh]]].
  - left. by destruct Hi as (_ & _ & _ & _ & _ & _ & _ & _ & ? & _).
  - right. exists false. split; [|done].
    by destruct Ho as (_ & _ & _ & _ & _ & _ & _ & _ & _ & _ & ?).
  - right. destruct Hsh as (Hop & _ & _ & _ & _ & _ & _ & _ & closed & ?).
    exists closed. split; [done|congruence].
Qed.

(** C39. The write queue never exceeds a positive [maxSessionBacklog]. *)
Theorem ws_session_backlog {Srv} `{ServerEventsLaws Srv} isSsl self settings (r : ws_rt Srv) :
  ws_reachable isSsl self true settings r → (0 < maxSessionBacklog settings)%Z →
  (Z.of_nat (length (mWriteQueue (rt_session r))) ≤ maxSessionBacklog settings)%Z.
Proof.
  intros Hr Hpos. destruct (ws_reachable_inv isSsl self settings r Hr) as [_ [Hi|[Ho|Hsh]]].
  - destruct Hi as (_ & _ & -> & _). simpl. lia.
  - destruct Ho as (_ & _ & _ & _ & _ & _ & _ & _ & _ & Hb & _). by apply Hb.
  - destruct Hsh as (_ & _ & _ & _ & _ & -> & _). simpl. lia.
Qed.

(** A requested close is not lost behind queued data: when every write succeeds, each
    queued payload is written first and then exactly one [async_close] is started. *)
Theorem ws_session_close_drains {Srv} `{ServerEventsLaws Srv} isSsl self settings (r : ws_rt Srv) :
  ws_reachable isSsl self true settings r →
  mOpen (rt_session r) = true → mCloseRequested (rt_session r) = true →
  mCloseSent (rt_session r) = true
  ∨ ∃ r', ws_exec_all isSsl self true
            (replicate (length (mWriteQueue (rt_session r))) (WWritten None)) r = Some r'
          ∧ rt_wire r' = (frame_of <$> rt_accepted r) ∧ rt_accepted r' = rt_accepted r
          ∧ rt_closes r' = 1 ∧ mCloseSent (rt_session r') = true.
Proof.
  intros Hr Ho Hcr. pose proof (reachable_open isSsl self settings r Hr Ho) as Hl.
  destruct (mWriteQueue (rt_session r)) as [|p q] eqn:Hq.
  { left. destruct Hl as (_ & _ & _ & _ & _ & _ & _ & _ & _ & Hdue & _). by apply Hdue. }
  right. destruct (drain isSsl self settings (p :: q) r Hl Hq) as (r' & He & Hl' & Hq' & Hcr' & Hac & Hcl);
    [done..|].
  destruct Hl' as (_ & _ & _ & _ & _ & _ & _ & Hw' & _ & Hdue & _).
  exists r'. split_and!; try done; [|by apply Hdue].
  rewrite Hac, Hq' in Hw'. cbn in Hw'. by rewrite app_nil_r in Hw'.
Qed.

(** What [HandleClosed] stays silent about. *)
Definition expected_close (requested : bool) (ec : error_code) : bool :=
  ec_is EcClosed ec || ec_is EcAborted ec || ec_is EcEof ec
  || ec_is EcReset ec || ec_is EcTimeout ec || requested.

(** The calls [HandleClosed] makes for an open session. *)
Definition close_report (s : WsSession) (e : error_code) : list ws_event :=
  (if expected_close (mCloseRequested s) e then []
   else [EvLog (DescribeError ("client " +:+ to_string (mClientId s) +:+ " connection") e)])
  ++ [EvClosed (mClientId s)].

Lemma HandleClosed_reports {Srv} `{ServerEventsLaws Srv} (s : WsSession) (srv : Srv) e :
  mOpen s = true →
  ∃ srv', HandleClosed e (s, Some srv)
          = (Ok tt, (set_mOpen false (set_mWriteQueue [] s), Some srv'),
             OpEvent <$> close_report s e).
Proof.
  destruct s as [st q tg id op cr cs dl]. cbn. intros ->.
  unfold HandleClosed, ws_LogError, call_events, lock_call, session, bind, ret, gets, modify, when,
    close_report, expected_close. cbn.
  destruct (_ || cr); cbn.
  - destruct (OnWsClosed_total id srv) as [srv' ->]. by exists srv'.
  - destruct (LogError_total (DescribeError ("client " +:+ to_string id +:+ " connection") e) srv)
      as [srv1 ->]. cbn.
    destruct (OnWsClosed_total id srv1) as [srv' ->]. by exists srv'.
Qed.

Lemma apply_events {Srv} ev s v t a rd tx w c fl ft ev0 wi ac :
  apply_ops (Srv:=Srv) (OpEvent <$> ev) (mkRt s v t a rd tx w c fl ft ev0 wi ac)
  = mkRt s v t a rd tx w c fl ft (ev0 ++ ev) wi ac.
Proof.
  revert ev0. induction ev as [|e ev IH]; intros ev0; cbn; [by rewrite app_nil_r|].
  fold (apply_ops (Srv:=Srv)). etransitivity; [apply IH|]. by rewrite <-app_assoc.
Qed.

(** C40. The first error of an open session, from the read or from the write, is reported
    to a living server exactly once: a log line unless the error was expected, then
    the closing call; the queue is dropped and nothing more is started. *)
Theorem ws_session_first_error {Srv} `{ServerEventsLaws Srv} isSsl self contract
    (r : ws_rt Srv) srv e (l : ws_label) :
  mOpen (rt_session r) = true → rt_srv r = Some srv →
  (l = WRead (inl e) ∧ 0 < rt_reads r) ∨ (l = WWritten (Some e) ∧ rt_writes r ≠ []) →
  ∃ r', ws_exec isSsl self contract l r = Some r'
    ∧ rt_events r' = rt_events r ++ close_report (rt_session r) e
    ∧ mOpen (rt_session r') = false ∧ mWriteQueue (rt_session r') = []
    ∧ rt_tasks r' = rt_tasks r ∧ rt_wire r' = rt_wire r ∧ rt_closes r' = rt_closes r.
Proof.
  intros Ho Hsrv Hl.
  destruct r as [s v tk a rd tx w c fl ft ev wi ac]. cbn in Ho, Hsrv, Hl. subst v.
  destruct (HandleClosed_reports s srv e Ho) as [srv' Hc].
  destruct Hl as [[-> Hpos]|[-> Hw]].
  - destruct rd as [|rd]; [lia|]. cbn [ws_exec]. rewrite andb_false_r. eexists.
    split; [reflexivity|]. unfold run_handler, OnRead. rewrite Hc, apply_events. done.
  - destruct w as [|f w]; [done|]. cbn [ws_exec]. rewrite andb_false_r. eexists.
    split; [reflexivity|]. unfold run_handler, OnWrite. rewrite Hc, apply_events. done.
Qed.

(** ** Concrete runs *)

(** A session with the default settings on the recording server. *)
Definition demo_settings : CServerSettings := default_server_settings 0.
Definition demo_run (contract : bool) (ls : list (ws_label (Srv:=recorder))) : ws_rt recorder :=
  let r0 := ws_start demo_settings (Some (mkRecorder 1 [])) "/chat" in
  default r0 (ws_exec_all false 0 contract ls r0).
Definition demo_text : SPayload := MakeTextPayload "hello".
Definition demo_ec (k : ec_kind) : error_code := mkEc k "message" "printed".

(** Two messages queued, then a requested close. *)
Definition demo_labels : list (ws_label (Srv:=recorder)) :=
  [WAccepted None; WPost (TaskSend demo_text); WPost (TaskSend demo_text); WPost TaskClose;
   WTask; WTask; WTask].

Lemma demo_reachable contract ls :
  forallb label_ok ls = true →
  is_Some (ws_exec_all false 0 contract ls
             (ws_start demo_settings (Some (mkRecorder 1 [])) "/chat")) →
  ws_reachable false 0 contract demo_settings (demo_run contract ls).
Proof.
  intros Hok [r Hr]. unfold demo_run. rewrite Hr. cbn.
  by eapply ws_exec_all_reachable; [apply star_refl| |].
Qed.

(** The two messages are written, the close frame is sent and acknowledged. *)
Definition demo_closing : list (ws_label (Srv:=recorder)) :=
  demo_labels ++ [WWritten None; WWritten None; WClosed].

Lemma ws_session_operations_witness :
  rt_fault (demo_run true demo_closing) = None
  ∧ rt_closes (demo_run true demo_closing) + sum_list (closes_done <$> demo_closing) = 1
  ∧ rt_closes (demo_run true demo_closing) + sum_list (closes_done <$> demo_closing) ≤ 1.
Proof.
  destruct (ws_session_operations false 0 demo_settings (Some (mkRecorder 1 [])) "/chat" demo_closing
              (demo_run true demo_closing)) as (Hf & _ & _ & _ & Hc); [by vm_compute..|].
  split; [exact Hf|]. split; [by vm_compute|exact Hc].
Defined.

Lemma ws_session_fifo_witness :
  rt_wire (demo_run true demo_labels)
    `prefix_of` (frame_of <$> rt_accepted (demo_run true demo_labels))
  ∧ length (rt_accepted (demo_run true demo_labels)) = 2.
Proof.
  split; [|by vm_compute].
  apply (ws_session_fifo false 0 demo_settings (demo_run true demo_labels)).
  apply demo_reachable; [by vm_compute|]. eexists. by vm_compute.
Defined.

Lemma ws_session_calls_witness :
  calls (rt_events (demo_run true (demo_labels ++ [WRead (inl (demo_ec EcClosed))])))
    = [EvRegister "/chat" false 1; EvClosed 1]
  ∧ (calls (rt_events (demo_run true demo_labels)) = []
     ∨ ∃ closed, call_order (mClientId (rt_session (demo_run true demo_labels))) closed
                   (rt_events (demo_run true demo_labels))
         ∧ (mOpen (rt_session (demo_run true demo_labels)) = true → closed = false)).
Proof.
  split; [by vm_compute|].
  apply (ws_session_calls false 0 demo_settings (demo_run true demo_labels)).
  apply demo_reachable; [by vm_compute|]. eexists. by vm_compute.
Defined.

Lemma ws_session_backlog_witness :
  length (mWriteQueue (rt_session (demo_run true demo_labels))) = 2
  ∧ (Z.of_nat (length (mWriteQueue (rt_session (demo_run true demo_labels)))) ≤ 1024)%Z.
Proof.
  split; [by vm_compute|].
  apply (ws_session_backlog false 0 demo_settings (demo_run true demo_labels)); [|done].
  apply demo_reachable; [by vm_compute|]. eexists. by vm_compute.
Defined.

Lemma ws_session_close_drains_witness :
  mCloseSent (rt_session (demo_run true demo_labels)) = false
  ∧ (mCloseSent (rt_session (demo_run true demo_labels)) = true
     ∨ ∃ r', ws_exec_all false 0 true
          (replicate (length (mWriteQueue (rt_session (demo_run true demo_labels))))
             (WWritten None)) (demo_run true demo_labels) = Some r'
        ∧ rt_wire r' = (frame_of <$> rt_accepted (demo_run true demo_labels))
        ∧ rt_accepted r' = rt_accepted (demo_run true demo_labels)
        ∧ rt_closes r' = 1 ∧ mCloseSent (rt_session r') = true).
Proof.
  split; [by vm_compute|].
  apply (ws_session_close_drains false 0 demo_settings (demo_run true demo_labels));
    [|by vm_compute|by vm_compute].
  apply demo_reachable; [by vm_compute|]. eexists. by vm_compute.
Defined.

Lemma ws_session_first_error_witness :
  ∃ r', ws_exec false 0 true (WRead (inl (demo_ec (EcOther 7)))) (demo_run true [WAccepted None])
          = Some r'
        ∧ length (rt_events r') = 3.
Proof.
  destruct (ws_session_first_error false 0 true (demo_run true [WAccepted None])
              (mkRecorder 2 [RecRegister 0 "/chat" false]) (demo_ec (EcOther 7))
              (WRead (inl (demo_ec (EcOther 7))))) as (r' & He & Hev & _).
  - by vm_compute.
  - by vm_compute.
  - left. split; [done|]. apply Nat.ltb_lt. by vm_compute.
  - exists r'. split; [done|]. rewrite Hev. by vm_compute.
Defined.

(** A read error while a write is outstanding: [HandleClosed] clears the queue, which
    owns the buffer the write is still sending from. *)
Theorem ws_buffer_released_in_flight :
  ∃ r : ws_rt recorder, ws_reachable false 0 true demo_settings r
    ∧ rt_writes r = [frame_of demo_text] ∧ mWriteQueue (rt_session r) = [].
Proof.
  exists (demo_run true [WAccepted None; WPost (TaskSend demo_text); WTask;
                         WRead (inl (demo_ec EcEof))]).
  split; [|split; by vm_compute].
  apply demo_reachable; [by vm_compute|]. eexists. by vm_compute.
Qed.

(** [OnWrite] pops the queue without testing it: if the stream ever completed a write
    successfully after a failed read, the pop would be on an empty deque. *)
Theorem ws_pop_empty_without_contract :
  ∃ (r : ws_rt recorder) what, ws_reachable false 0 false demo_settings r
    ∧ rt_fault r = Some (UndefinedBehaviour what).
Proof.
  exists (demo_run false [WAccepted None; WPost (TaskSend demo_text); WTask;
                          WRead (inl (demo_ec EcEof)); WWritten None]),
    "pop_front() of an empty deque".
  split; [|by vm_compute].
  apply demo_reachable; [by vm_compute|]. eexists. by vm_compute.
Qed.
