(* ===== verification/Threads.v ===== *)
(** * Threads: programs made of critical sections

    The server object is shared by application threads, IO threads and its worker.
    Its operations are written as programs over the shared state [S]: [Atomic] is one
    critical section (or one access to an atomic variable), [Emit] an effect outside
    every lock.  A program has a sequential meaning ([run]) and, in a [pool], an
    interleaved one ([pool_step]).

    [wp] proves properties of programs one thread at a time.  Between two of its own
    steps a thread knows the invariant only.  Some effects have to be paid for with
    tokens; a thread gets them from its critical sections. *)

From stdpp Require Import gmultiset.
From S2P Require Import Prelude.

Inductive prog (S E A : Type) : Type :=
  | Done (r : res A)
  | Atomic (upd : S → S) (next : S → prog S E A)  (** [next] sees the state before *)
  | Emit (e : E) (p : prog S E A).
Arguments Done {S E A} r.
Arguments Atomic {S E A} upd next.
Arguments Emit {S E A} e p.

(** What a program does among others: a section finds a state, an effect is had. *)
Inductive moment (S E : Type) : Type := Saw (s : S) | Did (e : E).
Arguments Saw {S E} s.
Arguments Did {S E} e.

Section Programs.
Context {S E : Type}.

Fixpoint pbind {A B} (p : prog S E A) (k : A → prog S E B) : prog S E B :=
  match p with
  | Done (Ok a) => k a
  | Done (Throw f) => Done (Throw f)
  | Atomic upd next => Atomic upd (λ s, pbind (next s) k)
  | Emit e p => Emit e (pbind p k)
  end.

Definition pret {A} (a : A) : prog S E A := Done (Ok a).
Definition pthrow {A} (f : fault) : prog S E A := Done (Throw f).
Definition pemit (e : E) : prog S E unit := Emit e (pret tt).
Definition pwhen (b : bool) (p : prog S E unit) : prog S E unit := if b then p else pret tt.

(** [{ std::lock_guard lock(m); ... }]: the section's result and the state it leaves. *)
Definition locked {A} (f : S → A * S) : prog S E A :=
  Atomic (λ s, (f s).2) (λ s, pret (f s).1).

(** The same for a section that may throw (the guard releases the lock). *)
Definition locked_res {A} (f : S → res A * S) : prog S E A :=
  Atomic (λ s, (f s).2) (λ s, Done (f s).1).

Definition pgets {A} (f : S → A) : prog S E A := locked (λ s, (f s, s)).

(** [try { p } catch (f) { h }]. *)
Fixpoint pcatch {A} (p : prog S E A) (h : fault → prog S E A) : prog S E A :=
  match p with
  | Done (Ok a) => Done (Ok a)
  | Done (Throw f) => h f
  | Atomic upd next => Atomic upd (λ s, pcatch (next s) h)
  | Emit e p => Emit e (pcatch p h)
  end.

Fixpoint pfor {A} (l : list A) (f : A → prog S E unit) : prog S E unit :=
  match l with
  | [] => pret tt
  | x :: l' => pbind (f x) (λ _, pfor l' f)
  end.

(** A call whose result the caller ignores. *)
Definition call {A} (p : prog S E A) : prog S E unit := pbind p (λ _, pret tt).

(** The program run without interference. *)
Fixpoint run {A} (p : prog S E A) : cpp S E A := λ s,
  match p with
  | Done r => (r, s, [])
  | Atomic upd next => run (next s) (upd s)
  | Emit e p => match run p s with (r, s', w) => (r, s', e :: w) end
  end.

Lemma run_bind {A B} (p : prog S E A) (k : A → prog S E B) s :
  run (pbind p k) s = bind (run p) (λ a, run (k a)) s.
Proof.
  revert s. induction p as [[a|f]|upd next IH|e p IH]; intros s; cbn.
  - unfold bind. cbn. by destruct (run (k a) s) as [[r s'] w].
  - done.
  - apply IH.
  - rewrite IH. unfold bind. destruct (run p s) as [[[a|f] s'] w]; [|done].
    by destruct (run (k a) s') as [[r s''] w'].
Qed.

(** A first part whose run is known. *)
Lemma run_then {A B} (p : prog S E A) (k : A → prog S E B) s a s1 w1 :
  run p s = (Ok a, s1, w1) →
  run (pbind p k) s = match run (k a) s1 with (r, s2, w2) => (r, s2, w1 ++ w2) end.
Proof. intros Hp. rewrite run_bind. unfold bind. by rewrite Hp. Qed.

Lemma run_catch {A} (p : prog S E A) h s :
  run (pcatch p h) s =
    match run p s with
    | (Ok a, s', w) => (Ok a, s', w)
    | (Throw f, s', w) => match run (h f) s' with (r, s'', w') => (r, s'', w ++ w') end
    end.
Proof.
  revert s. induction p as [[a|f]|upd next IH|e p IH]; intros s; cbn.
  - done.
  - by destruct (run (h f) s) as [[r s'] w].
  - apply IH.
  - rewrite IH. destruct (run p s) as [[[a|f] s'] w]; [done|].
    by destruct (run (h f) s') as [[r s''] w'].
Qed.

(** A program that cannot throw, whatever the states its sections find. *)
Fixpoint no_throw {A} (p : prog S E A) : Prop :=
  match p with
  | Done (Ok _) => True
  | Done (Throw _) => False
  | Atomic _ next => ∀ s, no_throw (next s)
  | Emit _ p => no_throw p
  end.

Lemma no_throw_bind {A B} (p : prog S E A) (k : A → prog S E B) :
  no_throw p → (∀ a, no_throw (k a)) → no_throw (pbind p k).
Proof. intros Hp Hk. induction p as [[a|f]|upd next IH|e p IH]; cbn in *; auto. Qed.

Lemma no_throw_for {A} (l : list A) f : (∀ x, no_throw (f x)) → no_throw (pfor l f).
Proof. intros Hf. induction l; cbn; [done|]. by apply no_throw_bind. Qed.

Lemma no_throw_catch {A} (p : prog S E A) h :
  (∀ f, no_throw (h f)) → no_throw (pcatch p h).
Proof. intros Hh. induction p as [[a|f]|upd next IH|e p IH]; cbn in *; auto. Qed.

Lemma no_throw_run {A} (p : prog S E A) s :
  no_throw p → ∃ a s' w, run p s = (Ok a, s', w).
Proof.
  revert s. induction p as [[a|f]|upd next IH|e p IH]; intros s Hp; cbn in *; eauto; [done|].
  destruct (IH s Hp) as (a & s' & w & ->). eauto.
Qed.

(** From any state its sections find, the rest of a thread has the effect [o]. *)
Fixpoint will_emit {A} (o : E) (p : prog S E A) : Prop :=
  match p with
  | Done _ => False
  | Atomic _ next => ∀ s, will_emit o (next s)
  | Emit e p => e = o ∨ will_emit o p
  end.

Lemma will_emit_bind_l {A B} o (p : prog S E A) (k : A → prog S E B) :
  will_emit o p → will_emit o (pbind p k).
Proof.
  induction p as [r|upd next IH|e p IH]; cbn; [done|by auto|].
  intros [->|?]; [by left|by right; auto].
Qed.

Lemma will_emit_bind_r {A B} o (p : prog S E A) (k : A → prog S E B) :
  no_throw p → (∀ a, will_emit o (k a)) → will_emit o (pbind p k).
Proof.
  intros Hn Hk. induction p as [[a|f]|upd next IH|e p IH]; cbn in *; [by auto|done|by auto|by auto].
Qed.

Lemma will_emit_catch {A} o (p : prog S E A) h : will_emit o p → will_emit o (pcatch p h).
Proof.
  induction p as [r|upd next IH|e p IH]; cbn; [done|by auto|].
  intros [->|?]; [by left|right; auto].
Qed.

Lemma will_emit_insert o (ps : list (prog S E unit)) j p p' :
  ps !! j = Some p → (will_emit o p → will_emit o p') →
  (∃ q, q ∈ ps ∧ will_emit o q) → ∃ q, q ∈ <[j:=p']> ps ∧ will_emit o q.
Proof.
  intros Hj Hp (q & Hq & Hw). apply list_elem_of_lookup in Hq as [k Hk].
  destruct (decide (k = j)) as [->|Hne].
  - assert (q = p) as -> by congruence. exists p'. split; [|by apply Hp].
    apply list_elem_of_insert. by eapply lookup_lt_Some.
  - exists q. split; [|done]. apply list_elem_of_lookup. exists k.
    by rewrite list_lookup_insert_ne.
Qed.

Lemma will_emit_done o (ps : list (prog S E unit)) :
  Forall (λ p, ∃ r, p = Done r) ps → ¬ ∃ p, p ∈ ps ∧ will_emit o p.
Proof. intros Hps (p & Hp & Hw). rewrite Forall_forall in Hps. by destruct (Hps p Hp) as [r ->]. Qed.

(** A call that an event makes: it has no effect of a kind. *)
Fixpoint never {A} (bad : E → bool) (p : prog S E A) : Prop :=
  match p with
  | Done _ => True
  | Atomic _ next => ∀ s, never bad (next s)
  | Emit e p => bad e = false ∧ never bad p
  end.

Lemma never_bind {A B} bad (p : prog S E A) (k : A → prog S E B) :
  never bad p → (∀ a, never bad (k a)) → never bad (pbind p k).
Proof.
  intros Hp Hk. induction p as [[a|f]|upd next IH|e p IH]; cbn in *; [by auto|done|by auto|].
  destruct Hp. by auto.
Qed.

Lemma never_catch {A} bad (p : prog S E A) h :
  never bad p → (∀ f, never bad (h f)) → never bad (pcatch p h).
Proof.
  intros Hp Hh. induction p as [[a|f]|upd next IH|e p IH]; cbn in *; [done|by auto|by auto|].
  destruct Hp. auto.
Qed.

Lemma never_for {A} bad (l : list A) f : (∀ x, never bad (f x)) → never bad (pfor l f).
Proof. intros Hf. induction l; cbn; [done|]. by apply never_bind. Qed.

Lemma never_option {A} bad (o : option A) (k : A → prog S E unit) :
  (∀ a, never bad (k a)) → never bad (match o with Some a => k a | None => pret tt end).
Proof. intros Hk. by destruct o. Qed.

Lemma never_run {A} bad (p : prog S E A) s r s' ops :
  never bad p → run p s = (r, s', ops) → Forall (λ o, bad o = false) ops.
Proof.
  revert s ops. induction p as [r0|upd next IH|e p IH]; intros s ops Hp Hr; cbn in *; simplify_eq.
  - constructor.
  - by eapply IH.
  - destruct Hp as [He Hp]. destruct (run p s) as [[r1 s1] w] eqn:Hrun. simplify_eq.
    constructor; [done|by eapply IH].
Qed.

(** A property of the state that every section keeps, and one of every effect. *)
Fixpoint keeps {A} (P : S → Prop) (Q : E → Prop) (p : prog S E A) : Prop :=
  match p with
  | Done _ => True
  | Atomic upd next => ∀ s, P s → P (upd s) ∧ keeps P Q (next s)
  | Emit e p => Q e ∧ keeps P Q p
  end.

Lemma keeps_bind {A B} P Q (p : prog S E A) (k : A → prog S E B) :
  keeps P Q p → (∀ a, keeps P Q (k a)) → keeps P Q (pbind p k).
Proof.
  intros Hp Hk. induction p as [[a|f]|upd next IH|e p IH]; cbn in *; [by auto|done| |].
  - intros s Hs. destruct (Hp s Hs). auto.
  - destruct Hp. auto.
Qed.

Lemma keeps_catch {A} P Q (p : prog S E A) h :
  keeps P Q p → (∀ f, keeps P Q (h f)) → keeps P Q (pcatch p h).
Proof.
  intros Hp Hh. induction p as [[a|f]|upd next IH|e p IH]; cbn in *; [done|by auto| |].
  - intros s Hs. destruct (Hp s Hs). auto.
  - destruct Hp. auto.
Qed.

Lemma keeps_locked {A} P Q (f : S → A * S) : (∀ s, P s → P (f s).2) → keeps P Q (locked f).
Proof. intros Hf s Hs. by split; [apply Hf|]. Qed.

Lemma keeps_gets {A} P Q (f : S → A) : keeps P Q (pgets f).
Proof. by apply keeps_locked. Qed.

(** What was read off the state is known of the value read. *)
Lemma keeps_read {A B} P Q (f : S → A) (k : A → prog S E B) :
  (∀ s, P s → keeps P Q (k (f s))) → keeps P Q (pbind (pgets f) k).
Proof. intros Hk s Hs. split; [done|by apply Hk]. Qed.

Lemma keeps_for {A} P Q (l : list A) f : (∀ x, keeps P Q (f x)) → keeps P Q (pfor l f).
Proof. intros Hf. induction l; cbn; [done|]. by apply keeps_bind. Qed.

Lemma keeps_option {A} P Q (o : option A) (k : A → prog S E unit) :
  (∀ a, keeps P Q (k a)) → keeps P Q (match o with Some a => k a | None => pret tt end).
Proof. intros Hk. by destruct o. Qed.

Lemma keeps_run {A} P Q (p : prog S E A) s r s' ops :
  keeps P Q p → run p s = (r, s', ops) → P s → P s' ∧ Forall Q ops.
Proof.
  revert s ops. induction p as [r0|upd next IH|e p IH]; intros s ops Hp Hr Hs; cbn in *; simplify_eq.
  - done.
  - destruct (Hp s Hs). by eapply IH.
  - destruct (run p s) as [[r1 s1] w] eqn:Hrun. simplify_eq. destruct Hp as [He Hp].
    destruct (IH s w Hp Hrun Hs). by split; [|constructor].
Qed.

(** Every section of a program is in [R], whatever state it finds. *)
Fixpoint moves {A} (R : S → S → Prop) (p : prog S E A) : Prop :=
  match p with
  | Done _ => True
  | Atomic upd next => ∀ s, R s (upd s) ∧ moves R (next s)
  | Emit _ p => moves R p
  end.

Lemma moves_bind {A B} R (p : prog S E A) (k : A → prog S E B) :
  moves R p → (∀ a, moves R (k a)) → moves R (pbind p k).
Proof.
  intros Hp Hk. induction p as [[a|f]|upd next IH|e p IH]; cbn in *; [by auto|done| |by auto].
  intros s. destruct (Hp s). auto.
Qed.

Lemma moves_catch {A} R (p : prog S E A) h :
  moves R p → (∀ f, moves R (h f)) → moves R (pcatch p h).
Proof.
  intros Hp Hh. induction p as [[a|f]|upd next IH|e p IH]; cbn in *; [done|by auto| |by auto].
  intros s. destruct (Hp s). auto.
Qed.

Lemma moves_locked {A} (R : S → S → Prop) (f : S → A * S) :
  (∀ s, R s (f s).2) → moves R (locked f).
Proof. intros Hf s. by split; [apply Hf|]. Qed.

Lemma moves_for {A} R (l : list A) f : (∀ x, moves R (f x)) → moves R (pfor l f).
Proof. intros Hf. induction l; cbn; [done|]. by apply moves_bind. Qed.

Lemma moves_option {A} R (o : option A) (k : A → prog S E unit) :
  (∀ a, moves R (k a)) → moves R (match o with Some a => k a | None => pret tt end).
Proof. intros Hk. by destruct o. Qed.

Definition effects (w : list (moment S E)) : list E :=
  omap (λ m, match m with Did e => Some e | Saw _ => None end) w.

Lemma effects_app w w' : effects (w ++ w') = effects w ++ effects w'.
Proof. apply omap_app. Qed.

(** What a program can do among others: from [s] it ends in [s1] with [r], having found and
    done [w], when what happens between its sections is in [R]. *)
Fixpoint among {A} (R : S → S → Prop) (p : prog S E A) (s : S) (r : res A) (w : list (moment S E)) (s1 : S)
    : Prop :=
  match p with
  | Done r' => r = r' ∧ w = [] ∧ s1 = s
  | Atomic upd next => ∃ s' w', R s s' ∧ w = Saw s' :: w' ∧ among R (next s') (upd s') r w' s1
  | Emit e p => ∃ w', w = Did e :: w' ∧ among R p s r w' s1
  end.

Lemma among_bind {A B} R (p : prog S E A) (k : A → prog S E B) s r w s2 :
  among R (pbind p k) s r w s2 →
  (∃ f, r = Throw f ∧ among R p s (Throw f) w s2)
  ∨ ∃ a w1 w2 s1, w = w1 ++ w2 ∧ among R p s (Ok a) w1 s1 ∧ among R (k a) s1 r w2 s2.
Proof.
  revert s w. induction p as [[a|f]|upd next IH|e p IH]; intros s w; cbn.
  - intros Hk. right. by exists a, [], w, s.
  - intros (-> & -> & ->). left. by exists f.
  - intros (s' & w' & Hs & -> & Hy). apply IH in Hy as [(f & -> & Hy)|(a & w1 & w2 & s1 & -> & Hy & Hk)].
    + left. exists f. eauto 10.
    + right. exists a, (Saw s' :: w1), w2, s1. split_and!; eauto 10.
  - intros (w' & -> & Hy). apply IH in Hy as [(f & -> & Hy)|(a & w1 & w2 & s1 & -> & Hy & Hk)].
    + left. exists f. eauto.
    + right. exists a, (Did e :: w1), w2, s1. split_and!; eauto.
Qed.

(** A first part of which it is known how it ends. *)
Lemma among_then {A B} R (p : prog S E A) (k : A → prog S E B) s r w s2 a
    (Q : list (moment S E) → S → Prop) :
  (∀ r1 w1 s1, among R p s r1 w1 s1 → r1 = Ok a ∧ Q w1 s1) →
  among R (pbind p k) s r w s2 →
  ∃ w1 w2 s1, w = w1 ++ w2 ∧ Q w1 s1 ∧ among R (k a) s1 r w2 s2.
Proof.
  intros Hp Hy. apply among_bind in Hy as [(f & -> & Hy)|(a' & w1 & w2 & s1 & -> & Hy & Hk)].
  - by destruct (Hp _ _ _ Hy) as [[=] _].
  - destruct (Hp _ _ _ Hy) as [[= ->] HQ]. by exists w1, w2, s1.
Qed.

(** Such a run, given what happens before each of its sections. *)
Fixpoint play {A} (p : prog S E A) (between : list (S → S)) (s : S) : res A * S * list (moment S E) :=
  match p with
  | Done r => (r, s, [])
  | Atomic upd next =>
      let s' := match between with f :: _ => f s | [] => s end in
      match play (next s') (tail between) (upd s') with (r, s1, w) => (r, s1, Saw s' :: w) end
  | Emit e p => match play p between s with (r, s', w) => (r, s', Did e :: w) end
  end.

Lemma play_among {A} R (p : prog S E A) between s r s' w :
  (∀ s, R s s) → Forall (λ f, ∀ s, R s (f s)) between →
  play p between s = (r, s', w) → among R p s r w s'.
Proof.
  intros HR. revert between s w. induction p as [r0|upd next IH|e p IH];
    intros between s w Hb Hr; cbn in *.
  - by simplify_eq.
  - destruct (play _ (tail between) _) as [[r1 s1] w1] eqn:Hp. simplify_eq.
    destruct between as [|f between]; cbn in Hp; eexists _, w1.
    + split_and!; [apply HR|done|]. by eapply (IH _ []).
    + apply Forall_cons in Hb as [Hf Hb]. split_and!; [apply Hf|done|]. by eapply IH.
  - destruct (play p between s) as [[r1 s1] w1] eqn:Hp. simplify_eq. exists w1.
    split; [done|]. by eapply IH.
Qed.

(** A program that is alone is one case of it. *)
Lemma run_among {A} R (p : prog S E A) s r s' w :
  (∀ s, R s s) → run p s = (r, s', w) → ∃ w', among R p s r w' s' ∧ effects w' = w.
Proof.
  intros HR. revert s w. induction p as [r0|upd next IH|e p IH]; intros s w; cbn in *.
  - intros [= -> -> <-]. by exists [].
  - intros Hr. destruct (IH _ _ _ Hr) as (w' & Hw & <-). exists (Saw s :: w').
    split; [|done]. exists s, w'. by split_and!.
  - destruct (run p s) as [[r1 s1] w1] eqn:Hr. intros [= -> -> <-].
    destruct (IH _ _ Hr) as (w' & Hw & <-). exists (Did e :: w'). split; [|done]. by exists w'.
Qed.

End Programs.

Declare Scope prog_scope.
Delimit Scope prog_scope with prog.
Notation "x <- m ;; k" := (pbind m (λ x, k))
  (at level 100, m at next level, right associativity) : prog_scope.
Notation "' x <- m ;; k" := (pbind m (λ x, k))
  (at level 100, x strict pattern, m at next level, right associativity) : prog_scope.
Notation "m ;; k" := (pbind m (λ _, k))
  (at level 100, right associativity) : prog_scope.

#[export] Hint Resolve no_throw_bind no_throw_for no_throw_catch : cpp.

(** ** Pools of threads *)

Section Pool.
Context {S E : Type}.

Record config := mkConfig {
  shared : S;
  pool : list (prog S E unit);
  trace : list E
}.

(** [calls]: the programs a thread may be started with. *)
Inductive pool_step (calls : prog S E unit → Prop) : config → config → Prop :=
  | step_call p s ps tr :
      calls p → pool_step calls (mkConfig s ps tr) (mkConfig s (ps ++ [p]) tr)
  | step_atomic i upd next s ps tr :
      ps !! i = Some (Atomic upd next) →
      pool_step calls (mkConfig s ps tr) (mkConfig (upd s) (<[i := next s]> ps) tr)
  | step_emit i e p s ps tr :
      ps !! i = Some (Emit e p) →
      pool_step calls (mkConfig s ps tr) (mkConfig s (<[i := p]> ps) (tr ++ [e])).

(** Every thread has returned. *)
Definition settled (c : config) : Prop := Forall (λ p, ∃ r, p = Done r) (pool c).

End Pool.
Arguments config : clear implicits.

(** A schedule, to evaluate runs: start a thread, or let thread [i] take a step. *)
Inductive sched {S E : Type} : Type := SCall (p : prog S E unit) | SStep (i : nat).
Arguments sched : clear implicits.

Definition exec_sched {S E} (l : sched S E) (c : config S E) : option (config S E) :=
  let '(mkConfig s ps tr) := c in
  match l with
  | SCall p => Some (mkConfig s (ps ++ [p]) tr)
  | SStep i =>
      match ps !! i with
      | Some (Atomic upd next) => Some (mkConfig (upd s) (<[i := next s]> ps) tr)
      | Some (Emit e p) => Some (mkConfig s (<[i := p]> ps) (tr ++ [e]))
      | Some (Done _) | None => None
      end
  end.

Lemma exec_sched_sound {S E} (calls : prog S E unit → Prop) l c c' :
  (∀ p, l = SCall p → calls p) → exec_sched l c = Some c' → pool_step calls c c'.
Proof.
  destruct c as [s ps tr]. destruct l as [p|i]; cbn; intros Hc Hx.
  - simplify_eq. constructor. by apply Hc.
  - destruct (ps !! i) as [[r|upd next|e p]|] eqn:Hi; simplify_eq; by constructor.
Qed.

Fixpoint exec_all {S E G : Type} (obs : S → S → G → G) (ls : list (sched S E)) (cg : config S E * G)
    : option (config S E * G) :=
  match ls with
  | [] => Some cg
  | l :: ls' =>
      match exec_sched l cg.1 with
      | Some c' => exec_all obs ls' (c', obs (shared cg.1) (shared c') cg.2)
      | None => None
      end
  end.

(** ** Reasoning about one thread at a time *)

Section Logic.
Context {S E G K : Type} `{Countable K}.

(** A history variable [G] is updated by every critical section.  [inv] is the
    invariant; reasoning may stop once [within] no longer holds of the history (it
    never comes back).  [cost e] are the tokens an effect needs.  Tokens, what [present]
    shows of the state, and what was spent make up [past], what the history has seen. *)
Context (obs : S → S → G → G) (inv : G → S → Prop) (within : G → Prop).
Context (cost : E → gmultiset K) (present : S → gmultiset K) (past : G → gmultiset K).

Fixpoint wp {A} (p : prog S E A) (t : gmultiset K) (Q : res A → gmultiset K → Prop) : Prop :=
  match p with
  | Done r => Q r t
  | Atomic upd next =>
      ∀ s g, inv g s → t ⊎ present s ⊆ past g → within (obs s (upd s) g) →
        inv (obs s (upd s) g) (upd s)
        ∧ ∃ t', t' ⊎ present (upd s) ⊎ past g = t ⊎ present s ⊎ past (obs s (upd s) g)
                ∧ wp (next s) t' Q
  | Emit e p => ∃ t', t = cost e ⊎ t' ∧ wp p t' Q
  end.

Lemma wp_mono {A} (p : prog S E A) t (Q Q' : res A → gmultiset K → Prop) :
  (∀ r t, Q r t → Q' r t) → wp p t Q → wp p t Q'.
Proof.
  intros HQ. revert t. induction p as [r|upd next IH|e p IH]; intros t; cbn.
  - apply HQ.
  - intros Hp s g Hi Ht Hw. destruct (Hp s g Hi Ht Hw) as (? & t' & ? & ?). eauto.
  - intros (t' & ? & ?). eauto.
Qed.

Lemma wp_bind {A B} (p : prog S E A) (k : A → prog S E B) t Q :
  wp p t (λ r t', match r with Ok a => wp (k a) t' Q | Throw f => Q (Throw f) t' end) →
  wp (pbind p k) t Q.
Proof.
  revert t. induction p as [[a|f]|upd next IH|e p IH]; intros t; cbn; [done|done| |].
  - intros Hp s g Hi Ht Hw. destruct (Hp s g Hi Ht Hw) as (? & t' & ? & ?). eauto.
  - intros (t' & ? & ?). eauto.
Qed.

Lemma wp_catch {A} (p : prog S E A) h t Q :
  wp p t (λ r t', match r with Ok a => Q (Ok a) t' | Throw f => wp (h f) t' Q end) →
  wp (pcatch p h) t Q.
Proof.
  revert t. induction p as [[a|f]|upd next IH|e p IH]; intros t; cbn; [done|done| |].
  - intros Hp s g Hi Ht Hw. destruct (Hp s g Hi Ht Hw) as (? & t' & ? & ?). eauto.
  - intros (t' & ? & ?). eauto.
Qed.

(** What a program does not need it leaves alone. *)
Lemma wp_frame {A} (p : prog S E A) t u (Q : res A → gmultiset K → Prop) :
  wp p t (λ r t', Q r (u ⊎ t')) → wp p (u ⊎ t) Q.
Proof.
  revert t. induction p as [r|upd next IH|e p IH]; intros t; cbn; [done| |].
  - intros Hp s g Hi Ht Hw. destruct (Hp s g Hi) as (? & t' & Hbal & ?); [|done|].
    { etransitivity; [|done]. multiset_solver. }
    split; [done|]. exists (u ⊎ t'). split; [|by apply IH]. multiset_solver.
  - intros (t' & -> & ?). exists (u ⊎ t'). split; [multiset_solver|by apply IH].
Qed.

(** A critical section that changes neither the history nor what is present. *)
Lemma wp_quiet {A} upd (next : S → prog S E A) t Q :
  (∀ s g, inv g s → past (obs s (upd s) g) = past g ∧ present (upd s) = present s) →
  (∀ s g, inv g s → within (obs s (upd s) g) → inv (obs s (upd s) g) (upd s)) →
  (∀ s g, inv g s → t ⊎ present s ⊆ past g → wp (next s) t Q) →
  wp (Atomic upd next) t Q.
Proof.
  intros Hq Hi Hn. cbn. intros s g Hinv Ht Hw. destruct (Hq s g Hinv) as [Hpast Hpres].
  split; [by apply Hi|]. exists t. rewrite Hpast, Hpres. split; [done|]. by eapply Hn.
Qed.

Lemma wp_no_throw {A} (p : prog S E A) t (Q : res A → gmultiset K → Prop) :
  no_throw p → wp p t Q → wp p t (λ r t', (∃ a, r = Ok a) ∧ Q r t').
Proof.
  revert t. induction p as [[a|f]|upd next IH|e p IH]; intros t Hn; cbn in *; [eauto|done| |].
  - intros Hp s g Hi Ht Hw. destruct (Hp s g Hi Ht Hw) as (? & t' & ? & ?).
    split; [done|]. exists t'. auto.
  - intros (t' & ? & ?). exists t'. auto.
Qed.

(** *** From threads to pools *)

Context (within_back : ∀ s s' g, within (obs s s' g) → within g).

(** The tokens a thread may be left with when it returns. *)
Context (leak : gmultiset K → Prop) (leak_empty : leak ∅).

Definition tokens (ts : list (gmultiset K)) : gmultiset K := ⋃+ ts.
Definition spent (tr : list E) : gmultiset K := ⋃+ (cost <$> tr).
#[local] Arguments tokens : simpl never.
#[local] Arguments spent : simpl never.

(** The history of a run. *)
Inductive observed (calls : prog S E unit → Prop) : config S E → G → config S E → G → Prop :=
  | obs_refl c g : observed calls c g c g
  | obs_step c g c1 c2 g1 :
      observed calls c g c1 g1 → pool_step calls c1 c2 →
      observed calls c g c2 (obs (shared c1) (shared c2) g1).

(** Each thread is justified by its own tokens. *)
Definition pool_ok (c : config S E) (g : G) : Prop :=
  inv g (shared c)
  ∧ ∃ ts, Forall2 (λ p t, wp p t (λ _ t, leak t)) (pool c) ts
          ∧ spent (trace c) ⊎ tokens ts ⊎ present (shared c) = past g.

(** The history does not move when the state does not. *)
Context (obs_same : ∀ s g, obs s s g = g).

Lemma tokens_insert ts i t t' :
  ts !! i = Some t → tokens (<[i := t']> ts) ⊎ t = tokens ts ⊎ t'.
Proof.
  clear within_back leak_empty obs_same.
  revert i. induction ts as [|u ts IH]; intros [|i] Hi; simplify_eq/=.
  - unfold tokens. cbn. multiset_solver.
  - specialize (IH i Hi). unfold tokens in *. cbn. multiset_solver.
Qed.

Lemma tokens_elem ts i t : ts !! i = Some t → t ⊆ tokens ts.
Proof.
  clear within_back leak_empty obs_same.
  revert i. induction ts as [|u ts IH]; intros [|i] Hi; simplify_eq/=; unfold tokens in *; cbn.
  - multiset_solver.
  - specialize (IH i Hi). multiset_solver.
Qed.

Lemma tokens_snoc ts t : tokens (ts ++ [t]) = tokens ts ⊎ t.
Proof.
  clear within_back leak_empty obs_same.
  unfold tokens. by rewrite gmultiset_disj_union_list_app, gmultiset_disj_union_list_singleton.
Qed.

Lemma spent_snoc tr e : spent (tr ++ [e]) = spent tr ⊎ cost e.
Proof.
  clear within_back leak_empty obs_same. unfold spent. rewrite fmap_app. apply tokens_snoc. Qed.

Lemma pool_ok_step calls c c' g :
  (∀ p, calls p → wp p ∅ (λ _ t, leak t)) →
  pool_ok c g → pool_step calls c c' → within (obs (shared c) (shared c') g) →
  pool_ok c' (obs (shared c) (shared c') g).
Proof.
  intros Hcalls (Hinv & ts & Hts & Hsum) Hstep Hw.
  destruct Hstep as [p s ps tr Hp|i upd next s ps tr Hi|i e p s ps tr Hi]; cbn in *.
  - rewrite obs_same. split; [done|]. exists (ts ++ [∅]). split.
    + apply Forall2_app; [done|]. constructor; [by apply Hcalls|constructor].
    + cbn. rewrite tokens_snoc. rewrite <-Hsum. multiset_solver.
  - destruct (Forall2_lookup_l _ _ _ _ _ Hts Hi) as (t & Ht & Hwp). cbn in Hwp.
    assert (Hsub : t ⊎ present s ⊆ past g).
    { rewrite <-Hsum. pose proof (tokens_elem ts i t Ht). multiset_solver. }
    destruct (Hwp s g Hinv Hsub Hw) as (Hinv' & t' & Hbal & Hwp').
    split; [done|]. exists (<[i := t']> ts). split; [by apply Forall2_insert|].
    cbn. pose proof (tokens_insert ts i t t' Ht). multiset_solver.
  - rewrite obs_same in *. destruct (Forall2_lookup_l _ _ _ _ _ Hts Hi) as (t & Ht & Hwp).
    cbn in Hwp. destruct Hwp as (t' & -> & Hwp'). split; [done|].
    exists (<[i := t']> ts). split; [by apply Forall2_insert|].
    cbn. rewrite spent_snoc. pose proof (tokens_insert ts i _ t' Ht). multiset_solver.
Qed.

(** Every run of threads started with justified programs keeps the balance. *)
Lemma observed_ok calls c g c' g' :
  (∀ p, calls p → wp p ∅ (λ _ t, leak t)) →
  pool_ok c g → observed calls c g c' g' → within g' → pool_ok c' g'.
Proof.
  intros Hcalls Hok Hrun. induction Hrun as [|c g c1 c2 g1 _ IH Hstep]; [done|].
  intros Hw. eapply pool_ok_step; [done|apply IH; [done|]|done|done].
  by eapply within_back.
Qed.

Lemma pool_ok_settled c g :
  (∀ t, leak t → t = ∅) → pool_ok c g → settled c → spent (trace c) ⊎ present (shared c) = past g.
Proof.
  clear within_back leak_empty obs_same.
  intros Hleak (_ & ts & Hts & Hsum) Hset.
  assert (tokens ts = ∅) as Ht.
  { clear Hsum. unfold settled in Hset. revert Hset. unfold tokens.
    induction Hts as [|p t ps ts Hp _ IH]; [done|]. intros Hset.
    apply Forall_cons in Hset as [[r ->] Hrest].
    cbn in Hp. apply Hleak in Hp as ->. rewrite gmultiset_disj_union_list_cons, IH by done. multiset_solver. }
  rewrite Ht in Hsum. multiset_solver.
Qed.

(** *** A call that runs without interruption *)

Fixpoint run_obs {A} (p : prog S E A) (s : S) (g : G) : G :=
  match p with
  | Done _ => g
  | Atomic upd next => run_obs (next s) (upd s) (obs s (upd s) g)
  | Emit _ p => run_obs p s g
  end.

Lemma run_obs_within {A} (p : prog S E A) s g : within (run_obs p s g) → within g.
Proof.
  clear leak_empty obs_same.
  revert s g. induction p as [r|upd next IH|e p IH]; intros s g; cbn; [done| |apply IH].
  intros Hw%IH. by eapply within_back.
Qed.

Lemma wp_run {A} (p : prog S E A) Q t u s g tr :
  wp p t Q → inv g s → spent tr ⊎ (t ⊎ u) ⊎ present s = past g →
  within (run_obs p s g) →
  ∃ r s' ops t', run p s = (r, s', ops) ∧ Q r t' ∧ inv (run_obs p s g) s'
    ∧ spent (tr ++ ops) ⊎ (t' ⊎ u) ⊎ present s' = past (run_obs p s g).
Proof.
  clear leak_empty obs_same.
  revert t s g tr. induction p as [r|upd next IH|e p IH]; intros t s g tr Hwp Hi Hsum Hw;
    cbn in Hwp, Hw |- *.
  - exists r, s, [], t. by rewrite app_nil_r.
  - destruct (Hwp s g Hi) as (Hi' & t' & Hbal & Hwp').
    { rewrite <-Hsum. clear. multiset_solver. }
    { by eapply run_obs_within. }
    apply (IH s t' (upd s) _ tr); [done|done| |done].
    clear IH Hwp Hwp'. multiset_solver.
  - destruct Hwp as (t' & -> & Hwp).
    destruct (IH t' s g (tr ++ [e]) Hwp Hi) as (r & s' & ops & t'' & Hrun & HQ & Hi' & Hs');
      [|done|].
    { rewrite spent_snoc, <-Hsum. clear. multiset_solver. }
    exists r, s', (e :: ops), t''. rewrite Hrun. rewrite <-app_assoc in Hs'. by split_and!.
Qed.

Lemma pool_ok_perm s ps ps' tr g :
  ps ≡ₚ ps' → pool_ok (mkConfig s ps tr) g → pool_ok (mkConfig s ps' tr) g.
Proof.
  clear within_back leak_empty obs_same.
  intros Hp (Hi & ts & Hts & Hsum). split; [done|].
  destruct (Permutation_Forall2 Hp Hts) as (ts' & Hpt & Hts').
  exists ts'. split; [done|]. cbn in *. rewrite <-Hsum. unfold tokens. by rewrite Hpt.
Qed.

(** Such a call is a thread that has returned. *)
Lemma pool_ok_run {A} (p : prog S E A) s ps tr g r s' ops (d : res unit) :
  wp p ∅ (λ _ t, leak t) → pool_ok (mkConfig s ps tr) g → run p s = (r, s', ops) →
  within (run_obs p s g) →
  pool_ok (mkConfig s' (Done d :: ps) (tr ++ ops)) (run_obs p s g).
Proof.
  intros Hwp (Hi & ts & Hts & Hsum) Hrun Hw. cbn in Hi, Hts, Hsum.
  destruct (wp_run p (λ _ t, leak t) ∅ (tokens ts) s g tr)
    as (r0 & s0 & o0 & t' & Hr0 & Hl & Hi' & Hs'); [done|done| |done|].
  { rewrite <-Hsum. clear. multiset_solver. }
  rewrite Hrun in Hr0. simplify_eq. split; [done|].
  exists (t' :: ts). split; [by constructor|]. by rewrite <-Hs'.
Qed.

End Logic.

Definition sched_ok {S E : Type} (calls : prog S E unit → Prop) (l : sched S E) : Prop :=
  match l with SCall p => calls p | SStep _ => True end.

Lemma exec_all_sound {S E G : Type} (obs : S → S → G → G) (calls : prog S E unit → Prop)
    ls c0 g0 cg cg' :
  Forall (sched_ok calls) ls → observed obs calls c0 g0 cg.1 cg.2 →
  exec_all obs ls cg = Some cg' → observed obs calls c0 g0 cg'.1 cg'.2.
Proof.
  revert cg. induction ls as [|l ls IH]; intros cg Hc Hr Hx; cbn in Hx; [by simplify_eq|].
  apply Forall_cons in Hc as [Hl Hc].
  destruct (exec_sched l cg.1) as [c'|] eqn:He; [|done].
  eapply (IH (c', _)); [done|cbn|exact Hx].
  econstructor; [exact Hr|]. eapply exec_sched_sound; [|exact He]. by intros p ->.
Qed.
