(* ===== verification/HttpWrapper.v ===== *)
(** * [CHttpWrapper] and [HttpErrorMessage]

    The wrapper an http handler receives: the message (shared with whoever holds the
    pointer), the function that sends the response, and the flag that lets only the
    first [Reply] through.  [fn_fault f] says whether calling the function [f] throws.

    What [Reply] and the destructor pass to the function is the pointer to the message, and
    the function only posts: the message is read when the strand of the connection runs
    the posted closure ([SendResponse]), so what is done to it in between shows.  A
    [conversation] is a wrapper with that strand.

    [json_message] reads the one JSON shape [HttpErrorMessage] produces, with the
    string syntax of RFC 8259 (without [\u] escapes). *)

From S2P Require Import Prelude CppString Uri Net Events.
Open Scope cpp_scope.

(** ** The wrapper *)

Inductive wrapper_op :=
  | OpReply (fn : nat)         (** [mReplyFn(mHttpMsg)], the pointer *)
  | OpStderr (line : string).

Definition WR : Type → Type := cpp CHttpWrapper wrapper_op.

Definition CHttpWrapper_new (http : option HttpMsg) (fn : option nat) : CHttpWrapper :=
  mkHttpWrapper http fn false.

Definition HttpErrorMessage (shortMsg longMsg : string) : string :=
  "{" +:+ dquote +:+ "message" +:+ dquote +:+ ": { " +:+ dquote +:+ "shortMessage" +:+ dquote
  +:+ ": " +:+ dquote +:+ shortMsg +:+ dquote +:+ ", " +:+ dquote +:+ "longMessage" +:+ dquote
  +:+ ": " +:+ dquote +:+ longMsg +:+ dquote +:+ "}}".

(** The message the destructor turns an unanswered request into. *)
Definition not_handled (m : HttpMsg) : HttpMsg :=
  mkHttpMsg (bytes_of_string (HttpErrorMessage "Bad Request" "The request was not handled"))
    (keepAlive m) (version m) (uri m) (method m) "Bad Request" 400 (clientId m)
    "application/json" (queryParameters m).

Section Wrapper.
Context (fn_fault : nat → option fault).

Definition call_reply (fn : nat) : WR unit :=
  emit (OpReply fn) ;;
  match fn_fault fn with Some f => throw f | None => ret tt end.

Definition Reply : WR unit :=
  w <- gets id ;;
  if mResponseSent w then
    emit (OpStderr ("CHttpWrapper::Reply called more than once; ignoring"
                    +:+ String "010" ""))
  else
    modify (λ w, mkHttpWrapper (mHttpMsg w) (mReplyFn w) true) ;;
    match mReplyFn w with
    | Some fn => call_reply fn
    | None => ret tt
    end.

(** [~CHttpWrapper]: what the reply function throws is swallowed. *)
Definition CHttpWrapper_delete : WR unit := λ w,
  match mResponseSent w, mReplyFn w, mHttpMsg w with
  | false, Some fn, Some m =>
      match call_reply fn (mkHttpWrapper (Some (not_handled m)) (mReplyFn w) false) with
      | (_, w', ops) => (Ok tt, w', ops)
      end
  | _, _, _ => (Ok tt, w, [])
  end.

(** What a handler does with its wrapper: change the message, reply. *)
Inductive handler_act := ActMutate (f : HttpMsg → HttpMsg) | ActReply.

(** An exception of the reply function leaves the handler; [Invoke] logs it. *)
Fixpoint handler_run (acts : list handler_act) : WR unit :=
  match acts with
  | [] => ret tt
  | ActMutate f :: acts' =>
      modify (λ w, mkHttpWrapper (f <$> mHttpMsg w) (mReplyFn w) (mResponseSent w)) ;;
      handler_run acts'
  | ActReply :: acts' => Reply ;; handler_run acts'
  end.

(** The reply functions called. *)
Definition replies (ops : list wrapper_op) : list nat :=
  omap (λ o, match o with OpReply fn => Some fn | OpStderr _ => None end) ops.

(** *** A wrapper and the strand its reply function posts to *)

(** What happens: whoever holds the wrapper or its message uses it, the last pointer to the
    wrapper goes away, the strand runs the oldest closure posted to it. *)
Inductive event := Act (a : handler_act) | Release | Deliver.

Record conversation := mkConversation {
  c_wrapper : CHttpWrapper;
  c_gone : bool;
  c_calls : list nat;                        (** reply functions called, ever *)
  c_posted : list nat;                       (** the closures they posted, not yet run *)
  c_sent : list (nat * option HttpMsg)       (** what the closures read when they ran *)
}.

Definition conversation_start (m : HttpMsg) (fn : nat) : conversation :=
  mkConversation (CHttpWrapper_new (Some m) (Some fn)) false [] [] [].

Definition posts (fn : nat) : bool := match fn_fault fn with None => true | Some _ => false end.

(** A member function of the wrapper. *)
Definition member (p : WR unit) (gone : bool) (c : conversation) : conversation :=
  let '(_, w, ops) := p (c_wrapper c) in
  mkConversation w gone (c_calls c ++ replies ops)
    (c_posted c ++ List.filter posts (replies ops)) (c_sent c).

(** A wrapper that is gone is not used; its message may be. *)
Definition converse1 (e : event) (c : conversation) : option conversation :=
  match e, c_gone c with
  | Act (ActMutate f), g => Some (member (handler_run [ActMutate f]) g c)
  | Act ActReply, false => Some (member (handler_run [ActReply]) false c)
  | Release, false => Some (member CHttpWrapper_delete true c)
  | Deliver, g =>
      match c_posted c with
      | fn :: l => Some (mkConversation (c_wrapper c) g (c_calls c) l
                           (c_sent c ++ [(fn, mHttpMsg (c_wrapper c))]))
      | [] => None
      end
  | _, true => None
  end.

Fixpoint converse (es : list event) (c : conversation) : option conversation :=
  match es with [] => Some c | e :: es' => c' ← converse1 e c; converse es' c' end.

(** What has been made of the message: the changes, and the 400 of the destructor if no
    [Reply] came before it. *)
Fixpoint message (replied : bool) (es : list event) (m : HttpMsg) : HttpMsg :=
  match es with
  | [] => m
  | Act (ActMutate f) :: es' => message replied es' (f m)
  | Act ActReply :: es' => message true es' m
  | Release :: es' => message true es' (if replied then m else not_handled m)
  | Deliver :: es' => message replied es' m
  end.

(** The first of these events calls the reply function. *)
Definition answers (e : event) : bool := match e with Act ActReply | Release => true | _ => false end.

Lemma message_app r es es' m :
  message r (es ++ es') m = message (r || existsb answers es) es' (message r es m).
Proof.
  revert r m. induction es as [|[[f|]| |] es IH]; intros r m; cbn; rewrite ?orb_false_r, ?orb_true_r; try done;
    rewrite IH; by rewrite ?orb_true_r.
Qed.

(** What is known of a conversation after [es]. *)
Record conversed (fn : nat) (m : HttpMsg) (es : list event) (c : conversation) : Prop := {
  cv_msg : mHttpMsg (c_wrapper c) = Some (message false es m);
  cv_fn : mReplyFn (c_wrapper c) = Some fn;
  cv_gone : c_gone c = true → existsb answers es = true;
  cv_sent : c_gone c = false → mResponseSent (c_wrapper c) = existsb answers es;
  cv_calls : c_calls c = if existsb answers es then [fn] else [];
  cv_posts : (c_sent c).*1 ++ c_posted c = if posts fn then c_calls c else [];
  cv_read x : x ∈ c_sent c → ∃ before after, es = before ++ Deliver :: after
    ∧ existsb answers before = true ∧ x = (fn, Some (message false before m))
}.

Lemma converse1_keeps fn m es e c c' :
  conversed fn m es c → converse1 e c = Some c' → conversed fn m (es ++ [e]) c'.
Proof.
  destruct c as [[msg rf sent] gone calls posted snt]. intros [H1 H2 H3 H4 H5 H6 H7]. cbn in *. subst msg rf.
  assert (Hread : ∀ x, x ∈ snt → ∃ before after, es ++ [e] = before ++ Deliver :: after
    ∧ existsb answers before = true ∧ x = (fn, Some (message false before m))).
  { intros x (before & after & -> & ? & ?)%H7. exists before, (after ++ [e]).
    by rewrite <-app_assoc. }
  assert (Hm : ∀ e, message false (es ++ [e]) m = message (existsb answers es) [e] (message false es m))
    by (intros e'; apply message_app).
  assert (Hdeliver : converse1 Deliver (mkConversation (mkHttpWrapper (Some (message false es m)) (Some fn) sent)
      gone calls posted snt) = Some c' → conversed fn m (es ++ [Deliver]) c').
  { clear Hread. destruct posted as [|k posted]; [by destruct gone|].
    assert (existsb answers es = true ∧ k = fn) as [He ->].
    { assert (Hin : k ∈ if posts fn then calls else []) by (rewrite <-H6; apply elem_of_app; right; left).
      rewrite H5 in Hin. destruct (posts fn), (existsb answers es); try by apply not_elem_of_nil in Hin.
      by apply list_elem_of_singleton in Hin. }
    intros Hc. assert (c' = mkConversation (mkHttpWrapper (Some (message false es m)) (Some fn) sent) gone
      calls posted (snt ++ [(fn, Some (message false es m))])) as -> by (by destruct gone; cbn in Hc; simplify_eq).
    split; cbn; rewrite ?Hm, ?existsb_app; cbn; rewrite ?orb_false_r; auto.
    - by rewrite fmap_app, <-app_assoc.
    - intros x [(before & after & -> & ? & ?)%H7| ->%list_elem_of_singleton]%elem_of_app.
      + exists before, (after ++ [Deliver]). by rewrite <-app_assoc.
      + by exists es, []. }
  destruct e as [[f|]| |], gone; intros Hc; cbn in Hc; try discriminate.
  - injection Hc as <-. split; cbn; rewrite ?Hm, ?existsb_app, ?app_nil_r; cbn; rewrite ?orb_false_r; auto.
  - injection Hc as <-. split; cbn; rewrite ?Hm, ?existsb_app, ?app_nil_r; cbn; rewrite ?orb_false_r; auto.
  - specialize (H4 eq_refl). subst sent. revert Hc.
    unfold member. cbn. unfold Reply, bind, gets, emit. cbn.
    destruct (existsb answers es) eqn:He; cbn.
    + intros [= <-]. split; cbn; rewrite ?Hm, ?existsb_app, ?app_nil_r, ?He; cbn; auto.
    + unfold call_reply, modify, bind, emit, throw, ret. cbn. subst calls. unfold posts in *.
      destruct (fn_fault fn) eqn:Hf; cbn; intros [= <-]; split; cbn; unfold posts;
        rewrite ?Hm, ?existsb_app, ?app_nil_r, ?He, ?orb_true_r, ?Hf; cbn; auto;
        rewrite app_assoc, H6; done.
  - specialize (H4 eq_refl). subst sent. revert Hc. unfold member, CHttpWrapper_delete. cbn.
    destruct (existsb answers es) eqn:He; cbn.
    + intros [= <-]. split; cbn; rewrite ?Hm, ?existsb_app, ?app_nil_r, ?He; cbn; auto; done.
    + unfold call_reply, modify, bind, emit, throw, ret. cbn. subst calls. unfold posts in *.
      destruct (fn_fault fn) eqn:Hf; cbn; intros [= <-]; split; cbn; unfold posts;
        rewrite ?Hm, ?existsb_app, ?app_nil_r, ?He, ?orb_true_r, ?Hf; cbn; auto; try done;
        rewrite app_assoc, H6; done.
  - by apply Hdeliver.
  - by apply Hdeliver.
Qed.

Lemma converse_conversed fn m es c :
  converse es (conversation_start m fn) = Some c → conversed fn m es c.
Proof.
  intros Hc. enough (Hgen : ∀ es' c0 c1, conversed fn m es' c0 → converse es c0 = Some c1 →
    conversed fn m (es' ++ es) c1).
  { eapply (Hgen [] _ c); [|exact Hc]. split; try done. cbn. by destruct (posts fn). by intros ? ?%not_elem_of_nil. }
  clear Hc c. induction es as [|e es IH]; intros es' c0 c1 H0 Hc; cbn in Hc.
  - simplify_eq. by rewrite app_nil_r.
  - destruct (converse1 e c0) as [c'|] eqn:H1; [|done]. cbn in Hc.
    rewrite cons_middle, app_assoc. eapply IH; [|exact Hc]. by eapply converse1_keeps.
Qed.

End Wrapper.

(** ** The error message as JSON *)

#[local] Arguments Ascii.eqb : simpl never.
#[local] Arguments Z.leb : simpl never.

Definition quote : ascii := "034".
Definition backslash : ascii := "092".

(** A character a JSON string may hold as it is. *)
Definition json_char (c : ascii) : bool :=
  negb (Ascii.eqb c quote) && negb (Ascii.eqb c backslash) && Z.leb 32 (char_code c).

Fixpoint json_safe (s : string) : bool :=
  match s with "" => true | String c s' => json_char c && json_safe s' end.

Definition json_unescape (c : ascii) : option ascii :=
  if Ascii.eqb c quote then Some quote
  else if Ascii.eqb c backslash then Some backslash
  else if Ascii.eqb c "/" then Some "/"%char
  else if Ascii.eqb c "b" then Some "008"%char
  else if Ascii.eqb c "f" then Some "012"%char
  else if Ascii.eqb c "n" then Some "010"%char
  else if Ascii.eqb c "r" then Some "013"%char
  else if Ascii.eqb c "t" then Some "009"%char
  else None.

(** The rest of a string literal after its opening quote: its value and what follows. *)
Fixpoint json_string (s : string) : option (string * string) :=
  match s with
  | "" => None
  | String c s' =>
      if Ascii.eqb c quote then Some ("", s')
      else if Ascii.eqb c backslash then
        match s' with
        | "" => None
        | String e s'' =>
            match json_unescape e, json_string s'' with
            | Some d, Some (v, rest) => Some (String d v, rest)
            | _, _ => None
            end
        end
      else if Z.leb 32 (char_code c) then
        match json_string s' with
        | Some (v, rest) => Some (String c v, rest)
        | None => None
        end
      else None
  end.

Fixpoint expect (p s : string) : option string :=
  match p, s with
  | "", _ => Some s
  | String c p', String d s' => if Ascii.eqb c d then expect p' s' else None
  | String _ _, "" => None
  end.

Definition json_head : string :=
  "{" +:+ dquote +:+ "message" +:+ dquote +:+ ": { " +:+ dquote +:+ "shortMessage" +:+ dquote
  +:+ ": " +:+ dquote.
Definition json_middle : string := ", " +:+ dquote +:+ "longMessage" +:+ dquote +:+ ": " +:+ dquote.

(** Reads [{"message": { "shortMessage": s, "longMessage": l}}]. *)
Definition json_message (s : string) : option (string * string) :=
  s1 ← expect json_head s;
  '(short, s2) ← json_string s1;
  s3 ← expect json_middle s2;
  '(long, s4) ← json_string s3;
  s5 ← expect "}}" s4;
  if is_empty s5 then Some (short, long) else None.

Lemma expect_app p s : expect p (p +:+ s) = Some s.
Proof. induction p as [|c p IH]; [done|]. rewrite sapp_cons. cbn. by rewrite Ascii.eqb_refl. Qed.

Lemma expect_Some p s t : expect p s = Some t → s = p +:+ t.
Proof.
  revert s. induction p as [|c p IH]; intros s Hs; cbn in *; [by simplify_eq|].
  destruct s as [|d s]; [done|]. destruct (Ascii.eqb_spec c d) as [->|]; [|done].
  rewrite sapp_cons. f_equal. by apply IH.
Qed.

Lemma json_string_safe s rest :
  json_safe s = true → json_string (s +:+ String quote rest) = Some (s, rest).
Proof.
  induction s as [|c s IH]; intros Hs; [done|]. cbn in Hs.
  apply andb_prop in Hs as [Hc Hs]. unfold json_char in Hc.
  apply andb_prop in Hc as [[Hq Hb]%andb_prop Hp].
  rewrite sapp_cons. cbn. apply negb_true_iff in Hq, Hb.
  rewrite Hq, Hb, Hp. by rewrite IH.
Qed.

(** Reading a literal loses a character for every escape. *)
Lemma json_string_size n s v rest :
  size_of s ≤ n → json_string s = Some (v, rest) →
  size_of v + S (size_of rest) ≤ size_of s
  ∧ (size_of s ≤ size_of v + S (size_of rest) →
     json_safe v = true ∧ s = v +:+ String quote rest).
Proof.
  revert s v. induction n as [|n IH]; intros [|c s] v Hn Hs; cbn in *; try done; try lia.
  destruct (Ascii.eqb_spec c quote) as [->|Hq]; simplify_eq/=; [by split; [lia|]|].
  destruct (Ascii.eqb_spec c backslash) as [->|Hb].
  - destruct s as [|e s]; [done|]. destruct (json_unescape e) as [d|]; [|done].
    destruct (json_string s) as [[v' rest']|] eqn:Hj; simplify_eq/=.
    destruct (IH s v') as [Hle _]; [lia|done|]. split; lia.
  - destruct (Z.leb 32 (char_code c)) eqn:Hp; [|done].
    destruct (json_string s) as [[v' rest']|] eqn:Hj; simplify_eq/=.
    destruct (IH s v') as [Hle Heq]; [lia|done|]. split; [lia|]. intros Hge.
    destruct Heq as [Hsafe ->]; [lia|]. split; [|done].
    unfold json_char. rewrite Hp. apply Ascii.eqb_neq in Hq, Hb. by rewrite Hq, Hb.
Qed.

Lemma HttpErrorMessage_parts s l :
  HttpErrorMessage s l
  = json_head +:+ s +:+ String quote (json_middle +:+ l +:+ String quote "}}").
Proof. reflexivity. Qed.

Lemma app_inj_size s1 s2 t1 t2 :
  size_of s1 = size_of s2 → s1 +:+ t1 = s2 +:+ t2 → s1 = s2 ∧ t1 = t2.
Proof.
  revert s2. induction s1 as [|c s1 IH]; intros [|d s2] Hs Heq; cbn in *; try done.
  injection Heq as -> Heq. injection Hs as Hs. by destruct (IH s2 Hs Heq) as [-> ->].
Qed.

Lemma error_message_json s l :
  json_message (HttpErrorMessage s l) = Some (s, l) ↔ json_safe s = true ∧ json_safe l = true.
Proof.
  rewrite HttpErrorMessage_parts. split.
  - unfold json_message. rewrite expect_app. cbn [mbind option_bind].
    destruct (json_string (s +:+ _)) as [[v1 r1]|] eqn:H1; [|done]. cbn [mbind option_bind].
    destruct (expect json_middle r1) as [t1|] eqn:H2; [|done]. cbn [mbind option_bind].
    destruct (json_string t1) as [[v2 r2]|] eqn:H3; [|done]. cbn [mbind option_bind].
    destruct (expect "}}" r2) as [t2|] eqn:H4; [|done]. cbn [mbind option_bind].
    destruct (is_empty t2) eqn:H5; [|done]. intros Heq. simplify_eq.
    apply is_empty_true in H5 as ->. apply expect_Some in H2 as ->, H4 as ->.
    apply (json_string_size _ _ _ _ (reflexivity _)) in H1 as [Hle1 Heq1].
    apply (json_string_size _ _ _ _ (reflexivity _)) in H3 as [Hle3 Heq3].
    rewrite !size_app in *. cbn in *. rewrite !size_app in *. cbn in *.
    destruct Heq1 as [Hs1 E1]; [lia|]. destruct Heq3 as [Hs3 E3]; [lia|]. done.
  - intros [Hs Hl]. unfold json_message. rewrite expect_app. cbn [mbind option_bind].
    rewrite json_string_safe by done. cbn [mbind option_bind].
    rewrite expect_app. cbn [mbind option_bind].
    by rewrite json_string_safe by done.
Qed.

(** ** Properties *)

(** C31. Whatever is done with a wrapper and its message (changes at any time, [Reply] once,
    many times or never) and whenever its strand runs what is posted, the reply function
    is called exactly once when [Reply] was called or the last pointer went away, and not
    before.  So, unless the function throws, the client gets exactly one response.  It is
    the message of the wrapper as it stands when the strand reads it, after the [Reply]:
    with all changes made until then, and made a 400 by the destructor exactly if no
    [Reply] came before it. *)
Theorem reply_exactly_once fn_fault es fn m c :
  converse fn_fault es (conversation_start m fn) = Some c →
  c_calls c = (if existsb answers es then [fn] else [])
  ∧ (c_gone c = true → existsb answers es = true)
  ∧ (fn_fault fn = None → length (c_sent c) + length (c_posted c) = length (c_calls c))
  ∧ ∀ x, x ∈ c_sent c → ∃ before after, es = before ++ Deliver :: after
      ∧ existsb answers before = true ∧ x = (fn, Some (message false before m)).
Proof.
  intros [_ _ H3 _ H5 H6 H7]%converse_conversed. split_and!; [done|done| |done].
  intros Hf. unfold posts in H6. rewrite Hf in H6. by rewrite <-H6, length_app, length_fmap.
Qed.

Definition with_code (code : Z) (m : HttpMsg) : HttpMsg :=
  mkHttpMsg (body m) (keepAlive m) (version m) (uri m) (method m) (reason m) code (clientId m)
    (contextType m) (queryParameters m).

(** A handler that replies, changes the message, and lets the wrapper go before the strand
    runs: the client gets the change too. *)
Definition demo_events : list event :=
  [Act (ActMutate (with_code 201)); Act ActReply;
   Act (ActMutate (with_code 202)); Act ActReply; Release; Deliver].

Lemma reply_exactly_once_witness :
  ∃ c, converse (λ _, None) demo_events (conversation_start default_HttpMsg 3) = Some c
    ∧ c_sent c = [(3, Some (with_code 202 default_HttpMsg))]
    ∧ c_calls c = [3].
Proof.
  destruct (converse (λ _, None) demo_events (conversation_start default_HttpMsg 3)) as [c|] eqn:Hc;
    [|by vm_compute in Hc].
  exists c. split; [done|]. split; [vm_compute in Hc; by injection Hc as <-|].
  exact (proj1 (reply_exactly_once _ _ _ _ _ Hc)).
Defined.

(** The error body is read back by a JSON reader as the two strings it was built from
    exactly when both are JSON-string safe, as the header asks. *)
Theorem HttpErrorMessage_json s l :
  json_message (HttpErrorMessage s l) = Some (s, l) ↔ json_safe s = true ∧ json_safe l = true.
Proof. apply error_message_json. Qed.
