(* ===== verification/Server.v ===== *)
(** * [CWebsocketServer::CImpl]: the server

    The operations of the implementation class as programs over its state: a
    [locked] section is what the code does with [mMutex] held, a step on [mShutdown] or
    [mWorkQueue] is atomic by itself, and everything outside the locks (calls on
    sessions, user callbacks, [stderr]) is an emitted effect.  The names ending in
    [_locked] are the bodies of the critical sections.

    [app] is the application: what each of its callbacks calls on the server, and how it
    ends; it may throw.  [std::map]
    iteration is by increasing key; where the code's loop does not depend on the order,
    the sets are enumerated as stdpp does.  Ids and counts are machine integers. *)

From stdpp Require Import sorting.
From S2P Require Import Prelude CppString Uri Net Events WorkQueue Threads.
Open Scope prog_scope.

(** ** Data *)

Record CClientCallbacks := mkClientCallbacks {
  mOnClientAddedCb : option callback;
  mOnClientClosedCb : option callback;
  mOnClientMessageReceivedCb : option callback;
  mOnClientContentReceivedCb : option callback
}.

Record CUriCallbacks := mkUriCallbacks {
  mOnConnectionChange : option callback;
  mOnUriMessageReceivedCb : option callback;
  mOnUriContentReceivedCb : option callback;
  mOnRequestReceivedCb : option callback
}.

Definition no_client_callbacks : CClientCallbacks := mkClientCallbacks None None None None.
Definition no_uri_callbacks : CUriCallbacks := mkUriCallbacks None None None None.

(** [session] is the identity of the shared pointer. *)
Record SClientEntry := mkEntry { session : nat; entry_uri : string; isSsl : bool }.

Record CImpl := mkImpl {
  mName : string;
  mSettings : CServerSettings;
  mSessionSettings : CServerSettings;
  mWorkQueue : CWorkQueue task;
  mShutdown : bool;
  mAcceptor : option nat;
  mPort : Z;
  mNextConnectionId : Z;
  mClientCbs : CClientCallbacks;
  mClients : gmap Z SClientEntry;
  mUris : gmap string CUriCallbacks;
  mUriCounts : gmap string Z
}.

Definition CImpl_new (name : string) (settings : CServerSettings) : CImpl :=
  mkImpl name settings (session_settings settings) new_queue false None 0 1
    no_client_callbacks ∅ ∅ ∅.

Definition set_mWorkQueue (q : CWorkQueue task) (s : CImpl) : CImpl :=
  mkImpl (mName s) (mSettings s) (mSessionSettings s) q (mShutdown s) (mAcceptor s) (mPort s)
    (mNextConnectionId s) (mClientCbs s) (mClients s) (mUris s) (mUriCounts s).
Definition set_mShutdown (b : bool) (s : CImpl) : CImpl :=
  mkImpl (mName s) (mSettings s) (mSessionSettings s) (mWorkQueue s) b (mAcceptor s) (mPort s)
    (mNextConnectionId s) (mClientCbs s) (mClients s) (mUris s) (mUriCounts s).
Definition set_listening (a : option nat) (port : Z) (s : CImpl) : CImpl :=
  mkImpl (mName s) (mSettings s) (mSessionSettings s) (mWorkQueue s) (mShutdown s) a port
    (mNextConnectionId s) (mClientCbs s) (mClients s) (mUris s) (mUriCounts s).
Definition set_mNextConnectionId (i : Z) (s : CImpl) : CImpl :=
  mkImpl (mName s) (mSettings s) (mSessionSettings s) (mWorkQueue s) (mShutdown s) (mAcceptor s)
    (mPort s) i (mClientCbs s) (mClients s) (mUris s) (mUriCounts s).
Definition set_mClientCbs (c : CClientCallbacks) (s : CImpl) : CImpl :=
  mkImpl (mName s) (mSettings s) (mSessionSettings s) (mWorkQueue s) (mShutdown s) (mAcceptor s)
    (mPort s) (mNextConnectionId s) c (mClients s) (mUris s) (mUriCounts s).
Definition set_mClients (m : gmap Z SClientEntry) (s : CImpl) : CImpl :=
  mkImpl (mName s) (mSettings s) (mSessionSettings s) (mWorkQueue s) (mShutdown s) (mAcceptor s)
    (mPort s) (mNextConnectionId s) (mClientCbs s) m (mUris s) (mUriCounts s).
Definition set_mUris (m : gmap string CUriCallbacks) (s : CImpl) : CImpl :=
  mkImpl (mName s) (mSettings s) (mSessionSettings s) (mWorkQueue s) (mShutdown s) (mAcceptor s)
    (mPort s) (mNextConnectionId s) (mClientCbs s) (mClients s) m (mUriCounts s).
Definition set_mUriCounts (m : gmap string Z) (s : CImpl) : CImpl :=
  mkImpl (mName s) (mSettings s) (mSessionSettings s) (mWorkQueue s) (mShutdown s) (mAcceptor s)
    (mPort s) (mNextConnectionId s) (mClientCbs s) (mClients s) (mUris s) m.

(** Post-increments of [uint32_t] and [size_t]. *)
Definition uint32_succ (n : Z) : Z := ((n + 1) mod 2 ^ 32)%Z.
Definition size_t_succ (n : Z) : Z := ((n + 1) mod 2 ^ 64)%Z.

(** The entries of [mClients] in key order. *)
Definition by_id (a b : Z * SClientEntry) : Prop := (a.1 ≤ b.1)%Z.
#[export] Instance by_id_dec a b : Decision (by_id a b).
Proof. unfold by_id. apply _. Defined.
Definition in_order (m : gmap Z SClientEntry) : list (Z * SClientEntry) :=
  merge_sort by_id (map_to_list m).

(** ** Effects *)

(** A call of an application callback, with its arguments. *)
Inductive invocation :=
  | CallAdded (cb : callback) (clientId : Z) (uriAppend : string) (isSsl : bool)
  | CallConnectionChange (cb : callback) (uriCount : Z)
  | CallClosed (cb : callback) (clientId : Z)
  | CallMessage (cb : callback) (clientId : Z) (message : string)
  | CallContent (cb : callback) (clientId : Z) (content : list byte)
  | CallHttp (cb : callback) (wrapper : CHttpWrapper).

Inductive cb_outcome := Returns | ThrowsStd (what : string) | ThrowsOther.

(** The connection objects [OnAccept] creates. *)
Inductive connection_kind := PlainHttp | SslHttp (ctx : nat) | DetectSsl (ctx : nat).

Inductive srv_op :=
  | SessionSend (session : nat) (payload : SPayload)
  | SessionClose (session : nat)
  | Invoked (i : invocation)
  | Posted (t : task)                   (** a call of [PostCallback] *)
  | Stderr (line : string)
  | CloseAcceptor (acceptor : nat)      (** posted to the acceptor's executor *)
  | AsyncAccept (acceptor : nat)
  | RunConnection (kind : connection_kind) (socket : nat) (settings : CServerSettings)
  | ByApp (a : app_op).

Definition SRV : Type → Type := prog CImpl srv_op.

(** What the application's callbacks do: a call first makes the calls [cb_body] on the
    server (and has effects of its own), in the thread it runs on, and then ends as [cb_end].  An exception that such a
    call throws cuts the body short; whether the callback lets it out is in [cb_end]. *)
Record application := mkApplication {
  cb_end :> invocation → cb_outcome;
  cb_body : invocation → SRV unit
}.

(** Callbacks that leave the server alone. *)
Definition passive (ends : invocation → cb_outcome) : application :=
  mkApplication ends (λ _, pret tt).

(** ** Bodies of the critical sections *)

Definition LongestUriMatchLocked (path : string) (s : CImpl) : string :=
  longest_match (map_to_list (mUris s)).*1 path "".

(** Returns the new count. *)
Definition DecrementUriCountLocked (uri : string) (s : CImpl) : Z * CImpl :=
  if is_empty uri then (0%Z, s)
  else match mUriCounts s !! uri with
       | None => (0%Z, s)
       | Some c =>
           if Z.eqb c 0 then (0%Z, s)
           else ((c - 1)%Z, set_mUriCounts (<[uri := (c - 1)%Z]> (mUriCounts s)) s)
       end.

(** What [RegisterWsClient] takes out of the lock; [None] when it returned 0. *)
Record registration := mkRegistration {
  reg_clientId : Z;
  reg_matchedUri : string;
  reg_uriCount : Z;
  reg_addedCb : option callback;
  reg_connectionChangeCb : option callback
}.

(** [mShutdown] is read first, an access of its own. *)
Definition RegisterWsClient_locked (sess : nat) (path : string) (ssl : bool) (s : CImpl)
    : option registration * CImpl :=
  if mShutdown s || negb (bool_decide (is_Some (mAcceptor s))) then (None, s)
  else
    let clientId := mNextConnectionId s in
    let s := set_mNextConnectionId (uint32_succ clientId) s in
    let matchedUri := LongestUriMatchLocked path s in
    let s := set_mClients (<[clientId := mkEntry sess matchedUri ssl]> (mClients s)) s in
    if is_empty matchedUri then
      (Some (mkRegistration clientId matchedUri 0 (mOnClientAddedCb (mClientCbs s)) None), s)
    else
      let count := size_t_succ (default 0%Z (mUriCounts s !! matchedUri)) in
      let s := set_mUriCounts (<[matchedUri := count]> (mUriCounts s)) s in
      (* mUris[matchedUri] default-constructs a missing entry *)
      let cbs := default no_uri_callbacks (mUris s !! matchedUri) in
      let s := set_mUris (<[matchedUri := cbs]> (mUris s)) s in
      (Some (mkRegistration clientId matchedUri count (mOnClientAddedCb (mClientCbs s))
               (mOnConnectionChange cbs)), s).

(** The callbacks to post, and the count; [None] when the client is not known. *)
Definition OnWsClosed_locked (clientId : Z) (s : CImpl)
    : option (option callback * option callback * Z) * CImpl :=
  match mClients s !! clientId with
  | None => (None, s)
  | Some entry =>
      let uri := entry_uri entry in
      let s := set_mClients (delete clientId (mClients s)) s in
      let '(uriCount, s) := DecrementUriCountLocked uri s in
      let connectionChangeCb :=
        if is_empty uri then None else mUris s !! uri ≫= mOnConnectionChange in
      (Some (mOnClientClosedCb (mClientCbs s), connectionChangeCb, uriCount), s)
  end.

Definition Stop_locked (s : CImpl) : (option nat * list (Z * SClientEntry)) * CImpl :=
  ((mAcceptor s, in_order (mClients s)),
   set_mUriCounts ∅ (set_mClients ∅ (set_listening None 0 s))).

Definition RemoveClient_locked (clientId : Z) (s : CImpl) : option SClientEntry * CImpl :=
  match mClients s !! clientId with
  | None => (None, s)
  | Some entry =>
      let s := set_mClients (delete clientId (mClients s)) s in
      (Some entry, (DecrementUriCountLocked (entry_uri entry) s).2)
  end.

Definition Start_locked (acceptor : nat) (port : Z) (clientCbs : CClientCallbacks) (s : CImpl)
    : res unit * CImpl :=
  match mAcceptor s with
  | Some _ => (Throw (RuntimeError "CWebsocketServer is already started"), s)
  | None => (Ok tt, set_mClientCbs clientCbs (set_listening (Some acceptor) port s))
  end.

(** The callbacks and the count [NotifyClosedSync] uses. *)
Definition NotifyClosed_lookup (uri : string) (s : CImpl)
    : option callback * option callback * Z :=
  if is_empty uri then (mOnClientClosedCb (mClientCbs s), None, 0%Z)
  else (mOnClientClosedCb (mClientCbs s),
        mUris s !! uri ≫= mOnConnectionChange,
        default 0%Z (mUriCounts s !! uri)).

(** The global callback, and the callback of the client's uri. *)
Definition LookupReceiveCallbacks (clientId : Z) (wantMessage : bool) (s : CImpl)
    : option callback * option callback :=
  let global := if wantMessage then mOnClientMessageReceivedCb (mClientCbs s)
                else mOnClientContentReceivedCb (mClientCbs s) in
  match mClients s !! clientId with
  | None => (global, None)
  | Some entry =>
      if is_empty (entry_uri entry) then (global, None)
      else match mUris s !! entry_uri entry with
           | None => (global, None)
           | Some cbs =>
               (global, if wantMessage then mOnUriMessageReceivedCb cbs
                        else mOnUriContentReceivedCb cbs)
           end
  end.

Definition AnyClients_locked (uri : option string) (s : CImpl) : bool :=
  match uri with
  | None => negb (bool_decide (mClients s = ∅))
  | Some u => match mUriCounts s !! u with Some c => Z.ltb 0 c | None => false end
  end.

(** The sessions a broadcast goes to, in id order. *)
Definition Broadcast_targets (uri : option string) (s : CImpl) : list nat :=
  (λ e, session e.2) <$> List.filter (λ e, match uri with
                                           | None => true
                                           | Some u => bool_decide (entry_uri e.2 = u)
                                           end) (in_order (mClients s)).

Definition FindHttpHandler_locked (path : string) (s : CImpl) : option callback * CImpl :=
  let matched := LongestUriMatchLocked path s in
  if is_empty matched then (None, s)
  else
    let cbs := default no_uri_callbacks (mUris s !! matched) in
    (mOnRequestReceivedCb cbs, set_mUris (<[matched := cbs]> (mUris s)) s).

(** The part of the target that [uriAppend] leaves out. *)
Definition append_base (settings : CServerSettings) (matchedUri path : string) : string :=
  match is_empty matchedUri, allowedUris settings with
  | true, Some allowed => longest_match (elements allowed) path ""
  | _, _ => matchedUri
  end.

(** ** Operations *)

Section Operations.
Context (app : application).

Definition LogError (message : string) : SRV unit :=
  name <- pgets mName ;;
  pemit (Stderr (log_line name message)).

(** [Invoke(fn)] for a callback: exceptions are logged. *)
Definition Invoke1 (i : invocation) : SRV bool :=
  pemit (Invoked i) ;;
  pcatch (cb_body app i) (λ _, pret tt) ;;
  match app i with
  | Returns => pret true
  | ThrowsStd what => LogError ("Unhandled exception in callback: " +:+ what) ;; pret false
  | ThrowsOther => LogError "Unhandled exception in callback" ;; pret false
  end.

(** A closure that calls several callbacks stops at the first that throws. *)
Fixpoint Invoke (calls : list invocation) : SRV unit :=
  match calls with
  | [] => pret tt
  | i :: calls' => ok <- Invoke1 i ;; pwhen ok (Invoke calls')
  end.

Definition PostCallback (t : task) : SRV unit :=
  pemit (Posted t) ;;
  locked (λ s, (tt, set_mWorkQueue (WorkQueue.Post t (mWorkQueue s)) s)).

(** What a posted closure calls. *)
Definition task_calls (t : task) : list invocation :=
  match t with
  | TaskAdded cb id append ssl => [CallAdded cb id append ssl]
  | TaskConnectionChange cb n => [CallConnectionChange cb n]
  | TaskClosed cb id => [CallClosed cb id]
  | TaskMessage g u id m =>
      option_list ((λ cb, CallMessage cb id m) <$> g)
      ++ option_list ((λ cb, CallMessage cb id m) <$> u)
  | TaskContent g u id c =>
      option_list ((λ cb, CallContent cb id c) <$> g)
      ++ option_list ((λ cb, CallContent cb id c) <$> u)
  | TaskHttp cb w => [CallHttp cb w]
  end.

(** One round of the worker: the front of the queue, if there is one. *)
Definition worker_round : SRV unit :=
  t <- locked (λ s, match Run_locked (mWorkQueue s) with
                    | RunTake t q => (Some t, set_mWorkQueue q s)
                    | RunWait | RunReturn => (None, s)
                    end) ;;
  match t with Some t => Invoke (task_calls t) | None => pret tt end.

Definition DoAccept (acceptor : nat) : SRV unit := pemit (AsyncAccept acceptor).

Definition Start (listen : string → Z → res (nat * Z)) (address : string) (port : Z)
    (clientCbs : CClientCallbacks) : SRV unit :=
  stopped <- pgets mShutdown ;;
  if stopped then pthrow (RuntimeError "CWebsocketServer is shut down")
  else
    '(acceptor, local_port) <- Done (listen address port) ;;
    locked_res (Start_locked acceptor local_port clientCbs) ;;
    DoAccept acceptor.

Definition NotifyClosedSync (clientId : Z) (uri : string) : SRV unit :=
  '(closedCb, connectionChangeCb, uriCount) <- pgets (NotifyClosed_lookup uri) ;;
  match closedCb with
  | Some cb => Invoke [CallClosed cb clientId]
  | None => pret tt
  end ;;
  match connectionChangeCb with
  | Some cb => Invoke [CallConnectionChange cb uriCount]
  | None => pret tt
  end.

Definition Stop : SRV unit :=
  '(acceptor, entries) <- locked Stop_locked ;;
  match acceptor with
  | Some a => pemit (CloseAcceptor a)
  | None => pret tt
  end ;;
  pfor entries (λ e, pemit (SessionClose (session e.2))) ;;
  pfor entries (λ e, NotifyClosedSync e.1 (entry_uri e.2)).

(** The join inside [mWorkQueue.Stop()] is in [WorkQueue.v]; here its effect on the
    queue. *)
Definition Shutdown : SRV unit :=
  first <- locked (λ s, (negb (mShutdown s), set_mShutdown true s)) ;;
  if negb first then pret tt
  else
    Stop ;;
    locked (λ s, (tt, set_mWorkQueue (WorkQueue.Stop_locked (mWorkQueue s)).2 s)).

Definition StartThreads : SRV unit :=
  locked (λ s, (tt, set_mWorkQueue (WorkQueue.Start (mWorkQueue s)) s)).

Definition Port : SRV Z := pgets mPort.

Definition RemoveClient (clientId : Z) : SRV unit :=
  found <- locked (RemoveClient_locked clientId) ;;
  match found with
  | None => pret tt
  | Some entry =>
      pemit (SessionClose (session entry)) ;;
      NotifyClosedSync clientId (entry_uri entry)
  end.

Definition SendToClient (clientId : Z) (payload : SPayload) : SRV unit :=
  found <- pgets (λ s, session <$> mClients s !! clientId) ;;
  match found with
  | None => LogError ("Cannot send: client " +:+ to_string clientId +:+ " is not connected")
  | Some sess => pemit (SessionSend sess payload)
  end.

Definition Broadcast (uri : option string) (payload : SPayload) : SRV unit :=
  sessions <- pgets (Broadcast_targets uri) ;;
  pfor sessions (λ sess, pemit (SessionSend sess payload)).

Definition AnyClients (uri : option string) : SRV bool := pgets (AnyClients_locked uri).

Definition GetConnectedClientIds : SRV (gmap Z bool) := pgets (λ s, isSsl <$> mClients s).

Definition AddUri (uri : string) (callbacks : CUriCallbacks) : SRV unit :=
  locked (λ s, (tt, set_mUris (<[uri := callbacks]> (mUris s)) s)).

Definition RemoveUri (uri : string) : SRV unit :=
  locked (λ s, (tt, set_mUris (delete uri (mUris s)) s)).

Definition RegisterWsClient (sess : nat) (target : string) (ssl : bool) : SRV Z :=
  '(path, ignored) <- Done (ParseTarget target ∅) ;;
  reg <- locked (RegisterWsClient_locked sess path ssl) ;;
  match reg with
  | None => pret 0%Z
  | Some r =>
      settings <- pgets mSettings ;;
      let base := append_base settings (reg_matchedUri r) path in
      uriAppend <- Done (substr_from target (Nat.min (size_of base) (size_of target))) ;;
      match reg_addedCb r with
      | Some cb => PostCallback (TaskAdded cb (reg_clientId r) uriAppend ssl)
      | None => pret tt
      end ;;
      match reg_connectionChangeCb r with
      | Some cb => PostCallback (TaskConnectionChange cb (reg_uriCount r))
      | None => pret tt
      end ;;
      pret (reg_clientId r)
  end.

Definition OnWsClosed (clientId : Z) : SRV unit :=
  found <- locked (OnWsClosed_locked clientId) ;;
  match found with
  | None => pret tt
  | Some (closedCb, connectionChangeCb, uriCount) =>
      match closedCb with
      | Some cb => PostCallback (TaskClosed cb clientId)
      | None => pret tt
      end ;;
      match connectionChangeCb with
      | Some cb => PostCallback (TaskConnectionChange cb uriCount)
      | None => pret tt
      end
  end.

Definition OnWsMessage (clientId : Z) (message : string) : SRV unit :=
  '(globalCb, uriCb) <- pgets (LookupReceiveCallbacks clientId true) ;;
  match globalCb, uriCb with
  | None, None => pret tt
  | _, _ => PostCallback (TaskMessage globalCb uriCb clientId message)
  end.

Definition OnWsContent (clientId : Z) (content : list byte) : SRV unit :=
  '(globalCb, uriCb) <- pgets (LookupReceiveCallbacks clientId false) ;;
  match globalCb, uriCb with
  | None, None => pret tt
  | _, _ => PostCallback (TaskContent globalCb uriCb clientId content)
  end.

(** [mSettings] is constant; no lock. *)
Definition UpgradeAllowed_by (settings : CServerSettings) (path : string) : bool :=
  match allowedUris settings with
  | None => true
  | Some allowed => existsb (λ u, UriMatches u path) (elements allowed)
  end.

Definition UpgradeAllowed (path : string) : SRV bool :=
  settings <- pgets mSettings ;; pret (UpgradeAllowed_by settings path).

Definition FindHttpHandler (path : string) : SRV (option callback) :=
  locked (FindHttpHandler_locked path).

Definition NextConnectionId : SRV Z :=
  locked (λ s, (mNextConnectionId s,
                set_mNextConnectionId (uint32_succ (mNextConnectionId s)) s)).

(** The pool of connections: a socket becomes an http connection, an ssl one, or is
    examined first. *)
Definition OnAccept (socket : nat) : SRV unit :=
  s <- pgets id ;;
  let kind := match ssl_of (sslContext (mSettings s)) with
              | Some ctx => if sslRequired (mSettings s) then SslHttp ctx else DetectSsl ctx
              | None => PlainHttp
              end in
  pemit (RunConnection kind socket (mSessionSettings s)).

(** The completion of [async_accept]; [alive] and [is_open] are what [weakSelf.lock()]
    and [acceptor->is_open()] find. *)
Definition accepted (acceptor : nat) (alive is_open : bool) (r : error_code + nat) : SRV unit :=
  if negb alive || negb is_open then pret tt
  else match r with
       | inl ec =>
           if ec_is EcAborted ec then pret tt
           else LogError (DescribeError "accept" ec) ;; DoAccept acceptor
       | inr socket => OnAccept socket ;; DoAccept acceptor
       end.

End Operations.

(** ** What the application calls *)

(** Programs made of calls of the public interface: what an application thread runs, and
    what a callback does, which may be called back in turn ([Stop] and [RemoveClient] call
    callbacks in the calling thread).  With [strict], every [Start] installs a closed
    callback and the server is not shut down. *)
Inductive api_call (strict : Prop) : ∀ {A : Type}, SRV A → Prop :=
  | api_start listen address port cbs :
      (strict → is_Some (mOnClientClosedCb cbs)) → api_call strict (Start listen address port cbs)
  | api_stop app : (∀ i, api_call strict (cb_body app i)) → api_call strict (Stop app)
  | api_shutdown app :
      ¬ strict → (∀ i, api_call strict (cb_body app i)) → api_call strict (Shutdown app)
  | api_port : api_call strict Port
  | api_remove app id :
      (∀ i, api_call strict (cb_body app i)) → api_call strict (RemoveClient app id)
  | api_send id p : payload_ok p = true → api_call strict (SendToClient id p)
  | api_broadcast u p : payload_ok p = true → api_call strict (Broadcast u p)
  | api_any u : api_call strict (AnyClients u)
  | api_ids : api_call strict GetConnectedClientIds
  | api_add_uri u cbs : api_call strict (AddUri u cbs)
  | api_remove_uri u : api_call strict (RemoveUri u)
  | api_effect a : api_call strict (pemit (ByApp a))
  | api_done {A} (r : res A) : api_call strict (Done r)
  | api_bind {A B} (p : SRV A) (k : A → SRV B) :
      api_call strict p → (∀ a, api_call strict (k a)) → api_call strict (pbind p k)
  | api_catch {A} (p : SRV A) (h : fault → SRV A) :
      api_call strict p → (∀ f, api_call strict (h f)) → api_call strict (pcatch p h).

(** An application whose callbacks use the server through its public interface. *)
Class Behaves (strict : Prop) (app : application) : Prop :=
  behaves i : api_call strict (cb_body app i).

#[export] Instance passive_behaves strict ends : Behaves strict (passive ends).
Proof. intros i. apply api_done. Qed.
