(* ===== verification/ServerOps.v ===== *)
(** * The server's operations, one at a time

    What each operation of [CImpl] does when nothing interferes: its result, the state
    it leaves and the effects it emits, on every branch.  The instance of [IServerEvents]
    that connections see is here too. *)

From stdpp Require Import sorting.
From S2P Require Import Prelude CppString Uri Net Events WorkQueue Threads Server.
Open Scope prog_scope.

(** ** Lemmas *)

(** [u] is a longest uri of [P] that [path] lies within. *)
Definition longest_in (P : string → Prop) (path u : string) : Prop :=
  P u ∧ UriMatches u path = true
  ∧ ∀ v, P v → UriMatches v path = true → size_of v ≤ size_of u.

Lemma longest_match_in uris path :
  let u := longest_match uris path "" in
  (u = "" ∧ ∀ v, v ∈ uris → UriMatches v path = false)
  ∨ (u ≠ "" ∧ longest_in (.∈ uris) path u).
Proof.
  intros u. destruct (decide (u = "")) as [He|Hne]; [left|right]; (split; [done|]).
  - by apply longest_match_empty.
  - destruct (longest_match_elem uris path Hne) as [Hin Hm].
    destruct (longest_match_spec uris path "") as (_ & _ & Hmax). by split_and!.
Qed.

Lemma elem_of_keys {V} (m : gmap string V) u : u ∈ (map_to_list m).*1 ↔ is_Some (m !! u).
Proof.
  rewrite list_elem_of_fmap. split.
  - intros ([u' v] & -> & Hin%elem_of_map_to_list). eauto.
  - intros [v Hv]. exists (u, v). split; [done|]. by apply elem_of_map_to_list.
Qed.

(** [LongestUriMatchLocked] finds the longest registered uri, or nothing matches. *)
Lemma LongestUriMatch_spec path s :
  let u := LongestUriMatchLocked path s in
  (u = "" ∧ ∀ v, is_Some (mUris s !! v) → UriMatches v path = false)
  ∨ (u ≠ "" ∧ longest_in (λ v, is_Some (mUris s !! v)) path u).
Proof.
  unfold LongestUriMatchLocked. destruct (longest_match_in (map_to_list (mUris s)).*1 path)
    as [[He Hn]|[Hne (Hin & Hm & Hmax)]]; [left|right]; (split; [done|]).
  - intros v Hv. apply Hn. by apply elem_of_keys.
  - split_and!; [by apply elem_of_keys|done|]. intros v Hv. apply Hmax. by apply elem_of_keys.
Qed.

(** The access [mUris[matchedUri]] never adds an entry. *)
Lemma matched_uri_registered path s cbs :
  LongestUriMatchLocked path s ≠ "" →
  default cbs (mUris s !! LongestUriMatchLocked path s) =
    default no_uri_callbacks (mUris s !! LongestUriMatchLocked path s)
  ∧ <[LongestUriMatchLocked path s :=
        default no_uri_callbacks (mUris s !! LongestUriMatchLocked path s)]> (mUris s) = mUris s.
Proof.
  intros Hne. destruct (LongestUriMatch_spec path s) as [[? _]|[_ ([c Hc] & _ & _)]]; [done|].
  rewrite Hc. split; [done|]. by apply insert_id.
Qed.

Lemma in_order_elem m id e : (id, e) ∈ in_order m ↔ m !! id = Some e.
Proof. unfold in_order. by rewrite merge_sort_Permutation, elem_of_map_to_list. Qed.

Lemma in_order_ids m : NoDup (in_order m).*1.
Proof. unfold in_order. rewrite merge_sort_Permutation. apply NoDup_fst_map_to_list. Qed.

#[export] Instance by_id_total : Total by_id.
Proof. intros a b. unfold by_id. lia. Qed.
#[export] Instance by_id_trans : Transitive by_id.
Proof. intros a b c. unfold by_id. lia. Qed.

Lemma in_order_sorted m : StronglySorted by_id (in_order m).
Proof. apply StronglySorted_merge_sort; apply _. Qed.

(** The base left out of [uriAppend] is a prefix of the target. *)
Lemma append_base_prefix settings s target :
  ∃ rest, target = append_base settings (LongestUriMatchLocked (target_path target) s)
                     (target_path target) +:+ rest.
Proof.
  assert (Hpre : ∀ u, u = "" ∨ UriMatches u (target_path target) = true →
                      ∃ rest, target = u +:+ rest).
  { intros u [->|[r1 Hr]%UriMatches_prefix]; [by exists target|].
    destruct (target_path_prefix target) as [r2 Ht]. exists (r1 +:+ r2).
    by rewrite <-sapp_assoc, <-Hr. }
  apply Hpre. unfold append_base.
  destruct (LongestUriMatch_spec (target_path target) s) as [[-> _]|[Hne (_ & Hm & _)]]; cbn.
  - destruct (allowedUris settings) as [allowed|]; [|by left].
    destruct (longest_match_in (elements allowed) (target_path target))
      as [[-> _]|[_ (_ & ? & _)]]; auto.
  - destruct (is_empty _) eqn:He; [by apply is_empty_true in He|by right].
Qed.

Section Ops.
Context (app : application).

(** ** The interface *)

Lemma no_throw_LogError m : no_throw (LogError m).
Proof. done. Qed.

Lemma no_throw_PostCallback t : no_throw (PostCallback t).
Proof. done. Qed.

Lemma no_throw_option {A} (o : option A) (k : A → SRV unit) :
  (∀ a, no_throw (k a)) → no_throw (match o with Some a => k a | None => pret tt end).
Proof. intros Hk. by destruct o. Qed.

Hint Resolve no_throw_LogError no_throw_PostCallback no_throw_option : cpp.

Lemma no_throw_Invoke calls : no_throw (Invoke app calls).
Proof.
  induction calls as [|i calls IH]; [done|]. apply no_throw_bind; [|by intros []].
  unfold Invoke1. apply no_throw_bind; [done|]. intros _.
  apply no_throw_bind; [by apply no_throw_catch|]. intros _. by destruct (app i).
Qed.

Lemma no_throw_NotifyClosedSync id uri : no_throw (NotifyClosedSync app id uri).
Proof.
  apply no_throw_bind; [done|]. intros [[c cc] n].
  repeat apply no_throw_bind; intros; destruct c, cc; eauto using no_throw_Invoke; done.
Qed.

Lemma no_throw_RegisterWsClient sess target ssl : no_throw (RegisterWsClient sess target ssl).
Proof.
  unfold RegisterWsClient. destruct (ParseTarget_path target ∅) as [m ->]. cbn.
  intros s. destruct (RegisterWsClient_locked _ _ _ _) as [[r|] s']; cbn; [|done].
  intros s2. rewrite substr_from_ok by lia. cbn.
  repeat (apply no_throw_bind; [apply no_throw_option; intros; done|intros]). done.
Qed.

Lemma no_throw_OnWsClosed id : no_throw (OnWsClosed id).
Proof.
  apply no_throw_bind; [done|]. intros [[[c cc] n]|]; [|done].
  repeat apply no_throw_bind; intros; destruct c, cc; done.
Qed.

Lemma no_throw_OnWsMessage id m : no_throw (OnWsMessage id m).
Proof. apply no_throw_bind; [done|]. by intros [[] []]. Qed.

Lemma no_throw_OnWsContent id c : no_throw (OnWsContent id c).
Proof. apply no_throw_bind; [done|]. by intros [[] []]. Qed.

(** ** Posting *)

Definition posts (ts : list task) (s : CImpl) : CImpl :=
  foldl (λ s t, set_mWorkQueue (WorkQueue.Post t (mWorkQueue s)) s) s ts.

(** Everything but the queue. *)
Definition same_registry (s1 s2 : CImpl) : Prop :=
  set_mWorkQueue new_queue s1 = set_mWorkQueue new_queue s2.

Lemma posts_registry ts s : same_registry (posts ts s) s.
Proof.
  revert s. induction ts as [|t ts IH]; intros s; [done|].
  unfold same_registry in *. etransitivity; [apply IH|done].
Qed.

Lemma posts_clients ts s : mClients (posts ts s) = mClients s.
Proof. exact (f_equal mClients (posts_registry ts s)). Qed.

Lemma posts_queue ts s :
  mQueue (mWorkQueue (posts ts s))
  = if mStopped (mWorkQueue s) then mQueue (mWorkQueue s) else mQueue (mWorkQueue s) ++ ts.
Proof.
  revert s. induction ts as [|t ts IH]; intros s; cbn.
  - rewrite app_nil_r. by destruct (mStopped _).
  - etransitivity; [apply IH|]. cbn. unfold WorkQueue.Post, Post_locked.
    destruct (mStopped (mWorkQueue s)) eqn:Hs; cbn; rewrite ?Hs; [done|].
    by rewrite <-app_assoc.
Qed.

Lemma posts_app ts1 ts2 s : posts (ts1 ++ ts2) s = posts ts2 (posts ts1 s).
Proof. apply foldl_app. Qed.

Lemma run_posts (o1 o2 : option task) s (r : res Z) :
  run (match o1 with Some t => PostCallback t | None => pret tt end ;;
       match o2 with Some t => PostCallback t | None => pret tt end ;;
       Done r) s
  = (r, posts (option_list o1 ++ option_list o2) s, Posted <$> option_list o1 ++ option_list o2).
Proof. by destruct o1, o2. Qed.

(** What registering a client posts. *)
Definition added_tasks (s : CImpl) (u uriAppend : string) (ssl : bool) : list task :=
  option_list ((λ cb, TaskAdded cb (mNextConnectionId s) uriAppend ssl)
               <$> mOnClientAddedCb (mClientCbs s))
  ++ (if is_empty u then []
      else option_list ((λ cb, TaskConnectionChange cb
                                 (size_t_succ (default 0%Z (mUriCounts s !! u))))
                        <$> (mUris s !! u ≫= mOnConnectionChange))).

(** The state of a registered client, the queue aside. *)
Definition registered (s : CImpl) (sess : nat) (u : string) (ssl : bool) : CImpl :=
  mkImpl (mName s) (mSettings s) (mSessionSettings s) (mWorkQueue s) (mShutdown s) (mAcceptor s)
    (mPort s) (uint32_succ (mNextConnectionId s)) (mClientCbs s)
    (<[mNextConnectionId s := mkEntry sess u ssl]> (mClients s)) (mUris s)
    (if is_empty u then mUriCounts s
     else <[u := size_t_succ (default 0%Z (mUriCounts s !! u))]> (mUriCounts s)).

Lemma RegisterWsClient_locked_accepts sess path ssl s :
  mShutdown s = false → is_Some (mAcceptor s) →
  let u := LongestUriMatchLocked path s in
  ∃ r, RegisterWsClient_locked sess path ssl s = (Some r, registered s sess u ssl)
    ∧ reg_clientId r = mNextConnectionId s ∧ reg_matchedUri r = u
    ∧ reg_addedCb r = mOnClientAddedCb (mClientCbs s)
    ∧ (reg_connectionChangeCb r
       = if is_empty u then None else mUris s !! u ≫= mOnConnectionChange)
    ∧ (is_empty u = false →
       reg_uriCount r = size_t_succ (default 0%Z (mUriCounts s !! u))).
Proof.
  intros Hsd Hac u. unfold RegisterWsClient_locked. rewrite Hsd, bool_decide_true by done. cbn.
  change (LongestUriMatchLocked path _) with u. destruct (is_empty u) eqn:He; eexists.
  - unfold registered. rewrite He. split; [reflexivity|]. cbn. by rewrite ?He.
  - assert (Hne : LongestUriMatchLocked path s ≠ "") by (fold u; by destruct u).
    destruct (matched_uri_registered path s no_uri_callbacks Hne) as [_ Hins]. fold u in Hins.
    unfold registered. rewrite He, Hins. split; [reflexivity|]. cbn. split_and!; try done.
    by destruct (mUris s !! u).
Qed.

End Ops.

(** ** Properties *)

(** The run of an accepted registration, with its exact final state. *)
Lemma run_RegisterWsClient sess target ssl s :
  mShutdown s = false → is_Some (mAcceptor s) →
  let path := target_path target in
  let u := LongestUriMatchLocked path s in
  ∃ uriAppend,
    run (RegisterWsClient sess target ssl) s
      = (Ok (mNextConnectionId s),
         posts (added_tasks s u uriAppend ssl) (registered s sess u ssl),
         Posted <$> added_tasks s u uriAppend ssl)
    ∧ target = append_base (mSettings s) u path +:+ uriAppend.
Proof.
  intros Hsd Hac path u.
  destruct (append_base_prefix (mSettings s) s target) as [rest Hrest]. fold path in Hrest.
  fold u in Hrest.
  destruct (RegisterWsClient_locked_accepts sess path ssl s Hsd Hac)
    as (r & Hr & Hid & Hu & Hadd & Hcc & Hcount). fold u in Hr, Hu, Hcc, Hcount.
  assert (Hsub : substr_from target
            (Nat.min (size_of (append_base (mSettings s) (reg_matchedUri r) path))
               (size_of target)) = Ok rest).
  { rewrite Hu. rewrite Nat.min_l by (rewrite Hrest, size_app; lia).
    rewrite substr_from_ok by (rewrite Hrest, size_app; lia).
    f_equal. rewrite <-(sdrop_app_size (append_base (mSettings s) u path) rest). by rewrite <-Hrest. }
  exists rest. split; [|done].
  unfold RegisterWsClient. destruct (ParseTarget_path target ∅) as [m ->]. fold path.
  cbn [pbind locked run]. rewrite Hr. cbn -[posts added_tasks append_base size_of registered].
  change (mSettings (registered s sess u ssl)) with (mSettings s). rewrite Hsub. cbn -[posts added_tasks registered].
  unfold added_tasks. rewrite Hid, Hadd, Hcc.
  destruct (is_empty u) eqn:He.
  - by destruct (mOnClientAddedCb _).
  - rewrite Hcount by done. by destruct (mOnClientAddedCb _), (mUris s !! u ≫= _).
Qed.


(** A stopping server takes no client: id 0, nothing changed, nothing posted. *)
Lemma RegisterWsClient_rejects sess target ssl s :
  mShutdown s = true ∨ mAcceptor s = None →
  run (RegisterWsClient sess target ssl) s = (Ok 0%Z, s, []).
Proof.
  intros Hs. unfold RegisterWsClient. destruct (ParseTarget_path target ∅) as [m ->].
  cbn [pbind locked run]. unfold RegisterWsClient_locked.
  assert (mShutdown s || negb (bool_decide (is_Some (mAcceptor s))) = true) as ->; [|done].
  destruct Hs as [-> | ->]; [done|]. by destruct (mShutdown s).
Qed.

Lemma run_emits {A} (l : list A) (f : A → srv_op) (s : CImpl) :
  run (pfor l (λ x, pemit (f x))) s = (Ok tt, s, f <$> l).
Proof. induction l as [|x l IH]; [done|]. cbn. by rewrite IH. Qed.

(** A send to [uri] reaches the clients registered under it; without one, everybody. *)
Definition reaches (uri : option string) (e : SClientEntry) : Prop :=
  ∀ u, uri = Some u → entry_uri e = u.

(** A broadcast is one [Send] to each client of the uri (to every client without one),
    by increasing id, and nothing else. *)
Theorem Broadcast_recipients uri payload s :
  ∃ l, run (Broadcast uri payload) s = (Ok tt, s, (λ e, SessionSend (session e.2) payload) <$> l)
    ∧ NoDup l.*1 ∧ StronglySorted by_id l
    ∧ ∀ id e, (id, e) ∈ l ↔ mClients s !! id = Some e ∧ reaches uri e.
Proof.
  set (P := λ e : Z * SClientEntry, match uri with
                                    | None => true
                                    | Some u => bool_decide (entry_uri e.2 = u)
                                    end).
  exists (List.filter P (in_order (mClients s))). split_and!.
  - unfold Broadcast. cbn [pbind pgets locked pret run fst snd]. rewrite run_emits.
    unfold Broadcast_targets. fold P. by rewrite <-list_fmap_compose.
  - generalize (in_order_ids (mClients s)). induction (in_order (mClients s)) as [|e l IH]; [done|].
    cbn. intros [Hn Hnd]%NoDup_cons. destruct (P e); [|auto]. cbn. apply NoDup_cons. split; [|auto].
    contradict Hn. apply list_elem_of_fmap in Hn as (e' & He & Hin).
    apply list_elem_of_In, List.filter_In in Hin as [Hin _].
    apply list_elem_of_fmap. exists e'. split; [done|]. by apply list_elem_of_In.
  - generalize (in_order_sorted (mClients s)). induction (in_order (mClients s)) as [|e l IH]; [done|].
    cbn. intros Hs. inversion_clear Hs as [|? ? Hl Hall]. destruct (P e); [|auto].
    constructor; [auto|]. rewrite Forall_forall in *. intros e' Hin.
    apply list_elem_of_In, List.filter_In in Hin as [Hin _].
    apply Hall. by apply list_elem_of_In.
  - intros id e. rewrite list_elem_of_In, List.filter_In, <-list_elem_of_In, in_order_elem.
    unfold P. cbn. destruct uri as [u|]; [rewrite bool_decide_eq_true|]; split; intros [? Hu];
      (split; [done|]); try congruence; [by apply Hu].
Qed.

(** Without a uri every client counts; with one, only its own count. *)
Lemma SendToClient_branches id payload s :
  run (SendToClient id payload) s =
    match mClients s !! id with
    | Some e => (Ok tt, s, [SessionSend (session e) payload])
    | None => (Ok tt, s, [Stderr (log_line (mName s)
                ("Cannot send: client " +:+ to_string id +:+ " is not connected"))])
    end.
Proof.
  unfold SendToClient. cbn [pbind pgets locked pret run fst snd].
  by destruct (mClients s !! id).
Qed.

(** Callbacks that leave the server alone. *)
Section Notify.
Context (ends : invocation → cb_outcome).
#[local] Notation app := (passive ends).

(** The effects of [Invoke] on one callback. *)
Definition invoke_ops (name : string) (i : invocation) : list srv_op :=
  Invoked i :: match ends i with
               | Returns => []
               | ThrowsStd what =>
                   [Stderr (log_line name ("Unhandled exception in callback: " +:+ what))]
               | ThrowsOther => [Stderr (log_line name "Unhandled exception in callback")]
               end.

(** The effects of [NotifyClosedSync]: each callback runs whatever the other does. *)
Definition notify_ops (s : CImpl) (id : Z) (uri : string) : list srv_op :=
  let '(closedCb, changeCb, count) := NotifyClosed_lookup uri s in
  match closedCb with Some cb => invoke_ops (mName s) (CallClosed cb id) | None => [] end
  ++ match changeCb with
     | Some cb => invoke_ops (mName s) (CallConnectionChange cb count)
     | None => []
     end.

Lemma run_Invoke_one i s : run (Invoke app [i]) s = (Ok tt, s, invoke_ops (mName s) i).
Proof. unfold Invoke, Invoke1, invoke_ops. cbn. by destruct (ends i). Qed.

Lemma run_NotifyClosedSync id uri s :
  run (NotifyClosedSync app id uri) s = (Ok tt, s, notify_ops s id uri).
Proof.
  unfold NotifyClosedSync, notify_ops. cbn [pbind pgets locked pret run].
  destruct (NotifyClosed_lookup uri s) as [[c cc] n]. cbn [fst snd].
  rewrite run_bind. unfold bind. destruct c; rewrite ?run_Invoke_one; cbn [run pret];
    destruct cc; rewrite ?run_Invoke_one; cbn [run pret]; by rewrite ?app_nil_r.
Qed.

Lemma run_notify_all (l : list (Z * SClientEntry)) s :
  run (pfor l (λ e, NotifyClosedSync app e.1 (entry_uri e.2))) s
  = (Ok tt, s, concat ((λ e, notify_ops s e.1 (entry_uri e.2)) <$> l)).
Proof.
  induction l as [|e l IH]; [done|]. cbn [pfor fmap list_fmap concat].
  rewrite run_bind. unfold bind. by rewrite run_NotifyClosedSync, IH.
Qed.

(** [Stop] closes the acceptor, asks every session to close, and calls the closed
    callback of every client in the calling thread; the registry is empty before the
    first callback runs, so each connection callback sees the count 0. *)
Theorem Stop_effects s :
  let s' := (Server.Stop_locked s).2 in
  run (Stop app) s
  = (Ok tt, s', option_list (CloseAcceptor <$> mAcceptor s)
       ++ ((λ e, SessionClose (session e.2)) <$> in_order (mClients s))
       ++ concat ((λ e, notify_ops s' e.1 (entry_uri e.2)) <$> in_order (mClients s)))
  ∧ mClients s' = ∅ ∧ mUriCounts s' = ∅ ∧ mAcceptor s' = None ∧ mPort s' = 0%Z
  ∧ mClientCbs s' = mClientCbs s ∧ mUris s' = mUris s
  ∧ run (Stop app) s' = (Ok tt, s', []).
Proof.
  intros s'. assert (Hrun : ∀ s0, run (Stop app) s0
    = (Ok tt, (Server.Stop_locked s0).2, option_list (CloseAcceptor <$> mAcceptor s0)
       ++ ((λ e, SessionClose (session e.2)) <$> in_order (mClients s0))
       ++ concat ((λ e, notify_ops (Server.Stop_locked s0).2 e.1 (entry_uri e.2))
                  <$> in_order (mClients s0)))).
  { intros s0. unfold Stop. cbn [pbind locked pret run].
    change ((Server.Stop_locked s0).1) with (mAcceptor s0, in_order (mClients s0)). cbv beta iota.
    rewrite run_bind. unfold bind.
    destruct (mAcceptor s0); cbn [run pemit pret]; rewrite run_bind; unfold bind;
      by rewrite run_emits, run_notify_all. }
  split; [apply Hrun|]. split_and!; try done.
Qed.

Lemma run_RemoveClient_none id s :
  mClients s !! id = None → run (RemoveClient app id) s = (Ok tt, s, []).
Proof.
  intros Hn. unfold RemoveClient. cbn [pbind locked pret run].
  unfold RemoveClient_locked. by rewrite Hn.
Qed.

Lemma run_RemoveClient_some id e s :
  mClients s !! id = Some e →
  let s' := (RemoveClient_locked id s).2 in
  run (RemoveClient app id) s
  = (Ok tt, s', SessionClose (session e) :: notify_ops s' id (entry_uri e)).
Proof.
  intros He s'. unfold RemoveClient. cbn [pbind locked pret run]. fold s'.
  replace ((RemoveClient_locked id s).1) with (Some e)
    by (unfold RemoveClient_locked; by rewrite He).
  cbn [pemit pbind pret run]. by rewrite run_NotifyClosedSync.
Qed.

(** [RemoveClient] on a connected client: its entry goes, its uri's count goes down,
    its session is closed, and the closed callback runs in the calling thread; on any
    other id (so the second time) nothing happens. *)
Theorem RemoveClient_effects id s :
  match mClients s !! id with
  | None => run (RemoveClient app id) s = (Ok tt, s, [])
  | Some e =>
      let s' := (RemoveClient_locked id s).2 in
      run (RemoveClient app id) s
        = (Ok tt, s', SessionClose (session e) :: notify_ops s' id (entry_uri e))
      ∧ mClients s' = delete id (mClients s)
      ∧ run (RemoveClient app id) s' = (Ok tt, s', [])
      ∧ run (OnWsClosed id) s' = (Ok tt, s', [])
  end.
Proof.
  destruct (mClients s !! id) as [e|] eqn:He; [|by apply run_RemoveClient_none]. intros s'.
  assert (Hcl : mClients s' = delete id (mClients s)).
  { unfold s', RemoveClient_locked. rewrite He. cbn. unfold DecrementUriCountLocked.
    destruct (is_empty _); [done|]. cbn. destruct (mUriCounts s !! _) as [c|]; [|done].
    by destruct (Z.eqb c 0). }
  assert (Hgone : mClients s' !! id = None) by (rewrite Hcl; apply lookup_delete_eq).
  split_and!; [by apply run_RemoveClient_some|done|by apply run_RemoveClient_none|].
  unfold OnWsClosed. cbn [pbind locked pret run].
  unfold OnWsClosed_locked. by rewrite Hgone.
Qed.

(** The closed notification of a connection that ended by itself goes through the
    queue, with the uri's count after the client has left. *)
Lemma OnWsClosed_effects id e s :
  mClients s !! id = Some e →
  let uri := entry_uri e in
  let '(count, s1) := DecrementUriCountLocked uri
                        (set_mClients (delete id (mClients s)) s) in
  let tasks := option_list ((λ cb, TaskClosed cb id) <$> mOnClientClosedCb (mClientCbs s))
    ++ (if is_empty uri then []
        else option_list ((λ cb, TaskConnectionChange cb count)
                          <$> (mUris s !! uri ≫= mOnConnectionChange))) in
  run (OnWsClosed id) s = (Ok tt, posts tasks s1, Posted <$> tasks).
Proof.
  intros He uri. unfold OnWsClosed. cbn [pbind locked pret run].
  unfold OnWsClosed_locked. rewrite He. fold uri. unfold DecrementUriCountLocked.
  destruct (is_empty uri); cbn; [by destruct (mOnClientClosedCb _)|].
  destruct (mUriCounts s !! uri) as [c|]; cbn; [destruct (Z.eqb c 0); cbn|];
    by destruct (mOnClientClosedCb _), (mUris s !! uri ≫= _).
Qed.

End Notify.

(** An upgrade is refused exactly when there is a list of allowed uris and none of
    them matches the path. *)
Lemma UpgradeAllowed_spec path s :
  run (UpgradeAllowed path) s = (Ok (UpgradeAllowed_by (mSettings s) path), s, [])
  ∧ (UpgradeAllowed_by (mSettings s) path = false ↔
     ∃ allowed, allowedUris (mSettings s) = Some allowed
                ∧ ∀ u, u ∈ allowed → UriMatches u path = false).
Proof.
  split; [done|]. unfold UpgradeAllowed_by.
  destruct (allowedUris (mSettings s)) as [allowed|]; [|by split; [|intros (? & ? & ?)]].
  split.
  - intros Hf. exists allowed. split; [done|]. intros u Hu.
    destruct (UriMatches u path) eqn:Hm; [|done]. exfalso.
    assert (existsb (λ u, UriMatches u path) (elements allowed) = true); [|congruence].
    apply existsb_exists. exists u. split; [|done]. apply list_elem_of_In. by apply elem_of_elements.
  - intros (allowed' & [= <-] & Hn). apply not_true_iff_false.
    intros (u & Hu & Hm)%existsb_exists. apply list_elem_of_In, elem_of_elements in Hu.
    by rewrite Hn in Hm.
Qed.

(** Plain http requests go to the handler of the longest registered uri; the lookup
    changes nothing. *)
Lemma FindHttpHandler_spec path s :
  let u := LongestUriMatchLocked path s in
  run (FindHttpHandler path) s = (Ok (mUris s !! u ≫= mOnRequestReceivedCb), s, [])
  ∨ (u = "" ∧ run (FindHttpHandler path) s = (Ok None, s, [])).
Proof.
  intros u. unfold FindHttpHandler. cbn [pbind locked pret run]. unfold FindHttpHandler_locked.
  fold u. destruct (is_empty u) eqn:He; [right; split; [by apply is_empty_true|done]|left].
  assert (Hne : LongestUriMatchLocked path s ≠ "") by (fold u; by destruct u).
  destruct (matched_uri_registered path s no_uri_callbacks Hne) as [_ Hins]. fold u in Hins.
  cbn. rewrite Hins.
  replace (set_mUris (mUris s) s) with s by (by destruct s). by destruct (mUris s !! u).
Qed.

(** Messages go to the global callback and to the callback of the client's uri, in one
    closure; with neither registered nothing is posted. *)
Lemma OnWsMessage_effects id m s :
  run (OnWsMessage id m) s
  = match LookupReceiveCallbacks id true s with
    | (None, None) => (Ok tt, s, [])
    | (g, u) => (Ok tt, posts [TaskMessage g u id m] s, [Posted (TaskMessage g u id m)])
    end.
Proof.
  unfold OnWsMessage. cbn [pbind pgets locked pret run fst snd].
  destruct (LookupReceiveCallbacks id true s) as [[] []]; done.
Qed.

(** ** Concrete inputs *)

(** A server that listens, with two registered uris. *)
Definition demo_impl : CImpl :=
  mkImpl "demo" (default_server_settings 0) (session_settings (default_server_settings 0))
    new_queue false (Some 0) 8080 1 (mkClientCallbacks (Some 1) (Some 2) (Some 3) None) ∅
    {[ "/a" := mkUriCallbacks (Some 4) (Some 5) None None; "/a/b" := no_uri_callbacks ]} ∅.


(** A message that arrives from a client after [RemoveClient] still reaches the global
    callback. *)
Theorem message_after_remove ends :
  let s := state_of (run (RegisterWsClient 9 "/a" false) demo_impl) in
  let s' := state_of (run (RemoveClient (passive ends) 1) s) in
  mClients s' = ∅
  ∧ effects_of (run (OnWsMessage 1 "late") s') = [Posted (TaskMessage (Some 3) None 1 "late")].
Proof.
  cbv zeta. set (s := state_of (run (RegisterWsClient 9 "/a" false) demo_impl)).
  assert (He : ∃ e, mClients s !! 1%Z = Some e) by (eexists; by vm_compute).
  destruct He as [e He]. rewrite (run_RemoveClient_some ends 1 e s He).
  split; vm_compute; reflexivity.
Qed.

(** Taking [n] ids, as [n] plain http requests do. *)
Definition take_ids (n : nat) : SRV unit :=
  pfor (replicate n tt) (λ _, NextConnectionId ;; pret tt).

Lemma run_next_ids (l : list unit) s :
  run (pfor l (λ _, NextConnectionId ;; pret tt)) s
  = (Ok tt, set_mNextConnectionId
              (Nat.iter (length l) uint32_succ (mNextConnectionId s)) s, []).
Proof.
  revert s. induction l as [|[] l IH]; intros s; [by destruct s|].
  cbn [pfor length]. rewrite run_bind. unfold bind.
  cbn [NextConnectionId pbind locked pret run fst snd]. rewrite IH.
  cbn [set_mNextConnectionId mNextConnectionId]. by rewrite <-Nat.iter_succ_r.
Qed.

Lemma iter_succ n : Nat.iter n uint32_succ 1%Z = ((1 + Z.of_nat n) mod 2 ^ 32)%Z.
Proof.
  induction n as [|n IH]; [done|]. cbn [Nat.iter nat_rect]. unfold Nat.iter in IH. rewrite IH.
  unfold uint32_succ. rewrite Zplus_mod_idemp_l. f_equal. lia.
Qed.

(** The id counter wraps: it is shared with plain http requests, and after 2^32 - 1 ids
    the next websocket client is registered under 0, the value that means rejected. *)
Theorem id_counter_wraps s sess target ssl :
  mShutdown s = false → is_Some (mAcceptor s) → mNextConnectionId s = 1%Z →
  ∃ n s1 s2 ops,
    run (take_ids n) s = (Ok tt, s1, [])
    ∧ run (RegisterWsClient sess target ssl) s1 = (Ok 0%Z, s2, ops)
    ∧ is_Some (mClients s2 !! 0%Z).
Proof.
  intros Hsd Hac Hn. destruct (Z_of_nat_complete (2 ^ 32 - 1)) as [n Hlen]; [lia|].
  exists n. unfold take_ids. rewrite run_next_ids, length_replicate, Hn, iter_succ, <-Hlen.
  replace ((1 + (2 ^ 32 - 1)) mod 2 ^ 32)%Z with 0%Z by done.
  set (s1 := set_mNextConnectionId 0 s).
  destruct (run_RegisterWsClient sess target ssl s1 Hsd Hac) as (rest & Hrun & _).
  exists s1, (posts (added_tasks s1 (LongestUriMatchLocked (target_path target) s1) rest ssl)
    (registered s1 sess (LongestUriMatchLocked (target_path target) s1) ssl)).
  eexists. split; [done|]. split; [exact Hrun|].
  rewrite posts_clients. unfold registered. cbn [mClients].
  change (mNextConnectionId s1) with 0%Z. rewrite lookup_insert_eq. by eexists.
Qed.

Lemma id_counter_wraps_witness :
  mNextConnectionId demo_impl = 1%Z
  ∧ ∃ n s1 s2 ops,
      run (take_ids n) demo_impl = (Ok tt, s1, [])
      ∧ run (RegisterWsClient 9 "/a" false) s1 = (Ok 0%Z, s2, ops)
      ∧ is_Some (mClients s2 !! 0%Z).
Proof. split; [done|]. apply id_counter_wraps; [done|by eexists|done]. Defined.
