(* ===== verification/Registry.v ===== *)
(** * The server's registry under any interleaving

    Any number of threads call the server's operations; their critical sections
    interleave freely ([Threads.pool_step]).  The history records how many ids were
    given out and which clients were ever registered.  A client's closed notification
    is a token: registering a client creates it, removing the entry hands it to the
    thread that removed it, posting moves it into the workqueue, taking the task moves it
    to the worker, calling the closed callback spends it.

    Everything holds up to 2^32 - 1 ids, when the counter wraps. *)

From stdpp Require Import gmultiset sorting.
From S2P Require Import Prelude CppString Uri Net Events WorkQueue Threads Server ServerOps.
Open Scope prog_scope.

(** ** History and invariant *)

Record history := mkHistory { allocated : Z; seen : gset Z }.

Definition observe (s s' : CImpl) (g : history) : history :=
  mkHistory
    (if bool_decide (mNextConnectionId s' = mNextConnectionId s) then allocated g
     else (allocated g + 1)%Z)
    (seen g ∪ (dom (mClients s') ∖ dom (mClients s))).

Definition in_range (g : history) : Prop := (allocated g < 2 ^ 32)%Z.

(** Clients whose matched uri is [u]. *)
Definition clients_of (u : string) (m : gmap Z SClientEntry) : gmap Z SClientEntry :=
  filter (λ p, entry_uri p.2 = u) m.

Definition counts_ok (s : CImpl) : Prop :=
  ∀ u, default 0%Z (mUriCounts s !! u)
       = if is_empty u then 0%Z else Z.of_nat (size (clients_of u (mClients s))).

Section Registry.
(** [strict]: every [Start] installs a closed callback and the workqueue runs. *)
Context (strict : Prop).

Record registry_inv (g : history) (s : CImpl) : Prop := {
  ri_next : mNextConnectionId s = ((1 + allocated g) mod 2 ^ 32)%Z;
  ri_pos : (0 ≤ allocated g)%Z;
  ri_seen : ∀ id, id ∈ seen g → (1 ≤ id ≤ allocated g)%Z;
  ri_dom : dom (mClients s) ⊆ seen g;
  ri_size : (Z.of_nat (size (mClients s)) ≤ allocated g)%Z;
  ri_counts : counts_ok s;
  ri_stopped : mAcceptor s = None → mClients s = ∅ ∧ mPort s = 0%Z;
  ri_closed : strict → (seen g ≠ ∅ ∨ is_Some (mAcceptor s)) →
              is_Some (mOnClientClosedCb (mClientCbs s));
  ri_queue : strict → mStopped (mWorkQueue s) = false
}.

(** *** Tokens *)

Definition task_token (t : task) : gmultiset Z :=
  match t with TaskClosed _ id => {[+ id +]} | _ => ∅ end.

Definition call_token (i : invocation) : gmultiset Z :=
  match i with CallClosed _ id => {[+ id +]} | _ => ∅ end.

Definition op_token (o : srv_op) : gmultiset Z :=
  match o with Invoked i => call_token i | _ => ∅ end.

Definition ids_of (m : gmap Z SClientEntry) : gmultiset Z := list_to_set_disj (map_to_list m).*1.
Definition queued (q : list task) : gmultiset Z := ⋃+ (task_token <$> q).

Definition present (s : CImpl) : gmultiset Z :=
  ids_of (mClients s) ⊎ queued (mQueue (mWorkQueue s)).
Definition past (g : history) : gmultiset Z := list_to_set_disj (elements (seen g)).

Definition leftover (t : gmultiset Z) : Prop := strict → t = ∅.

Abbreviation swp := (wp observe registry_inv in_range op_token present past).

(** ** Lemmas on the history *)

Lemma observe_same s g : observe s s g = g.
Proof.
  unfold observe. rewrite bool_decide_true by done. destruct g. cbn. f_equal. set_solver.
Qed.

Lemma in_range_back s s' g : in_range (observe s s' g) → in_range g.
Proof. unfold in_range, observe. cbn. case_bool_decide; lia. Qed.

Lemma leftover_empty : leftover ∅.
Proof. done. Qed.

Lemma ids_of_empty : ids_of ∅ = ∅.
Proof. unfold ids_of. by rewrite map_to_list_empty. Qed.

Lemma ids_of_insert m id e : m !! id = None → ids_of (<[id := e]> m) = {[+ id +]} ⊎ ids_of m.
Proof.
  intros Hn. unfold ids_of. rewrite map_to_list_insert by done. done.
Qed.

Lemma ids_of_delete m id e : m !! id = Some e → ids_of m = {[+ id +]} ⊎ ids_of (delete id m).
Proof.
  intros He. rewrite <-(ids_of_insert (delete id m) id e) by apply lookup_delete_eq.
  by rewrite insert_delete_id.
Qed.

Lemma ids_of_in_order m : list_to_set_disj (in_order m).*1 = ids_of m.
Proof. unfold ids_of, in_order. by rewrite merge_sort_Permutation. Qed.

Lemma ids_of_elem m id : id ∈ ids_of m ↔ id ∈ dom m.
Proof.
  unfold ids_of. rewrite elem_of_list_to_set_disj, list_elem_of_fmap, elem_of_dom. split.
  - intros ([i e] & -> & Hin%elem_of_map_to_list). eauto.
  - intros [e He]. exists (id, e). split; [done|]. by apply elem_of_map_to_list.
Qed.

Lemma past_elem g id : id ∈ past g ↔ id ∈ seen g.
Proof. unfold past. by rewrite elem_of_list_to_set_disj, elem_of_elements. Qed.

Lemma past_once g id : multiplicity id (past g) ≤ 1.
Proof.
  unfold past. generalize (NoDup_elements (seen g)).
  induction (elements (seen g)) as [|x l IH]; [intros _; cbn; rewrite multiplicity_empty; lia|].
  intros [Hx Hl]%NoDup_cons. rewrite list_to_set_disj_cons, multiplicity_disj_union.
  specialize (IH Hl). destruct (decide (id = x)) as [->|Hne].
  - rewrite multiplicity_singleton.
    rewrite (proj1 (not_elem_of_multiplicity x (list_to_set_disj l))); [by rewrite decide_True by done|].
    by rewrite elem_of_list_to_set_disj.
  - rewrite multiplicity_singleton_ne by done. lia.
Qed.

Lemma past_add n n' x X :
  x ∉ X → past (mkHistory n ({[x]} ∪ X)) = {[+ x +]} ⊎ past (mkHistory n' X).
Proof. intros Hx. unfold past. cbn. by rewrite elements_union_singleton. Qed.

Lemma queued_app q1 q2 : queued (q1 ++ q2) = queued q1 ⊎ queued q2.
Proof. unfold queued. by rewrite fmap_app, gmultiset_disj_union_list_app. Qed.

(** What the invariant depends on. *)
Definition core (s : CImpl) :=
  (mNextConnectionId s, mClients s, mUriCounts s, mAcceptor s, mPort s,
   mOnClientClosedCb (mClientCbs s)).

Lemma core_obs s s' g : core s' = core s → observe s s' g = g.
Proof.
  intros [= Hn Hc _ _ _ _]. unfold observe. rewrite Hn, Hc, bool_decide_true by done.
  destruct g. cbn. f_equal. set_solver.
Qed.

Lemma core_inv s s' g :
  core s' = core s → (strict → mStopped (mWorkQueue s') = mStopped (mWorkQueue s)) →
  registry_inv g s → registry_inv g s'.
Proof.
  intros [= Hn Hc Hu Ha Hp Hcb] Hst [].
  split; unfold counts_ok; rewrite ?Hn, ?Hc, ?Hu, ?Ha, ?Hp, ?Hcb; auto.
  intros Hs. rewrite Hst by done. auto.
Qed.

(** A section that touches neither the core nor the queue. *)
Lemma wp_core {A} upd (next : CImpl → SRV A) t Q :
  (∀ s, core (upd s) = core s ∧ mWorkQueue (upd s) = mWorkQueue s) →
  (∀ s g, registry_inv g s → t ⊎ present s ⊆ past g → swp (next s) t Q) →
  swp (Atomic upd next) t Q.
Proof.
  intros Hu Hn. apply wp_quiet; [| |done].
  - intros s g _. destruct (Hu s) as [Hc Hq]. rewrite core_obs by done. split; [done|].
    unfold present. rewrite Hq. by injection Hc as _ -> _ _ _ _.
  - intros s g Hi _. destruct (Hu s) as [Hc Hq]. rewrite core_obs by done.
    eapply core_inv; [done|by rewrite Hq|done].
Qed.

(** Reading. *)
Lemma wp_gets {A B} (f : CImpl → A) (k : A → SRV B) t Q :
  (∀ s g, registry_inv g s → t ⊎ present s ⊆ past g → swp (k (f s)) t Q) →
  swp (pbind (pgets f) k) t Q.
Proof. intros Hk. by apply wp_core. Qed.

Lemma wp_free {A} e (p : SRV A) t Q : op_token e = ∅ → swp p t Q → swp (Emit e p) t Q.
Proof. intros He Hp. cbn. exists t. rewrite He. split; [multiset_solver|done]. Qed.

(** ** Counting clients *)

Lemma clients_of_insert u m id e :
  m !! id = None →
  size (clients_of u (<[id := e]> m))
  = size (clients_of u m) + (if bool_decide (entry_uri e = u) then 1 else 0).
Proof.
  intros Hn. unfold clients_of. case_bool_decide as He.
  - rewrite map_filter_insert_True by done. rewrite map_size_insert_None; [lia|].
    apply map_lookup_filter_None. by left.
  - rewrite map_filter_insert_False, delete_id by done. lia.
Qed.

Lemma clients_of_delete u m id e :
  m !! id = Some e →
  size (clients_of u m)
  = size (clients_of u (delete id m)) + (if bool_decide (entry_uri e = u) then 1 else 0).
Proof.
  intros He. rewrite <-(clients_of_insert u (delete id m) id e) by apply lookup_delete_eq.
  by rewrite insert_delete_id.
Qed.

Lemma clients_of_le u m : size (clients_of u m) ≤ size m.
Proof. unfold clients_of. apply map_size_filter. Qed.

(** Removing a client keeps the counts right. *)
Lemma counts_delete id e s :
  counts_ok s → mClients s !! id = Some e →
  counts_ok (DecrementUriCountLocked (entry_uri e)
               (set_mClients (delete id (mClients s)) s)).2.
Proof.
  intros Hc He u. specialize (Hc u) as Hu. unfold DecrementUriCountLocked.
  pose proof (clients_of_delete u _ _ _ He) as Hsz.
  destruct (is_empty (entry_uri e)) eqn:Hee; cbn.
  - rewrite Hu. destruct (is_empty u) eqn:Heu; [done|]. rewrite Hsz.
    rewrite bool_decide_false; [by rewrite Nat.add_0_r|].
    intros Heq. congruence.
  - pose proof (Hc (entry_uri e)) as Hce. rewrite Hee in Hce.
    rewrite (clients_of_delete (entry_uri e) _ _ _ He), bool_decide_true in Hce by done.
    destruct (mUriCounts s !! entry_uri e) as [c|] eqn:Hlk; cbn in *; [|lia].
    destruct (Z.eqb_spec c 0); [lia|]. cbn. destruct (decide (entry_uri e = u)) as [<-|Hne].
    + rewrite lookup_insert_eq. cbn. rewrite Hee. lia.
    + rewrite lookup_insert_ne by done. rewrite Hu, Hsz, bool_decide_false by done.
      by rewrite Nat.add_0_r.
Qed.

Lemma decrement_core u s :
  let s' := (DecrementUriCountLocked u s).2 in
  mNextConnectionId s' = mNextConnectionId s ∧ mClients s' = mClients s
  ∧ mAcceptor s' = mAcceptor s ∧ mPort s' = mPort s ∧ mClientCbs s' = mClientCbs s
  ∧ mWorkQueue s' = mWorkQueue s ∧ mUris s' = mUris s.
Proof.
  cbn. unfold DecrementUriCountLocked. destruct (is_empty u); [done|].
  destruct (mUriCounts s !! u) as [c|]; [|done]. by destruct (Z.eqb c 0).
Qed.

Lemma observe_shrink s s' g :
  mNextConnectionId s' = mNextConnectionId s → dom (mClients s') ⊆ dom (mClients s) →
  observe s s' g = g.
Proof.
  intros Hn Hd. unfold observe. rewrite Hn, bool_decide_true by done. destruct g. cbn.
  f_equal. set_solver.
Qed.

(** The state after a client's entry is erased. *)
Definition erased (id : Z) (e : SClientEntry) (s : CImpl) : CImpl :=
  (DecrementUriCountLocked (entry_uri e) (set_mClients (delete id (mClients s)) s)).2.

Lemma erased_inv id e s g :
  mClients s !! id = Some e → registry_inv g s →
  observe s (erased id e s) g = g ∧ registry_inv g (erased id e s)
  ∧ present s = {[+ id +]} ⊎ present (erased id e s).
Proof.
  intros He [I1 I2 I3 I4 I5 I6 I7 I8 I9].
  destruct (decrement_core (entry_uri e) (set_mClients (delete id (mClients s)) s))
    as (Hn & Hc & Ha & Hp & Hcb & Hq & _). fold (erased id e s) in *.
  cbn in Hn, Hc, Ha, Hp, Hcb, Hq.
  split; [|split].
  - apply observe_shrink; [done|]. rewrite Hc. set_solver.
  - split; rewrite ?Hn, ?Hc, ?Ha, ?Hp, ?Hcb, ?Hq; auto.
    + set_solver.
    + rewrite map_size_delete_Some by eauto. lia.
    + by apply counts_delete.
    + intros Hac. destruct (I7 Hac) as [Hm ?]. split; [|done]. by rewrite Hm, delete_empty.
  - unfold present. rewrite Hc, Hq, (ids_of_delete _ _ _ He).
    clear. multiset_solver.
Qed.

(** ** Each operation keeps the balance *)

(** Done with what may be left over. *)
Abbreviation safe p t := (swp p t (λ _ t', leftover t')).

Lemma leftover_union t1 t2 : leftover t1 → leftover t2 → leftover (t1 ⊎ t2).
Proof. intros H1 H2 Hs. rewrite H1, H2 by done. clear. multiset_solver. Qed.

Lemma safe_ret {A} (r : res A) : safe (Done r : SRV A) ∅.
Proof. apply leftover_empty. Qed.

Lemma safe_then {A B} (p : SRV A) (k : A → SRV B) t :
  safe p t → (∀ a, safe (k a) ∅) → safe (pbind p k) t.
Proof.
  intros Hp Hk. apply wp_bind. eapply wp_mono; [|exact Hp]. intros [a|f] t' Ht'; [|done].
  cbn beta iota. replace t' with (t' ⊎ ∅) by (clear; multiset_solver). apply wp_frame.
  eapply wp_mono; [|apply Hk]. intros r t'' Ht''. by apply leftover_union.
Qed.

Lemma safe_locked_core {A} (f : CImpl → A * CImpl) :
  (∀ s, core (f s).2 = core s ∧ mWorkQueue (f s).2 = mWorkQueue s) → safe (locked f) ∅.
Proof. intros Hf. apply wp_core; [done|]. intros; apply safe_ret. Qed.

Lemma safe_gets {A} (f : CImpl → A) : safe (pgets f) ∅.
Proof. by apply safe_locked_core. Qed.

Lemma safe_emit e : op_token e = ∅ → safe (pemit e) ∅.
Proof. intros He. apply wp_free; [done|]. apply safe_ret. Qed.

Hint Resolve safe_ret safe_gets safe_emit : cpp.

Lemma safe_option {A} (o : option A) (k : A → SRV unit) :
  (∀ a, safe (k a) ∅) → safe (match o with Some a => k a | None => pret tt end) ∅.
Proof. intros Hk. destruct o; [apply Hk|apply safe_ret]. Qed.

(** The tokens of the rest wait while the first part runs. *)
Lemma safe_then_tokens {A B} (p : SRV A) (k : A → SRV B) t0 t :
  no_throw p → safe p t0 → (∀ a, safe (k a) t) → safe (pbind p k) (t0 ⊎ t).
Proof.
  intros Hn Hp Hk. rewrite (comm_L (⊎)). apply wp_bind, wp_frame.
  eapply wp_mono; [|by apply wp_no_throw].
  intros r t' [[a ->] Ht']. cbn beta iota. rewrite (comm_L (⊎)). apply wp_frame.
  eapply wp_mono; [|apply Hk]. intros r t'' Ht''. by apply leftover_union.
Qed.

Lemma safe_then_keep {A B} (p : SRV A) (k : A → SRV B) t :
  no_throw p → safe p ∅ → (∀ a, safe (k a) t) → safe (pbind p k) t.
Proof.
  intros Hn Hp Hk. replace t with (∅ ⊎ t) by (clear; multiset_solver).
  by apply safe_then_tokens.
Qed.

Lemma safe_for {A} (l : list A) (f : A → SRV unit) (tok : A → gmultiset Z) :
  (∀ x, no_throw (f x)) → (∀ x, safe (f x) (tok x)) → safe (pfor l f) (⋃+ (tok <$> l)).
Proof.
  intros Hn Hf. induction l as [|x l IH]; [apply safe_ret|].
  cbn [pfor fmap list_fmap]. rewrite gmultiset_disj_union_list_cons.
  by apply safe_then_tokens.
Qed.

Lemma safe_for_free {A} (l : list A) (f : A → SRV unit) :
  (∀ x, safe (f x) ∅) → safe (pfor l f) ∅.
Proof.
  intros Hf. induction l as [|x l IH]; [apply safe_ret|]. by apply safe_then.
Qed.

Lemma safe_LogError m : safe (LogError m) ∅.
Proof. apply safe_then; [apply safe_gets|]. intros n. by apply safe_emit. Qed.

Lemma safe_catch {A} (p : SRV A) h t :
  safe p t → (∀ f, safe (h f) ∅) → safe (pcatch p h) t.
Proof.
  intros Hp Hh. apply wp_catch. eapply wp_mono; [|exact Hp]. intros [a|f] t' Ht'; [done|].
  cbn beta iota. replace t' with (t' ⊎ ∅) by (clear; multiset_solver). apply wp_frame.
  eapply wp_mono; [|apply Hh]. intros r t'' Ht''. by apply leftover_union.
Qed.

(** *** The operations that call callbacks, over callbacks that are safe themselves *)

Section Callbacks.
Context (app : application) (Hbody : ∀ i, safe (cb_body app i) ∅).

Lemma safe_Invoke1 i : safe (Invoke1 app i) (call_token i).
Proof using Hbody.
  exists ∅. split; [cbn; clear; multiset_solver|]. cbn [pbind pret]. fold (@pret CImpl srv_op).
  apply safe_then; [apply safe_catch; [apply Hbody|intros; apply safe_ret]|]. intros _.
  destruct (app i); [apply safe_ret|..]; (apply safe_then; [apply safe_LogError|]);
    intros; apply safe_ret.
Qed.

Lemma safe_Invoke_one i : safe (Invoke app [i]) (call_token i).
Proof.
  apply safe_then; [apply safe_Invoke1|]. intros []; apply safe_ret.
Qed.

Lemma safe_Invoke_free calls :
  Forall (λ i, call_token i = ∅) calls → safe (Invoke app calls) ∅.
Proof.
  induction 1 as [|i calls Hi _ IH]; [apply safe_ret|].
  apply safe_then; [rewrite <-Hi; apply safe_Invoke1|]. intros []; [apply IH|apply safe_ret].
Qed.

Lemma safe_PostCallback t : safe (PostCallback t) (task_token t).
Proof.
  apply wp_free; [done|]. cbn [pbind pret]. unfold locked. intros s g Hinv Ht Hw.
  set (s' := set_mWorkQueue (WorkQueue.Post t (mWorkQueue s)) s).
  assert (Hcore : core s' = core s) by done.
  assert (Hst : mStopped (mWorkQueue s') = mStopped (mWorkQueue s)).
  { cbn. unfold WorkQueue.Post, Post_locked. by destruct (mStopped (mWorkQueue s)) eqn:E. }
  rewrite core_obs by done. split; [by eapply core_inv|].
  exists (if mStopped (mWorkQueue s) then task_token t else ∅). split.
  - assert (Hp : present s' = present s ⊎
                   (if mStopped (mWorkQueue s) then ∅ else task_token t)).
    { unfold present, s'. cbn [mClients set_mWorkQueue mWorkQueue].
      unfold WorkQueue.Post, Post_locked. destruct (mStopped (mWorkQueue s)); cbn [snd].
      - clear. multiset_solver.
      - cbn [mQueue]. rewrite queued_app. unfold queued at 2. cbn [fmap list_fmap].
        rewrite gmultiset_disj_union_list_singleton. clear. multiset_solver. }
    match goal with |- _ ⊎ present ?x ⊎ _ = _ => change x with s' end.
    rewrite Hp. clear. destruct (mStopped _); multiset_solver.
  - intros Hs. by rewrite (ri_queue g s Hinv Hs).
Qed.

Lemma safe_PostCallback_free t : task_token t = ∅ → safe (PostCallback t) ∅.
Proof. intros Ht. rewrite <-Ht. apply safe_PostCallback. Qed.

Lemma safe_task t : safe (Invoke app (task_calls t)) (task_token t).
Proof.
  destruct t as [| | |g u id m|g u id m|]; cbn [task_calls task_token];
    try apply (safe_Invoke_one (CallClosed _ _)); apply safe_Invoke_free;
    try by repeat constructor.
  - apply Forall_app_2; [destruct g|destruct u]; by repeat constructor.
  - apply Forall_app_2; [destruct g|destruct u]; by repeat constructor.
Qed.

(** The worker takes the token of the task it takes. *)
Lemma safe_worker_round : safe (worker_round app) ∅.
Proof.
  unfold worker_round. cbn [pbind locked pret]. intros s g Hinv Ht Hw.
  destruct (Run_locked (mWorkQueue s)) as [| |t q] eqn:Hr; cbn [fst snd].
  1, 2: rewrite observe_same; split; [done|]; exists ∅; split; [done|apply safe_ret].
  apply Run_locked_take in Hr as (Hst & Hq & Hst' & _).
  assert (Hcore : core (set_mWorkQueue q s) = core s) by done.
  rewrite core_obs by done. split.
  { eapply core_inv; [done| |done]. intros _. cbn. congruence. }
  exists (task_token t). split; [|apply safe_task].
  unfold present. cbn [set_mWorkQueue mWorkQueue mClients]. rewrite Hq.
  unfold queued. cbn [fmap list_fmap]. rewrite gmultiset_disj_union_list_cons.
  clear. multiset_solver.
Qed.

Lemma subseteq_elem (id : Z) (X Y : gmultiset Z) : {[+ id +]} ⊎ X ⊆ Y → id ∈ Y.
Proof. clear. multiset_solver. Qed.

(** A closed notification spends the token of its client. *)
Lemma safe_NotifyClosedSync id uri : safe (NotifyClosedSync app id uri) {[+ id +]}.
Proof.
  apply wp_gets. intros s g Hinv Ht.
  assert (Hcb : strict → is_Some (mOnClientClosedCb (mClientCbs s))).
  { intros Hs. apply (ri_closed g s Hinv Hs). left.
    apply subseteq_elem, past_elem in Ht. intros Hemp. rewrite Hemp in Ht.
    by apply not_elem_of_empty in Ht. }
  unfold NotifyClosed_lookup.
  destruct (is_empty uri);
    (apply safe_then;
      [destruct (mOnClientClosedCb (mClientCbs s)) as [cb|];
         [apply (safe_Invoke_one (CallClosed cb id))|]
      |intros _; try apply safe_option; intros; try apply safe_ret;
       by apply safe_Invoke_free; repeat constructor]).
  all: intros Hs; by destruct (Hcb Hs).
Qed.

(** [Stop] takes the tokens of all clients. *)
Lemma stopped_inv s g :
  registry_inv g s →
  let s' := (Server.Stop_locked s).2 in
  observe s s' g = g ∧ registry_inv g s' ∧ present s = ids_of (mClients s) ⊎ present s'.
Proof.
  intros [I1 I2 I3 I4 I5 I6 I7 I8 I9] s'. split; [|split].
  - apply observe_shrink; [done|]. unfold s'. cbn. clear. set_solver.
  - split; cbn; auto.
    + clear. set_solver.
    + intros u. cbn. rewrite lookup_empty. cbn. unfold clients_of. rewrite map_filter_empty.
      rewrite map_size_empty. by destruct (is_empty u).
    + intros Hs [?|[? ?]]; [auto|done].
  - unfold present, s'. cbn [snd Server.Stop_locked mWorkQueue set_mUriCounts mClients
      set_mClients set_listening]. rewrite ids_of_empty. clear. multiset_solver.
Qed.

Lemma safe_Stop : safe (Stop app) ∅.
Proof.
  unfold Stop. cbn [pbind locked pret]. intros s g Hinv Ht Hw.
  destruct (stopped_inv s g Hinv) as (Hobs & Hinv' & Hp). rewrite Hobs. split; [done|].
  exists (ids_of (mClients s)). split; [rewrite Hp; clear; multiset_solver|].
  change ((Server.Stop_locked s).1) with (mAcceptor s, in_order (mClients s)). cbv beta iota.
  apply safe_then_keep.
  { apply no_throw_option. by intros. }
  { apply (safe_option (mAcceptor s) (λ a, pemit (CloseAcceptor a))). intros.
    by apply safe_emit. }
  intros _. apply safe_then_keep.
  { by apply no_throw_for. }
  { apply safe_for_free. intros. by apply safe_emit. }
  intros _. rewrite <-ids_of_in_order.
  replace (list_to_set_disj (in_order (mClients s)).*1 : gmultiset Z)
    with (⋃+ ((λ e, {[+ e.1 +]}) <$> in_order (mClients s)) : gmultiset Z).
  - apply safe_for; intros; [apply no_throw_NotifyClosedSync|apply safe_NotifyClosedSync].
  - clear. induction (in_order (mClients s)) as [|e l IH]; [done|].
    cbn [fmap list_fmap]. by rewrite gmultiset_disj_union_list_cons, list_to_set_disj_cons, <-IH.
Qed.

Lemma quiet_section (s : CImpl) g :
  registry_inv g s → observe s s g = g ∧ registry_inv g s.
Proof. intros Hi. by rewrite observe_same. Qed.

Lemma safe_RemoveClient id : safe (RemoveClient app id) ∅.
Proof.
  unfold RemoveClient. cbn [pbind locked pret]. intros s g Hinv Ht Hw.
  unfold RemoveClient_locked. destruct (mClients s !! id) as [e|] eqn:He; cbn [fst snd].
  - fold (erased id e s). destruct (erased_inv id e s g He Hinv) as (-> & ? & Hp).
    split; [done|]. exists {[+ id +]}. split; [rewrite Hp; clear; multiset_solver|].
    apply wp_free; [done|]. apply safe_NotifyClosedSync.
  - rewrite observe_same. split; [done|]. exists ∅. split; [done|apply safe_ret].
Qed.

Lemma safe_OnWsClosed id : safe (OnWsClosed id) ∅.
Proof.
  unfold OnWsClosed. cbn [pbind locked pret]. intros s g Hinv Ht Hw.
  unfold OnWsClosed_locked. destruct (mClients s !! id) as [e|] eqn:He; cbn [fst snd].
  2: { rewrite observe_same. split; [done|]. exists ∅. split; [done|apply safe_ret]. }
  pose proof (erased_inv id e s g He Hinv) as (Hobs & Hinv' & Hp).
  pose proof (decrement_core (entry_uri e) (set_mClients (delete id (mClients s)) s))
    as (_ & _ & _ & _ & Hcb & _ & _).
  unfold erased in *.
  destruct (DecrementUriCountLocked (entry_uri e) _) as [n s'] eqn:Hd. cbn [fst snd] in *.
  rewrite Hobs. split; [done|]. exists {[+ id +]}. split; [rewrite Hp; clear; multiset_solver|].
  apply safe_then.
  - destruct (mOnClientClosedCb (mClientCbs s')) as [cb|] eqn:Hcl.
    + apply (safe_PostCallback (TaskClosed cb id)).
    + intros Hs. exfalso. destruct (ri_closed g s' Hinv' Hs) as [cb Hcl']; [|congruence].
      left. intros Hemp. pose proof (ri_dom g s Hinv) as Hdom. rewrite Hemp in Hdom.
      apply (elem_of_dom_2 _ _ _) in He. apply Hdom in He. by apply not_elem_of_empty in He.
  - intros _. apply safe_option. intros cb. by apply safe_PostCallback_free.
Qed.

Lemma uint32_succ_ne n : (0 ≤ n < 2 ^ 32)%Z → uint32_succ n ≠ n.
Proof.
  intros Hn. unfold uint32_succ. destruct (decide (n + 1 = 2 ^ 32)%Z) as [Heq|].
  - rewrite Heq, Z.mod_same; lia.
  - rewrite Z.mod_small; lia.
Qed.

(** The next id is new, as long as the counter has not wrapped. *)
Lemma next_id_fresh s s' g :
  registry_inv g s → mNextConnectionId s' = uint32_succ (mNextConnectionId s) →
  in_range (observe s s' g) →
  (allocated g + 1 < 2 ^ 32)%Z ∧ mNextConnectionId s = (1 + allocated g)%Z
  ∧ (1 + allocated g)%Z ∉ seen g ∧ mClients s !! (1 + allocated g)%Z = None.
Proof.
  intros [I1 I2 I3 I4 _ _ _ _ _] Hs' Hw.
  assert (Hrange : (allocated g + 1 < 2 ^ 32)%Z).
  { unfold in_range, observe in Hw. cbn in Hw. case_bool_decide as Heq; [|done].
    rewrite Hs' in Heq. apply uint32_succ_ne in Heq; [done|]. rewrite I1. by apply Z.mod_pos_bound. }
  assert (Hfresh : (1 + allocated g)%Z ∉ seen g) by (intros Hin%I3; lia).
  split_and!; [done|rewrite I1; apply Z.mod_small; lia|done|].
  apply not_elem_of_dom. intros Hin%I4. done.
Qed.

(** One more client under [u], and its count. *)
Lemma counts_insert s sess u ssl :
  counts_ok s → mClients s !! mNextConnectionId s = None →
  (Z.of_nat (size (mClients s)) < 2 ^ 64 - 1)%Z → counts_ok (registered s sess u ssl).
Proof.
  intros Hc Hnew Hsz v. cbn [registered mUriCounts mClients].
  rewrite (clients_of_insert v _ _ _ Hnew). cbn [entry_uri].
  specialize (Hc v) as Hv. destruct (is_empty u) eqn:Hu.
  - rewrite Hv. destruct (is_empty v) eqn:Hve; [done|].
    rewrite bool_decide_false; [by rewrite Nat.add_0_r|]. intros Heq. congruence.
  - pose proof (clients_of_le u (mClients s)) as Hle.
    destruct (decide (u = v)) as [<-|Hne].
    + rewrite lookup_insert_eq, bool_decide_true by done. cbn. rewrite Hv, Hu.
      unfold size_t_succ. rewrite Z.mod_small by lia. lia.
    + rewrite lookup_insert_ne by done. rewrite Hv, bool_decide_false by done.
      by rewrite Nat.add_0_r.
Qed.

(** Registering creates the token of a new client, which stays with the registry. *)
Lemma registered_inv sess path ssl s g :
  mShutdown s = false → is_Some (mAcceptor s) → registry_inv g s →
  let s' := registered s sess (LongestUriMatchLocked path s) ssl in
  in_range (observe s s' g) →
  registry_inv (observe s s' g) s'
  ∧ present s' ⊎ past g = present s ⊎ past (observe s s' g).
Proof.
  intros Hsd Hac Hinv s' Hw. set (u := LongestUriMatchLocked path s) in *.
  destruct (next_id_fresh s s' g Hinv eq_refl Hw) as (Hrange & Hid & Hfresh & Hnew).
  destruct Hinv as [I1 I2 I3 I4 I5 I6 I7 I8 I9].
  assert (Hobs : observe s s' g
                 = mkHistory (allocated g + 1) ({[(1 + allocated g)%Z]} ∪ seen g)).
  { unfold observe. cbn [s' registered mNextConnectionId mClients]. rewrite Hid.
    rewrite bool_decide_false by (apply uint32_succ_ne; lia).
    f_equal. rewrite dom_insert_L. apply not_elem_of_dom in Hnew. clear -Hnew. set_solver. }
  rewrite Hobs. split.
  - split; cbn [allocated seen s' registered mNextConnectionId mClients mUriCounts mAcceptor
                mPort mClientCbs mWorkQueue]; rewrite ?Hid.
    + unfold uint32_succ. f_equal. lia.
    + lia.
    + intros i [->%elem_of_singleton|Hi%I3]%elem_of_union; lia.
    + rewrite dom_insert_L. clear -I4. set_solver.
    + rewrite map_size_insert_None by done. lia.
    + apply counts_insert; [done|by rewrite Hid|lia].
    + intros Hn. rewrite Hn in Hac. by destruct Hac.
    + intros Hs _. auto.
    + done.
  - rewrite (past_add (allocated g + 1) (allocated g) _ (seen g) Hfresh).
    replace (past (mkHistory (allocated g) (seen g))) with (past g) by (by destruct g).
    unfold present. cbn [s' registered mClients mWorkQueue]. rewrite ?Hid.
    rewrite ids_of_insert by done. clear. multiset_solver.
Qed.

Lemma safe_RegisterWsClient sess target ssl : safe (RegisterWsClient sess target ssl) ∅.
Proof.
  unfold RegisterWsClient. destruct (ParseTarget_path target ∅) as [m ->].
  cbn [pbind locked pret]. intros s g Hinv Ht Hw.
  destruct (mShutdown s || negb (bool_decide (is_Some (mAcceptor s)))) eqn:Hrej.
  { unfold RegisterWsClient_locked in *. rewrite Hrej in *. cbn [fst snd] in *.
    rewrite observe_same in *. split; [done|]. exists ∅. split; [done|apply safe_ret]. }
  apply orb_false_iff in Hrej as [Hsd Hac%negb_false_iff%bool_decide_eq_true].
  destruct (RegisterWsClient_locked_accepts sess (target_path target) ssl s Hsd Hac)
    as (r & Hr & _). rewrite Hr in *. cbn [fst snd] in *.
  destruct (registered_inv sess (target_path target) ssl s g Hsd Hac Hinv Hw) as [Hi Hp].
  split; [done|]. exists ∅. split; [revert Hp; clear; multiset_solver|].
  apply wp_core; [done|]. intros s2 g2 _ _. cbn [fst pret pbind].
  rewrite substr_from_ok by lia. cbn [pbind].
  repeat (apply safe_then; [apply safe_option; intros; by apply safe_PostCallback_free|intros _]).
  apply safe_ret.
Qed.

Lemma safe_received id (wantMessage : bool) (mk : option callback → option callback → task) :
  (∀ g u, task_token (mk g u) = ∅) →
  safe ('(globalCb, uriCb) <- pgets (LookupReceiveCallbacks id wantMessage) ;;
        match globalCb, uriCb with
        | None, None => pret tt
        | _, _ => PostCallback (mk globalCb uriCb)
        end) ∅.
Proof.
  intros Hmk. apply safe_then; [apply safe_gets|].
  intros [[] []]; try apply safe_ret; by apply safe_PostCallback_free.
Qed.

Lemma safe_FindHttpHandler path : safe (FindHttpHandler path) ∅.
Proof.
  apply safe_locked_core. intros s. unfold FindHttpHandler_locked. by destruct (is_empty _).
Qed.

(** Http connections share the counter. *)
Lemma safe_NextConnectionId : safe NextConnectionId ∅.
Proof.
  unfold NextConnectionId, locked. intros s g Hinv Ht Hw. cbn [fst snd] in *.
  destruct Hinv as [I1 I2 I3 I4 I5 I6 I7 I8 I9].
  assert (Hobs : observe s (set_mNextConnectionId (uint32_succ (mNextConnectionId s)) s) g
                 = mkHistory (allocated g + 1) (seen g)).
  { unfold observe. cbn [mNextConnectionId set_mNextConnectionId mClients].
    rewrite bool_decide_false.
    - f_equal. clear. set_solver.
    - apply uint32_succ_ne. rewrite I1. by apply Z.mod_pos_bound. }
  rewrite Hobs in *. split; [|exists ∅; split; [done|apply safe_ret]].
  split; cbn; auto; try lia.
  - unfold uint32_succ. rewrite I1, Zplus_mod_idemp_l. f_equal. lia.
  - intros id Hid%I3. lia.
Qed.

Lemma safe_Start listen address port cbs :
  (strict → is_Some (mOnClientClosedCb cbs)) → safe (Start listen address port cbs) ∅.
Proof.
  intros Hcbs. apply safe_then; [apply safe_gets|]. intros []; [apply safe_ret|].
  apply safe_then; [apply safe_ret|]. intros [a lp].
  apply safe_then; [|intros _; by apply safe_emit].
  unfold locked_res. intros s g Hinv Ht Hw. unfold Start_locked.
  destruct (mAcceptor s) eqn:Ha; cbn [fst snd].
  { rewrite observe_same. split; [done|]. exists ∅. split; [done|apply safe_ret]. }
  rewrite observe_shrink by done. destruct Hinv as [I1 I2 I3 I4 I5 I6 I7 I8 I9].
  split; [by split; cbn; auto|]. exists ∅. split; [done|apply safe_ret].
Qed.

Lemma safe_Shutdown : ¬ strict → safe (Shutdown app) ∅.
Proof.
  intros Hns. unfold Shutdown. apply safe_then; [by apply safe_locked_core|].
  intros []; cbn [negb]; [|apply safe_ret]. apply safe_then; [apply safe_Stop|]. intros _.
  unfold locked. intros s g Hinv Ht Hw. cbn [fst snd].
  set (s' := set_mWorkQueue (WorkQueue.Stop_locked (mWorkQueue s)).2 s).
  assert (Hcore : core s' = core s) by done. rewrite core_obs by done.
  split; [by eapply core_inv|].
  exists (if mStopped (mWorkQueue s) then ∅ else queued (mQueue (mWorkQueue s))). split.
  - unfold present, s'. cbn [mWorkQueue set_mWorkQueue mClients]. unfold WorkQueue.Stop_locked.
    destruct (mStopped (mWorkQueue s)); cbn [snd mQueue]; [done|].
    change (queued []) with (∅ : gmultiset Z). clear. multiset_solver.
  - by intros Hs.
Qed.

Lemma safe_StartThreads : safe StartThreads ∅.
Proof.
  unfold StartThreads, locked. intros s g Hinv Ht Hw. cbn [fst snd].
  set (s' := set_mWorkQueue (WorkQueue.Start (mWorkQueue s)) s).
  assert (Hcore : core s' = core s) by done. rewrite core_obs by done.
  split; [by eapply core_inv|]. exists ∅. split; [done|apply safe_ret].
Qed.

End Callbacks.

(** ** The application *)

Lemma api_call_safe {A} (p : SRV A) : api_call strict p → safe p ∅.
Proof.
  induction 1;
    auto using safe_Start, safe_Stop, safe_Shutdown, safe_RemoveClient, safe_gets, safe_then,
      safe_catch, safe_ret, safe_emit; try by apply safe_locked_core.
  - apply safe_then; [apply safe_gets|]. intros [sess|]; [by apply safe_emit|apply safe_LogError].
  - apply safe_then; [apply safe_gets|]. intros l. apply safe_for_free. intros.
    by apply safe_emit.
Qed.

(** ** The server as a pool of threads *)

Context (app : application) `{!Behaves strict app}.

Lemma safe_body i : safe (cb_body app i) ∅.
Proof. apply api_call_safe, behaves. Qed.

(** What threads may run: what the application calls, the worker's rounds, the
    completions of [async_accept], the interface. *)
Inductive server_call : SRV unit → Prop :=
  | call_threads : server_call StartThreads
  | call_register sess t ssl : server_call (call (RegisterWsClient sess t ssl))
  | call_closed id : server_call (OnWsClosed id)
  | call_message id m : server_call (OnWsMessage id m)
  | call_content id c : server_call (OnWsContent id c)
  | call_upgrade p : server_call (call (UpgradeAllowed p))
  | call_find p : server_call (call (FindHttpHandler p))
  | call_next : server_call (call NextConnectionId)
  | call_http cb w : server_call (PostCallback (TaskHttp cb w))
  | call_log m : server_call (LogError m)
  | call_worker : server_call (worker_round app)
  | call_accepted a alive opn r : server_call (accepted a alive opn r)
  | call_api p : api_call strict p → server_call p.

Lemma safe_call {A} (p : SRV A) : safe p ∅ → safe (call p) ∅.
Proof. intros Hp. apply safe_then; [done|]. intros; apply safe_ret. Qed.

Lemma server_call_safe p : server_call p → safe p ∅.
Proof using All.
  intros []; try apply safe_call;
    auto using api_call_safe, safe_StartThreads, safe_RegisterWsClient, safe_OnWsClosed,
      safe_FindHttpHandler, safe_NextConnectionId, safe_LogError, safe_worker_round, safe_body,
      safe_PostCallback_free, safe_gets; try by apply safe_locked_core.
  - by apply (safe_received id true (λ g u, TaskMessage g u id m)).
  - by apply (safe_received id false (λ g u, TaskContent g u id c)).
  - unfold accepted. destruct (negb alive || negb opn); [apply safe_ret|].
    destruct r as [ec|sock].
    + destruct (ec_is EcAborted ec); [apply safe_ret|].
      apply safe_then; [apply safe_LogError|]. intros _. by apply safe_emit.
    + apply safe_then; [|intros _; by apply safe_emit].
      unfold OnAccept. apply safe_then; [apply safe_gets|]. intros s0. by apply safe_emit.
Qed.

Definition server_start (name : string) (settings : CServerSettings) : config CImpl srv_op :=
  mkConfig (CImpl_new name settings) [] [].

Definition no_history : history := mkHistory 0 ∅.

(** Runs of the server, with their history. *)
Definition server_run (name : string) (settings : CServerSettings) (c : config CImpl srv_op)
    (g : history) : Prop :=
  observed observe server_call (server_start name settings) no_history c g.

Lemma server_run_ok name settings c g :
  server_run name settings c g → in_range g →
  pool_ok observe registry_inv in_range op_token present past leftover c g.
Proof.
  intros Hrun. eapply observed_ok; [apply in_range_back|apply leftover_empty|apply observe_same
    |apply server_call_safe| |exact Hrun].
  split.
  - split; cbn; try done; try lia.
    + intros u. cbn. rewrite lookup_empty. unfold clients_of.
      rewrite map_filter_empty, map_size_empty. by destruct (is_empty u).
    + intros _ [?|[? ?]]; done.
  - exists []. split; [constructor|]. done.
Qed.

End Registry.

(** ** Properties *)

(** The calls of a closed callback for one client. *)
Definition is_closed_call (id : Z) (o : srv_op) : bool :=
  match o with Invoked (CallClosed _ i) => Z.eqb i id | _ => false end.
Definition closed_calls (id : Z) (tr : list srv_op) : nat :=
  length (List.filter (is_closed_call id) tr).

Lemma closed_calls_spent id tr : closed_calls id tr = multiplicity id (spent op_token tr).
Proof.
  unfold closed_calls, spent. induction tr as [|o tr IH].
  - cbn [fmap list_fmap]. by rewrite gmultiset_disj_union_list_nil, multiplicity_empty.
  - cbn [fmap list_fmap List.filter].
    rewrite gmultiset_disj_union_list_cons, multiplicity_disj_union, <-IH.
    assert (Ho : multiplicity id (op_token o) = if is_closed_call id o then 1 else 0).
    { destruct o as [| |i| | | | | |]; cbn [op_token is_closed_call]; try apply multiplicity_empty.
      destruct i as [| |cb i| | |]; cbn [call_token]; try apply multiplicity_empty.
      destruct (Z.eqb_spec i id) as [->|Hne]; [apply multiplicity_singleton_eq|].
      by apply multiplicity_singleton_ne. }
    rewrite Ho. by destruct (is_closed_call id o).
Qed.

(** C23. Whatever the threads do: the counts kept per uri are the numbers of clients of the
    uri, [AnyClients] of a uri is true exactly when it has a client, the id a registration
    gives out was never a client's before (and is not 0), and without an acceptor there is
    neither client nor port. *)
Theorem registry_consistent app `{!Behaves False app} name settings c g :
  server_run False app name settings c g → in_range g →
  (∀ u, u ≠ "" → default 0%Z (mUriCounts (shared c) !! u)
                 = Z.of_nat (size (clients_of u (mClients (shared c)))))
  ∧ (∀ u, AnyClients_locked (Some u) (shared c) = true ↔
          u ≠ "" ∧ ∃ id e, mClients (shared c) !! id = Some e ∧ entry_uri e = u)
  ∧ (∀ id, is_Some (mClients (shared c) !! id) → id ∈ seen g)
  ∧ (∀ sess path ssl r s', RegisterWsClient_locked sess path ssl (shared c) = (Some r, s') →
       in_range (observe (shared c) s' g) → reg_clientId r ∉ seen g ∧ (1 ≤ reg_clientId r < 2 ^ 32)%Z)
  ∧ (mAcceptor (shared c) = None → mClients (shared c) = ∅ ∧ mPort (shared c) = 0%Z).
Proof.
  intros Hrun Hr. destruct (server_run_ok False app name settings c g Hrun Hr) as [Hinv _].
  pose proof Hinv as [_ I2 _ I4 _ I6 I7 _ _]. split_and!; [| | | |exact I7].
  - intros u Hu. rewrite I6. destruct (is_empty u) eqn:He; [by apply is_empty_true in He|done].
  - intros u. unfold AnyClients_locked. specialize (I6 u).
    destruct (is_empty u) eqn:He.
    { apply is_empty_true in He as ->. split; [|by intros []].
      destruct (mUriCounts (shared c) !! "") as [n|]; [|done]. cbn in I6. subst n. done. }
    assert (Hu : u ≠ "") by (intros ->; done).
    assert (Hpos : Z.ltb 0 (default 0%Z (mUriCounts (shared c) !! u)) = true ↔
                   ∃ id e, mClients (shared c) !! id = Some e ∧ entry_uri e = u).
    { rewrite I6, Z.ltb_lt. split.
      - intros Hp. destruct (map_choose (clients_of u (mClients (shared c)))) as (id & e & Hie).
        { intros Hemp. rewrite Hemp, map_size_empty in Hp. lia. }
        apply map_lookup_filter_Some in Hie as [? ?]. by exists id, e.
      - intros (id & e & Hid & Heu). enough (size (clients_of u (mClients (shared c))) ≠ 0) by lia.
        apply map_size_ne_0_lookup. exists id, e. by apply map_lookup_filter_Some. }
    destruct (mUriCounts (shared c) !! u) as [n|]; cbn in Hpos; tauto.
  - intros id Hid. by apply I4, elem_of_dom.
  - intros sess path ssl r s' Hreg Hr'. unfold RegisterWsClient_locked in Hreg.
    destruct (mShutdown (shared c) || _); [done|].
    assert (Hid : reg_clientId r = mNextConnectionId (shared c)
                  ∧ mNextConnectionId s' = uint32_succ (mNextConnectionId (shared c))).
    { destruct (is_empty _) in Hreg; injection Hreg as <- <-; done. }
    destruct Hid as [-> Hs']. destruct (next_id_fresh False _ _ _ Hinv Hs' Hr') as (? & -> & ? & _).
    split; [done|lia].
Qed.

(** C28. In every interleaving the closed callback is called at most once for a client, only
    for ids that were registered, and never while the client is still registered. *)
Theorem closed_callback_at_most_once app `{!Behaves False app} name settings c g id :
  server_run False app name settings c g → in_range g →
  closed_calls id (trace c) ≤ 1
  ∧ (closed_calls id (trace c) ≠ 0 → id ∈ seen g ∧ mClients (shared c) !! id = None).
Proof.
  intros Hrun Hr. destruct (server_run_ok False app name settings c g Hrun Hr)
    as (_ & ts & _ & Hsum).
  rewrite closed_calls_spent. pose proof (past_once g id) as Hp.
  rewrite <-Hsum, !multiplicity_disj_union in Hp. split; [lia|]. intros Hne. split.
  - apply past_elem. rewrite <-Hsum. apply elem_of_multiplicity.
    rewrite !multiplicity_disj_union. lia.
  - apply not_elem_of_dom. rewrite <-ids_of_elem. apply not_elem_of_multiplicity.
    unfold present in Hp. rewrite multiplicity_disj_union in Hp. lia.
Qed.

(** At rest, every token but those of connected clients is spent. *)
Lemma closed_calls_settled c g id :
  pool_ok observe (registry_inv True) in_range op_token present past (leftover True) c g →
  settled c → mQueue (mWorkQueue (shared c)) = [] → id ∈ seen g →
  closed_calls id (trace c) = if bool_decide (is_Some (mClients (shared c) !! id)) then 0 else 1.
Proof.
  intros Hok Hset Hq Hid.
  assert (Hsum : spent op_token (trace c) ⊎ present (shared c) = past g)
    by (eapply pool_ok_settled; [|exact Hok|exact Hset]; intros t Ht; by apply Ht).
  rewrite closed_calls_spent. apply past_elem in Hid.
  pose proof (past_once g id) as Hle. rewrite elem_of_multiplicity in Hid.
  rewrite <-Hsum in Hle, Hid. unfold present in Hle, Hid. rewrite Hq in Hle, Hid.
  change (queued []) with (∅ : gmultiset Z) in *.
  rewrite !multiplicity_disj_union, multiplicity_empty in Hle, Hid.
  case_bool_decide as Hc.
  - rewrite <-elem_of_dom, <-ids_of_elem, elem_of_multiplicity in Hc. lia.
  - assert (multiplicity id (ids_of (mClients (shared c))) = 0); [|lia].
    apply not_elem_of_multiplicity. by rewrite ids_of_elem, elem_of_dom.
Qed.

(** C19. When every call has returned and the queue is empty, the closed callback has been
    called exactly once for every client that was ever registered and is no longer,
    provided each [Start] installs one and the workqueue is not stopped. *)
Theorem closed_callback_exactly_once app `{!Behaves True app} name settings c g id :
  server_run True app name settings c g → in_range g →
  settled c → mQueue (mWorkQueue (shared c)) = [] → id ∈ seen g →
  closed_calls id (trace c) = if bool_decide (is_Some (mClients (shared c) !! id)) then 0 else 1.
Proof.
  intros Hrun Hr Hset Hq Hid. eapply closed_calls_settled; [|done|done|done].
  by apply (server_run_ok True app name settings c g).
Qed.

(** ** A concrete run *)

(** Two clients connect; one is removed by the application while the other closes by
    itself; the worker delivers what was posted. *)
Definition demo_app : application := passive (λ _, Returns).
Definition demo_cbs : CClientCallbacks := mkClientCallbacks (Some 0) (Some 1) None None.
Definition demo_listen (address : string) (port : Z) : res (nat * Z) := Ok (0, port).

Definition demo_sched : list (sched CImpl srv_op) :=
  [SCall (Start demo_listen "0.0.0.0" 8080 demo_cbs); SStep 0; SStep 0; SStep 0;
   SCall (call (RegisterWsClient 7 "/chat" false));
   SCall (call (RegisterWsClient 8 "/chat?x=1" false));
   SStep 1; SStep 2; SStep 2; SStep 1; SStep 2; SStep 1; SStep 2; SStep 1;
   SCall (RemoveClient demo_app 1); SCall (OnWsClosed 2);
   SStep 4; SStep 3; SStep 4; SStep 3; SStep 4; SStep 3; SStep 3;
   SCall (worker_round demo_app); SStep 5; SStep 5;
   SCall (worker_round demo_app); SStep 6; SStep 6;
   SCall (worker_round demo_app); SStep 7; SStep 7].

Definition demo_server (ls : list (sched CImpl srv_op)) : config CImpl srv_op * history :=
  let start := (server_start "demo" (default_server_settings 0), no_history) in
  default start (exec_all observe ls start).

Lemma demo_server_run strict ls :
  Forall (sched_ok (server_call strict demo_app)) ls →
  server_run strict demo_app "demo" (default_server_settings 0)
    (demo_server ls).1 (demo_server ls).2.
Proof.
  intros Hls. unfold demo_server.
  destruct (exec_all observe ls _) as [cg|] eqn:Hx; [|constructor].
  eapply exec_all_sound; [done| |exact Hx]. constructor.
Qed.

Lemma demo_sched_ok strict : Forall (sched_ok (server_call strict demo_app)) demo_sched.
Proof. repeat constructor; intros _; by eexists. Qed.

Lemma registry_consistent_witness :
  size (mClients (shared (demo_server (take 14 demo_sched)).1)) = 2
  ∧ (∀ id, is_Some (mClients (shared (demo_server (take 14 demo_sched)).1) !! id) →
       id ∈ seen (demo_server (take 14 demo_sched)).2)
  ∧ (mAcceptor (shared (demo_server (take 14 demo_sched)).1) = None →
     mClients (shared (demo_server (take 14 demo_sched)).1) = ∅
     ∧ mPort (shared (demo_server (take 14 demo_sched)).1) = 0%Z).
Proof.
  split; [by vm_compute|].
  destruct (registry_consistent demo_app "demo" (default_server_settings 0)
            (demo_server (take 14 demo_sched)).1 (demo_server (take 14 demo_sched)).2)
    as (_ & _ & Hseen & _ & Hstop).
  - apply demo_server_run. apply Forall_take, demo_sched_ok.
  - by vm_compute.
  - exact (conj Hseen Hstop).
Defined.

Lemma closed_callback_at_most_once_witness :
  closed_calls 1 (trace (demo_server demo_sched).1) ≤ 1
  ∧ closed_calls 1 (trace (demo_server (take 21 demo_sched)).1) = 0.
Proof.
  split; [|by vm_compute].
  apply (closed_callback_at_most_once demo_app "demo" (default_server_settings 0)
           (demo_server demo_sched).1 (demo_server demo_sched).2 1).
  - apply demo_server_run, demo_sched_ok.
  - by vm_compute.
Defined.

Lemma closed_callback_exactly_once_witness :
  closed_calls 2 (trace (demo_server demo_sched).1) = 1.
Proof.
  rewrite (closed_callback_exactly_once demo_app "demo" (default_server_settings 0)
             (demo_server demo_sched).1 (demo_server demo_sched).2 2).
  - by vm_compute.
  - apply demo_server_run, demo_sched_ok.
  - by vm_compute.
  - unfold settled. vm_compute. repeat constructor; by eexists.
  - by vm_compute.
  - apply (bool_decide_unpack _). by vm_compute.
Defined.
