(* ===== verification/System.v ===== *)
(** * The server with its connections

    A system is the server with the threads that call it (the application's, the
    worker's, the accepting one), the calls of http connections ([SysConnection]), and the
    websocket sessions, each on its own strand.  The server's threads interleave at every critical section and every effect;
    [Send] and [Close] on a session post to its strand at the moment they are called.  A
    handler of a session runs to its end, its calls of the server included: the other
    threads are between two of their steps meanwhile.  The connections themselves are in
    HttpSystem.v.

    The sessions are those of WsSession.v, unchanged, over the server of Server.v through
    the interface; the pool is that of Registry.v.  What links them is that a registered
    client is an open session, and an open session is registered or on its way to close. *)

From stdpp Require Import gmultiset.
From S2P Require Import Prelude CppString Uri Net Events WorkQueue WsSession Threads.
From S2P Require Import Server ServerOps Registry.
Open Scope prog_scope.

(** ** The server behind the interface, with its history *)

Record world := mkWorld { w_impl : CImpl; w_history : history; w_ops : list srv_op }.

Definition on_world {A} (p : SRV A) (w : world) : res A * world :=
  match run p (w_impl w) with
  | (r, s', ops) =>
      (r, mkWorld s' (run_obs observe p (w_impl w) (w_history w)) (w_ops w ++ ops))
  end.

#[export] Instance world_events : IServerEvents world := {|
  Events.RegisterWsClient sess t b := on_world (Server.RegisterWsClient sess t b);
  Events.OnWsClosed i := on_world (Server.OnWsClosed i);
  Events.OnWsMessage i m := on_world (Server.OnWsMessage i m);
  Events.OnWsContent i c := on_world (Server.OnWsContent i c);
  Events.UpgradeAllowed p := on_world (Server.UpgradeAllowed p);
  Events.FindHttpHandler p := on_world (Server.FindHttpHandler p);
  Events.NextConnectionId := on_world Server.NextConnectionId;
  Events.PostCallback t := on_world (Server.PostCallback t);
  Events.LogError m := on_world (Server.LogError m)
|}.

Lemma on_world_total {A} (p : SRV A) w : no_throw p → ∃ a w', on_world p w = (Ok a, w').
Proof.
  intros Hp. unfold on_world. destruct (no_throw_run p (w_impl w) Hp) as (a & s' & ops & ->).
  by eauto.
Qed.

Lemma on_world_unit (p : SRV unit) w : no_throw p → ∃ w', on_world p w = (Ok tt, w').
Proof. intros Hp. destruct (on_world_total p w Hp) as ([] & w' & ->). by eauto. Qed.

#[export] Instance world_laws : ServerEventsLaws world.
Proof.
  split; intros.
  - apply on_world_total, no_throw_RegisterWsClient.
  - apply on_world_unit, no_throw_OnWsClosed.
  - apply on_world_unit, no_throw_OnWsMessage.
  - apply on_world_unit, no_throw_OnWsContent.
  - by apply on_world_total.
  - by apply on_world_total.
  - by apply on_world_total.
  - apply on_world_unit, no_throw_PostCallback.
  - apply on_world_unit, no_throw_LogError.
Qed.

(** ** The system *)

Record system := mkSystem {
  sys_server : config CImpl srv_op;
  sys_history : history;
  sys_sessions : list (ws_rt world)
}.

(** [session->Send] and [session->Close], called by the server. *)
Definition deliver_op (l : list (ws_rt world)) (o : srv_op) : list (ws_rt world) :=
  match o with
  | SessionSend i p => alter (apply_op (OpPost (TaskSend p))) i l
  | SessionClose i => alter (apply_op (OpPost TaskClose)) i l
  | _ => l
  end.

Definition deliver (ops : list srv_op) (l : list (ws_rt world)) : list (ws_rt world) :=
  foldl deliver_op l ops.

Inductive sys_label :=
  | SysServer (l : sched CImpl srv_op)        (** a thread is started, or takes a step *)
  | SysConnect (target : string)              (** an upgrade request: [Accept] *)
  | SysConnection (p : SRV unit)              (** a call made by an http connection *)
  | SysSession (i : nat) (l : ws_label (Srv:=world)).

(** The rest of a thread closes session [i]. *)
#[local] Notation will_close i := (will_emit (S:=CImpl) (SessionClose i)).

(** Calls on sessions. *)
Definition session_op (o : srv_op) : bool :=
  match o with SessionSend _ _ | SessionClose _ => true | _ => false end.

#[local] Notation silent := (never (S:=CImpl) session_op).

Section System.
Context (app : application) (strict : Prop) {Happ : Behaves strict app}.
Context (is_ssl : nat → bool) (settings : CServerSettings).

Definition sys_exec (l : sys_label) (st : system) : option system :=
  let '(mkSystem c g ss) := st in
  match l with
  | SysServer l =>
      c' ← exec_sched l c;
      Some (mkSystem c' (observe (shared c) (shared c') g)
              (deliver (drop (length (trace c)) (trace c')) ss))
  | SysConnect target =>
      Some (mkSystem c g
              (ss ++ [ws_start (session_settings settings)
                        (Some (mkWorld (shared c) g [])) target]))
  | SysConnection p =>
      let w := (on_world p (mkWorld (shared c) g [])).2 in
      Some (mkSystem (mkConfig (w_impl w) (pool c) (trace c ++ w_ops w)) (w_history w)
              (deliver (w_ops w) ss))
  | SysSession i l =>
      r ← ss !! i;
      r ← ws_exec (is_ssl i) i true (WServer (mkWorld (shared c) g [])) r;
      r ← ws_exec (is_ssl i) i true l r;
      w ← rt_srv r;
      Some (mkSystem (mkConfig (w_impl w) (pool c) (trace c ++ w_ops w)) (w_history w)
              (deliver (w_ops w) (<[i := r]> ss)))
  end.

(** What the threads run: what the application calls, the worker's rounds, the completions
    of [async_accept]. *)
Inductive app_call : SRV unit → Prop :=
  | app_threads : app_call StartThreads
  | app_log m : app_call (LogError m)
  | app_worker : app_call (worker_round app)
  | app_accepted a alive opn r : app_call (accepted a alive opn r)
  | app_api p : api_call strict p → app_call p.

(** What an http connection calls. *)
Inductive conn_call : SRV unit → Prop :=
  | conn_upgrade p : conn_call (call (UpgradeAllowed p))
  | conn_find p : conn_call (call (FindHttpHandler p))
  | conn_next : conn_call (call NextConnectionId)
  | conn_http cb w : conn_call (PostCallback (TaskHttp cb w))
  | conn_log m : conn_call (LogError m).

Definition sys_ok (l : sys_label) : Prop :=
  match l with
  | SysServer l => sched_ok app_call l
  | SysConnect _ => True
  | SysConnection p => conn_call p
  | SysSession _ l => own_label l = true
  end.

Definition sys_step (st st' : system) : Prop := ∃ l, sys_ok l ∧ sys_exec l st = Some st'.

Definition sys_init (name : string) : system :=
  mkSystem (server_start name settings) no_history [].

Definition sys_reachable (name : string) (st : system) : Prop :=
  star sys_step (sys_init name) st.

Fixpoint sys_exec_all (ls : list sys_label) (st : system) : option system :=
  match ls with
  | [] => Some st
  | l :: ls' => st' ← sys_exec l st; sys_exec_all ls' st'
  end.

(** ** Threads that take care of the clients they erase *)

(** No entry is added or replaced; the session of an erased entry is closed. *)
Fixpoint careful {A} (p : SRV A) : Prop :=
  match p with
  | Done _ => True
  | Atomic upd next =>
      ∀ s, mClients (upd s) ⊆ mClients s
        ∧ (∀ id e, mClients s !! id = Some e → mClients (upd s) !! id = None →
                   will_close (session e) (next s))
        ∧ careful (next s)
  | Emit e p => (match e with SessionSend _ pl => payload_ok pl = true | _ => True end)
                ∧ careful p
  end.

Lemma careful_bind {A B} (p : SRV A) (k : A → SRV B) :
  careful p → (∀ a, careful (k a)) → careful (pbind p k).
Proof.
  intros Hp Hk. induction p as [[a|f]|upd next IH|e p IH]; cbn in *; [by auto|done| |].
  - intros s. destruct (Hp s) as (? & Hc & ?). split_and!; [done| |by auto].
    intros id e He Hn. by eapply will_emit_bind_l, Hc.
  - destruct Hp. split; [done|by auto].
Qed.

Lemma careful_locked {A} (f : CImpl → A * CImpl) :
  (∀ s, mClients (f s).2 = mClients s) → careful (locked f).
Proof.
  intros Hf s. rewrite Hf. split_and!; [done| |done].
  intros id e He Hn. congruence.
Qed.

Lemma careful_gets {A} (f : CImpl → A) : careful (pgets f).
Proof. by apply careful_locked. Qed.

Lemma careful_for {A} (l : list A) (f : A → SRV unit) :
  (∀ x, x ∈ l → careful (f x)) → careful (pfor l f).
Proof.
  induction l as [|x l IH]; intros Hf; [done|]. apply careful_bind; [apply Hf; by left|].
  intros _. apply IH. intros y Hy. apply Hf. by right.
Qed.

Lemma careful_option {A} (o : option A) (k : A → SRV unit) :
  (∀ a, careful (k a)) → careful (match o with Some a => k a | None => pret tt end).
Proof. intros Hk. by destruct o. Qed.

Lemma careful_LogError m : careful (LogError m).
Proof. by apply careful_bind; [apply careful_gets|]. Qed.

Lemma careful_catch {A} (p : SRV A) h :
  careful p → (∀ f, careful (h f)) → careful (pcatch p h).
Proof.
  intros Hp Hh. induction p as [[a|f]|upd next IH|e p IH]; cbn in *; [done|by auto| |].
  - intros s. destruct (Hp s) as (? & Hc & ?). split_and!; [done| |by auto].
    intros id e He Hn. by apply will_emit_catch, (Hc id).
  - destruct Hp. split; [done|by auto].
Qed.

Section Callbacks.
Context (a : application) (Hbody : ∀ i, careful (cb_body a i)).

Lemma careful_Invoke calls : careful (Invoke a calls).
Proof using Hbody.
  induction calls as [|i calls IH]; [done|].
  apply careful_bind; [|by intros []]. split; [done|]. cbn [pbind pret].
  apply careful_bind; [by apply careful_catch|]. intros _.
  destruct (a i); [done|..]; by apply careful_bind; [apply careful_LogError|].
Qed.

Lemma careful_NotifyClosedSync id uri : careful (NotifyClosedSync a id uri).
Proof.
  apply careful_bind; [apply careful_gets|]. intros [[c cc] n].
  apply careful_bind; [|intros _]; apply careful_option; intros; apply careful_Invoke.
Qed.

Lemma careful_PostCallback t : careful (PostCallback t).
Proof. split; [done|]. by apply careful_locked. Qed.

Lemma careful_worker_round : careful (worker_round a).
Proof.
  apply careful_bind; [|intros o; apply careful_option; intros; apply careful_Invoke].
  apply careful_locked. intros s. by destruct (Run_locked (mWorkQueue s)).
Qed.

(** The session of every entry is among those a loop closes. *)
Lemma will_close_for (l : list (Z * SClientEntry)) id e :
  (id, e) ∈ l → will_close (session e) (pfor l (λ x, pemit (SessionClose (session x.2)))).
Proof.
  induction l as [|x l IH]; [by intros ?%not_elem_of_nil|].
  intros [<-|Hin]%elem_of_cons; cbn; [by left|]. right. by apply IH.
Qed.

Lemma careful_Stop : careful (Server.Stop a).
Proof.
  cbn [Server.Stop locked pbind pret]. intros s.
  change ((Server.Stop_locked s).1) with (mAcceptor s, in_order (mClients s)). cbv beta iota.
  split_and!; [apply map_empty_subseteq| |].
  - intros id e He _. apply will_emit_bind_r; [by destruct (mAcceptor s)|]. intros _.
    apply will_emit_bind_l, (will_close_for _ id). by apply in_order_elem.
  - apply careful_bind; [by destruct (mAcceptor s)|]. intros _.
    apply careful_bind; [by apply careful_for|]. intros _.
    apply careful_for. intros. apply careful_NotifyClosedSync.
Qed.

Lemma careful_Shutdown : careful (Shutdown a).
Proof.
  apply careful_bind; [by apply careful_locked|]. intros []; [|done].
  apply careful_bind; [apply careful_Stop|]. intros _. by apply careful_locked.
Qed.

Lemma careful_RemoveClient id : careful (RemoveClient a id).
Proof.
  cbn [RemoveClient locked pbind pret]. intros s. unfold RemoveClient_locked.
  destruct (mClients s !! id) as [e|] eqn:He; cbn [fst snd].
  2: { split_and!; [done| |done]. intros. congruence. }
  destruct (decrement_core (entry_uri e) (set_mClients (delete id (mClients s)) s))
    as (_ & -> & _). cbn [mClients set_mClients].
  split_and!; [apply delete_subseteq| |split; [done|apply careful_NotifyClosedSync]].
  intros id' e' He' Hn. left. destruct (decide (id = id')) as [<-|Hne]; [congruence|].
  rewrite lookup_delete_ne in Hn by done. congruence.
Qed.

Lemma careful_Start listen address port cbs : careful (Start listen address port cbs).
Proof.
  apply careful_bind; [apply careful_gets|]. intros []; [done|].
  apply careful_bind; [by destruct (listen address port)|]. intros [acc lp].
  apply careful_bind; [|done]. cbn. intros s. unfold Start_locked.
  destruct (mAcceptor s); cbn; split_and!; try done; intros; congruence.
Qed.

Lemma careful_call {A} (p : SRV A) : careful p → careful (call p).
Proof. intros Hp. by apply careful_bind. Qed.

End Callbacks.

Lemma api_call_careful {A} (p : SRV A) : api_call strict p → careful p.
Proof.
  induction 1; auto using careful_Start, careful_Stop, careful_Shutdown, careful_RemoveClient,
    careful_gets, careful_bind, careful_catch; try done; try by apply careful_locked.
  - apply careful_bind; [apply careful_gets|]. intros [sess|]; [done|apply careful_LogError].
  - apply careful_bind; [apply careful_gets|]. intros l. by apply careful_for.
Qed.

Lemma careful_body i : careful (cb_body app i).
Proof. apply api_call_careful, behaves. Qed.

Lemma app_call_careful p : app_call p → careful p.
Proof using All.
  intros []; auto using api_call_careful, careful_LogError, careful_worker_round, careful_body;
    try by apply careful_locked.
  unfold accepted. destruct (negb alive || negb opn); [done|]. destruct r as [ec|sock].
  - destruct (ec_is EcAborted ec); [done|]. by apply careful_bind; [apply careful_LogError|].
  - apply careful_bind; [|done]. by apply careful_bind; [apply careful_gets|].
Qed.

Lemma app_call_server p : app_call p → server_call strict app p.
Proof. intros []; by constructor. Qed.

Lemma conn_call_server p : conn_call p → server_call strict app p.
Proof. intros []; constructor. Qed.

(** ** Calls of a session's handler *)

Section Quiet.
Context (bad : srv_op → bool).
Context (Hposted : ∀ t, match t with TaskHttp _ _ => True | _ => bad (Posted t) = false end).

Lemma never_posted_option {A} (o : option A) (f : A → task) :
  (∀ a, match f a with TaskHttp _ _ => False | _ => True end) →
  never bad (match o with Some a => PostCallback (f a) | None => pret tt end).
Proof using Hposted.
  intros Hf. destruct o as [a|]; [|done]. split; [|done].
  specialize (Hf a). specialize (Hposted (f a)). by destruct (f a).
Qed.

Lemma never_OnWsMessage id m : never bad (Server.OnWsMessage id m).
Proof using Hposted.
  apply never_bind; [done|].
  intros [[g|] [u|]]; try done; (split; [|done]); apply (Hposted (TaskMessage _ _ id m)).
Qed.

Lemma never_OnWsContent id c : never bad (Server.OnWsContent id c).
Proof using Hposted.
  apply never_bind; [done|].
  intros [[g|] [u|]]; try done; (split; [|done]); apply (Hposted (TaskContent _ _ id c)).
Qed.

Lemma never_OnWsClosed id : never bad (Server.OnWsClosed id).
Proof using Hposted.
  apply never_bind; [done|]. intros [[[c cc] n]|]; [|done].
  apply never_bind; [|intros _]; by apply never_posted_option.
Qed.

Lemma never_RegisterWsClient sess t b : never bad (Server.RegisterWsClient sess t b).
Proof using Hposted.
  unfold Server.RegisterWsClient. destruct (ParseTarget_path t ∅) as [m ->].
  cbn [pbind locked pret]. intros s. destruct (RegisterWsClient_locked _ _ _ s).1; [|done].
  apply never_bind; [done|]. intros st. rewrite substr_from_ok by lia. cbn [pbind].
  repeat (apply never_bind; [by apply never_posted_option|intros _]). done.
Qed.
End Quiet.

Lemma session_op_posted t : match t with TaskHttp _ _ => True | _ => session_op (Posted t) = false end.
Proof. by destruct t. Qed.

(** The invariant of the server's threads; calls of sessions are threads that have
    returned. *)
Definition server_ok (s : CImpl) (ps : list (SRV unit)) (tr : list srv_op) (g : history) : Prop :=
  ∃ dones, Forall (λ p, ∃ r, p = Done r) dones
    ∧ pool_ok observe (registry_inv strict) in_range op_token present past (leftover strict)
        (mkConfig s (dones ++ ps) tr) g.

Lemma server_ok_registry s ps tr g : server_ok s ps tr g → registry_inv strict g s.
Proof. by intros (ds & _ & Hi & _). Qed.

(** What every call of a session does. *)
Record passes (w w' : world) : Prop := {
  pass_ops : ∃ ops, w_ops w' = w_ops w ++ ops ∧ Forall (λ o, session_op o = false) ops;
  pass_seen : seen (w_history w) ⊆ seen (w_history w');
  pass_range : in_range (w_history w') → in_range (w_history w);
  pass_server ps tr : in_range (w_history w') →
    server_ok (w_impl w) ps (tr ++ w_ops w) (w_history w) →
    server_ok (w_impl w') ps (tr ++ w_ops w') (w_history w')
}.

Lemma passes_refl w : passes w w.
Proof. split; auto. exists []. by rewrite app_nil_r. Qed.

Lemma passes_trans w1 w2 w3 : passes w1 w2 → passes w2 w3 → passes w1 w3.
Proof.
  intros [(o1 & H1 & F1) S1 R1 K1] [(o2 & H2 & F2) S2 R2 K2]. split; auto; [|set_solver].
  exists (o1 ++ o2). rewrite H2, H1, <-app_assoc. split; [done|by apply Forall_app].
Qed.

Lemma run_obs_seen {A} (p : SRV A) s g : seen g ⊆ seen (run_obs observe p s g).
Proof.
  revert s g. induction p as [r|upd next IH|e p IH]; intros s g; cbn; [done| |apply IH].
  etransitivity; [|apply IH]. cbn. apply union_subseteq_l.
Qed.

Lemma on_world_passes {A} (p : SRV A) w r w' :
  wp observe (registry_inv strict) in_range op_token present past p ∅ (λ _ t, leftover strict t) →
  silent p → on_world p w = (r, w') → passes w w'.
Proof.
  intros Hwp Hs. unfold on_world. destruct (run p (w_impl w)) as [[r0 s'] ops] eqn:Hr.
  intros [= -> <-]. split; cbn.
  - exists ops. split; [done|by eapply never_run].
  - apply run_obs_seen.
  - apply (run_obs_within observe in_range in_range_back).
  - intros ps tr Hin (ds & Hds & Hok). exists (Done (Ok tt) :: ds).
    split; [constructor; [by eexists|done]|]. rewrite app_assoc.
    by eapply (pool_ok_run observe _ in_range op_token present past in_range_back
                 (leftover strict)).
Qed.

(** *** The calls one by one *)

Lemma quiet_passes (w w' : world) :
  quiet w w' → passes w w' ∧ mClients (w_impl w') = mClients (w_impl w).
Proof.
  intros Hq. destruct Hq as [w|m w w' Hc|i m w w' Hc|i c w w' Hc]; [by split; [apply passes_refl|]|..].
  all: split; [eapply on_world_passes; [| |exact Hc]|].
  all: try apply safe_LogError; try done.
  - unfold Events.LogError, world_events, on_world in Hc. cbn in Hc. by simplify_eq.
  - by apply (safe_received strict i true (λ g u, TaskMessage g u i m)).
  - apply (never_OnWsMessage _ session_op_posted).
  - revert Hc. cbn. unfold on_world, Server.OnWsMessage. cbn.
    destruct (LookupReceiveCallbacks _ _ _) as [[] []]; intros; by simplify_eq/=.
  - by apply (safe_received strict i false (λ g u, TaskContent g u i c)).
  - apply (never_OnWsContent _ session_op_posted).
  - revert Hc. cbn. unfold on_world, Server.OnWsContent. cbn.
    destruct (LookupReceiveCallbacks _ _ _) as [[] []]; intros; by simplify_eq/=.
Qed.

Lemma closed_passes id (w w' : world) :
  Events.OnWsClosed id w = (Ok tt, w') →
  passes w w' ∧ mClients (w_impl w') = delete id (mClients (w_impl w)).
Proof.
  intros Hc. split; [eapply on_world_passes; [apply safe_OnWsClosed|apply (never_OnWsClosed _ session_op_posted)|exact Hc]|].
  change (Events.OnWsClosed id w) with (on_world (Server.OnWsClosed id) w) in Hc.
  revert Hc. unfold on_world.
  destruct (run (Server.OnWsClosed id) (w_impl w)) as [[r s'] ops] eqn:Hr. intros [= -> <-]. cbn.
  destruct (mClients (w_impl w) !! id) as [e|] eqn:He.
  - pose proof (OnWsClosed_effects id e (w_impl w) He) as Heff. cbv zeta in Heff.
    destruct (DecrementUriCountLocked _ _) as [n s1] eqn:Hd.
    rewrite Hr in Heff. simplify_eq. rewrite posts_clients.
    destruct (decrement_core (entry_uri e) (set_mClients (delete id (mClients (w_impl w))) (w_impl w)))
      as (_ & Hcl & _). rewrite Hd in Hcl. exact Hcl.
  - unfold Server.OnWsClosed in Hr. cbn in Hr. unfold OnWsClosed_locked in Hr. rewrite He in Hr.
    cbn in Hr. simplify_eq. by rewrite delete_id.
Qed.

(** A call of an http connection leaves the clients alone. *)
Lemma conn_passes p r (w w' : world) :
  conn_call p → on_world p w = (r, w') → passes w w' ∧ mClients (w_impl w') = mClients (w_impl w).
Proof using Happ.
  intros Hp Hw. split.
  - eapply on_world_passes; [| |exact Hw].
    + by apply (server_call_safe strict app), conn_call_server.
    + by destruct Hp.
  - revert Hw. unfold on_world. destruct Hp; cbn; intros [= _ <-]; try done.
    cbn. unfold FindHttpHandler_locked. by destruct (is_empty _).
Qed.

(** A session is rejected, or registered under a new id. *)
Lemma register_passes sess target b id (w w' : world) :
  Events.RegisterWsClient sess target b w = (Ok id, w') →
  passes w w'
  ∧ (registry_inv strict (w_history w) (w_impl w) → in_range (w_history w') →
     (id = 0%Z ∧ mClients (w_impl w') = mClients (w_impl w))
     ∨ (id ≠ 0%Z ∧ id ∉ seen (w_history w) ∧ mClients (w_impl w) !! id = None
        ∧ ∃ e, session e = sess ∧ mClients (w_impl w') = <[id := e]> (mClients (w_impl w)))).
Proof.
  intros Hc. split.
  { eapply on_world_passes; [apply safe_RegisterWsClient|apply (never_RegisterWsClient _ session_op_posted)|exact Hc]. }
  change (Events.RegisterWsClient sess target b w)
    with (on_world (Server.RegisterWsClient sess target b) w) in Hc.
  revert Hc. unfold on_world.
  destruct (run (Server.RegisterWsClient sess target b) (w_impl w)) as [[r s'] ops] eqn:Hr.
  intros [= -> <-] Hinv Hin. cbn [w_impl w_history] in *.
  destruct (mShutdown (w_impl w) || negb (bool_decide (is_Some (mAcceptor (w_impl w))))) eqn:Hrej.
  - left. rewrite RegisterWsClient_rejects in Hr; [by simplify_eq|].
    apply orb_true_iff in Hrej as [?|Hac%negb_true_iff%bool_decide_eq_false]; [by left|right].
    destruct (mAcceptor _); [|done]. exfalso. apply Hac. by eexists.
  - right. apply orb_false_iff in Hrej as [Hsd Hac%negb_false_iff%bool_decide_eq_true].
    destruct (run_RegisterWsClient sess target b (w_impl w) Hsd Hac) as (rest & Hrun & _).
    rewrite Hrun in Hr. simplify_eq. rewrite posts_clients.
    assert (Hw : in_range (observe (w_impl w) (registered (w_impl w) sess
                  (LongestUriMatchLocked (target_path target) (w_impl w)) b) (w_history w))).
    { revert Hin. unfold Server.RegisterWsClient. destruct (ParseTarget_path target ∅) as [m ->].
      cbn [pbind locked pret run_obs].
      destruct (RegisterWsClient_locked_accepts sess (target_path target) b (w_impl w) Hsd Hac)
        as (r & -> & _). cbn [fst snd].
      apply (run_obs_within observe in_range in_range_back). }
    edestruct (next_id_fresh strict) as (_ & Hid & Hfresh & Hnew); [exact Hinv| |exact Hw|];
      [reflexivity|].
    destruct Hinv as [_ Hpos _ _ _ _ _ _ _]. rewrite <-Hid in Hfresh, Hnew.
    split_and!; [lia|done|done|]. eexists. by split; [|reflexivity].
Qed.

(** ** What links the registry and the sessions *)

Record links (m : gmap Z SClientEntry) (known : gset Z) (ps : list (SRV unit))
    (ss : list (ws_rt world)) : Prop := {
  (** a registered client is an open session that carries its id *)
  li_open id e : m !! id = Some e →
    ∃ r, ss !! session e = Some r ∧ mOpen (rt_session r) = true
         ∧ mClientId (rt_session r) = id;
  (** an open session is registered, or it is closing, or a thread is about to close it *)
  li_closing i r : ss !! i = Some r → mOpen (rt_session r) = true →
    (∃ e, m !! mClientId (rt_session r) = Some e ∧ session e = i)
    ∨ closing r ∨ ∃ p, p ∈ ps ∧ will_close i p;
  li_seen i r : ss !! i = Some r → mClientId (rt_session r) ≠ 0%Z →
    mClientId (rt_session r) ∈ known;
  (** no two sessions have the same id *)
  li_unique i j r r' : ss !! i = Some r → ss !! j = Some r' →
    mClientId (rt_session r) ≠ 0%Z → mClientId (rt_session r) = mClientId (rt_session r') →
    i = j
}.

Lemma links_call m known ps ss p : links m known ps ss → links m known (ps ++ [p]) ss.
Proof.
  intros [L1 L2 L3 L4]. split; [done| |done|done]. intros i r Hi Ho.
  destruct (L2 i r Hi Ho) as [?|[?|(q & Hq & ?)]]; [by auto|by auto|].
  right; right. exists q. split; [|done]. apply elem_of_app. by left.
Qed.

Lemma links_known m known known' ps ss :
  known ⊆ known' → links m known ps ss → links m known' ps ss.
Proof. intros Hk [L1 L2 L3 L4]. split; [done..| |done]. intros i r Hi Hne. apply Hk. by eapply L3. Qed.

Lemma links_atomic s known known' ps ss j upd next :
  ps !! j = Some (Atomic upd next) → careful (Atomic upd next) → known ⊆ known' →
  links (mClients s) known ps ss → links (mClients (upd s)) known' (<[j:=next s]> ps) ss.
Proof.
  intros Hj Hc Hk [L1 L2 L3 L4]. destruct (Hc s) as (Hsub & Hclose & _).
  split; [| |intros i r Hi Hne; apply Hk; by eapply L3|done].
  - intros id e He. apply L1. by eapply lookup_weaken.
  - intros i r Hi Ho. destruct (L2 i r Hi Ho) as [(e & He & Hs)|[?|Hw]]; [|by auto|].
    + destruct (mClients (upd s) !! mClientId (rt_session r)) as [e'|] eqn:He'.
      * left. exists e'. split; [done|]. pose proof (lookup_weaken _ _ _ _ He' Hsub). congruence.
      * right; right. exists (next s). split; [|subst i; by eapply Hclose].
        apply list_elem_of_insert. by eapply lookup_lt_Some.
    + right; right. eapply will_emit_insert; [done| |done]. cbn. auto.
Qed.

(** Posting to a strand changes nothing else of a session. *)
Lemma deliver_op_lookup ss o i r' :
  deliver_op ss o !! i = Some r' →
  ∃ r, ss !! i = Some r ∧ rt_session r' = rt_session r ∧ (closing r → closing r')
       ∧ (o = SessionClose i → closing r').
Proof.
  assert (Hpost : ∀ k j, alter (apply_op (OpPost k)) j ss !! i = Some r' →
    ∃ r, ss !! i = Some r ∧ rt_session r' = rt_session r ∧ (closing r → closing r')
         ∧ (k = TaskClose → i = j → closing r')).
  { intros k j. rewrite list_lookup_alter. case_decide as Hd; [subst j|].
    - destruct (ss !! i) as [r|]; [|done]. cbn. intros [= <-]. exists r. unfold closing.
      destruct r. cbn. split_and!; [done|done| |].
      + intros [?|?]; [by left|right]. apply elem_of_app. by left.
      + intros -> _. right. apply elem_of_app. right. by left.
    - intros Hi. exists r'. by split_and!. }
  destruct o as [j p|j| | | | | | |]; cbn;
    [intros Hi; apply Hpost in Hi as (r & ? & ? & ? & ?)
    |intros Hi; apply Hpost in Hi as (r & ? & ? & ? & Hk)|..];
    [exists r; by split_and! | exists r; split_and!; try done; intros [= ->]; by apply Hk|..];
    intros Hi; by exists r'.
Qed.

Lemma deliver_op_forward ss o i r :
  ss !! i = Some r → ∃ r', deliver_op ss o !! i = Some r' ∧ rt_session r' = rt_session r.
Proof.
  assert (Hpost : ∀ k j, ss !! i = Some r →
    ∃ r', alter (apply_op (OpPost k)) j ss !! i = Some r' ∧ rt_session r' = rt_session r).
  { intros k j Hi. rewrite list_lookup_alter. case_decide as Hd; [|by eauto].
    subst j. rewrite Hi. eexists. split; [reflexivity|]. by destruct r. }
  intros Hi. destruct o; cbn; eauto.
Qed.

Lemma links_emit m known ps ss j e p :
  ps !! j = Some (Emit e p) → links m known ps ss →
  links m known (<[j:=p]> ps) (deliver_op ss e).
Proof.
  intros Hj [L1 L2 L3 L4]. split.
  - intros id en He. destruct (L1 id en He) as (r & Hr & Ho & Hid).
    destruct (deliver_op_forward ss e _ r Hr) as (r' & Hr' & Hs).
    exists r'. by rewrite Hs.
  - intros i r' Hi Ho. destruct (deliver_op_lookup _ _ _ _ Hi) as (r & Hr & Hs & Hcl & Hnew).
    rewrite Hs in *. destruct (L2 i r Hr Ho) as [?|[?|(q & Hq & Hw)]]; [by auto|by auto|].
    apply list_elem_of_lookup in Hq as [k Hk]. destruct (decide (k = j)) as [->|Hne].
    + pose proof (eq_trans (eq_sym Hk) Hj) as [= ->]. destruct Hw as [Heq|Hw]; [by auto|].
      right; right. exists p. split; [|done]. apply list_elem_of_insert.
      by eapply lookup_lt_Some.
    + right; right. exists q. split; [|done]. apply list_elem_of_lookup. exists k.
      by rewrite list_lookup_insert_ne.
  - intros i r' Hi. destruct (deliver_op_lookup _ _ _ _ Hi) as (r & Hr & -> & _). by eapply L3.
  - intros i k r1 r2 Hi Hk.
    destruct (deliver_op_lookup _ _ _ _ Hi) as (r1' & Hr1 & -> & _).
    destruct (deliver_op_lookup _ _ _ _ Hk) as (r2' & Hr2 & -> & _). by eapply L4.
Qed.

Lemma links_connect m known ps ss r :
  mOpen (rt_session r) = false → mClientId (rt_session r) = 0%Z →
  links m known ps ss → links m known ps (ss ++ [r]).
Proof.
  intros Ho H0 [L1 L2 L3 L4].
  assert (Hlk : ∀ i r', (ss ++ [r]) !! i = Some r' → ss !! i = Some r' ∨ r' = r).
  { intros i r' [?|[_ Hr]]%lookup_app_Some; [by left|right].
    by apply list_lookup_singleton_Some in Hr as [_ ->]. }
  split.
  - intros id e He. destruct (L1 id e He) as (r' & Hr' & ?). exists r'.
    split; [by apply lookup_app_l_Some|done].
  - intros i r' [Hi| ->]%Hlk Hop; [by apply L2|congruence].
  - intros i r' [Hi| ->]%Hlk Hne; [by eapply L3|done].
  - intros i j r1 r2 [Hi| ->]%Hlk [Hj| ->]%Hlk Hne Heq; try congruence. by eapply L4.
Qed.

(** *** A session takes a step of its own *)

Section Step.
Context (m : gmap Z SClientEntry) (known known' : gset Z) (ps : list (SRV unit)).
Context (ss : list (ws_rt world)) (i : nat) (r r' : ws_rt world).
Context (Hi : ss !! i = Some r) (Hlinks : links m known ps ss) (Hknown : known ⊆ known').

Lemma step_at k q :
  <[i := r']> ss !! k = Some q → (k = i ∧ q = r') ∨ (k ≠ i ∧ ss !! k = Some q).
Proof.
  destruct (decide (k = i)) as [->|Hne]; intros Hk.
  - rewrite list_lookup_insert_eq in Hk by (by eapply lookup_lt_Some). left. by simplify_eq.
  - rewrite list_lookup_insert_ne in Hk by done. by right.
Qed.

Lemma step_self : <[i := r']> ss !! i = Some r'.
Proof. apply list_lookup_insert_eq. by eapply lookup_lt_Some. Qed.

(** Entries of other sessions stay. *)
Lemma step_other id e :
  m !! id = Some e → session e ≠ i →
  ∃ q, <[i := r']> ss !! session e = Some q ∧ mOpen (rt_session q) = true
       ∧ mClientId (rt_session q) = id.
Proof.
  intros He Hne. destruct (li_open _ _ _ _ Hlinks id e He) as (q & ? & ?).
  exists q. by rewrite list_lookup_insert_ne.
Qed.

(** The ids of a session that keeps its own. *)
Lemma step_same_id :
  mClientId (rt_session r') = mClientId (rt_session r) →
  (∀ k q, <[i := r']> ss !! k = Some q → mClientId (rt_session q) ≠ 0%Z →
          mClientId (rt_session q) ∈ known')
  ∧ (∀ k1 k2 q1 q2, <[i := r']> ss !! k1 = Some q1 → <[i := r']> ss !! k2 = Some q2 →
       mClientId (rt_session q1) ≠ 0%Z → mClientId (rt_session q1) = mClientId (rt_session q2) →
       k1 = k2).
Proof using All.
  intros Hid. destruct Hlinks as [_ _ L3 L4]. split.
  - intros k q [[-> ->]|[Hne Hk]]%step_at Hz; apply Hknown; rewrite ?Hid in *; by eapply L3.
  - intros k1 k2 q1 q2 [[-> ->]|[Hn1 Hk1]]%step_at [[-> ->]|[Hn2 Hk2]]%step_at Hz Heq; [done|..];
      rewrite ?Hid in *; by eapply L4.
Qed.

Lemma links_quiet :
  mOpen (rt_session r') = mOpen (rt_session r) →
  mClientId (rt_session r') = mClientId (rt_session r) → (closing r → closing r') →
  links m known' ps (<[i := r']> ss).
Proof using All.
  intros Ho Hid Hcl. destruct (step_same_id Hid) as [H3 H4].
  destruct Hlinks as [L1 L2 _ _]. split; [| |exact H3|exact H4].
  - intros id e He. destruct (decide (session e = i)) as [Heq|Hne]; [|by apply step_other].
    destruct (L1 id e He) as (q & Hq & Hop & Hqid). exists r'.
    rewrite Heq in *. rewrite step_self. split_and!; congruence.
  - intros k q [[-> ->]|[Hne Hk]]%step_at Hop; [|by apply L2].
    rewrite Ho in Hop. rewrite Hid. destruct (L2 i r Hi Hop) as [?|[?|?]]; auto.
Qed.

Lemma links_rejected :
  mOpen (rt_session r) = false → mClientId (rt_session r') = 0%Z → closing r' →
  links m known' ps (<[i := r']> ss).
Proof using All.
  intros Ho Hz Hcl. destruct Hlinks as [L1 L2 L3 L4]. split.
  - intros id e He. apply step_other; [done|]. intros Heq.
    destruct (L1 id e He) as (q & Hq & Hop & _). congruence.
  - intros k q [[-> ->]|[Hne Hk]]%step_at Hop; [by auto|by apply L2].
  - intros k q [[-> ->]|[Hne Hk]]%step_at Hq; [done|]. apply Hknown. by eapply L3.
  - intros k1 k2 q1 q2 [[-> ->]|[Hn1 Hk1]]%step_at [[-> ->]|[Hn2 Hk2]]%step_at Hne Heq;
      try congruence. by eapply L4.
Qed.

Lemma links_registered e :
  mOpen (rt_session r) = false → session e = i →
  mClientId (rt_session r') ∉ known → mClientId (rt_session r') ∈ known' →
  m !! mClientId (rt_session r') = None → mOpen (rt_session r') = true →
  links (<[mClientId (rt_session r') := e]> m) known' ps (<[i := r']> ss).
Proof using All.
  intros Ho Hse Hfresh Hin Hnew Ho'. destruct Hlinks as [L1 L2 L3 L4]. split.
  - intros id e' [[<- <-]|[Hne He]]%lookup_insert_Some.
    { exists r'. rewrite Hse. by rewrite step_self. }
    apply step_other; [done|]. intros Heq.
    destruct (L1 id e' He) as (q & Hq & Hop & _). congruence.
  - intros k q [[-> ->]|[Hne Hk]]%step_at Hop; [left; exists e; by rewrite lookup_insert_eq|].
    destruct (L2 k q Hk Hop) as [(e' & He & Hs)|?]; [left|by right].
    exists e'. rewrite lookup_insert_ne; [done|]. congruence.
  - intros k q [[-> ->]|[Hne Hk]]%step_at Hz; [done|]. apply Hknown. by eapply L3.
  - intros k1 k2 q1 q2 [[-> ->]|[Hn1 Hk1]]%step_at [[-> ->]|[Hn2 Hk2]]%step_at Hz Heq;
      [done| | |by eapply L4]; exfalso; apply Hfresh.
    + rewrite Heq. eapply L3; [done|congruence].
    + rewrite <-Heq. by eapply L3.
Qed.

Lemma links_ended :
  (∀ id e, m !! id = Some e → id ≠ 0%Z) →
  mOpen (rt_session r') = false → mClientId (rt_session r') = mClientId (rt_session r) →
  links (delete (mClientId (rt_session r)) m) known' ps (<[i := r']> ss).
Proof using All.
  intros Hnz Ho' Hid. destruct (step_same_id Hid) as [H3 H4].
  destruct Hlinks as [L1 L2 L3 L4]. split; [| |exact H3|exact H4].
  - intros id e [Hne He]%lookup_delete_Some. apply step_other; [done|]. intros Heq.
    destruct (L1 id e He) as (q & Hq & _ & Hqid). congruence.
  - intros k q [[-> ->]|[Hne Hk]]%step_at Hop; [congruence|].
    destruct (L2 k q Hk Hop) as [(e & He & Hs)|?]; [left|by right].
    exists e. rewrite lookup_delete_ne; [done|]. intros Heq. apply Hne. symmetry.
    eapply (L4 i k r q); [done|done| |done]. rewrite Heq. by eapply Hnz.
Qed.
End Step.

Lemma registered_nonzero g s id e :
  registry_inv strict g s → mClients s !! id = Some e → id ≠ 0%Z ∧ id ∈ seen g.
Proof.
  intros Hreg He. pose proof (ri_dom strict _ _ Hreg _ (elem_of_dom_2 _ _ _ He)) as Hd.
  split; [|done]. apply (ri_seen strict _ _ Hreg) in Hd. lia.
Qed.

(** What the three cases of [ws_effect] do to the server and the links. *)
Lemma links_session ps ss i r r' (w w' : world) :
  ss !! i = Some r → ws_effect (is_ssl i) i r r' w w' →
  passes w w'
  ∧ (registry_inv strict (w_history w) (w_impl w) →
     registry_inv strict (w_history w') (w_impl w') → in_range (w_history w') →
     links (mClients (w_impl w)) (seen (w_history w)) ps ss →
     links (mClients (w_impl w')) (seen (w_history w')) ps (<[i := r']> ss)).
Proof.
  intros Hi Heff. destruct Heff as [Hq Ho Hid Hcl|target Ho Ho' _ Hc H0|w1 Ho Ho' Hid Hq Hc].
  - destruct (quiet_passes w w' Hq) as [Hp ->]. split; [done|]. intros _ _ _ Hl.
    by apply (links_quiet _ _ _ _ _ _ _ _ Hi Hl (pass_seen _ _ Hp)).
  - destruct (register_passes _ _ _ _ w w' Hc) as [Hp Hcase]. split; [done|].
    intros Hreg Hreg' Hin Hl.
    destruct (Hcase Hreg Hin) as [[Hz Hm]|(Hnz & Hfresh & Hnew & e & He & Hm)]; rewrite Hm.
    + apply (links_rejected _ _ _ _ _ _ _ _ Hi Hl (pass_seen _ _ Hp)); auto.
    + apply (links_registered _ _ _ _ _ _ _ _ Hi Hl (pass_seen _ _ Hp)); auto.
      eapply registered_nonzero; [done|]. rewrite Hm. apply lookup_insert_eq.
  - destruct (quiet_passes w w1 Hq) as [Hp1 Hm1]. destruct (closed_passes _ w1 w' Hc) as [Hp2 Hm2].
    pose proof (passes_trans _ _ _ Hp1 Hp2) as Hp. split; [done|]. intros Hreg _ _ Hl.
    rewrite Hm2, Hm1. apply (links_ended _ _ _ _ _ _ _ _ Hi Hl (pass_seen _ _ Hp)); auto.
    intros id e He. by eapply registered_nonzero.
Qed.

(** ** Every step keeps the invariant *)

(** What holds of threads and sessions by themselves, and of the registry as long as the
    ids last. *)
Record base_inv (st : system) : Prop := {
  bi_threads : Forall careful (pool (sys_server st));
  bi_sessions i r : sys_sessions st !! i = Some r →
    ws_inv (session_settings settings) r ∧ is_Some (rt_srv r)
}.

Record sys_inv (st : system) : Prop := {
  si_server : server_ok (shared (sys_server st)) (pool (sys_server st))
                (trace (sys_server st)) (sys_history st);
  si_links : links (mClients (shared (sys_server st))) (seen (sys_history st))
               (pool (sys_server st)) (sys_sessions st)
}.

Definition sound_step (st st' : system) : Prop :=
  base_inv st'
  ∧ (in_range (sys_history st') →
     in_range (sys_history st) ∧ (sys_inv st → sys_inv st')).

Lemma server_ok_step s ps tr g c' :
  server_ok s ps tr g → pool_step app_call (mkConfig s ps tr) c' →
  in_range (observe s (shared c') g) →
  server_ok (shared c') (pool c') (trace c') (observe s (shared c') g).
Proof.
  intros (ds & Hds & Hok) Hstep Hin. exists ds. split; [done|].
  set (c1 := mkConfig s (ds ++ ps) tr).
  set (c2 := mkConfig (shared c') (ds ++ pool c') (trace c')).
  assert (Hstep' : pool_step (server_call strict app) c1 c2).
  { inversion Hstep as [p s0 ps0 tr0 Hp|j upd next s0 ps0 tr0 Hj|j e p s0 ps0 tr0 Hj];
      subst; unfold c1, c2; cbn.
    - rewrite app_assoc. constructor. by apply app_call_server.
    - rewrite <-(insert_app_r ds). constructor. by rewrite lookup_app_r, Nat.add_comm, Nat.add_sub by lia.
    - rewrite <-(insert_app_r ds). constructor. by rewrite lookup_app_r, Nat.add_comm, Nat.add_sub by lia. }
  apply (pool_ok_step observe (registry_inv strict) in_range op_token present past in_range_back
           (leftover strict) (leftover_empty strict) observe_same
           (server_call strict app) c1 c2 g); [|done|done|done].
  by apply server_call_safe.
Qed.

(** A post to a strand is a [WPost] of the session. *)
Lemma deliver_op_inv ss o :
  (match o with SessionSend _ p => payload_ok p = true | _ => True end) →
  (∀ i r, ss !! i = Some r → ws_inv (session_settings settings) r ∧ is_Some (rt_srv r)) →
  ∀ i r, deliver_op ss o !! i = Some r →
         ws_inv (session_settings settings) r ∧ is_Some (rt_srv r).
Proof.
  intros Ho Hss.
  assert (Hpost : ∀ k j, label_ok (Srv:=world) (WPost k) = true →
    ∀ i r, alter (apply_op (OpPost k)) j ss !! i = Some r →
           ws_inv (session_settings settings) r ∧ is_Some (rt_srv r)).
  { intros k j Hk i r. rewrite list_lookup_alter. case_decide; [|by apply Hss].
    subst j. destruct (ss !! i) as [r0|] eqn:Hi; [|done]. cbn. intros [= <-].
    destruct (Hss i r0 Hi) as [Hinv Hv]. split; [|by destruct r0].
    eapply (ws_inv_step (is_ssl i) i _ (WPost k) r0); [done|done|]. by destruct r0. }
  destruct o; cbn; try apply Hss; by apply Hpost.
Qed.

Lemma deliver_silent ops ss : Forall (λ o, session_op o = false) ops → deliver ops ss = ss.
Proof.
  unfold deliver. induction 1 as [|o ops Ho _ IH]; [done|]. cbn. rewrite <-IH at 2.
  by destruct o.
Qed.

Lemma inv_server l st st' :
  sched_ok app_call l → base_inv st → sys_exec (SysServer l) st = Some st' → sound_step st st'.
Proof.
  destruct st as [[s ps tr] g ss]. intros Hl [Hth Hss] He. cbn -[exec_sched] in *.
  destruct (exec_sched l _) as [c'|] eqn:Hx; cbn -[exec_sched] in He; simplify_eq/=.
  assert (Hstep : pool_step app_call (mkConfig s ps tr) c').
  { eapply exec_sched_sound; [|done]. by intros p ->. }
  pose proof (server_ok_step s ps tr g c') as Hsv.
  inversion Hstep as [p s0 ps0 tr0 Hp|j upd next s0 ps0 tr0 Hj|j e p s0 ps0 tr0 Hj];
    subst; cbn in *; rewrite ?drop_all, ?drop_app_length; cbn.
  - split; [split; cbn; [|done]|].
    + apply Forall_app_2; [done|]. constructor; [by apply app_call_careful|constructor].
    + cbn. intros Hin. split; [by eapply in_range_back|]. intros [Hok Hlk].
      rewrite observe_same in *. split; cbn; [by apply Hsv|by apply links_call].
  - pose proof (proj1 (Forall_lookup _ _) Hth _ _ Hj) as Hc. split; [split; cbn; [|done]|].
    + apply Forall_insert; [done|]. apply (Hc s).
    + cbn. intros Hin. split; [by eapply in_range_back|]. intros [Hok Hlk].
      split; cbn; [by apply Hsv|]. by eapply links_atomic; [|exact Hc|apply union_subseteq_l|].
  - pose proof (proj1 (Forall_lookup _ _) Hth _ _ Hj) as [He Hc]. split; [split; cbn|].
    + by apply Forall_insert.
    + by apply deliver_op_inv.
    + cbn. intros Hin. split; [by eapply in_range_back|]. intros [Hok Hlk].
      rewrite observe_same in *. split; cbn; [by apply Hsv|by apply links_emit].
Qed.

Lemma inv_connect target st st' :
  base_inv st → sys_exec (SysConnect target) st = Some st' → sound_step st st'.
Proof.
  destruct st as [[s ps tr] g ss]. intros [Hth Hss] He. cbn in He. simplify_eq.
  split; [split; cbn; [done|]|].
  - intros i r [?|[_ Hr]]%lookup_app_Some; [by eapply Hss|].
    apply list_lookup_singleton_Some in Hr as [_ <-]. split; [apply inv_start|by eexists].
  - cbn. intros Hin. split; [done|]. intros [Hok Hlk]. split; cbn; [done|by apply links_connect].
Qed.

Lemma inv_connection p st st' :
  conn_call p → base_inv st → sys_exec (SysConnection p) st = Some st' → sound_step st st'.
Proof using All.
  destruct st as [[s ps tr] g ss]. intros Hp [Hth Hss] He. cbn -[on_world] in He.
  destruct (on_world p (mkWorld s g [])) as [r w] eqn:Hw. cbn in He. simplify_eq.
  destruct (conn_passes p r _ w Hp Hw) as [Hpass Hm]. cbn in Hm.
  destruct (pass_ops _ _ Hpass) as (ops & Hops & Hsil). cbn in Hops. subst ops.
  rewrite deliver_silent by done. split; [by split|]. cbn. intros Hin.
  split; [exact (pass_range _ _ Hpass Hin)|]. intros [Hok Hlk]. split; cbn.
  - pose proof (pass_server _ _ Hpass ps tr Hin) as Hok'. cbn in Hok, Hok'.
    rewrite app_nil_r in Hok'. by apply Hok'.
  - rewrite Hm. by eapply links_known; [apply (pass_seen _ _ Hpass)|].
Qed.

Lemma exec_server_srv ssl i w r r0 :
  ws_exec ssl i true (WServer w) r = Some r0 →
  rt_srv r0 = Some w ∧ rt_session r0 = rt_session r ∧ (closing r → closing r0).
Proof. destruct r as [s [v|]]; cbn; intros; by simplify_eq. Qed.

Lemma inv_session i l st st' :
  own_label l = true → base_inv st → sys_exec (SysSession i l) st = Some st' → sound_step st st'.
Proof.
  destruct st as [[s ps tr] g ss]. intros Hl [Hth Hss] He. cbn -[ws_exec] in *.
  destruct (ss !! i) as [r|] eqn:Hi; [|done]. cbn -[ws_exec] in He.
  destruct (ws_exec _ _ _ (WServer _) r) as [r0|] eqn:H0; [|done]. cbn -[ws_exec] in He.
  destruct (ws_exec _ _ _ l r0) as [r1|] eqn:H1; [|done]. cbn -[ws_exec] in He.
  destruct (Hss i r Hi) as [Hinv _].
  assert (Hinv0 : ws_inv (session_settings settings) r0)
    by (eapply ws_inv_step; [|exact Hinv|exact H0]; done).
  assert (Hinv1 : ws_inv (session_settings settings) r1)
    by (eapply ws_inv_step; [|exact Hinv0|exact H1]; by destruct l).
  destruct (exec_server_srv _ _ _ _ _ H0) as (Hv0 & Hs0 & Hc0).
  destruct (ws_exec_effect _ _ _ _ _ _ _ Hinv0 Hv0 Hl H1) as (w & Hw & Heff).
  rewrite Hw in He. cbn in He. simplify_eq/=.
  assert (Hi0 : <[i := r0]> ss !! i = Some r0)
    by (apply list_lookup_insert_eq; by eapply lookup_lt_Some).
  destruct (links_session ps _ i r0 r1 _ w Hi0 Heff) as [Hp Hlink].
  rewrite list_insert_insert_eq in Hlink.
  destruct (pass_ops _ _ Hp) as (ops & Hops & Hsil). cbn in Hops. subst ops.
  rewrite deliver_silent by done. split; [split; cbn; [done|]|].
  - intros k q Hk. destruct (step_at ss i r r1 Hi k q Hk) as [[-> ->]|[_ ?]]; [|by eapply Hss].
    split; [done|by eexists].
  - cbn. intros Hin. split; [exact (pass_range _ _ Hp Hin)|]. intros [Hok Hlk].
    pose proof (pass_server _ _ Hp ps tr Hin) as Hok'. cbn in Hok, Hok'. rewrite app_nil_r in Hok'.
    specialize (Hok' Hok). split; cbn; [done|].
    apply Hlink; [by eapply server_ok_registry|by eapply server_ok_registry|done|].
    apply (links_quiet _ _ _ _ _ _ _ _ Hi Hlk); [done|by rewrite Hs0..|done].
Qed.

Lemma sys_step_keeps st st' : base_inv st → sys_step st st' → sound_step st st'.
Proof.
  intros Hb ([l|target|p|i l] & Hok & He);
    [by eapply inv_server|by eapply inv_connect|by eapply inv_connection|by eapply inv_session].
Qed.

Lemma sys_init_inv name : base_inv (sys_init name) ∧ sys_inv (sys_init name).
Proof.
  split; split; cbn; try done.
  exists []. split; [constructor|]. cbn.
  apply (server_run_ok strict app name settings); [constructor|].
  unfold in_range. cbn. lia.
Qed.

Lemma sys_reachable_inv name st :
  sys_reachable name st → base_inv st ∧ (in_range (sys_history st) → sys_inv st).
Proof.
  intros Hrun. apply (star_invariant (λ st, base_inv st ∧ (in_range (sys_history st) → sys_inv st))
                        _ _) in Hrun; [done| |].
  - intros x y [Hb Hx] Hstep. destruct (sys_step_keeps x y Hb Hstep) as [Hb' Hk].
    split; [done|]. intros Hin. destruct (Hk Hin) as [Hin' Hs]. auto.
  - destruct (sys_init_inv name). auto.
Qed.

(** A session that registered has the id it got, and is open until it fails. *)
Lemma registered_phase (r : ws_rt world) target b id :
  idle_phase r ∨ open_phase (session_settings settings) r ∨ shut_phase r →
  EvRegister target b id ∈ rt_events r →
  mClientId (rt_session r) = id ∧ mOpen (rt_session r) = negb (rt_failed r).
Proof.
  assert (Hcalls : EvRegister target b id ∈ rt_events r → EvRegister target b id ∈ calls (rt_events r)).
  { intros Hev. unfold calls. apply list_elem_of_In, List.filter_In. split; [|done].
    by apply list_elem_of_In. }
  assert (Horder : ∀ cl, call_order (mClientId (rt_session r)) cl (rt_events r) →
    EvRegister target b id ∈ rt_events r → mClientId (rt_session r) = id).
  { intros cl (t & b' & ms & Hc & Hms) Hev%Hcalls. rewrite Hc in Hev.
    apply elem_of_cons in Hev as [Hev|[Hev|Hev]%elem_of_app]; [congruence|..].
    - rewrite Forall_forall in Hms. by apply Hms in Hev.
    - destruct cl; [|by apply not_elem_of_nil in Hev].
      by apply list_elem_of_singleton in Hev. }
  intros Hph Hev. destruct Hph as [Hid|[Ho|Hs]].
  - destruct Hid as (_ & _ & _ & _ & _ & _ & _ & _ & Hno & _). apply Hcalls in Hev.
    rewrite Hno in Hev. by apply not_elem_of_nil in Hev.
  - destruct Ho as (-> & _ & -> & _ & _ & _ & _ & _ & _ & _ & Hord). eauto.
  - destruct Hs as (-> & _ & -> & _ & _ & _ & _ & _ & cl & Hord). eauto.
Qed.

End System.

(** ** Properties *)

(** C2. Between the handlers of sessions the registry and the sessions agree.  The critical
    sections of the threads, the worker and new connections interleave in any order, and a
    handler of a session, with the calls it makes on the server, runs to its end between
    two of them (so the moment inside OnAccept or HandleClosed in which a session is open
    but not yet, or no longer, registered is not a state of this system).  Then a
    registered client is an open session that carries its id, two clients are two
    sessions, and a session that is open is registered, or its close is requested or
    posted, or a thread is about to close it. *)
Theorem system_connections app strict `{!Behaves strict app} is_ssl settings name st :
  sys_reachable app strict is_ssl settings name st → in_range (sys_history st) →
  let clients := mClients (shared (sys_server st)) in
  (∀ id e, clients !! id = Some e →
     ∃ r, sys_sessions st !! session e = Some r ∧ mOpen (rt_session r) = true
          ∧ mClientId (rt_session r) = id)
  ∧ (∀ id1 id2 e1 e2, clients !! id1 = Some e1 → clients !! id2 = Some e2 →
       session e1 = session e2 → id1 = id2)
  ∧ (∀ i r, sys_sessions st !! i = Some r → mOpen (rt_session r) = true →
       (∃ e, clients !! mClientId (rt_session r) = Some e ∧ session e = i)
       ∨ closing r ∨ ∃ p, p ∈ pool (sys_server st) ∧ will_close i p).
Proof.
  intros Hrun Hin clients.
  destruct (sys_reachable_inv app strict is_ssl settings name st Hrun) as [_ Hinv].
  destruct (Hinv Hin) as [_ [L1 L2 _ _]]. split_and!; [done| |done].
  intros id1 id2 e1 e2 H1 H2 Heq.
  destruct (L1 id1 e1 H1) as (r1 & Hr1 & _ & <-). destruct (L1 id2 e2 H2) as (r2 & Hr2 & _ & <-).
  rewrite Heq in Hr1. congruence.
Qed.

(** C3. Once every client is gone from the registry ([Stop], [Shutdown], removals) and the
    calls have returned, each session still open closes by itself: when its strand has
    run what is posted and its writes complete, its close frame has been sent. *)
Theorem emptied_server_closes_sessions app strict `{!Behaves strict app} is_ssl settings name st i r :
  sys_reachable app strict is_ssl settings name st → in_range (sys_history st) →
  mClients (shared (sys_server st)) = ∅ → settled (sys_server st) →
  sys_sessions st !! i = Some r → mOpen (rt_session r) = true →
  ∃ n r', ws_exec_all (is_ssl i) i true
            (replicate (length (rt_tasks r)) WTask ++ replicate n (WWritten None)) r = Some r'
          ∧ mCloseSent (rt_session r') = true ∧ mWriteQueue (rt_session r') = [].
Proof.
  intros Hrun Hin Hnone Hset Hi Ho.
  destruct (sys_reachable_inv app strict is_ssl settings name st Hrun) as [Hb Hinv].
  destruct (Hinv Hin) as [_ [_ L2 _ _]].
  destruct (bi_sessions _ _ Hb i r Hi) as [[Hok Hph] _].
  apply (closing_sends (is_ssl i) i (session_settings settings)).
  - destruct Hph as [(? & _)|[?|(? & _)]]; [congruence|by split|congruence].
  - destruct (L2 i r Hi Ho) as [(e & He & _)|[?|(p & Hp & Hw)]]; [|done|].
    + by rewrite Hnone, lookup_empty in He.
    + unfold settled in Hset. rewrite Forall_forall in Hset.
      by destruct (Hset p Hp) as [r0 ->].
Qed.

(** C1. From the connection to the callback, for an application that keeps its server running
    and wants to know (it never calls Shutdown or destroys the server, which would throw
    queued closures away, and installs a closed callback with every Start: [Behaves True]):
    when all calls have returned and the workqueue is empty, a connection that was
    registered and has failed or ended has had its closed callback called exactly once,
    and one that is up and not closing, not at all. *)
Theorem ended_connection_reported_once app `{!Behaves True app} is_ssl settings name st i r target b id :
  sys_reachable app True is_ssl settings name st → in_range (sys_history st) →
  settled (sys_server st) → mQueue (mWorkQueue (shared (sys_server st))) = [] →
  sys_sessions st !! i = Some r → EvRegister target b id ∈ rt_events r → id ≠ 0%Z →
  (rt_failed r = true → closed_calls id (trace (sys_server st)) = 1)
  ∧ (rt_failed r = false → ¬ closing r → closed_calls id (trace (sys_server st)) = 0).
Proof.
  intros Hrun Hin Hset Hq Hi Hev Hnz.
  destruct (sys_reachable_inv app True is_ssl settings name st Hrun) as [Hb Hinv].
  destruct (Hinv Hin) as [(ds & Hds & Hok) [L1 L2 L3 L4]].
  destruct (bi_sessions _ _ Hb i r Hi) as [[_ Hph] _].
  destruct (registered_phase settings r target b id Hph Hev) as [Hid Hfail].
  rewrite <-Hid in Hnz.
  assert (Hcount : closed_calls id (trace (sys_server st))
    = if bool_decide (is_Some (mClients (shared (sys_server st)) !! id)) then 0 else 1).
  { apply (closed_calls_settled (mkConfig (shared (sys_server st))
             (ds ++ pool (sys_server st)) (trace (sys_server st))) (sys_history st));
      [done|by apply Forall_app|done|]. rewrite <-Hid. by eapply L3. }
  rewrite Hcount. split; intros Hf; rewrite Hf in Hfail.
  - rewrite bool_decide_false; [done|]. intros [e He]. destruct (L1 id e He) as (r' & Hr' & Ho' & Hid').
    assert (Heq : i = session e) by (eapply (L4 i _ r r'); [done|done|done|congruence]).
    rewrite Heq in Hi. cbn in Hfail. congruence.
  - intros Hncl. rewrite bool_decide_true; [done|].
    destruct (L2 i r Hi Hfail) as [(e & He & _)|[?|(p & Hp & Hw)]]; [by rewrite <-Hid; eexists|done|].
    unfold settled in Hset. rewrite Forall_forall in Hset. by destruct (Hset p Hp) as [r0 ->].
Qed.

(** A message sent to a connected client is posted to the strand of that client's
    session, behind what was posted before, and to no other session. *)
Theorem send_reaches_session app strict `{!Behaves strict app} is_ssl settings name st id e payload :
  sys_reachable app strict is_ssl settings name st → in_range (sys_history st) →
  mClients (shared (sys_server st)) !! id = Some e →
  ∃ r ops, sys_sessions st !! session e = Some r ∧ mClientId (rt_session r) = id
    ∧ run (SendToClient id payload) (shared (sys_server st)) = (Ok tt, shared (sys_server st), ops)
    ∧ deliver ops (sys_sessions st)
      = <[session e := apply_op (OpPost (TaskSend payload)) r]> (sys_sessions st)
    ∧ rt_tasks (apply_op (OpPost (TaskSend payload)) r) = rt_tasks r ++ [TaskSend payload].
Proof.
  intros Hrun Hin He.
  destruct (sys_reachable_inv app strict is_ssl settings name st Hrun) as [_ Hinv].
  destruct (Hinv Hin) as [_ [L1 _ _ _]]. destruct (L1 id e He) as (r & Hr & _ & Hid).
  exists r. eexists. rewrite SendToClient_branches, He. split_and!; [done|done|done| |by destruct r].
  apply list_eq. intros j. cbn. rewrite list_lookup_alter. case_decide as Hd.
  - subst j. rewrite Hr, list_lookup_insert_eq; [done|by eapply lookup_lt_Some].
  - by rewrite list_lookup_insert_ne.
Qed.

(** ** A concrete run *)

(** A client connects, sends a message and goes away; a second one stays; the worker
    delivers what was posted. *)
Definition demo_world : list sys_label :=
  [SysServer (SCall (Start demo_listen "0.0.0.0" 8080 demo_cbs));
   SysServer (SStep 0); SysServer (SStep 0); SysServer (SStep 0);
   SysConnect "/chat"; SysConnect "/chat/2";
   SysSession 0 (WAccepted None); SysSession 1 (WAccepted None);
   SysSession 0 (WRead (inr (GotText [])));
   SysSession 0 (WRead (inl (demo_ec EcEof)));
   SysServer (SCall (worker_round demo_app)); SysServer (SStep 1); SysServer (SStep 1);
   SysServer (SCall (worker_round demo_app)); SysServer (SStep 2); SysServer (SStep 2);
   SysServer (SCall (worker_round demo_app)); SysServer (SStep 3); SysServer (SStep 3);
   SysServer (SCall (Server.Stop demo_app));
   SysServer (SStep 4); SysServer (SStep 4); SysServer (SStep 4);
   SysServer (SStep 4); SysServer (SStep 4)].

Definition no_ssl (i : nat) : bool := false.
Definition demo_system (n : nat) : system :=
  default (sys_init (default_server_settings 0) "demo")
    (sys_exec_all no_ssl (default_server_settings 0) (take n demo_world)
       (sys_init (default_server_settings 0) "demo")).

Lemma sys_exec_all_reachable app strict is_ssl settings name ls st st' :
  Forall (sys_ok app strict) ls → sys_reachable app strict is_ssl settings name st →
  sys_exec_all is_ssl settings ls st = Some st' →
  sys_reachable app strict is_ssl settings name st'.
Proof.
  revert st. induction ls as [|l ls IH]; intros st Hls Hr He; cbn in He; [by simplify_eq|].
  apply Forall_cons in Hls as [Hl Hls].
  destruct (sys_exec is_ssl settings l st) as [st1|] eqn:H1; [|done]. cbn in He.
  eapply IH; [done| |done]. eapply star_trans; [exact Hr|]. apply star_one. by exists l.
Qed.

Lemma demo_system_reachable strict n :
  sys_reachable demo_app strict no_ssl (default_server_settings 0) "demo" (demo_system n).
Proof.
  unfold demo_system.
  destruct (sys_exec_all _ _ _ _) as [st|] eqn:He; [|constructor].
  eapply sys_exec_all_reachable; [|constructor|exact He].
  apply Forall_take. repeat constructor. intros _. by eexists.
Qed.

(** The session [i] after [n] steps. *)
Definition demo_at (n i : nat) : ws_rt world :=
  default (ws_start (default_server_settings 0) None "") (sys_sessions (demo_system n) !! i).

Lemma system_connections_witness :
  mClients (shared (sys_server (demo_system 10))) !! 2%Z = Some (mkEntry 1 "" false)
  ∧ ∃ r, sys_sessions (demo_system 10) !! 1 = Some r ∧ mOpen (rt_session r) = true
         ∧ mClientId (rt_session r) = 2%Z.
Proof.
  split; [by vm_compute|].
  destruct (system_connections demo_app True no_ssl (default_server_settings 0) "demo"
              (demo_system 10)) as (Hreg & _ & _).
  - apply demo_system_reachable.
  - by vm_compute.
  - by apply (Hreg 2%Z (mkEntry 1 "" false)).
Defined.

Lemma emptied_server_closes_sessions_witness :
  mOpen (rt_session (demo_at 25 1)) = true
  ∧ ∃ n r', ws_exec_all false 1 true
              (replicate (length (rt_tasks (demo_at 25 1))) WTask ++ replicate n (WWritten None))
              (demo_at 25 1) = Some r'
            ∧ mCloseSent (rt_session r') = true ∧ mWriteQueue (rt_session r') = [].
Proof.
  split; [by vm_compute|].
  apply (emptied_server_closes_sessions demo_app True no_ssl (default_server_settings 0) "demo"
           (demo_system 25) 1 (demo_at 25 1)).
  - apply demo_system_reachable.
  - by vm_compute.
  - by vm_compute.
  - unfold settled. vm_compute. repeat constructor; by eexists.
  - by vm_compute.
  - by vm_compute.
Defined.

Lemma ended_connection_reported_once_witness :
  rt_failed (demo_at 25 0) = true ∧ closed_calls 1 (trace (sys_server (demo_system 25))) = 1.
Proof.
  split; [by vm_compute|].
  apply (ended_connection_reported_once demo_app no_ssl (default_server_settings 0) "demo"
           (demo_system 25) 0 (demo_at 25 0) "/chat" false 1).
  - apply demo_system_reachable.
  - by vm_compute.
  - unfold settled. vm_compute. repeat constructor; by eexists.
  - by vm_compute.
  - by vm_compute.
  - apply list_elem_of_In. vm_compute. by left.
  - done.
  - by vm_compute.
Defined.

Lemma send_reaches_session_witness :
  mClients (shared (sys_server (demo_system 10))) !! 2%Z = Some (mkEntry 1 "" false)
  ∧ ∃ r ops, sys_sessions (demo_system 10) !! 1 = Some r ∧ mClientId (rt_session r) = 2%Z
      ∧ run (SendToClient 2 demo_text) (shared (sys_server (demo_system 10)))
        = (Ok tt, shared (sys_server (demo_system 10)), ops)
      ∧ deliver ops (sys_sessions (demo_system 10))
        = <[1 := apply_op (OpPost (TaskSend demo_text)) r]> (sys_sessions (demo_system 10))
      ∧ rt_tasks (apply_op (OpPost (TaskSend demo_text)) r) = rt_tasks r ++ [TaskSend demo_text].
Proof.
  split; [by vm_compute|].
  apply (send_reaches_session demo_app True no_ssl (default_server_settings 0) "demo"
           (demo_system 10) 2 (mkEntry 1 "" false) demo_text).
  - apply demo_system_reachable.
  - by vm_compute.
  - by vm_compute.
Defined.
