(* ===== verification/Delivery.v ===== *)
(** * What the application's callbacks are told

    The system of System.v, with the worker of the workqueue as one thread: a round of the
    worker starts when no thread has callbacks of an earlier round left to call (this is
    what WorkQueue.v proves of [CWorkQueue]: one function at a time).  Everything else
    interleaves as before.

    The calls the worker makes about clients are followed from the session that read a
    message, through the closure it posted and the queue, to the callback: in the order
    they were read, none twice, none lost while the queue runs; so are the calls of http
    handlers.  Callbacks may call the server themselves.  The two callbacks
    that are also called outside the worker ([RemoveClient] and [Stop] report a closed
    client in the calling thread) are left out here; Registry.v counts them. *)

From stdpp Require Import gmultiset.
From S2P Require Import Prelude CppString Uri Net Events WorkQueue WsSession Threads.
From S2P Require Import Server ServerOps Registry System.
Open Scope prog_scope.

(** ** Calls, closures and events about clients *)

(** The callbacks that only the worker calls. *)
Definition worker_call (i : invocation) : bool :=
  match i with
  | CallAdded _ _ _ _ | CallMessage _ _ _ | CallContent _ _ _ | CallHttp _ _ => true
  | CallConnectionChange _ _ | CallClosed _ _ => false
  end.

Definition is_worker_op (o : srv_op) : bool :=
  match o with Invoked i => worker_call i | _ => false end.

(** The callbacks called so far, and the closures posted. *)
Definition called (tr : list srv_op) : list invocation :=
  omap (λ o, match o with Invoked i => if worker_call i then Some i else None | _ => None end) tr.

Definition posted (tr : list srv_op) : list task :=
  omap (λ o, match o with Posted t => Some t | _ => None end) tr.

Lemma called_app tr tr' : called (tr ++ tr') = called tr ++ called tr'.
Proof. apply omap_app. Qed.

Lemma posted_app tr tr' : posted (tr ++ tr') = posted tr ++ posted tr'.
Proof. apply omap_app. Qed.

Lemma called_posts ts : called (Posted <$> ts) = [].
Proof. by induction ts. Qed.

Lemma posted_posts ts : posted (Posted <$> ts) = ts.
Proof. induction ts as [|t ts IH]; [done|]. cbn. by rewrite <-IH at 2. Qed.

(** What a session, a closure or a call says about a client. *)
Inductive report :=
  | ReportAdded
  | ReportMessage (m : string)
  | ReportContent (c : list byte)
  | ReportClosed.

Definition event_report (e : ws_event) : option (Z * report) :=
  match e with
  | EvRegister _ _ i => Some (i, ReportAdded)
  | EvMessage i m => Some (i, ReportMessage m)
  | EvContent i c => Some (i, ReportContent c)
  | EvClosed i => Some (i, ReportClosed)
  | EvLog _ => None
  end.

Definition task_report (t : task) : option (Z * report) :=
  match t with
  | TaskAdded _ i _ _ => Some (i, ReportAdded)
  | TaskMessage _ _ i m => Some (i, ReportMessage m)
  | TaskContent _ _ i c => Some (i, ReportContent c)
  | TaskClosed _ i => Some (i, ReportClosed)
  | TaskConnectionChange _ _ | TaskHttp _ _ => None
  end.

(** The reports about one client. *)
Definition about {A} (rep : A → option (Z * report)) (id : Z) (l : list A) : list report :=
  omap (λ a, x ← rep a; if bool_decide (x.1 = id) then Some x.2 else None) l.

Lemma about_app {A} (rep : A → option (Z * report)) id l l' :
  about rep id (l ++ l') = about rep id l ++ about rep id l'.
Proof. apply omap_app. Qed.

Lemma about_cons {A} (rep : A → option (Z * report)) id a l :
  about rep id (a :: l) = about rep id [a] ++ about rep id l.
Proof. apply (about_app rep id [a]). Qed.

#[local] Arguments about : simpl never.

Lemma about_none {A} (rep : A → option (Z * report)) id l :
  Forall (λ a, ∀ x, rep a = Some x → x.1 ≠ id) l → about rep id l = [].
Proof.
  induction 1 as [|a l Ha _ IH]; [done|]. unfold about in *. cbn.
  destruct (rep a) as [x|] eqn:Hx; cbn; [|done]. by rewrite bool_decide_false by (by apply Ha).
Qed.

(** ** What a step of a session calls *)

Section Called.
#[local] Arguments Nat.ltb : simpl never.
#[local] Arguments Nat.eqb : simpl never.
Context {Srv : Type} `{ServerEventsLaws Srv} (IS_SSL : bool) (self : nat).

(** The calls took the server from one state to another. *)
Inductive ws_called : list ws_event → Srv → Srv → Prop :=
  | called_nil v : ws_called [] v v
  | called_register t i ev v v' v'' :
      Events.RegisterWsClient self t IS_SSL v = (Ok i, v') → ws_called ev v' v'' →
      ws_called (EvRegister t IS_SSL i :: ev) v v''
  | called_closed i ev v v' v'' :
      Events.OnWsClosed i v = (Ok tt, v') → ws_called ev v' v'' →
      ws_called (EvClosed i :: ev) v v''
  | called_message i m ev v v' v'' :
      Events.OnWsMessage i m v = (Ok tt, v') → ws_called ev v' v'' →
      ws_called (EvMessage i m :: ev) v v''
  | called_content i c ev v v' v'' :
      Events.OnWsContent i c v = (Ok tt, v') → ws_called ev v' v'' →
      ws_called (EvContent i c :: ev) v v''
  | called_log m ev v v' v'' :
      Events.LogError m v = (Ok tt, v') → ws_called ev v' v'' →
      ws_called (EvLog m :: ev) v v''.

(** The reports of [ev] are about the client of session [s]. *)
Definition own_reports (s : WsSession) (ev : list ws_event) : Prop :=
  Forall (λ e, ∀ x, event_report e = Some x → x.1 = mClientId s) ev.

Ltac news_done :=
  first [exists []; rewrite app_nil_r; eexists; split_and!; [reflexivity|reflexivity|constructor|constructor]
        |eexists [_], _; split_and!; [reflexivity|reflexivity|repeat (econstructor; try eassumption)
          |repeat constructor; intros ? [= <-]; reflexivity]
        |eexists [_; _], _; split_and!; [reflexivity|by rewrite <-app_assoc
          |repeat (econstructor; try eassumption)
          |repeat constructor; intros ? [= <-]; reflexivity]].

Lemma ws_exec_called l (r r' : ws_rt Srv) v :
  rt_srv r = Some v → own_label l = true → ws_exec IS_SSL self true l r = Some r' →
  ∃ new v', rt_srv r' = Some v' ∧ rt_events r' = rt_events r ++ new ∧ ws_called new v v'
            ∧ own_reports (rt_session r') new.
Proof.
  destruct r as [[st q tg id op cr cs dl] v0 tk a rd tx w c fl ft ev wi ac].
  cbn. intros -> Hl. unfold own_reports.
  destruct l as [x| |ec|x|ec| |srv|]; try done; cbn [ws_exec].
  - destruct tk as [|[p|] tk]; intros; simplify_eq; ws_run; ws_cases; news_done.
  - destruct a; intros; simplify_eq; ws_run; ws_cases; news_done.
  - destruct rd as [|rd]; [done|]. case_match; intros; simplify_eq.
    unfold OnRead, HandleClosed. destruct op, x as [e|[b|b]]; ws_run; ws_cases; news_done.
  - destruct w as [|f w]; [done|]. case_match; intros; simplify_eq.
    unfold OnWrite, HandleClosed. destruct op, ec; ws_run; ws_cases; news_done.
  - destruct c; intros; simplify_eq. news_done.
Qed.
End Called.

(** The calls of one closure: it stops at the first callback that throws. *)
Fixpoint until_throw (app : application) (calls : list invocation) : list invocation :=
  match calls with
  | [] => []
  | i :: calls' => i :: match app i with Returns => until_throw app calls' | _ => [] end
  end.

Section Delivery.
Context (app : application) (strict : Prop) {Happ : Behaves strict app}.
Context (is_ssl : nat → bool) (settings : CServerSettings).

(** The calls that posted closures stand for. *)
Definition owed (ts : list task) : list invocation :=
  List.filter worker_call (ts ≫= λ t, until_throw app (task_calls t)).

#[local] Arguments owed : simpl never.

Lemma owed_app ts ts' : owed (ts ++ ts') = owed ts ++ owed ts'.
Proof. unfold owed. by rewrite bind_app, List.filter_app. Qed.

Lemma owed_cons t ts : owed (t :: ts) = owed [t] ++ owed ts.
Proof. apply (owed_app [t]). Qed.

Lemma owed_one t : owed [t] = List.filter worker_call (until_throw app (task_calls t)).
Proof. unfold owed. cbn. by rewrite app_nil_r. Qed.

(** ** Threads *)

Abbreviation thread := (prog CImpl srv_op unit).

(** A section that leaves alone the calls the queue stands for, or empties it for good. *)
Definition spares (q q' : CWorkQueue task) : Prop :=
  (mStopped q' = mStopped q ∧ owed (mQueue q') = owed (mQueue q))
  ∨ (mStopped q' = true ∧ owed (mQueue q') = []).

(** The rest of a thread makes exactly the client calls [cs], whatever states its sections
    find; it posts nothing about clients. *)
Fixpoint serves {A} (cs : list invocation) (p : SRV A) : Prop :=
  match p with
  | Done _ => cs = []
  | Atomic upd next =>
      ∀ s, spares (mWorkQueue s) (mWorkQueue (upd s)) ∧ serves cs (next s)
  | Emit e p =>
      match e with
      | Invoked i =>
          if worker_call i then ∃ cs', cs = i :: cs' ∧ serves cs' p else serves cs p
      | Posted t => task_report t = None ∧ owed [t] = [] ∧ serves cs p
      | _ => serves cs p
      end
  end.

Lemma spares_refl q : spares q q.
Proof. by left. Qed.

Lemma serves_bind {A B} (p : SRV A) (k : A → SRV B) :
  serves [] p → (∀ a, serves [] (k a)) → serves [] (pbind p k).
Proof.
  intros Hp Hk. induction p as [[a|f]|upd next IH|e p IH]; cbn in *; [by auto|done| |].
  - intros s. destruct (Hp s). by auto.
  - destruct e as [| |i|t| | | | |]; try by apply IH.
    + destruct (worker_call i); [by destruct Hp as (? & ? & _)|by apply IH].
    + destruct Hp as (? & ? & ?). split_and!; auto.
Qed.

(** What comes after a part that makes no call and cannot throw. *)
Lemma serves_then {A B} cs (p : SRV A) (k : A → SRV B) :
  no_throw p → serves [] p → (∀ a, serves cs (k a)) → serves cs (pbind p k).
Proof.
  intros Hn Hp Hk. induction p as [[a|f]|upd next IH|e p IH]; cbn in *; [by auto|done| |].
  - intros s. destruct (Hp s). by auto.
  - destruct e as [| |i|t| | | | |]; try by apply IH.
    + destruct (worker_call i); [by destruct Hp as (? & ? & _)|by apply IH].
    + destruct Hp as (? & ? & ?). split_and!; auto.
Qed.

Lemma serves_assoc {A B C} cs (p : SRV A) (k : A → SRV B) (l : B → SRV C) :
  serves cs (pbind p (λ a, pbind (k a) l)) → serves cs (pbind (pbind p k) l).
Proof.
  revert cs. induction p as [[a|f]|upd next IH|e p IH]; intros cs Hp; cbn in *; [done|done| |].
  - intros s. destruct (Hp s). by auto.
  - destruct e as [| |i|t| | | | |]; try by apply IH.
    + destruct (worker_call i); [|by apply IH]. destruct Hp as (cs' & -> & ?). exists cs'. by auto.
    + destruct Hp as (? & ? & ?). split_and!; auto.
Qed.

Lemma serves_catch {A} (p : SRV A) h :
  serves [] p → (∀ f, serves [] (h f)) → serves [] (pcatch p h).
Proof.
  intros Hp Hh. induction p as [[a|f]|upd next IH|e p IH]; cbn in *; [done|by auto| |].
  - intros s. destruct (Hp s). by auto.
  - destruct e as [| |i|t| | | | |]; try by apply IH.
    + destruct (worker_call i); [by destruct Hp as (? & ? & _)|by apply IH].
    + destruct Hp as (? & ? & ?). split_and!; auto.
Qed.

Lemma serves_locked {A} (f : CImpl → A * CImpl) :
  (∀ s, mWorkQueue (f s).2 = mWorkQueue s) → serves [] (locked f).
Proof. intros Hf s. rewrite Hf. split; [apply spares_refl|done]. Qed.

Lemma serves_gets {A} (f : CImpl → A) : serves [] (pgets f).
Proof. by apply serves_locked. Qed.

Lemma serves_for {A} (l : list A) (f : A → SRV unit) :
  (∀ x, serves [] (f x)) → serves [] (pfor l f).
Proof. intros Hf. induction l as [|x l IH]; [done|]. by apply serves_bind. Qed.

Lemma serves_option {A} (o : option A) (k : A → SRV unit) :
  (∀ a, serves [] (k a)) → serves [] (match o with Some a => k a | None => pret tt end).
Proof. intros Hk. by destruct o. Qed.

Lemma serves_LogError m : serves [] (LogError m).
Proof. by apply serves_bind; [apply serves_gets|]. Qed.

Section Callbacks.
Context (a : application) (Hbody : ∀ i, serves [] (cb_body a i)).

(** A run of callbacks makes its calls and ends at the first that throws. *)
Lemma serves_Invoke calls :
  serves (List.filter worker_call (until_throw a calls)) (Invoke a calls).
Proof using Hbody.
  induction calls as [|i calls IH]; [done|].
  assert (Hrest : serves (List.filter worker_call
      (match a i with Returns => until_throw a calls | _ => [] end))
      (pbind (pbind (pcatch (cb_body a i) (λ _, pret tt)) (λ _,
         match a i with
         | Returns => pret true
         | ThrowsStd what => pbind (LogError ("Unhandled exception in callback: " +:+ what)) (λ _, pret false)
         | ThrowsOther => pbind (LogError "Unhandled exception in callback") (λ _, pret false)
         end)) (λ ok, pwhen ok (Invoke a calls)))).
  { apply serves_assoc, serves_then; [by apply no_throw_catch|by apply serves_catch|].
    intros _. destruct (a i); cbn; [exact IH|..]; split; try done; apply spares_refl. }
  cbn. destruct (worker_call i); [by eexists|done].
Qed.

Lemma serves_Invoke_one i : worker_call i = false → serves [] (Invoke a [i]).
Proof using Hbody.
  intros Hi. pose proof (serves_Invoke [i]) as Hs.
  replace (List.filter worker_call (until_throw a [i])) with (@nil invocation) in Hs; [done|].
  cbn. rewrite Hi. by destruct (a i).
Qed.

Lemma serves_NotifyClosedSync id uri : serves [] (NotifyClosedSync a id uri).
Proof.
  apply serves_bind; [apply serves_gets|]. intros [[c cc] n].
  apply serves_bind; [|intros _]; apply serves_option; intros cb;
    by apply serves_Invoke_one.
Qed.

Lemma serves_Stop : serves [] (Server.Stop a).
Proof.
  apply serves_bind; [by apply serves_locked|]. intros [acc entries].
  apply serves_bind; [by apply serves_option|]. intros _.
  apply serves_bind; [by apply serves_for|]. intros _.
  apply serves_for. intros. apply serves_NotifyClosedSync.
Qed.

Lemma serves_Shutdown : serves [] (Shutdown a).
Proof.
  apply serves_bind; [by apply serves_locked|]. intros []; cbn [negb]; [|done].
  apply serves_bind; [apply serves_Stop|]. intros _ s. split; [|done].
  cbn. unfold WorkQueue.Stop_locked. destruct (mStopped (mWorkQueue s)) eqn:Hs; [by left|].
  by right.
Qed.

Lemma serves_RemoveClient id : serves [] (RemoveClient a id).
Proof.
  apply serves_bind.
  - apply serves_locked. intros s. unfold RemoveClient_locked.
    destruct (mClients s !! id) as [e|]; [|done].
    destruct (decrement_core (entry_uri e) (set_mClients (delete id (mClients s)) s))
      as (_ & _ & _ & _ & _ & Hq & _). exact Hq.
  - intros [e|]; [|done]. apply serves_NotifyClosedSync.
Qed.

Lemma serves_Start listen address port cbs : serves [] (Start listen address port cbs).
Proof.
  apply serves_bind; [apply serves_gets|]. intros []; [done|].
  apply serves_bind; [by destruct (listen address port)|]. intros [acc lp].
  apply serves_bind; [|done]. intros s. split; [|unfold Start_locked; by destruct (mAcceptor s)].
  cbn. unfold Start_locked. destruct (mAcceptor s); apply spares_refl.
Qed.

Lemma serves_StartThreads : serves [] StartThreads.
Proof. intros s. split; [by left|done]. Qed.

Lemma serves_call {A} (p : SRV A) : serves [] p → serves [] (call p).
Proof. intros Hp. by apply serves_bind. Qed.

End Callbacks.

Lemma api_call_serves {A} (p : SRV A) : api_call strict p → serves [] p.
Proof.
  induction 1; auto using serves_Start, serves_Stop, serves_Shutdown, serves_RemoveClient,
    serves_gets, serves_bind, serves_catch; try done; try by apply serves_locked.
  - apply serves_bind; [apply serves_gets|]. intros [sess|]; [done|apply serves_LogError].
  - apply serves_bind; [apply serves_gets|]. intros l. by apply serves_for.
Qed.

Lemma serves_body i : serves [] (cb_body app i).
Proof. apply api_call_serves, behaves. Qed.

(** Only the worker calls these callbacks. *)
Lemma app_call_serves p : app_call app strict p → p = worker_round app ∨ serves [] p.
Proof.
  intros Hp. destruct Hp; [right..|by left|right|right];
    auto using serves_StartThreads, serves_LogError, api_call_serves.
  unfold accepted. destruct (negb alive || negb opn); [done|]. destruct r as [ec|sock].
  - destruct (ec_is EcAborted ec); [done|]. by apply serves_bind; [apply serves_LogError|].
  - apply serves_bind; [|done]. by apply serves_bind; [apply serves_gets|].
Qed.

(** A thread that never calls such a callback makes no such call. *)
Lemma serves_never {A} cs (p : SRV A) : never is_worker_op p → serves cs p → cs = [].
Proof.
  induction p as [r|upd next IH|e p IH]; cbn; [done| |].
  - intros Hn Hs. set (s := CImpl_new "" (default_server_settings 0)).
    by apply (IH s); [apply Hn|apply Hs].
  - intros [He Hn]. destruct e as [| |i|t| | | | |]; cbn in He; try by apply IH.
    + rewrite He. by apply IH.
    + intros (_ & _ & ?). by apply IH.
Qed.

Lemma worker_round_calls : ¬ never is_worker_op (worker_round app).
Proof.
  intros Hn. cbn in Hn.
  specialize (Hn (set_mWorkQueue (mkWorkQueue [TaskAdded 0 1 "" false] false NoThread)
                    (CImpl_new "" (default_server_settings 0)))).
  cbn in Hn. by destruct Hn.
Qed.

(** At most one thread, the [j]th, has client calls left: a round of the worker, which
    has [cs] to call. *)
Record worker_at (j : nat) (cs : list invocation) (ps : list thread) : Prop := {
  wa_others i (p : thread) : ps !! i = Some p → i ≠ j → serves [] p;
  wa_worker (p : thread) : ps !! j = Some p → serves cs p ∨ (cs = [] ∧ p = worker_round app);
  wa_none : ps !! j = None → cs = []
}.

Definition duty (cs : list invocation) (ps : list thread) : Prop := ∃ j, worker_at j cs ps.

(** When no thread has calls left, nothing is left of the round, and another may start. *)
Lemma duty_idle cs (ps : list thread) :
  Forall (never is_worker_op) ps → duty cs ps →
  cs = [] ∧ ∀ i (p : thread), ps !! i = Some p → serves [] p.
Proof.
  rewrite Forall_lookup. intros Hnever (j & [Ho Hw Hn]).
  assert (Hcalm : ∀ i (p : thread), ps !! i = Some p → serves [] p ∧ (i = j → cs = [])).
  { intros i p Hi. pose proof (Hnever i p Hi) as Hp.
    destruct (decide (i = j)) as [->|Hne]; [|split; [by eapply Ho|done]].
    destruct (Hw p Hi) as [Hs|[_ ->]]; [|by destruct worker_round_calls].
    pose proof (serves_never cs p Hp Hs) as ->. done. }
  split; [|intros; by eapply Hcalm].
  destruct (ps !! j) as [p|] eqn:Hp; [by apply (Hcalm j p)|by apply Hn].
Qed.

Lemma duty_round cs (ps : list thread) :
  Forall (never is_worker_op) ps → duty cs ps → duty cs (ps ++ [worker_round app : thread]).
Proof.
  intros Hnever Hd. destruct (duty_idle cs ps Hnever Hd) as [-> Hcalm].
  exists (length ps). split; [| |done].
  - intros i p [Hi|[Hlen Hi]]%lookup_app_Some Hne; [by eapply Hcalm|].
    apply list_lookup_singleton_Some in Hi as [? _]. lia.
  - intros p Hp. rewrite list_lookup_middle in Hp by done. right. by simplify_eq.
Qed.

Lemma duty_call cs (ps : list thread) (p : thread) : serves [] p → duty cs ps → duty cs (ps ++ [p]).
Proof.
  intros Hp (j & [Ho Hw Hn]). exists j.
  assert (Hlk : ∀ i q, (ps ++ [p]) !! i = Some q → ps !! i = Some q ∨ (ps !! i = None ∧ q = p)).
  { intros i q [?|[Hlen Hq]]%lookup_app_Some; [by left|right].
    apply list_lookup_singleton_Some in Hq as [_ <-]. split; [|done].
    by apply lookup_ge_None_2. }
  split.
  - intros i q [Hi|[_ ->]]%Hlk Hne; [by eapply Ho|done].
  - intros q [Hi|[Hi ->]]%Hlk; [by apply Hw|]. left. by rewrite (Hn Hi).
  - intros Hi. apply Hn, lookup_ge_None_2. apply lookup_ge_None_1 in Hi.
    rewrite length_app in Hi. lia.
Qed.

(** Another thread than the worker goes on, or the worker itself. *)
Lemma duty_other cs (ps : list thread) j i (p p' : thread) :
  worker_at j cs ps → ps !! i = Some p → i ≠ j → serves [] p' → duty cs (<[i := p']> ps).
Proof.
  intros [Ho Hw Hn] Hi Hne Hp'. exists j. split.
  - intros k pk [[-> ->]|[_ Hk]]%list_insert_cases Hkj; [done|by eapply Ho].
  - rewrite list_lookup_insert_ne by done. apply Hw.
  - rewrite list_lookup_insert_ne by done. apply Hn.
Qed.

Lemma duty_worker cs cs' (ps : list thread) j (p p' : thread) :
  worker_at j cs ps → ps !! j = Some p → serves cs' p' → duty cs' (<[j := p']> ps).
Proof.
  intros [Ho _ _] Hj Hp'. exists j. split.
  - intros k pk [[-> ->]|[_ Hk]]%list_insert_cases Hkj; [done|by eapply Ho].
  - rewrite list_lookup_insert_eq by (by eapply lookup_lt_Some). intros q [= <-]. by left.
  - by rewrite list_lookup_insert_eq by (by eapply lookup_lt_Some).
Qed.

(** ** The balance of calls and closures *)

(** Called, about to be called, and queued make up what was posted; something is missing
    only once the queue has been stopped. *)
Definition delivered (tr : list srv_op) (q : CWorkQueue task) (ps : list thread) : Prop :=
  ∃ cs rest, duty cs ps
    ∧ called tr ++ cs ++ owed (mQueue q) ++ rest = owed (posted tr)
    ∧ (mStopped q = false → rest = []).

Lemma spares_balance q q' l1 l2 rest all :
  spares q q' → l1 ++ l2 ++ owed (mQueue q) ++ rest = all → (mStopped q = false → rest = []) →
  ∃ rest', l1 ++ l2 ++ owed (mQueue q') ++ rest' = all ∧ (mStopped q' = false → rest' = []).
Proof.
  intros [[Hs Hq]|[Hs Hq]] Hsum Hrest.
  - exists rest. by rewrite Hs, Hq.
  - exists (owed (mQueue q) ++ rest). split; [|congruence]. by rewrite Hq.
Qed.

Lemma delivered_atomic tr s (ps : list thread) i upd (next : CImpl → thread) :
  ps !! i = Some (Atomic upd next) → delivered tr (mWorkQueue s) ps →
  delivered tr (mWorkQueue (upd s)) (<[i := next s]> ps).
Proof.
  intros Hi (cs & rest & (j & Hj) & Hsum & Hrest).
  assert (Hcalm : ∀ cs', serves cs' (Atomic upd next) → duty cs (<[i := next s]> ps) →
                  delivered tr (mWorkQueue (upd s)) (<[i := next s]> ps)).
  { intros cs' Hs Hd. destruct (spares_balance _ _ _ _ _ _ (proj1 (Hs s)) Hsum Hrest)
      as (rest' & ? & ?). by exists cs, rest'. }
  destruct (decide (i = j)) as [->|Hne].
  2: { pose proof (wa_others _ _ _ Hj i _ Hi Hne) as Hs. eapply Hcalm; [exact Hs|].
       eapply duty_other; [done..|apply Hs]. }
  destruct (wa_worker _ _ _ Hj _ Hi) as [Hs|[-> Hp]].
  { eapply Hcalm; [exact Hs|]. eapply duty_worker; [done|done|apply Hs]. }
  injection Hp as -> ->. clear Hcalm. unfold Run_locked.
  destruct (mStopped (mWorkQueue s)) eqn:Hst; [|destruct (mQueue (mWorkQueue s)) as [|t ts] eqn:Hq].
  - exists [], rest. cbn. rewrite Hst. split; [by eapply duty_worker|done].
  - exists [], rest. cbn. rewrite Hst, Hq. split; [by eapply duty_worker|done].
  - exists (owed [t]), []. cbn [fst snd mWorkQueue set_mWorkQueue mQueue mStopped].
    rewrite (Hrest eq_refl), owed_cons, app_nil_l, <-app_assoc in Hsum. split_and!; [|done|done].
    eapply duty_worker; [done|done|]. cbn [pbind pret]. rewrite owed_one. apply serves_Invoke, serves_body.
Qed.

Lemma delivered_emit tr q (ps : list thread) i e (p : thread) :
  ps !! i = Some (Emit e p) → delivered tr q ps → delivered (tr ++ [e]) q (<[i := p]> ps).
Proof.
  intros Hi (cs & rest & (j & Hj) & Hsum & Hrest).
  assert (Hstep : ∀ cs0, serves cs0 (Emit e p) →
    ∃ cs1, cs0 = called [e] ++ cs1 ∧ serves cs1 p ∧ owed (posted [e]) = []).
  { intros cs0 Hs. destruct e as [| |v|t| | | | |]; try (by exists cs0).
    - cbn in Hs |- *. destruct (worker_call v); [|by exists cs0].
      destruct Hs as (cs' & -> & ?). by exists cs'.
    - destruct Hs as (_ & ? & ?). by exists cs0. }
  assert (∃ cs1, cs = called [e] ++ cs1 ∧ duty cs1 (<[i := p]> ps)
                          ∧ owed (posted [e]) = []) as (cs1 & -> & Hd & Ho).
  { destruct (decide (i = j)) as [->|Hne].
    - destruct (wa_worker _ _ _ Hj _ Hi) as [Hs|[_ Hp]]; [|done].
      destruct (Hstep cs Hs) as (cs1 & -> & ? & ?). exists cs1. split_and!; [done| |done].
      by eapply duty_worker.
    - destruct (Hstep [] (wa_others _ _ _ Hj i _ Hi Hne)) as (cs1 & Hnil & Hs & ?).
      symmetry in Hnil. apply app_nil in Hnil as [Hcall ->]. exists cs. rewrite Hcall.
      split_and!; [done| |done]. by eapply duty_other. }
  exists cs1, rest. split_and!; [done| |done].
  rewrite called_app, posted_app, owed_app, Ho, app_nil_r, <-Hsum. by rewrite <-!app_assoc.
Qed.

(** ** What the calls of a session post *)

(** The events [ev] took the server from [w] to [w']: they called no callback, the queue
    grew by what they posted unless it is stopped, and what they posted about a client is
    what they report about it, or less. *)
Record reported (ev : list ws_event) (w w' : world) : Prop := {
  rep_ops : ∃ ops, w_ops w' = w_ops w ++ ops ∧ called ops = []
    ∧ mStopped (mWorkQueue (w_impl w')) = mStopped (mWorkQueue (w_impl w))
    ∧ owed (mQueue (mWorkQueue (w_impl w')))
      = owed (mQueue (mWorkQueue (w_impl w)))
        ++ (if mStopped (mWorkQueue (w_impl w)) then [] else owed (posted ops))
    ∧ ∀ id, about task_report id (posted ops) `sublist_of` about event_report id ev
}.

Lemma reported_nil w : reported [] w w.
Proof. split. exists []. destruct (mStopped _); split_and!; by rewrite ?app_nil_r. Qed.

Lemma reported_app ev1 ev2 w1 w2 w3 :
  reported ev1 w1 w2 → reported ev2 w2 w3 → reported (ev1 ++ ev2) w1 w3.
Proof.
  intros [(o1 & H1 & C1 & S1 & Q1 & R1)] [(o2 & H2 & C2 & S2 & Q2 & R2)]. split.
  exists (o1 ++ o2). rewrite H2, H1, called_app, C1, C2, posted_app, owed_app, Q2, Q1, S2, S1.
  split_and!; [by rewrite <-app_assoc|done|done| |].
  - destruct (mStopped (mWorkQueue (w_impl w1))); rewrite ?app_nil_r; [done|]. by rewrite app_assoc.
  - intros id. rewrite !about_app. by apply sublist_app.
Qed.

Lemma posts_stopped ts s : mStopped (mWorkQueue (posts ts s)) = mStopped (mWorkQueue s).
Proof.
  revert s. induction ts as [|t ts IH]; intros s; [done|]. unfold posts in *. cbn. rewrite IH. cbn.
  unfold Post, Post_locked. by destruct (mStopped (mWorkQueue s)) eqn:Hs.
Qed.

(** A call that ends by posting [ts]. *)
Lemma reported_posts {A} (p : SRV A) ev w r r' w' s0 ts :
  on_world p w = (r, w') → run p (w_impl w) = (r', posts ts s0, Posted <$> ts) →
  mWorkQueue s0 = mWorkQueue (w_impl w) →
  (∀ id, about task_report id ts `sublist_of` about event_report id ev) → reported ev w w'.
Proof.
  unfold on_world. intros Hw Hrun Hq Hrep. rewrite Hrun in Hw. injection Hw as _ <-. split.
  exists (Posted <$> ts). cbn [w_ops w_impl].
  rewrite called_posts, posted_posts, posts_stopped, posts_queue, Hq.
  split_and!; try done. destruct (mStopped _); by rewrite ?app_nil_r, ?owed_app.
Qed.

(** One closure about the client, if there is a callback, and closures about uris. *)
Lemma about_event id (o : option callback) (f : callback → task) x e cc :
  event_report e = Some x → (∀ cb, task_report (f cb) = Some x) →
  Forall (λ t, task_report t = None) cc →
  about task_report id (option_list (f <$> o) ++ cc) `sublist_of` about event_report id [e].
Proof.
  intros He Hf Hcc. rewrite about_app, (about_none _ _ cc), app_nil_r.
  2: { eapply Forall_impl; [exact Hcc|]. intros t Ht y. congruence. }
  destruct o as [cb|]; [|apply sublist_nil_l]. unfold about. cbn. by rewrite He, Hf.
Qed.

Lemma change_tasks (b : bool) (o : option callback) n :
  Forall (λ t, task_report t = None)
    (if b then [] else option_list ((λ cb, TaskConnectionChange cb n) <$> o)).
Proof. destruct b, o; repeat constructor. Qed.

Lemma reported_register ssl i t id w w' :
  Events.RegisterWsClient i t ssl w = (Ok id, w') → reported [EvRegister t ssl id] w w'.
Proof.
  intros Hc. destruct (mShutdown (w_impl w) || negb (bool_decide (is_Some (mAcceptor (w_impl w)))))
    eqn:Hrej.
  - assert (Hs : mShutdown (w_impl w) = true ∨ mAcceptor (w_impl w) = None).
    { apply orb_true_iff in Hrej as [?|Hac%negb_true_iff%bool_decide_eq_false]; [by left|right].
      destruct (mAcceptor _); [|done]. exfalso. apply Hac. by eexists. }
    eapply (reported_posts _ _ _ _ _ _ (w_impl w) []);
      [exact Hc|by apply RegisterWsClient_rejects|done|intros; apply sublist_nil_l].
  - apply orb_false_iff in Hrej as [Hsd Hac%negb_false_iff%bool_decide_eq_true].
    destruct (run_RegisterWsClient i t ssl (w_impl w) Hsd Hac) as (rest & Hrun & _).
    assert (id = mNextConnectionId (w_impl w)) as ->.
    { revert Hc. change (Events.RegisterWsClient i t ssl w)
        with (on_world (Server.RegisterWsClient i t ssl) w).
      unfold on_world. rewrite Hrun. by intros [= <- _]. }
    eapply reported_posts; [exact Hc|exact Hrun|done|].
    intros id. apply (about_event id _ _ (mNextConnectionId (w_impl w), ReportAdded));
      [done|done|apply change_tasks].
Qed.

Lemma reported_closed id w w' :
  Events.OnWsClosed id w = (Ok tt, w') → reported [EvClosed id] w w'.
Proof.
  intros Hc. destruct (mClients (w_impl w) !! id) as [e|] eqn:He.
  - pose proof (OnWsClosed_effects id e (w_impl w) He) as Hrun. cbv zeta in Hrun.
    destruct (decrement_core (entry_uri e) (set_mClients (delete id (mClients (w_impl w))) (w_impl w)))
      as (_ & _ & _ & _ & _ & Hq & _).
    destruct (DecrementUriCountLocked _ _) as [n s1].
    eapply reported_posts; [exact Hc|exact Hrun|exact Hq|].
    intros j. apply (about_event j _ _ (id, ReportClosed)); [done|done|apply change_tasks].
  - eapply (reported_posts _ _ _ _ _ _ (w_impl w) []); [exact Hc| |done|intros; apply sublist_nil_l].
    unfold Server.OnWsClosed. cbn. unfold OnWsClosed_locked. by rewrite He.
Qed.

Lemma reported_received id (msg : bool) (f : option callback → option callback → task) x ev w w' :
  on_world ('(g, u) <- pgets (LookupReceiveCallbacks id msg) ;;
            match g, u with None, None => pret tt | _, _ => PostCallback (f g u) end) w
  = (Ok tt, w') →
  event_report ev = Some x → (∀ g u, task_report (f g u) = Some x) → reported [ev] w w'.
Proof.
  intros Hc Hev Hf.
  assert (∃ ts, run ('(g, u) <- pgets (LookupReceiveCallbacks id msg) ;;
             match g, u with None, None => pret tt | _, _ => PostCallback (f g u) end) (w_impl w)
           = (Ok tt, posts ts (w_impl w), Posted <$> ts)
           ∧ (ts = [] ∨ ∃ g u, ts = [f g u])) as (ts & Hrun & Hts).
  { cbn [pbind pgets locked pret run fst snd].
    destruct (LookupReceiveCallbacks id msg (w_impl w)) as [[g|] [u|]];
      [exists [f (Some g) (Some u)]|exists [f (Some g) None]|exists [f None (Some u)]|exists []];
      (split; [done|eauto]). }
  eapply reported_posts; [exact Hc|exact Hrun|done|]. intros j.
  destruct Hts as [->|(g & u & ->)]; [apply sublist_nil_l|].
  unfold about. cbn. by rewrite Hev, Hf.
Qed.

Lemma called_reported ssl i ev w w' : ws_called ssl i ev w w' → reported ev w w'.
Proof.
  induction 1 as [v|t id ev v v' v'' Hc _ IH|id ev v v' v'' Hc _ IH|id m ev v v' v'' Hc _ IH
    |id c ev v v' v'' Hc _ IH|m ev v v' v'' Hc _ IH]; [apply reported_nil|..];
    eapply (reported_app [_]); try exact IH.
  - by apply (reported_register ssl i t id).
  - by apply reported_closed.
  - by apply (reported_received id true (λ g u, TaskMessage g u id m) (id, ReportMessage m)).
  - by apply (reported_received id false (λ g u, TaskContent g u id c) (id, ReportContent c)).
  - cbn in Hc. unfold on_world in Hc. cbn in Hc. injection Hc as <-. split. cbn.
    eexists. split; [reflexivity|]. destruct (mStopped _); by rewrite ?app_nil_r.
Qed.

(** The call of an http connection. *)
Lemma conn_reported p r w w' : conn_call p → on_world p w = (r, w') → reported [] w w'.
Proof.
  intros Hp Hw.
  assert (Hquiet : ∀ s0 ops, on_world p w = (r, mkWorld s0 (w_history w') (w_ops w ++ ops)) →
    called ops = [] → posted ops = [] → mWorkQueue s0 = mWorkQueue (w_impl w) → reported [] w w').
  { intros s0 ops Hw0 Hc Hpo Hq. rewrite Hw in Hw0. injection Hw0 as ->. split. exists ops. cbn.
    rewrite Hc, Hpo, Hq. by destruct (mStopped _); rewrite ?app_nil_r. }
  revert Hquiet. rewrite Hw. intros Hquiet. destruct Hp as [path|path| |cb wr|m].
  - eapply (Hquiet _ []); [revert Hw; unfold on_world; cbn; by intros [= <- <-]|done..].
  - eapply (Hquiet _ []); [revert Hw; unfold on_world; cbn; by intros [= <- <-]|done..|].
    cbn. unfold FindHttpHandler_locked. by destruct (is_empty _).
  - eapply (Hquiet _ []); [revert Hw; unfold on_world; cbn; by intros [= <- <-]|done..].
  - eapply (reported_posts _ [] _ _ _ _ (w_impl w) [TaskHttp cb wr]); [exact Hw|done..].
  - eapply (Hquiet _ [_]); [revert Hw; unfold on_world; cbn; by intros [= <- <-]|done..].
Qed.

(** ** The system with one worker *)

(** A round of the worker starts when no thread has callbacks left to call. *)
Definition one_round (l : sys_label) (st : system) : Prop :=
  match l with
  | SysServer (SCall p) => p = worker_round app → Forall (never is_worker_op) (pool (sys_server st))
  | _ => True
  end.

Definition served_step (st st' : system) : Prop :=
  ∃ l, sys_ok app strict l ∧ one_round l st ∧ sys_exec is_ssl settings l st = Some st'.

Definition served_reachable (name : string) (st : system) : Prop :=
  star served_step (sys_init settings name) st.

Lemma served_sys name st : served_reachable name st → sys_reachable app strict is_ssl settings name st.
Proof.
  unfold served_reachable, sys_reachable. generalize (sys_init settings name).
  intros st0 Hs. induction Hs as [|x y z (l & Hok & _ & He) _ IH]; [constructor|].
  econstructor; [by exists l|done].
Qed.

(** A session keeps its id, or gets a first one that is new; only a new id is registered. *)
Record session_ids (r r' : ws_rt world) (g : history) (m m' : gmap Z SClientEntry) : Prop := {
  si_own : mClientId (rt_session r') = mClientId (rt_session r)
    ∨ mClientId (rt_session r) = 0%Z
      ∧ (mClientId (rt_session r') = 0%Z ∨ mClientId (rt_session r') ∉ seen g);
  si_gone id : id ∈ seen g → m !! id = None → m' !! id = None
}.

(** A step of session [i], taken apart. *)
Record session_step (i : nat) (st st' : system) (r r1 : ws_rt world) (w : world)
    (new : list ws_event) : Prop := {
  ss_before : sys_sessions st !! i = Some r;
  ss_after : st' = mkSystem (mkConfig (w_impl w) (pool (sys_server st))
                               (trace (sys_server st) ++ w_ops w)) (w_history w)
                     (<[i := r1]> (sys_sessions st));
  ss_events : rt_events r1 = rt_events r ++ new;
  ss_own : own_reports (rt_session r1) new;
  ss_reported : reported new (mkWorld (shared (sys_server st)) (sys_history st) []) w;
  ss_called : ws_called (is_ssl i) i new (mkWorld (shared (sys_server st)) (sys_history st) []) w;
  ss_passes : passes strict (mkWorld (shared (sys_server st)) (sys_history st) []) w;
  ss_id : in_range (w_history w) → sys_inv strict st →
    session_ids r r1 (sys_history st) (mClients (shared (sys_server st))) (mClients (w_impl w))
}.

Lemma effect_passes i r r' (w w' : world) :
  ws_effect (is_ssl i) i r r' w w' →
  passes strict w w'
  ∧ (registry_inv strict (w_history w) (w_impl w) → in_range (w_history w') →
     session_ids r r' (w_history w) (mClients (w_impl w)) (mClients (w_impl w'))).
Proof.
  intros [Hq Ho Hid Hcl|target Ho Ho' Hz Hc H0|w1 Ho Ho' Hid Hq Hc].
  - destruct (quiet_passes strict w w' Hq) as [? Hm]. split; [done|]. rewrite Hm. by split; auto.
  - destruct (register_passes strict _ _ _ _ w w' Hc) as [Hp Hcase]. split; [done|].
    intros Hreg Hin. destruct (Hcase Hreg Hin) as [[? ->]|(_ & ? & _ & e & _ & ->)]; split; auto.
    intros id Hs Hn. rewrite lookup_insert_ne; [done|]. by intros <-.
  - destruct (quiet_passes strict w w1 Hq) as [Hp1 Hm1].
    destruct (closed_passes strict _ w1 w' Hc) as [Hp2 Hm2].
    split; [by eapply passes_trans|]. rewrite Hm2, Hm1. split; [by left|].
    intros id _ Hn. apply lookup_delete_None. by right.
Qed.

Lemma sys_session_step i l st st' :
  own_label l = true → base_inv settings st →
  sys_exec is_ssl settings (SysSession i l) st = Some st' →
  ∃ r r1 w new, session_step i st st' r r1 w new.
Proof.
  destruct st as [[s ps tr] g ss]. intros Hl [_ Hss] He. cbn -[ws_exec] in *.
  destruct (ss !! i) as [r|] eqn:Hi; [|done]. cbn -[ws_exec] in He.
  destruct (ws_exec _ _ _ (WServer _) r) as [r0|] eqn:H0; [|done]. cbn -[ws_exec] in He.
  destruct (ws_exec _ _ _ l r0) as [r1|] eqn:H1; [|done]. cbn -[ws_exec] in He.
  destruct (Hss i r Hi) as [Hinv _].
  assert (Hinv0 : ws_inv (session_settings settings) r0)
    by (eapply ws_inv_step; [|exact Hinv|exact H0]; done).
  destruct (exec_server_srv _ _ _ _ _ H0) as (Hv0 & Hs0 & _).
  assert (Hev0 : rt_events r0 = rt_events r).
  { clear -H0. destruct r as [? [?|]]; cbn in H0; by simplify_eq. }
  destruct (ws_exec_effect _ _ _ _ _ _ _ Hinv0 Hv0 Hl H1) as (w & Hw & Heff).
  destruct (ws_exec_called _ _ _ _ _ _ Hv0 Hl H1) as (new & w' & Hw' & Hnew & Hcalled & Hown).
  rewrite Hw in He, Hw'. cbn in He. simplify_eq/=.
  destruct (effect_passes i r0 r1 _ w' Heff) as [Hp Hid].
  destruct (pass_ops _ _ _ Hp) as (ops & Hops & Hsil). cbn in Hops.
  exists r, r1, w', new. split; cbn; try done.
  - by rewrite Hops, deliver_silent.
  - by rewrite Hnew, Hev0.
  - by eapply called_reported.
  - intros Hin Hsys. destruct (Hid (server_ok_registry _ _ _ _ _ (si_server _ _ Hsys)) Hin) as [H1' H2'].
    rewrite Hs0 in H1'. by split.
Qed.

(** *** Calls follow the closures *)

Definition delivered_sys (st : system) : Prop :=
  delivered (trace (sys_server st)) (mWorkQueue (shared (sys_server st))) (pool (sys_server st)).

Lemma delivered_session new (w w' : world) tr ps :
  reported new w w' → delivered (tr ++ w_ops w) (mWorkQueue (w_impl w)) ps →
  delivered (tr ++ w_ops w') (mWorkQueue (w_impl w')) ps.
Proof.
  intros [(ops & -> & Hc & Hst & Hq & _)] (cs & rest & Hd & Hsum & Hrest).
  exists cs, (rest ++ if mStopped (mWorkQueue (w_impl w)) then owed (posted ops) else []).
  split; [done|]. rewrite Hst, Hq, (app_assoc tr), called_app, posted_app, owed_app, Hc, app_nil_r, <-Hsum.
  destruct (mStopped (mWorkQueue (w_impl w))) eqn:Hs; [|rewrite Hrest by done];
    rewrite ?app_nil_r, <-!app_assoc; by split.
Qed.

Lemma delivered_sys_step st st' :
  base_inv settings st → delivered_sys st → served_step st st' → delivered_sys st'.
Proof.
  intros Hb Hd ([l|target|p|i l] & Hok & Hone & He).
  - destruct st as [[s ps tr] g ss]. cbn -[exec_sched] in *.
    destruct (exec_sched l _) as [c'|] eqn:Hx; cbn -[exec_sched] in He; simplify_eq/=.
    destruct l as [p|i]; cbn in Hx.
    + simplify_eq. destruct Hd as (cs & rest & Hduty & Hsum). exists cs, rest. split; [|done]. cbn.
      destruct (app_call_serves p Hok) as [-> |?]; [apply duty_round; auto|by apply duty_call].
    + destruct (ps !! i) as [[r|upd next|e p]|] eqn:Hi; simplify_eq.
      * by apply delivered_atomic.
      * by apply delivered_emit.
  - destruct st as [[s ps tr] g ss]. cbn in He. by simplify_eq.
  - destruct st as [[s ps tr] g ss]. cbn -[on_world] in He.
    destruct (on_world p (mkWorld s g [])) as [r w] eqn:Hw. cbn in He. simplify_eq.
    apply (delivered_session [] (mkWorld s g []) w); [by apply (conn_reported p r)|].
    cbn. by rewrite app_nil_r.
  - destruct (sys_session_step i l st st' Hok Hb He) as (r & r1 & w & new & Hss).
    rewrite (ss_after _ _ _ _ _ _ _ Hss). unfold delivered_sys. cbn.
    eapply (delivered_session new (mkWorld (shared (sys_server st)) (sys_history st) []));
      [apply Hss|]. cbn. by rewrite app_nil_r.
Qed.

Lemma served_delivered name st : served_reachable name st → delivered_sys st.
Proof.
  intros Hrun.
  apply (star_invariant (λ st, sys_reachable app strict is_ssl settings name st ∧ delivered_sys st)
           _ _) in Hrun; [by destruct Hrun| |].
  - intros x y [Hx Hd] Hstep. split.
    + destruct Hstep as (l & Hok & _ & He). eapply star_trans; [exact Hx|]. apply star_one. by exists l.
    + eapply delivered_sys_step; [|exact Hd|exact Hstep].
      by eapply (sys_reachable_inv app strict is_ssl settings name x).
  - split; [constructor|]. exists [], []. split; [|done]. exists 0. by split.
Qed.

(** *** Closures follow the events *)

(** What was posted about a client is what its session read and reported, or less. *)
Record told_sys (st : system) : Prop := {
  ts_session i r id : sys_sessions st !! i = Some r → mClientId (rt_session r) = id → id ≠ 0%Z →
    about task_report id (posted (trace (sys_server st)))
      `sublist_of` about event_report id (rt_events r);
  ts_new id : id ≠ 0%Z → id ∉ seen (sys_history st) →
    about task_report id (posted (trace (sys_server st))) = []
}.

(** A thread's post is not about a client, and calls nothing that is counted here. *)
Lemma duty_posts cs (ps : list thread) i t (p : thread) :
  duty cs ps → ps !! i = Some (Emit (Posted t) p) → task_report t = None ∧ owed [t] = [].
Proof.
  intros (j & Hj) Hi. destruct (decide (i = j)) as [->|Hne].
  - destruct (wa_worker _ _ _ Hj _ Hi) as [(? & ? & _)|[_ Hp]]; [done|discriminate].
  - by destruct (wa_others _ _ _ Hj i _ Hi Hne) as (? & ? & _).
Qed.

Lemma duty_trace cs (ps : list thread) i e (p : thread) id :
  duty cs ps → ps !! i = Some (Emit e p) → about task_report id (posted [e]) = [].
Proof.
  intros Hd Hi. destruct e as [| | |t| | | | |]; try done.
  apply about_none. constructor; [|constructor]. intros x Hx.
  destruct (duty_posts _ _ _ _ _ Hd Hi) as [Ht _]. by rewrite Ht in Hx.
Qed.

Lemma deliver_events e ss i r' :
  deliver_op ss e !! i = Some r' →
  ∃ r, ss !! i = Some r ∧ rt_session r' = rt_session r ∧ rt_events r' = rt_events r.
Proof.
  assert (Hpost : ∀ k j, alter (apply_op (OpPost k)) j ss !! i = Some r' →
    ∃ r, ss !! i = Some r ∧ rt_session r' = rt_session r ∧ rt_events r' = rt_events r).
  { intros k j. rewrite list_lookup_alter. case_decide; [subst j|by eauto].
    destruct (ss !! i) as [r|]; [|done]. cbn. intros [= <-]. exists r. by destruct r. }
  destruct e; cbn; eauto.
Qed.

Lemma told_server l st st' :
  delivered_sys st → told_sys st → sys_exec is_ssl settings (SysServer l) st = Some st' →
  told_sys st'.
Proof.
  destruct st as [[s ps tr] g ss]. intros (cs & rest & Hd & _) [T1 T2] He. cbn -[exec_sched] in *.
  destruct (exec_sched l _) as [c'|] eqn:Hx; cbn -[exec_sched] in He; simplify_eq/=.
  assert (Hseen : ∀ id, id ∉ seen (observe s (shared c') g) → id ∉ seen g) by set_solver.
  destruct l as [p|i]; cbn in Hx; [|destruct (ps !! i) as [[r|upd next|e p]|] eqn:Hi];
    simplify_eq/=; rewrite ?drop_all, ?drop_app_length; cbn.
  1,2: split; cbn; eauto.
  pose proof (λ id, duty_trace cs ps i e p id Hd Hi) as Hno.
  split; cbn.
  - intros k r' id Hk Hid Hnz. rewrite posted_app, about_app, Hno, app_nil_r.
    destruct (deliver_events e ss k r' Hk) as (r & Hr & Hs & ->). rewrite Hs in Hid. by eapply T1.
  - intros id Hnz Hid. rewrite posted_app, about_app, Hno, app_nil_r. by apply T2, Hseen.
Qed.

Lemma told_session i st st' r r1 w new :
  session_step i st st' r r1 w new → sys_inv strict st → sys_inv strict st' →
  in_range (sys_history st') → told_sys st → told_sys st'.
Proof.
  intros [Hi -> Hev Hown Hrep _ Hp Hid] Hinv Hinv' Hin [T1 T2]. cbn in Hin.
  destruct Hrep as [(ops & Hops & _ & _ & _ & Hsub)]. cbn in Hops.
  assert (Hnot : ∀ id, id ≠ mClientId (rt_session r1) → about task_report id (posted (w_ops w)) = []).
  { intros id Hne. rewrite Hops. specialize (Hsub id).
    rewrite (about_none event_report) in Hsub; [by apply sublist_nil_r|].
    eapply Forall_impl; [exact Hown|]. intros e He x Hx Heq. apply Hne. rewrite <-Heq. by apply (He x). }
  destruct (si_links _ _ Hinv') as [_ _ L3 L4]. cbn in L3, L4.
  assert (Hself : <[i := r1]> (sys_sessions st) !! i = Some r1)
    by (apply list_lookup_insert_eq; by eapply lookup_lt_Some).
  split; cbn.
  - intros k q id Hk Hq Hnz. rewrite posted_app, about_app.
    destruct (list_insert_cases _ _ _ _ _ Hk) as [[-> ->]|[Hne Hk']].
    + rewrite Hev, about_app. apply sublist_app; [|by rewrite Hops].
      destruct (si_own _ _ _ _ _ (Hid Hin Hinv)) as [Hsame|[_ [Hz|Hfresh]]]; [|congruence|].
      * eapply T1; [exact Hi|congruence|done].
      * rewrite T2; [apply sublist_nil_l|done|congruence].
    + rewrite Hnot, app_nil_r; [by eapply T1|]. intros Heq. apply Hne.
      apply (L4 k i q r1); [done|done|congruence|congruence].
  - intros id Hnz Hns. rewrite posted_app, about_app, Hnot, app_nil_r.
    + apply T2; [done|]. intros Hin'. apply Hns. by apply (pass_seen _ _ _ Hp).
    + intros ->. apply Hns. by apply (L3 i r1).
Qed.

Lemma told_connection p st st' :
  conn_call p → sys_exec is_ssl settings (SysConnection p) st = Some st' →
  (seen (sys_history st) ⊆ seen (sys_history st')) → told_sys st → told_sys st'.
Proof.
  destruct st as [[s ps tr] g ss]. intros Hp He Hseen [T1 T2]. cbn -[on_world] in *.
  destruct (on_world p (mkWorld s g [])) as [r w] eqn:Hw. cbn in He. simplify_eq.
  destruct (conn_passes app strict p r _ w Hp Hw) as [Hpass _].
  destruct (conn_reported p r _ w Hp Hw) as [(ops & Hops & _ & _ & _ & Hsub)]. cbn in Hops.
  assert (Hno : ∀ id, about task_report id (posted (w_ops w)) = []).
  { intros id. rewrite Hops. apply sublist_nil_r. apply Hsub. }
  destruct (pass_ops _ _ _ Hpass) as (ops' & Hops' & Hsil). cbn in Hops'.
  split; cbn.
  - intros k q id Hk Hid Hnz. rewrite posted_app, about_app, Hno, app_nil_r.
    rewrite Hops', deliver_silent in Hk by done. by eapply T1.
  - intros id Hnz Hns. rewrite posted_app, about_app, Hno, app_nil_r. apply T2; [done|].
    intros Hin. by apply Hns, Hseen.
Qed.

Lemma served_told name st :
  served_reachable name st → in_range (sys_history st) → told_sys st.
Proof.
  intros Hrun.
  apply (star_invariant (λ st, served_reachable name st ∧ (in_range (sys_history st) → told_sys st))
           _ _) in Hrun; [by destruct Hrun| |].
  - intros x y [Hx Ht] Hstep.
    assert (Hy : served_reachable name y) by (eapply star_trans; [exact Hx|by apply star_one]).
    split; [done|]. intros Hin.
    destruct (sys_reachable_inv app strict is_ssl settings name x (served_sys name x Hx)) as [Hb Hi].
    destruct (sys_reachable_inv app strict is_ssl settings name y (served_sys name y Hy)) as [_ Hi'].
    destruct Hstep as (l & Hok & Hone & He).
    assert (Hin' : in_range (sys_history x)).
    { assert (Hstep : sys_step app strict is_ssl settings x y) by (by exists l).
      destruct (sys_step_keeps app strict is_ssl settings x y Hb Hstep) as [_ Hk]. by apply Hk. }
    destruct l as [l|target|p|i l].
    + eapply (told_server l x); [by eapply served_delivered|auto|exact He].
    + destruct x as [[s ps tr] g ss]. cbn in He. simplify_eq. destruct (Ht Hin') as [T1 T2].
      split; cbn in *; [|done]. intros k r id [Hk|[_ Hk]]%lookup_app_Some Hid Hnz; [by eapply T1|].
      apply list_lookup_singleton_Some in Hk as [_ <-]. by rewrite <-Hid in Hnz.
    + eapply told_connection; [exact Hok|exact He| |auto].
      destruct x as [[s ps tr] g ss]. cbn -[on_world] in He.
      destruct (on_world p (mkWorld s g [])) as [r w] eqn:Hw. cbn in He. simplify_eq.
      by destruct (conn_passes app strict p r _ w Hok Hw) as [[_ ? _ _] _].
    + destruct (sys_session_step i l x y Hok Hb He) as (r & r1 & w & new & Hss).
      eapply told_session; eauto.
  - split; [constructor|]. intros _. split; [done|]. done.
Qed.

(** Called is a prefix of what was posted; all of it, once no thread has calls left and
    the queue is empty. *)
Lemma called_posted name st :
  served_reachable name st →
  let tr := trace (sys_server st) in
  called tr `prefix_of` owed (posted tr)
  ∧ (Forall (never is_worker_op) (pool (sys_server st)) →
     mQueue (mWorkQueue (shared (sys_server st))) = [] →
     mStopped (mWorkQueue (shared (sys_server st))) = false → called tr = owed (posted tr)).
Proof.
  intros Hrun tr. destruct (served_delivered name st Hrun)
    as (cs & rest & Hd & Hsum & Hrest). subst tr. split.
  - rewrite <-Hsum. by apply prefix_app_r.
  - intros Hset Hq Hst. destruct (duty_idle cs _ Hset Hd) as [-> _].
    by rewrite <-Hsum, Hq, Hrest, !app_nil_r by done.
Qed.

Lemma settled_never (bad : srv_op → bool) (c : config CImpl srv_op) :
  settled c → Forall (never bad) (pool c).
Proof. intros Hs. eapply Forall_impl; [exact Hs|]. by intros p [r ->]. Qed.

End Delivery.

(** ** Properties *)

(** The calls and the closures about one client. *)
Definition call_about (id : Z) (i : invocation) : bool :=
  match i with
  | CallAdded _ j _ _ | CallMessage _ j _ | CallContent _ j _ => Z.eqb j id
  | _ => false
  end.

Definition task_about (id : Z) (t : task) : bool :=
  match task_report t with Some x => Z.eqb x.1 id | None => false end.

Lemma owed_about app id ts :
  List.filter (call_about id) (owed app ts) = owed app (List.filter (task_about id) ts).
Proof.
  induction ts as [|t ts IH]; [done|]. rewrite owed_cons, List.filter_app, IH. cbn [List.filter].
  assert (Ht : List.filter (call_about id) (owed app [t])
               = if task_about id t then owed app [t] else []).
  { rewrite owed_one. unfold task_about.
    destruct t as [cb j u s|cb n|cb j|[g|] [u|] j m|[g|] [u|] j c|cb w]; cbn;
      repeat (match goal with |- context [cb_end app ?i] => destruct (cb_end app i) end; cbn);
      repeat match goal with |- context [Z.eqb ?a ?b] => destruct (Z.eqb a b) end; done. }
  rewrite Ht. destruct (task_about id t); [|done]. by rewrite (owed_cons app t (List.filter _ _)).
Qed.

Lemma about_filter id ts : about task_report id (List.filter (task_about id) ts) = about task_report id ts.
Proof.
  induction ts as [|t ts IH]; [done|]. cbn [List.filter]. unfold task_about at 1.
  unfold about in *. cbn [omap list_omap]. destruct (task_report t) as [x|] eqn:Hx; cbn; [|exact IH].
  destruct (Z.eqb_spec x.1 id) as [He|Hne].
  - cbn. rewrite Hx. cbn. by rewrite !bool_decide_true, IH.
  - by rewrite bool_decide_false.
Qed.

Lemma about_calls id ev : about event_report id ev = about event_report id (calls ev).
Proof. unfold calls, about. induction ev as [|[] l IH]; cbn in *; try done; by rewrite IH. Qed.

(** The calls of a session, in every phase. *)
Lemma phase_calls settings (r : ws_rt world) :
  idle_phase r ∨ open_phase (session_settings settings) r ∨ shut_phase r →
  (calls (rt_events r) = [] ∧ mClientId (rt_session r) = 0%Z)
  ∨ ∃ closed, call_order (mClientId (rt_session r)) closed (rt_events r).
Proof.
  intros [Hid|[Ho|Hs]].
  - left. by destruct Hid as (_ & _ & _ & _ & _ & _ & _ & _ & ? & _ & _ & ?).
  - right. exists false. by destruct Ho as (_ & _ & _ & _ & _ & _ & _ & _ & _ & _ & ?).
  - right. by destruct Hs as (_ & _ & _ & _ & _ & _ & _ & _ & ?).
Qed.

Lemma call_order_events id closed ev e :
  call_order id closed ev → e ∈ ev → ∀ x, event_report e = Some x → x.1 = id.
Proof.
  intros (t & b & ms & Hc & Hms) He x Hx.
  assert (Hin : e ∈ calls ev).
  { apply list_elem_of_In, List.filter_In. split; [by apply list_elem_of_In|by destruct e]. }
  rewrite Hc in Hin. rewrite Forall_forall in Hms.
  apply elem_of_cons in Hin as [->|[Hin|Hin]%elem_of_app].
  - cbn in Hx. by simplify_eq.
  - specialize (Hms e Hin). destruct e; try done; cbn in *; by simplify_eq/=.
  - destruct closed; [|by apply not_elem_of_nil in Hin]. apply list_elem_of_singleton in Hin as ->.
    cbn in Hx. by simplify_eq.
Qed.

(** Nothing a session reports is about another client. *)
Lemma phase_others settings (r : ws_rt world) id :
  idle_phase r ∨ open_phase (session_settings settings) r ∨ shut_phase r →
  mClientId (rt_session r) ≠ id → about event_report id (rt_events r) = [].
Proof.
  intros Hph Hne. destruct (phase_calls settings r Hph) as [[Hc _]|(closed & Hc)].
  - by rewrite about_calls, Hc.
  - apply about_none, Forall_forall. intros e He x Hx.
    by rewrite (call_order_events _ _ _ _ Hc He x Hx).
Qed.

(** A session with an id has registered. *)
Lemma phase_registered settings (r : ws_rt world) :
  idle_phase r ∨ open_phase (session_settings settings) r ∨ shut_phase r →
  mClientId (rt_session r) ≠ 0%Z →
  ∃ t b, EvRegister t b (mClientId (rt_session r)) ∈ rt_events r.
Proof.
  intros Hph Hnz. destruct (phase_calls settings r Hph) as [[_ ?]|(closed & t & b & ms & Hc & _)]; [done|].
  exists t, b. assert (Hin : EvRegister t b (mClientId (rt_session r)) ∈ calls (rt_events r))
    by (rewrite Hc; by left).
  by apply list_elem_of_In, List.filter_In in Hin as [?%list_elem_of_In _].
Qed.

(** The reports of a session that registered. *)
Lemma reports_in_order settings (r : ws_rt world) target b id :
  idle_phase r ∨ open_phase (session_settings settings) r ∨ shut_phase r →
  EvRegister target b id ∈ rt_events r →
  ∃ (read : list report) (closed : bool),
    about event_report id (rt_events r)
      = ReportAdded :: read ++ (if closed then [ReportClosed] else [])
    ∧ Forall (λ x, x ≠ ReportAdded ∧ x ≠ ReportClosed) read.
Proof.
  intros Hph Hev. destruct (registered_phase settings r target b id Hph Hev) as [<- _].
  destruct (phase_calls settings r Hph) as [[Hno _]|(cl & t & b' & ms & Hc & Hms)].
  { assert (Hin : EvRegister target b (mClientId (rt_session r)) ∈ calls (rt_events r)).
    { apply list_elem_of_In, List.filter_In. split; [|done]. by apply list_elem_of_In. }
    rewrite Hno in Hin. by apply not_elem_of_nil in Hin. }
  rewrite about_calls, Hc. clear Hc Hev Hph.
  exists (about event_report (mClientId (rt_session r)) ms), cl.
  rewrite about_cons, about_app. split.
  - unfold about. cbn. rewrite bool_decide_true by done. destruct cl; [|done].
    cbn. by rewrite bool_decide_true.
  - induction Hms as [|e ms He _ IH]; [constructor|]. unfold about in *. cbn.
    destruct e; try done; cbn in He |- *; subst; rewrite bool_decide_true by done; by constructor.
Qed.

(** C10. The worker's calls about clients are those of the posted closures, in the order they
    were posted, each closure up to its first callback that throws, without a gap; and
    when all threads have returned, the queue is empty and was not stopped, all of them. *)
Theorem callbacks_follow_posts app strict `{!Behaves strict app} is_ssl settings name st :
  served_reachable app strict is_ssl settings name st →
  let tr := trace (sys_server st) in
  called tr `prefix_of` owed app (posted tr)
  ∧ (settled (sys_server st) → mQueue (mWorkQueue (shared (sys_server st))) = [] →
     mStopped (mWorkQueue (shared (sys_server st))) = false → called tr = owed app (posted tr)).
Proof.
  intros Hrun. destruct (called_posted app strict is_ssl settings name st Hrun) as [Hpre Hall].
  split; [done|]. intros Hs%(settled_never is_worker_op). by apply Hall.
Qed.

(** What reporting a message posts. *)
Lemma message_posts id m s :
  posted (effects_of (run (OnWsMessage id m) s))
  = match LookupReceiveCallbacks id true s with
    | (None, None) => []
    | (g, u) => [TaskMessage g u id m]
    end.
Proof. rewrite OnWsMessage_effects. by destruct (LookupReceiveCallbacks id true s) as [[] []]. Qed.

Lemma content_posts id c s :
  posted (effects_of (run (OnWsContent id c) s))
  = match LookupReceiveCallbacks id false s with
    | (None, None) => []
    | (g, u) => [TaskContent g u id c]
    end.
Proof.
  unfold OnWsContent. cbn [pbind pgets locked pret run fst snd].
  by destruct (LookupReceiveCallbacks id false s) as [[] []].
Qed.


(** ** Concrete runs *)

(** Runs in which a thread is started only when the others have returned. *)
Definition all_done (st : system) : bool :=
  forallb (λ p, match p with Done _ => true | _ => false end) (pool (sys_server st)).

Fixpoint served_exec_all (is_ssl : nat → bool) (settings : CServerSettings) (ls : list sys_label)
    (st : system) : option system :=
  match ls with
  | [] => Some st
  | l :: ls' =>
      if match l with SysServer (SCall _) => all_done st | _ => true end
      then st' ← sys_exec is_ssl settings l st; served_exec_all is_ssl settings ls' st'
      else None
  end.

Lemma served_exec_all_reachable app strict is_ssl settings name ls st st' :
  Forall (sys_ok app strict) ls → served_reachable app strict is_ssl settings name st →
  served_exec_all is_ssl settings ls st = Some st' →
  served_reachable app strict is_ssl settings name st'.
Proof.
  revert st. induction ls as [|l ls IH]; intros st Hls Hr He; cbn in He; [by simplify_eq|].
  apply Forall_cons in Hls as [Hl Hls].
  destruct (match l with SysServer (SCall _) => all_done st | _ => true end) eqn:Hd; [|done].
  destruct (sys_exec is_ssl settings l st) as [st1|] eqn:H1; [|done]. cbn in He.
  eapply IH; [done| |done]. eapply star_trans; [exact Hr|]. apply star_one. exists l.
  split_and!; [done| |done]. destruct l as [[p|]| | |]; try done. intros _.
  unfold all_done in Hd. apply Forall_forall. intros q Hq%list_elem_of_In.
  rewrite forallb_forall in Hd. specialize (Hd q Hq). by destruct q.
Qed.

Definition all_cbs : CClientCallbacks := mkClientCallbacks (Some 0) (Some 1) (Some 2) (Some 3).
Definition worker_turn (i n : nat) : list sys_label :=
  SysServer (SCall (worker_round demo_app)) :: replicate n (SysServer (SStep i)).

(** A client connects, sends a text and some bytes and leaves; the worker's four rounds. *)
Definition demo_told : list sys_label :=
  [SysServer (SCall (Start demo_listen "0.0.0.0" 8080 all_cbs));
   SysServer (SStep 0); SysServer (SStep 0); SysServer (SStep 0);
   SysConnect "/chat"; SysSession 0 (WAccepted None);
   SysSession 0 (WRead (inr (GotText (bytes_of_string "hi"))));
   SysSession 0 (WRead (inr (GotBinary [])));
   SysSession 0 (WRead (inl (demo_ec EcClosed)))]
  ++ worker_turn 1 2 ++ worker_turn 2 2 ++ worker_turn 3 2 ++ worker_turn 4 2.

(** A client connects; the application removes it before the worker's round. *)
Definition demo_removed : list sys_label :=
  take 6 demo_told
  ++ [SysServer (SCall (RemoveClient demo_app 1)); SysServer (SStep 1); SysServer (SStep 1);
      SysServer (SStep 1); SysServer (SStep 1)]
  ++ worker_turn 2 2.

Definition demo_served (ls : list sys_label) : system :=
  default (sys_init (default_server_settings 0) "demo")
    (served_exec_all no_ssl (default_server_settings 0) ls
       (sys_init (default_server_settings 0) "demo")).

Lemma demo_served_reachable strict ls :
  Forall (sys_ok demo_app strict) ls →
  served_reachable demo_app strict no_ssl (default_server_settings 0) "demo" (demo_served ls).
Proof.
  intros Hok. unfold demo_served.
  destruct (served_exec_all _ _ _ _) as [st|] eqn:He; [|constructor].
  eapply served_exec_all_reachable; [exact Hok|constructor|exact He].
Qed.

Lemma demo_told_ok strict : Forall (sys_ok demo_app strict) demo_told.
Proof. repeat constructor. intros _. by eexists. Qed.

Lemma callbacks_follow_posts_witness :
  called (trace (sys_server (demo_served demo_told)))
    = [CallAdded 0 1 "/chat" false; CallMessage 2 1 "hi"; CallContent 3 1 []]
  ∧ called (trace (sys_server (demo_served demo_told)))
    = owed demo_app (posted (trace (sys_server (demo_served demo_told)))).
Proof.
  split; [by vm_compute|].
  apply (callbacks_follow_posts demo_app True no_ssl (default_server_settings 0) "demo"
           (demo_served demo_told)).
  - apply demo_served_reachable, demo_told_ok.
  - unfold settled. vm_compute. repeat constructor; by eexists.
  - by vm_compute.
  - by vm_compute.
Defined.


(** [RemoveClient] and [Stop] call the closed callback at once, while the added callback of
    the same client may still wait in the queue: it is then called afterwards. *)
Theorem added_after_closed :
  ∃ st, served_reachable demo_app True no_ssl (default_server_settings 0) "demo" st
    ∧ mClients (shared (sys_server st)) = ∅
    ∧ omap (λ o, match o with Invoked i => Some i | _ => None end) (trace (sys_server st))
      = [CallClosed 1 1; CallAdded 0 1 "/chat" false].
Proof.
  exists (demo_served demo_removed). split; [|split; by vm_compute].
  apply demo_served_reachable. repeat constructor. intros _. by eexists.
Qed.
