(* ===== verification/Steady.v ===== *)
(** * What no thread changes

    The settings of a server, the kind of connection its accepted sockets become, and
    whether a client's connection is an ssl one: in the system of System.v these stay what
    they were, whatever threads, sessions and connections do. *)

From S2P Require Import Prelude CppString Uri Net Events WorkQueue WsSession Threads.
From S2P Require Import Server ServerOps Registry System Delivery.
Open Scope prog_scope.

(** What [OnAccept] makes of a socket. *)
Definition accepts_as (settings : CServerSettings) : connection_kind :=
  match ssl_of (sslContext settings) with
  | Some ctx => if sslRequired settings then SslHttp ctx else DetectSsl ctx
  | None => PlainHttp
  end.

Section Steady.
Context (app : application) (strict : Prop) {Happ : Behaves strict app}.
Context (is_ssl : nat → bool) (settings : CServerSettings).

Record steady (s : CImpl) : Prop := {
  sd_settings : mSettings s = settings;
  sd_session : mSessionSettings s = session_settings settings;
  sd_ssl id e : mClients s !! id = Some e → isSsl e = is_ssl (session e)
}.

(** A connection is created with the settings of the server. *)
Definition as_accepted (o : srv_op) : Prop :=
  match o with
  | RunConnection kind _ s => kind = accepts_as settings ∧ s = session_settings settings
  | _ => True
  end.

Abbreviation holds_steady := (keeps steady as_accepted).

(** A section that changes neither settings nor adds a client. *)
Lemma steady_section (s s' : CImpl) :
  steady s → mSettings s' = mSettings s → mSessionSettings s' = mSessionSettings s →
  mClients s' ⊆ mClients s → steady s'.
Proof.
  intros [H1 H2 H3] E1 E2 Hsub. split; [congruence..|]. intros id e He.
  eapply H3, lookup_weaken; [exact He|exact Hsub].
Qed.

Lemma steady_locked {A} (f : CImpl → A * CImpl) :
  (∀ s, mSettings (f s).2 = mSettings s ∧ mSessionSettings (f s).2 = mSessionSettings s
        ∧ mClients (f s).2 ⊆ mClients s) → holds_steady (locked f).
Proof. intros Hf. apply keeps_locked. intros s Hs. destruct (Hf s) as (? & ? & ?). by eapply steady_section. Qed.

Lemma steady_LogError m : holds_steady (LogError m).
Proof. by apply keeps_bind; [apply keeps_gets|]. Qed.

Lemma decrement_settings uri s :
  mSettings (DecrementUriCountLocked uri s).2 = mSettings s
  ∧ mSessionSettings (DecrementUriCountLocked uri s).2 = mSessionSettings s
  ∧ mClients (DecrementUriCountLocked uri s).2 = mClients s.
Proof.
  unfold DecrementUriCountLocked. destruct (is_empty uri); [done|].
  destruct (mUriCounts s !! uri) as [c|]; [|done]. by destruct (Z.eqb c 0).
Qed.

Lemma steady_PostCallback t : holds_steady (PostCallback t).
Proof. split; [done|]. by apply steady_locked. Qed.

Section Callbacks.
Context (a : application) (Hbody : ∀ i, holds_steady (cb_body a i)).

Lemma steady_Invoke calls : holds_steady (Invoke a calls).
Proof using Hbody.
  induction calls as [|i calls IH]; [done|].
  apply keeps_bind; [|by intros []]. split; [done|]. cbn [pbind pret].
  apply keeps_bind; [by apply keeps_catch|]. intros _.
  destruct (a i); [done|..]; by apply keeps_bind; [apply steady_LogError|].
Qed.

Lemma steady_NotifyClosedSync id uri : holds_steady (NotifyClosedSync a id uri).
Proof.
  apply keeps_bind; [apply keeps_gets|]. intros [[c cc] n].
  apply keeps_bind; [|intros _]; apply keeps_option; intros; apply steady_Invoke.
Qed.

Lemma steady_Stop : holds_steady (Server.Stop a).
Proof.
  apply keeps_bind; [apply steady_locked; intros s; split_and!; try done; apply map_empty_subseteq|].
  intros [acc entries]. apply keeps_bind; [by apply keeps_option|]. intros _.
  apply keeps_bind; [by apply keeps_for|]. intros _.
  apply keeps_for. intros. apply steady_NotifyClosedSync.
Qed.

Lemma steady_RemoveClient id : holds_steady (RemoveClient a id).
Proof.
  apply keeps_bind.
  - apply steady_locked. intros s. unfold RemoveClient_locked.
    destruct (mClients s !! id) as [e|]; [|done].
    destruct (decrement_settings (entry_uri e) (set_mClients (delete id (mClients s)) s))
      as (H1 & H2 & H3). cbn in *. rewrite H1, H2, H3. split_and!; [done..|]. apply delete_subseteq.
  - intros [e|]; [|done]. split; [done|]. apply steady_NotifyClosedSync.
Qed.

Lemma steady_Shutdown : holds_steady (Shutdown a).
Proof.
  apply keeps_bind; [by apply steady_locked|]. intros []; cbn [negb]; [|done].
  apply keeps_bind; [apply steady_Stop|]. intros _. by apply steady_locked.
Qed.
End Callbacks.

Lemma steady_Start listen address port cbs : holds_steady (Start listen address port cbs).
Proof.
  apply keeps_bind; [apply keeps_gets|]. intros []; [done|].
  apply keeps_bind; [by destruct (listen address port)|]. intros [acc lp].
  apply keeps_bind; [|done]. cbn. intros s Hs. split.
  - unfold Start_locked. destruct (mAcceptor s); [done|]. by eapply steady_section.
  - by destruct (Start_locked acc lp cbs s).1.
Qed.

Lemma api_call_steady {A} (p : SRV A) : api_call strict p → holds_steady p.
Proof.
  induction 1; auto using steady_Start, steady_Stop, steady_Shutdown, steady_RemoveClient,
    keeps_gets, keeps_bind, keeps_catch; try done; try by apply steady_locked.
  - apply keeps_bind; [apply keeps_gets|]. intros [sess|]; [done|apply steady_LogError].
  - apply keeps_bind; [apply keeps_gets|]. intros l. by apply keeps_for.
Qed.

Lemma app_call_steady p : app_call app strict p → holds_steady p.
Proof using All.
  intros []; auto using api_call_steady, steady_LogError; try by apply steady_locked.
  - apply keeps_bind.
    + apply steady_locked. intros s. by destruct (Run_locked (mWorkQueue s)).
    + intros [t|]; [|done]. apply steady_Invoke. intros i. apply api_call_steady, behaves.
  - unfold accepted. destruct (negb alive || negb opn); [done|]. destruct r as [ec|sock].
    + destruct (ec_is EcAborted ec); [done|]. by apply keeps_bind; [apply steady_LogError|].
    + apply keeps_bind; [|done]. apply keeps_read. intros s Hs. cbn.
      rewrite (sd_settings _ Hs), (sd_session _ Hs). done.
Qed.

Lemma conn_call_steady p : conn_call p → holds_steady p.
Proof.
  intros []; auto using steady_PostCallback, steady_LogError.
  - by apply keeps_bind; [|].
  - apply keeps_bind; [|done]. apply steady_locked. intros s. unfold FindHttpHandler_locked.
    by destruct (is_empty _).
  - by apply keeps_bind; [apply steady_locked|].
Qed.

(** A session registers under its own number and kind. *)
Lemma steady_RegisterWsClient i t : holds_steady (Server.RegisterWsClient i t (is_ssl i)).
Proof.
  unfold Server.RegisterWsClient. destruct (ParseTarget_path t ∅) as [m ->]. cbn [pbind].
  apply keeps_bind.
  - intros s Hs. split; [|done]. unfold RegisterWsClient_locked.
    destruct (mShutdown s || _); [done|]. destruct Hs as [H1 H2 H3].
    destruct (is_empty _); split; cbn; try done;
      intros id e [[_ <-]|[_ He]]%lookup_insert_Some; cbn; eauto.
  - intros [r|]; [|done]. apply keeps_bind; [apply keeps_gets|]. intros st.
    rewrite substr_from_ok by lia. cbn [pbind].
    repeat (apply keeps_bind; [apply keeps_option; intros; apply steady_PostCallback|intros _]). done.
Qed.

Lemma steady_OnWsClosed id : holds_steady (Server.OnWsClosed id).
Proof.
  apply keeps_bind.
  - apply steady_locked. intros s. unfold OnWsClosed_locked.
    destruct (mClients s !! id) as [e|]; [|done].
    pose proof (decrement_settings (entry_uri e) (set_mClients (delete id (mClients s)) s)) as Hd.
    destruct (DecrementUriCountLocked _ _) as [n s1]. cbn in *. destruct Hd as (-> & -> & ->).
    split_and!; [done..|]. apply delete_subseteq.
  - intros [[[c cc] n]|]; [|done].
    apply keeps_bind; [|intros _]; apply keeps_option; intros; apply steady_PostCallback.
Qed.

Lemma steady_received id b (f : option callback → option callback → task) :
  holds_steady ('(g, u) <- pgets (LookupReceiveCallbacks id b) ;;
                match g, u with None, None => pret tt | _, _ => PostCallback (f g u) end).
Proof.
  apply keeps_bind; [apply keeps_gets|].
  intros [[g|] [u|]]; first [done|apply steady_PostCallback].
Qed.

Lemma steady_on_world {A} (p : SRV A) w r w' :
  holds_steady p → on_world p w = (r, w') → steady (w_impl w) → steady (w_impl w').
Proof.
  intros Hp. unfold on_world. destruct (run p (w_impl w)) as [[r0 s'] ops] eqn:Hr.
  intros [= _ <-] Hs. by eapply keeps_run.
Qed.

Lemma called_steady i ev w w' :
  ws_called (is_ssl i) i ev w w' → steady (w_impl w) → steady (w_impl w').
Proof.
  induction 1 as [v|t id ev v v' v'' Hc _ IH|id ev v v' v'' Hc _ IH|id m ev v v' v'' Hc _ IH
    |id c ev v v' v'' Hc _ IH|m ev v v' v'' Hc _ IH]; intros Hs; [done|..]; apply IH;
    (eapply steady_on_world; [|exact Hc|exact Hs]);
    eauto using steady_RegisterWsClient, steady_OnWsClosed, steady_LogError.
  - apply (steady_received id true (λ g u, TaskMessage g u id m)).
  - apply (steady_received id false (λ g u, TaskContent g u id c)).
Qed.

(** ** The whole system *)

Definition steady_sys (st : system) : Prop :=
  steady (shared (sys_server st)) ∧ Forall holds_steady (pool (sys_server st)).

Lemma steady_step st st' :
  base_inv settings st → steady_sys st → sys_step app strict is_ssl settings st st' →
  steady_sys st'.
Proof using Happ.
  intros Hb [Hs Hth] ([l|target|p|i l] & Hok & He).
  - destruct st as [[s ps tr] g ss]. cbn -[exec_sched] in *.
    destruct (exec_sched l _) as [c'|] eqn:Hx; cbn -[exec_sched] in He; simplify_eq/=.
    destruct l as [p|i]; cbn in Hx.
    + simplify_eq. split; [done|]. apply Forall_app_2; [done|].
      constructor; [by apply app_call_steady|done].
    + destruct (ps !! i) as [[r|upd next|e p]|] eqn:Hi; simplify_eq;
        pose proof (proj1 (Forall_lookup _ _) Hth _ _ Hi) as Hk.
      * destruct (Hk s Hs). split; [done|]. by apply Forall_insert.
      * destruct Hk. split; [done|]. by apply Forall_insert.
  - destruct st as [[s ps tr] g ss]. cbn in He. by simplify_eq.
  - destruct st as [[s ps tr] g ss]. cbn -[on_world] in He.
    destruct (on_world p (mkWorld s g [])) as [r w] eqn:Hw. cbn in He. simplify_eq.
    split; [|done]. eapply (steady_on_world p); [by apply conn_call_steady|exact Hw|done].
  - destruct (sys_session_step app strict is_ssl settings i l st st' Hok Hb He) as (r & r1 & w & new & Hss).
    rewrite (ss_after _ _ _ _ _ _ _ _ _ _ Hss). split; [|done].
    eapply called_steady; [apply Hss|done].
Qed.

Lemma sys_steady name st : sys_reachable app strict is_ssl settings name st → steady_sys st.
Proof using Happ.
  intros Hrun.
  apply (star_invariant (λ st, sys_reachable app strict is_ssl settings name st ∧ steady_sys st)
           _ _) in Hrun; [by destruct Hrun| |].
  - intros x y [Hx Hs] Hstep. split; [by eapply star_trans; [exact Hx|apply star_one]|].
    eapply steady_step; [|exact Hs|exact Hstep].
    by eapply (sys_reachable_inv app strict is_ssl settings name x).
  - split; [constructor|]. split; [|done]. split; [done..|]. intros id e He.
    cbn in He. by rewrite lookup_empty in He.
Qed.

End Steady.
