(* ===== verification/HttpConnection.v ===== *)
(** * [CHttpConnection] and [CDetectSession]: before the websocket

    A connection reads one request at a time.  An upgrade request that passes the
    [allowedUris] filter turns it into a [CWsSession]; any other request goes to the
    handler of its uri, through the workqueue, and nothing more is read until the
    handler's reply has been written.

    Requests, responses and their serialisation are Beast's: the records below hold the
    fields the code reads and sets, [set_result] and [prepare_payload] are parameters (both
    may throw).  The second half runs a connection with its outstanding operations, and
    keeps the history of what it read, posted and wrote. *)

From S2P Require Import Prelude CppString Uri Net Events HttpWrapper.
Open Scope cpp_scope.

Definition HTTP_BODY_LIMIT : Z := 8 * 1024 * 1024.

(** [http::request]; [req_content_type] is empty when the field is absent. *)
Record CHttpRequest := mkHttpRequest {
  req_target : string;
  req_method : string;
  req_version : Z;
  req_keep_alive : bool;
  req_body : list byte;
  req_content_type : string;
  req_is_upgrade : bool          (** [websocket::is_upgrade] *)
}.

(** [http::response]; [None] where the code leaves Beast's reason for the status. *)
Record CHttpResponse := mkHttpResponse {
  res_version : Z;
  res_result : Z;
  res_reason : option string;
  res_keep_alive : bool;
  res_content_type : string;
  res_body : list byte
}.

Record HttpConn := mkHttpConn {
  mBuffer : list byte;
  mSettings : CServerSettings
}.

(** The calls a connection makes on the server. *)
Inductive hc_event :=
  | HeUpgradeAllowed (path : string) (allowed : bool)
  | HeNextConnectionId (id : Z)
  | HeFindHttpHandler (path : string) (handler : option callback)
  | HePost (t : task)
  | HeLog (m : string).

Inductive hc_op :=
  | HcExpiry (e : expiry)                (** [get_lowest_layer(mStream).expires_...] *)
  | HcAsyncHandshake (buffered : list byte)
  | HcAsyncRead (body_limit : Z)         (** with a fresh parser *)
  | HcAsyncWrite (r : CHttpResponse)
  | HcAsyncShutdown                      (** ssl *)
  | HcShutdownSend                       (** plain *)
  | HcSession (settings : CServerSettings) (target : string)
                                         (** the stream moves into a session, [Accept] *)
  | HcEvent (e : hc_event).

Section Handlers.
Context {Srv : Type} `{IServerEvents Srv}.
Context (set_result : Z → res unit) (prepare_payload : CHttpResponse → res unit).
Context (IS_SSL : bool) (self : nat).

Definition HC : Type → Type := cpp (HttpConn * option Srv) hc_op.

Definition on_events {A} (f : Srv → res A * Srv) (ev : A → hc_event) : HC (option A) :=
  lock_call f (λ a, HcEvent (ev a)).

Definition hc_LogError (m : string) : HC unit :=
  _ <- on_events (LogError m) (λ _, HeLog m) ;; ret tt.

Definition LogUnexpected (stage : string) (ec : error_code) : HC unit :=
  if ec_is EcAborted ec || ec_is EcTimeout ec then ret tt
  else hc_LogError (DescribeError stage ec).

Definition SetRequestExpiry : HC unit :=
  s <- gets (λ w, mSettings w.1) ;;
  emit (HcExpiry (expiry_of (handshakeTimeoutS s))).

Definition DoRead : HC unit :=
  SetRequestExpiry ;;
  emit (HcAsyncRead HTTP_BODY_LIMIT).

Definition Run : HC unit :=
  if IS_SSL then
    SetRequestExpiry ;;
    b <- gets (λ w, mBuffer w.1) ;;
    emit (HcAsyncHandshake b)
  else DoRead.

(** The completion of the ssl handshake: an error, or the buffered bytes it used. *)
Definition OnHandshake (r : error_code + nat) : HC unit :=
  match r with
  | inl ec => LogUnexpected "ssl handshake" ec
  | inr bytesUsed =>
      modify (λ w, (mkHttpConn (drop bytesUsed (mBuffer w.1)) (mSettings w.1), w.2)) ;;
      DoRead
  end.

Definition DoShutdown : HC unit :=
  if IS_SSL then emit HcAsyncShutdown else emit HcShutdownSend.

Definition DoWrite (response : CHttpResponse) : HC unit :=
  SetRequestExpiry ;;
  emit (HcAsyncWrite response).

(** The completion of [async_write]. *)
Definition OnWritten (response : CHttpResponse) (ec : option error_code) : HC unit :=
  match ec with
  | Some e => LogUnexpected "http write" e
  | None => if res_keep_alive response then DoRead else DoShutdown
  end.

Definition response_of (msg : HttpMsg) : CHttpResponse :=
  mkHttpResponse (if Z.eqb (version msg) 0 then 11 else version msg)%Z (responseCode msg)
    (if is_empty (reason msg) then None else Some (reason msg)) (keepAlive msg)
    (contextType msg) (body msg).

(** [SendResponse], as the closure posted by the reply function runs it. *)
Definition SendResponse (msg : HttpMsg) : HC unit :=
  of_res (set_result (responseCode msg)) ;;
  of_res (prepare_payload (response_of msg)) ;;
  DoWrite (response_of msg).

Definition error_response (request : CHttpRequest) (status : Z) (reason jsonBody : string)
    (keep : bool) : CHttpResponse :=
  mkHttpResponse (req_version request) status (Some reason) keep "application/json"
    (bytes_of_string jsonBody).

Definition SendErrorResponse (request : CHttpRequest) (status : Z) (reason jsonBody : string)
    (keep : bool) : HC unit :=
  of_res (set_result status) ;;
  of_res (prepare_payload (error_response request status reason jsonBody keep)) ;;
  DoWrite (error_response request status reason jsonBody keep).

(** The message a handler gets for a request. *)
Definition request_msg (request : CHttpRequest) (uri : string)
    (parameters : HttpQueryParameters) (id : Z) : HttpMsg :=
  mkHttpMsg (req_body request) (req_keep_alive request) (req_version request) uri
    (req_method request) (reason default_HttpMsg) (responseCode default_HttpMsg) id
    (if is_empty (req_content_type request) then contextType default_HttpMsg
     else req_content_type request) parameters.

Definition no_handler_body (uri : string) : string :=
  HttpErrorMessage "Not Found" ("No handler registered for '" +:+ uri +:+ "'").

Definition not_allowed_body (path : string) : string :=
  HttpErrorMessage "Not Found" ("Websocket uri '" +:+ path +:+ "' is not allowed").

Definition HandleHttpRequest (request : CHttpRequest) : HC unit :=
  target <- of_res (ParseTarget (req_target request) ∅) ;;
  id <- on_events NextConnectionId HeNextConnectionId ;;
  handler <- on_events (FindHttpHandler target.1) (HeFindHttpHandler target.1) ;;
  let msg := request_msg request target.1 target.2 (default 0%Z id) in
  match handler with
  | Some (Some h) =>
      let wrapper := CHttpWrapper_new (Some msg) (Some self) in
      _ <- on_events (PostCallback (TaskHttp h wrapper)) (λ _, HePost (TaskHttp h wrapper)) ;;
      ret tt
  | _ =>
      SendErrorResponse request 404 "Not Found" (no_handler_body target.1)
        (req_keep_alive request)
  end.

Definition OnRead (r : error_code + CHttpRequest) : HC unit :=
  match r with
  | inl ec =>
      if ec_is EcEndOfStream ec then ret tt else LogUnexpected "http read" ec
  | inr request =>
      alive <- gets (λ w, match w.2 with Some _ => true | None => false end) ;;
      if negb alive then ret tt
      else if req_is_upgrade request then
        target <- of_res (ParseTarget (req_target request) ∅) ;;
        allowed <- on_events (UpgradeAllowed target.1) (HeUpgradeAllowed target.1) ;;
        match allowed with
        | Some true =>
            s <- gets (λ w, mSettings w.1) ;;
            emit (HcSession s (req_target request))
        | _ => SendErrorResponse request 404 "Not Found" (not_allowed_body target.1) false
        end
      else HandleHttpRequest request
  end.

End Handlers.

(** ** [CDetectSession] *)

Record CDetectSession := mkDetectSession {
  ds_mSslCtx : nat;
  ds_mBuffer : list byte;
  ds_mSettings : CServerSettings
}.

Definition CDetectSession_new (sslCtx : nat) (settings : CServerSettings) : CDetectSession :=
  mkDetectSession sslCtx [] settings.

Inductive ds_op :=
  | DsExpiresAfter (seconds : Z)
  | DsAsyncDetect
  | DsRun (isSsl : bool) (buffer : list byte) (settings : CServerSettings).
      (** the http connection it becomes *)

(** [Run]: the deadline is left alone when the setting is 0. *)
Definition detect_Run (d : CDetectSession) : list ds_op :=
  (if Z.eqb (handshakeTimeoutS (ds_mSettings d)) 0 then []
   else [DsExpiresAfter (handshakeTimeoutS (ds_mSettings d))]) ++ [DsAsyncDetect].

(** The completion of [async_detect_ssl], which has read [peeked] into the buffer. *)
Definition OnDetected (d : CDetectSession) (peeked : list byte) (r : error_code + bool)
    : list ds_op :=
  match r with
  | inl _ => []
  | inr isSsl => [DsRun isSsl (ds_mBuffer d ++ peeked) (ds_mSettings d)]
  end.

(** ** Running a connection *)

(** The outstanding operations, the requests that are with a handler, and the reply
    closures posted but not yet run.  [hc_requests], [hc_responses]: histories of the
    requests read and of the responses written. *)
Record hc_rt (Srv : Type) := mkHcRt {
  hc_conn : HttpConn;
  hc_srv : option Srv;
  hc_handshakes : nat;
  hc_reads : nat;
  hc_writes : list CHttpResponse;
  hc_shutdowns : nat;
  hc_handlers : list CHttpWrapper;
  hc_posts : nat;
  hc_sessions : list (CServerSettings * string);
                                      (** the sessions the stream moved into *)
  hc_fault : option fault;
  hc_requests : list CHttpRequest;
  hc_responses : list CHttpResponse;
  hc_events : list hc_event
}.
Arguments mkHcRt {Srv}.
Arguments hc_conn {Srv}.
Arguments hc_srv {Srv}.
Arguments hc_handshakes {Srv}.
Arguments hc_reads {Srv}.
Arguments hc_writes {Srv}.
Arguments hc_shutdowns {Srv}.
Arguments hc_handlers {Srv}.
Arguments hc_posts {Srv}.
Arguments hc_sessions {Srv}.
Arguments hc_fault {Srv}.
Arguments hc_requests {Srv}.
Arguments hc_responses {Srv}.
Arguments hc_events {Srv}.

Section Run.
Context {Srv : Type} `{IServerEvents Srv}.
Context (set_result : Z → res unit) (prepare_payload : CHttpResponse → res unit).
Context (IS_SSL : bool) (self : nat).

Definition hc_apply (o : hc_op) (r : hc_rt Srv) : hc_rt Srv :=
  let '(mkHcRt c v h rd w sd hd p m ft rq rs ev) := r in
  match o with
  | HcExpiry _ => r
  | HcAsyncHandshake _ => mkHcRt c v (S h) rd w sd hd p m ft rq rs ev
  | HcAsyncRead _ => mkHcRt c v h (S rd) w sd hd p m ft rq rs ev
  | HcAsyncWrite x => mkHcRt c v h rd (w ++ [x]) sd hd p m ft rq (rs ++ [x]) ev
  | HcAsyncShutdown | HcShutdownSend => mkHcRt c v h rd w (S sd) hd p m ft rq rs ev
  | HcSession s t => mkHcRt c v h rd w sd hd p (m ++ [(s, t)]) ft rq rs ev
  | HcEvent e =>
      mkHcRt c v h rd w sd
        (match e with HePost (TaskHttp _ x) => hd ++ [x] | _ => hd end) p m ft rq rs (ev ++ [e])
  end.

Definition hc_run (m : HC unit) (r : hc_rt Srv) : hc_rt Srv :=
  let '(mkHcRt c v h rd w sd hd p mv ft rq rs ev) := r in
  match m (c, v) with
  | (res, (c', v'), ops) =>
      foldl (λ r o, hc_apply o r)
        (mkHcRt c' v' h rd w sd hd p mv
           (match res with Ok _ => ft | Throw f => Some f end) rq rs ev) ops
  end.

(** A handler's wrapper replies exactly once ([HttpWrapper.reply_exactly_once]): [HReply]
    posts the closure; the message is read when the closure runs. *)
Inductive hc_label :=
  | HHandshake (r : error_code + nat)
  | HRead (r : error_code + CHttpRequest)
  | HReply
  | HResponse (msg : HttpMsg)
  | HWritten (ec : option error_code)
  | HServer (srv : Srv)
  | HServerGone.

Definition hc_exec (l : hc_label) (r : hc_rt Srv) : option (hc_rt Srv) :=
  let '(mkHcRt c v h rd w sd hd p m ft rq rs ev) := r in
  match l with
  | HHandshake x =>
      match h with
      | O => None
      | S h' => Some (hc_run (OnHandshake x) (mkHcRt c v h' rd w sd hd p m ft rq rs ev))
      end
  | HRead x =>
      match rd with
      | O => None
      | S rd' =>
          Some (hc_run (OnRead set_result prepare_payload self x)
                  (mkHcRt c v h rd' w sd hd p m ft
                     (match x with inl _ => rq | inr q => rq ++ [q] end) rs ev))
      end
  | HReply =>
      match hd with
      | [] => None
      | _ :: hd' => Some (mkHcRt c v h rd w sd hd' (S p) m ft rq rs ev)
      end
  | HResponse msg =>
      match p with
      | O => None
      | S p' => Some (hc_run (SendResponse set_result prepare_payload msg)
                        (mkHcRt c v h rd w sd hd p' m ft rq rs ev))
      end
  | HWritten ec =>
      match w with
      | [] => None
      | x :: w' => Some (hc_run (OnWritten IS_SSL x ec) (mkHcRt c v h rd w' sd hd p m ft rq rs ev))
      end
  | HServer srv =>
      match v with
      | Some _ => Some (mkHcRt c (Some srv) h rd w sd hd p m ft rq rs ev)
      | None => None
      end
  | HServerGone => Some (mkHcRt c None h rd w sd hd p m ft rq rs ev)
  end.

Definition hc_step (r r' : hc_rt Srv) : Prop := ∃ l, hc_exec l r = Some r'.

Definition hc_start (settings : CServerSettings) (buffer : list byte) (srv : option Srv) : hc_rt Srv :=
  hc_run (Run IS_SSL) (mkHcRt (mkHttpConn buffer settings) srv 0 0 [] 0 [] 0 [] None [] [] []).

Definition hc_reachable (settings : CServerSettings) (r : hc_rt Srv) : Prop :=
  ∃ buffer srv, star hc_step (hc_start settings buffer srv) r.

End Run.

(** What the application hands over is decided by the server it asks: the calls [ev] took
    the server from one state to another. *)
Inductive hc_called {Srv} `{IServerEvents Srv} : list hc_event → Srv → Srv → Prop :=
  | hcc_nil v : hc_called [] v v
  | hcc_upgrade p b ev v v' v'' :
      UpgradeAllowed p v = (Ok b, v') → hc_called ev v' v'' →
      hc_called (HeUpgradeAllowed p b :: ev) v v''
  | hcc_next i ev v v' v'' :
      NextConnectionId v = (Ok i, v') → hc_called ev v' v'' →
      hc_called (HeNextConnectionId i :: ev) v v''
  | hcc_find p h ev v v' v'' :
      FindHttpHandler p v = (Ok h, v') → hc_called ev v' v'' →
      hc_called (HeFindHttpHandler p h :: ev) v v''
  | hcc_post h x ev v v' v'' :
      PostCallback (TaskHttp h x) v = (Ok tt, v') → hc_called ev v' v'' →
      hc_called (HePost (TaskHttp h x) :: ev) v v''
  | hcc_log m ev v v' v'' :
      LogError m v = (Ok tt, v') → hc_called ev v' v'' → hc_called (HeLog m :: ev) v v''.

(** The closures a connection posted, and the wrappers in them. *)
Definition http_posts (ev : list hc_event) : list task :=
  omap (λ e, match e with HePost t => Some t | _ => None end) ev.

Definition task_wrapper (t : task) : option CHttpWrapper :=
  match t with TaskHttp _ w => Some w | _ => None end.

Definition http_wrappers (ev : list hc_event) : list CHttpWrapper := omap task_wrapper (http_posts ev).

(** Completions of the connection's own operations. *)
Definition hc_own {Srv} (l : hc_label (Srv:=Srv)) : bool :=
  match l with HHandshake _ | HRead _ | HWritten _ => true | _ => false end.

(** [t] asks a handler to answer [q] on the connection [self]. *)
Definition asks (self : nat) (q : CHttpRequest) (t : task) : Prop :=
  req_is_upgrade q = false
  ∧ ∃ h query id,
      ParseTarget (req_target q) ∅ = Ok (target_path (req_target q), query)
      ∧ t = TaskHttp h (CHttpWrapper_new
              (Some (request_msg q (target_path (req_target q)) query id)) (Some self)).

(** What a connection does about a request it has read, as calls on the server: an upgrade
    is checked; a plain request gets an id and its handler is looked up, and if there is
    one, the closure that calls it is posted. *)
Inductive decides (self : nat) (q : CHttpRequest) : list hc_event → Prop :=
  | decides_upgrade b :
      req_is_upgrade q = true → decides self q [HeUpgradeAllowed (target_path (req_target q)) b]
  | decides_handler id h query :
      req_is_upgrade q = false →
      ParseTarget (req_target q) ∅ = Ok (target_path (req_target q), query) →
      decides self q
        [HeNextConnectionId id; HeFindHttpHandler (target_path (req_target q)) (Some h);
         HePost (TaskHttp h (CHttpWrapper_new
                   (Some (request_msg q (target_path (req_target q)) query id)) (Some self)))]
  | decides_none id :
      req_is_upgrade q = false →
      decides self q
        [HeNextConnectionId id; HeFindHttpHandler (target_path (req_target q)) None].

(** The calls other than log lines. *)
Definition is_decision (e : hc_event) : bool := match e with HeLog _ => false | _ => true end.

(** ** Invariant *)

Section Invariant.
Context {Srv : Type} `{ServerEventsLaws Srv}.
Context (set_result : Z → res unit) (prepare_payload : CHttpResponse → res unit).
Context (IS_SSL : bool) (self : nat).
Implicit Type r : hc_rt Srv.

(** The things a connection can be waiting for. *)
Definition waiting r : nat :=
  hc_handshakes r + hc_reads r + length (hc_writes r) + hc_shutdowns r
  + length (hc_handlers r) + hc_posts r + length (hc_sessions r).

(** Requests read and not yet answered. *)
Definition unanswered r : nat :=
  length (hc_handlers r) + hc_posts r + length (hc_sessions r).

Record hc_inv r : Prop := {
  hi_one : waiting r ≤ 1;
  hi_most : length (hc_responses r) + unanswered r ≤ length (hc_requests r);
  hi_all : hc_fault r = None → is_Some (hc_srv r) →
           length (hc_responses r) + unanswered r = length (hc_requests r);
  hi_wrappers : ∀ w, w ∈ hc_handlers r →
                ∃ m, w = CHttpWrapper_new (Some m) (Some self)
}.

(** Symbolic execution of a handler. *)
Ltac hc_unfold :=
  unfold hc_run, Run, OnHandshake, OnRead, OnWritten, SendResponse, SendErrorResponse,
    HandleHttpRequest, DoRead, DoWrite, DoShutdown, SetRequestExpiry, LogUnexpected,
    hc_LogError, on_events, lock_call, bind, ret, throw, gets, modify, emit, of_res; cbn.

Ltac hc_calls :=
  match goal with
  | |- context [LogError ?a ?b] => destruct (LogError_total a b) as (? & ->)
  | |- context [NextConnectionId ?a] => destruct (NextConnectionId_total a) as (? & ? & ->)
  | |- context [FindHttpHandler ?a ?b] => destruct (FindHttpHandler_total a b) as ([?|] & ? & ->)
  | |- context [UpgradeAllowed ?a ?b] => destruct (UpgradeAllowed_total a b) as ([] & ? & ->)
  | |- context [PostCallback ?a ?b] => destruct (PostCallback_total a b) as (? & ->)
  end; cbn.

Ltac hc_thrown :=
  match goal with
  | |- context [set_result ?a] => destruct (set_result a) as [[]|?]
  | |- context [prepare_payload ?a] => destruct (prepare_payload a) as [[]|?]
  end; cbn.

Ltac hc_done :=
  split; unfold waiting, unanswered in *; cbn in *; rewrite ?length_app in *; cbn in *;
    try lia; try (intros; by eauto); try (intros ? []%not_elem_of_nil);
    try (let Hf := fresh in let Hv := fresh in intros Hf Hv;
         match goal with Hall : _ = None → _ → _ = _ |- _ =>
           first [discriminate|destruct Hv; discriminate
                 |specialize (Hall Hf ltac:(by eauto)); cbn in Hall; lia] end).

Lemma hc_inv_start settings buffer srv :
  hc_inv (hc_start (Srv:=Srv) IS_SSL settings buffer srv).
Proof. unfold hc_start. hc_unfold. destruct IS_SSL; cbn; hc_done. Qed.

Lemma hc_inv_step l r r' :
  hc_inv r → hc_exec set_result prepare_payload IS_SSL self l r = Some r' → hc_inv r'.
Proof.
  destruct r as [c v h rd w sd hd p m ft rq rs ev].
  intros [Hone Hmost Hall Hwr] He. unfold waiting, unanswered in *; cbn in *.
  destruct l as [x|x| |msg|ec|srv|]; cbn [hc_exec] in He.
  - destruct h as [|h]; simplify_eq. destruct hd; simpl in *; [|lia].
    destruct x as [ec|n]; hc_unfold; [|hc_done].
    destruct (_ || _); cbn; [hc_done|]. destruct v; cbn; [hc_calls|]; hc_done.
  - destruct rd as [|rd]; simplify_eq. destruct hd; simpl in *; [|lia].
    destruct x as [ec|q]; hc_unfold.
    { destruct (ec_is EcEndOfStream ec); cbn; [hc_done|].
      destruct (_ || _); cbn; [hc_done|]. destruct v; cbn; [hc_calls|]; hc_done. }
    destruct v as [srv|]; cbn; [|hc_done].
    destruct (ParseTarget_path (req_target q) ∅) as [ps ->]. cbn.
    destruct (req_is_upgrade q); cbn; hc_calls; [hc_done|repeat hc_thrown; hc_done|].
    hc_calls; [hc_calls; hc_done|repeat hc_thrown; hc_done].
    intros w' ->%list_elem_of_singleton. by eexists.
  - destruct hd as [|w0 hd]; simplify_eq. hc_done. intros w' Hw'. apply Hwr. by right.
  - destruct p as [|p]; simplify_eq. destruct hd; simpl in *; [|lia].
    hc_unfold. repeat hc_thrown; hc_done.
  - destruct w as [|x w]; simplify_eq. destruct hd; simpl in *; [|lia].
    destruct ec as [e|]; hc_unfold.
    + destruct (_ || _); cbn; [hc_done|]. destruct v; cbn; [hc_calls|]; hc_done.
    + destruct (res_keep_alive x); cbn; [hc_done|]. destruct IS_SSL; cbn; hc_done.
  - destruct v; simplify_eq. split; try done. cbn. intros Hf _. apply Hall; eauto.
  - simplify_eq. split; try done. cbn. by intros _ [].
Qed.

Lemma hc_reachable_inv settings r :
  hc_reachable set_result prepare_payload IS_SSL self settings r → hc_inv r.
Proof.
  intros (buffer & srv & Hrun).
  apply (star_invariant hc_inv _ _) in Hrun; [done| |apply hc_inv_start].
  intros x y Hx [l Hl]. by eapply hc_inv_step.
Qed.

(** *** What one step does *)

Record hc_effect (r r' : hc_rt Srv) (new : list hc_event) (v v' : Srv) : Prop := {
  he_srv : hc_srv r' = Some v';
  he_events : hc_events r' = hc_events r ++ new;
  he_called : hc_called new v v';
  he_handlers : hc_handlers r' = hc_handlers r ++ http_wrappers new;
  he_posts : hc_posts r' = hc_posts r;
  he_sessions : ∃ ss, hc_sessions r' = hc_sessions r ++ ss
}.

Tactic Notation "he_done" open_constr(new) :=
  exists new; eexists; split; cbn; rewrite ?app_nil_r, <-?app_assoc; try reflexivity;
    first [by exists []; rewrite app_nil_r|by eexists
          |repeat (econstructor; try eassumption)].

Lemma hc_exec_effect l r r' v :
  hc_srv r = Some v → hc_own l = true →
  hc_exec set_result prepare_payload IS_SSL self l r = Some r' →
  ∃ new v', hc_effect r r' new v v'.
Proof.
  destruct r as [c v0 h rd w sd hd p m ft rq rs ev]. cbn [hc_srv]. intros -> Hl He.
  destruct l as [x|x| |msg|ec|srv|]; try done; cbn [hc_exec] in He.
  - destruct h as [|h]; simplify_eq. destruct x as [ec|n]; hc_unfold; [|he_done []].
    destruct (_ || _); cbn; [he_done []|].
    destruct (LogError_total (DescribeError "ssl handshake" ec) v) as [v' Hv]; rewrite Hv; cbn; he_done [HeLog _].
  - destruct rd as [|rd]; simplify_eq. destruct x as [ec|q]; hc_unfold.
    { destruct (ec_is EcEndOfStream ec); cbn; [he_done []|].
      destruct (_ || _); cbn; [he_done []|].
      destruct (LogError_total (DescribeError "http read" ec) v) as [v' Hv]; rewrite Hv; cbn; he_done [HeLog _]. }
    destruct (ParseTarget_path (req_target q) ∅) as [ps ->]. cbn.
    destruct (req_is_upgrade q); cbn.
    + destruct (UpgradeAllowed_total (target_path (req_target q)) v) as (b & v' & Hv). rewrite Hv.
      destruct b; cbn; [he_done [HeUpgradeAllowed _ true]|]. repeat hc_thrown; he_done [HeUpgradeAllowed _ false].
    + destruct (NextConnectionId_total v) as (i & v1 & H1). rewrite H1. cbn.
      destruct (FindHttpHandler_total (target_path (req_target q)) v1) as (o & v2 & H2). rewrite H2.
      destruct o as [hl|]; cbn; [|repeat hc_thrown; he_done [HeNextConnectionId _; HeFindHttpHandler _ _]].
      set (t := TaskHttp hl _). destruct (PostCallback_total t v2) as [v3 H3]. rewrite H3. cbn.
      he_done [HeNextConnectionId _; HeFindHttpHandler _ _; HePost _].
  - destruct w as [|x w]; simplify_eq. destruct ec as [e|]; hc_unfold.
    + destruct (_ || _); cbn; [he_done []|].
      destruct (LogError_total (DescribeError "http write" e) v) as [v' Hv]; rewrite Hv; cbn; he_done [HeLog _].
    + destruct (res_keep_alive x); cbn; [he_done []|]. destruct IS_SSL; cbn; he_done [].
Qed.

Lemma hc_reply_effect r r' :
  hc_exec set_result prepare_payload IS_SSL self HReply r = Some r' →
  (∃ x, hc_handlers r = x :: hc_handlers r') ∧ hc_posts r' = S (hc_posts r)
  ∧ hc_srv r' = hc_srv r ∧ hc_events r' = hc_events r ∧ hc_sessions r' = hc_sessions r.
Proof. destruct r as [c v h rd w sd [|x hd] p m ft rq rs ev]; cbn; intros; simplify_eq. by split; [eexists|]. Qed.

Lemma hc_response_effect msg r r' :
  hc_exec set_result prepare_payload IS_SSL self (HResponse msg) r = Some r' →
  hc_posts r = S (hc_posts r') ∧ hc_handlers r' = hc_handlers r
  ∧ hc_srv r' = hc_srv r ∧ hc_events r' = hc_events r ∧ hc_sessions r' = hc_sessions r.
Proof.
  destruct r as [c v h rd w sd hd [|p] m ft rq rs ev]; cbn [hc_exec]; intros; simplify_eq.
  hc_unfold. by repeat hc_thrown.
Qed.

(** *** Where the closures and the session come from *)

(** The closures ask for requests in the order these were read; the stream moves into a
    session for the last of them, an upgrade the server allowed. *)
Record hc_past settings r : Prop := {
  hp_settings : mSettings (hc_conn r) = settings;
  hp_posts : ∃ qs, qs `sublist_of` hc_requests r ∧ Forall2 (asks self) qs (http_posts (hc_events r));
  hp_sessions s t : (s, t) ∈ hc_sessions r →
    s = settings ∧ ∃ q, last (hc_requests r) = Some q ∧ req_is_upgrade q = true ∧ req_target q = t
                        ∧ HeUpgradeAllowed (target_path t) true ∈ hc_events r;
  (** while the server lives, something is done about every request *)
  hp_decided : is_Some (hc_srv r) →
    ∃ cs, Forall2 (decides self) (hc_requests r) cs
      ∧ List.filter is_decision (hc_events r) = concat cs
}.

Lemma http_posts_app ev ev' : http_posts (ev ++ ev') = http_posts ev ++ http_posts ev'.
Proof. apply omap_app. Qed.

Lemma hc_run_past settings r r' new :
  mSettings (hc_conn r') = mSettings (hc_conn r) → hc_requests r' = hc_requests r →
  hc_events r' = hc_events r ++ new → http_posts new = [] → hc_sessions r' = hc_sessions r →
  List.filter is_decision new = [] → (is_Some (hc_srv r') → is_Some (hc_srv r)) →
  hc_past settings r → hc_past settings r'.
Proof.
  intros H1 H2 H3 H4 H5 H6 H7 [P1 (qs & Hsub & Hqs) P3 P4]. split; [congruence| | |].
  - exists qs. by rewrite H2, H3, http_posts_app, H4, app_nil_r.
  - intros s t. rewrite H5, H2, H3. intros Hin. destruct (P3 s t Hin) as (-> & q & ? & ? & ? & Hev).
    split; [done|]. exists q. split_and!; try done. apply elem_of_app. by left.
  - intros Hs. by rewrite H2, H3, List.filter_app, H6, app_nil_r; auto.
Qed.

Tactic Notation "hp_done" open_constr(new) :=
  match goal with HP : hc_past _ _ |- _ => refine (hc_run_past _ _ _ new _ _ _ _ _ _ _ HP) end;
    cbn; rewrite ?app_nil_r, <-?app_assoc; first [reflexivity | by intros; eauto].

(** A request was read: it is asked for, or not. *)
Lemma hc_past_read settings r r' q new :
  mSettings (hc_conn r') = mSettings (hc_conn r) → hc_requests r' = hc_requests r ++ [q] →
  hc_events r' = hc_events r ++ new →
  http_posts new = [] ∨ (∃ t, asks self q t ∧ http_posts new = [t]) →
  (is_Some (hc_srv r') → is_Some (hc_srv r) ∧ decides self q (List.filter is_decision new)) →
  hc_sessions r = [] →
  (hc_sessions r' = []
   ∨ (hc_sessions r' = [(mSettings (hc_conn r), req_target q)] ∧ req_is_upgrade q = true
      ∧ HeUpgradeAllowed (target_path (req_target q)) true ∈ new)) →
  hc_past settings r → hc_past settings r'.
Proof.
  intros H1 H2 H3 H4 H7 H5 H6 [P1 (qs & Hsub & Hqs) P3 P4]. split; [congruence| | |].
  - rewrite H2, H3, http_posts_app. destruct H4 as [->|(t & Ht & ->)].
    + exists qs. rewrite app_nil_r. split; [by apply sublist_inserts_r|done].
    + exists (qs ++ [q]). split; [by apply sublist_app|]. by apply Forall2_app; [|constructor].
  - intros s t Hin. destruct H6 as [H6|(H6 & Hup & Hev)]; rewrite H6 in Hin;
      [by apply not_elem_of_nil in Hin|].
    apply list_elem_of_singleton in Hin as [= -> ->]. split; [done|].
    exists q. rewrite H2, last_snoc, H3. split_and!; try done. apply elem_of_app. by right.
  - intros Hs. destruct (H7 Hs) as [Hs' Hd]. destruct (P4 Hs') as (cs & Hcs & Hev).
    exists (cs ++ [List.filter is_decision new]). rewrite H2, H3, List.filter_app, Hev, concat_app.
    cbn. rewrite app_nil_r. split; [|done]. by apply Forall2_app; [|constructor].
Qed.

Tactic Notation "hr_done" open_constr(new) :=
  match goal with HP : hc_past _ ?r, Hm : hc_sessions ?r = [] |- _ =>
    refine (hc_past_read _ _ _ _ new _ _ _ _ _ Hm _ HP) end;
    cbn; rewrite ?app_nil_r, <-?app_assoc; try reflexivity; try by left.

Lemma hc_past_step settings l r r' :
  hc_inv r → hc_exec set_result prepare_payload IS_SSL self l r = Some r' →
  hc_past settings r → hc_past settings r'.
Proof.
  destruct r as [c v h rd w sd hd p m ft rq rs ev]. intros [Hone _ _ _] He HP.
  unfold waiting in Hone; cbn in Hone. destruct l as [x|x| |msg|ec|srv|]; cbn [hc_exec] in He.
  - destruct h as [|h]; simplify_eq. destruct x as [ec|n]; hc_unfold; [|hp_done []].
    destruct (_ || _); cbn; [hp_done []|]. destruct v; cbn; [hc_calls; hp_done [HeLog _]|hp_done []].
  - destruct rd as [|rd]; simplify_eq. destruct x as [ec|q]; hc_unfold.
    { destruct (ec_is EcEndOfStream ec); cbn; [hp_done []|].
      destruct (_ || _); cbn; [hp_done []|]. destruct v; cbn; [hc_calls; hp_done [HeLog _]|hp_done []]. }
    assert (m = []) as -> by (apply length_zero_iff_nil; lia).
    assert (Hm : hc_sessions (mkHcRt c v h (S rd) w sd hd p [] ft rq rs ev) = []) by done.
    destruct v as [srv|]; cbn; [|hr_done []; by intros []].
    destruct (ParseTarget_path (req_target q) ∅) as [ps Hps]. rewrite Hps. cbn.
    destruct (req_is_upgrade q) eqn:Hup; cbn; hc_calls.
    + hr_done [HeUpgradeAllowed _ true]; [intros _; split; [by eexists|by constructor]|].
      right. split_and!; [done|done|by left].
    + repeat hc_thrown; hr_done [HeUpgradeAllowed _ false];
        intros _; (split; [by eexists|by constructor]).
    + hc_calls.
      * hc_calls. hr_done [HeNextConnectionId _; HeFindHttpHandler _ _; HePost _].
        { right. eexists. split; [|done]. split; [done|]. by eexists _, _, _. }
        intros _. split; [by eexists|by econstructor].
      * repeat hc_thrown; hr_done [HeNextConnectionId _; HeFindHttpHandler _ _];
          intros _; (split; [by eexists|by econstructor]).
  - destruct hd as [|w0 hd]; simplify_eq. hp_done [].
  - destruct p as [|p]; simplify_eq. hc_unfold. repeat hc_thrown; hp_done [].
  - destruct w as [|x w]; simplify_eq. destruct ec as [e|]; hc_unfold.
    + destruct (_ || _); cbn; [hp_done []|]. destruct v; cbn; [hc_calls; hp_done [HeLog _]|hp_done []].
    + destruct (res_keep_alive x); cbn; [hp_done []|]. destruct IS_SSL; cbn; hp_done [].
  - destruct v; simplify_eq. hp_done [].
  - simplify_eq. hp_done [].
Qed.

Lemma hc_reachable_past settings r :
  hc_reachable set_result prepare_payload IS_SSL self settings r → hc_past settings r.
Proof.
  intros (buffer & srv & Hrun).
  apply (star_invariant (λ r, hc_inv r ∧ hc_past settings r) _ _) in Hrun; [by destruct Hrun| |].
  - intros x y [Hx Hp] [l Hl]. split; [by eapply hc_inv_step|by eapply hc_past_step].
  - split; [apply hc_inv_start|]. unfold hc_start. hc_unfold.
    destruct IS_SSL; cbn; (split; [done|by exists []| |by exists []]); intros s t []%not_elem_of_nil.
Qed.

End Invariant.

(** ** Properties *)

(** C30. Whatever completes in whatever order, a connection waits for at most one thing: an
    operation on the stream, a handler's reply, or nothing because the stream moved into
    a session.  So requests are answered one by one in order: never more responses than
    requests, and while the server lives and no response was refused by Beast, every
    request is answered, with a handler, or became a session. *)
Theorem http_one_request_at_a_time {Srv} `{ServerEventsLaws Srv} set_result prepare_payload isSsl
    self settings (r : hc_rt Srv) :
  hc_reachable set_result prepare_payload isSsl self settings r →
  waiting r ≤ 1
  ∧ length (hc_responses r) + unanswered r ≤ length (hc_requests r)
  ∧ (hc_fault r = None → is_Some (hc_srv r) →
     length (hc_responses r) + unanswered r = length (hc_requests r)).
Proof.
  intros [H1 H2 H3 _]%hc_reachable_inv. auto.
Qed.

(** A plain request gets the next id and goes to the handler of its uri through the
    workqueue, wrapped with this connection's reply function; without a handler it gets a
    404 that keeps the connection as the request asked. *)
Theorem http_request_dispatch {Srv} `{ServerEventsLaws Srv} set_result prepare_payload self
    (c : HttpConn) (srv : Srv) q :
  req_is_upgrade q = false →
  let path := target_path (req_target q) in
  ∃ query id srv1 handler srv2,
    ParseTarget (req_target q) ∅ = Ok (path, query)
    ∧ NextConnectionId srv = (Ok id, srv1) ∧ FindHttpHandler path srv1 = (Ok handler, srv2)
    ∧ let found := [HcEvent (HeNextConnectionId id); HcEvent (HeFindHttpHandler path handler)] in
      match handler with
      | Some h =>
          let t := TaskHttp h (mkHttpWrapper (Some (request_msg q path query id)) (Some self)
                                 false) in
          ∃ srv3, PostCallback t srv2 = (Ok tt, srv3)
            ∧ OnRead set_result prepare_payload self (inr q) (c, Some srv)
              = (Ok tt, (c, Some srv3), found ++ [HcEvent (HePost t)])
      | None =>
          let resp := error_response q 404 "Not Found" (no_handler_body path)
                        (req_keep_alive q) in
          set_result 404%Z = Ok tt → prepare_payload resp = Ok tt →
          OnRead set_result prepare_payload self (inr q) (c, Some srv)
          = (Ok tt, (c, Some srv2),
             found ++ [HcExpiry (expiry_of (handshakeTimeoutS (mSettings c))); HcAsyncWrite resp])
      end.
Proof.
  intros Hup path. destruct (ParseTarget_path (req_target q) ∅) as [query Hp]. fold path in Hp.
  destruct (NextConnectionId_total srv) as (id & srv1 & Hid).
  destruct (FindHttpHandler_total path srv1) as (handler & srv2 & Hh).
  exists query, id, srv1, handler, srv2. split_and!; [done..|]. intros found.
  assert (Hrun : ∀ w, w = (c, Some srv) →
    OnRead set_result prepare_payload self (inr q) w
    = HandleHttpRequest set_result prepare_payload self q w).
  { intros w ->. unfold OnRead. rewrite Hup.
    generalize (HandleHttpRequest set_result prepare_payload self q). intros m.
    unfold bind, gets. cbn. by destruct (m _) as [[r w] ops]. }
  unfold found. destruct handler as [h|].
  - set (t := TaskHttp h _). destruct (PostCallback_total t srv2) as [srv3 Hpost].
    exists srv3. split; [done|]. rewrite Hrun by done.
    unfold HandleHttpRequest, bind, of_res, on_events, lock_call. rewrite Hp. cbn.
    rewrite Hid. cbn. rewrite Hh. cbn. unfold CHttpWrapper_new. fold t. by rewrite Hpost.
  - intros Hset Hprep. rewrite Hrun by done.
    unfold HandleHttpRequest, bind, of_res, on_events, lock_call. rewrite Hp. cbn.
    rewrite Hid. cbn. rewrite Hh. cbn.
    unfold SendErrorResponse, DoWrite, SetRequestExpiry, bind, of_res, gets, emit. cbn.
    rewrite Hset. cbn. by rewrite Hprep.
Qed.

(** An upgrade request the filter allows moves the stream into a session, with the
    connection's settings and the full target; a refused one gets a 404 and the
    connection will close. *)
Theorem http_upgrade_dispatch {Srv} `{ServerEventsLaws Srv} set_result prepare_payload self
    (c : HttpConn) (srv : Srv) q :
  req_is_upgrade q = true →
  let path := target_path (req_target q) in
  ∃ allowed srv1, UpgradeAllowed path srv = (Ok allowed, srv1)
    ∧ if allowed : bool then
        OnRead set_result prepare_payload self (inr q) (c, Some srv)
        = (Ok tt, (c, Some srv1),
           [HcEvent (HeUpgradeAllowed path true); HcSession (mSettings c) (req_target q)])
      else
        let resp := error_response q 404 "Not Found" (not_allowed_body path) false in
        set_result 404%Z = Ok tt → prepare_payload resp = Ok tt →
        OnRead set_result prepare_payload self (inr q) (c, Some srv)
        = (Ok tt, (c, Some srv1),
           [HcEvent (HeUpgradeAllowed path false);
            HcExpiry (expiry_of (handshakeTimeoutS (mSettings c))); HcAsyncWrite resp]).
Proof.
  intros Hup path. destruct (ParseTarget_path (req_target q) ∅) as [query Hp]. fold path in Hp.
  destruct (UpgradeAllowed_total path srv) as (allowed & srv1 & Ha).
  exists allowed, srv1. split; [done|].
  unfold OnRead, bind, gets, on_events, lock_call, of_res, emit. cbn. rewrite Hup, Hp. cbn.
  rewrite Ha. destruct allowed; cbn; [done|]. intros Hset Hprep.
  unfold SendErrorResponse, DoWrite, SetRequestExpiry, bind, of_res, gets, emit. cbn.
  rewrite Hset. cbn. by rewrite Hprep.
Qed.

(** After a response is written the connection reads the next request exactly when the
    response said keep-alive, and shuts the stream down otherwise. *)
Lemma http_after_write {Srv} `{IServerEvents Srv} isSsl resp (c : HttpConn) (v : option Srv) :
  OnWritten isSsl resp None (c, v)
  = (Ok tt, (c, v),
     if res_keep_alive resp then
       [HcExpiry (expiry_of (handshakeTimeoutS (mSettings c))); HcAsyncRead HTTP_BODY_LIMIT]
     else [if isSsl then HcAsyncShutdown else HcShutdownSend]).
Proof. unfold OnWritten. by destruct (res_keep_alive resp), isSsl. Qed.

(** ** Concrete runs *)

(** What Beast documents: [result] refuses numbers above 999, [prepare_payload] a body
    on a status that cannot have one. *)
Definition beast_result (code : Z) : res unit :=
  if Z.ltb 999 code then Throw (InvalidArgument "invalid status-code") else Ok tt.
Definition beast_payload (r : CHttpResponse) : res unit :=
  if (Z.eqb (res_result r) 204 || Z.eqb (res_result r) 304) && negb (bool_decide (res_body r = []))
  then Throw (InvalidArgument "invalid response body") else Ok tt.

Definition demo_request (target : string) (upgrade : bool) : CHttpRequest :=
  mkHttpRequest target "GET" 11 true [] "" upgrade.

Fixpoint hc_exec_all (ls : list (hc_label (Srv:=recorder))) (r : hc_rt recorder)
    : option (hc_rt recorder) :=
  match ls with
  | [] => Some r
  | l :: ls' =>
      match hc_exec beast_result beast_payload false 5 l r with
      | Some r' => hc_exec_all ls' r'
      | None => None
      end
  end.

Definition demo_http (ls : list (hc_label (Srv:=recorder))) : hc_rt recorder :=
  let r0 := hc_start false (default_server_settings 0) [] (Some (mkRecorder 1 [])) in
  default r0 (hc_exec_all ls r0).

Lemma demo_http_reachable ls :
  hc_reachable beast_result beast_payload false 5 (default_server_settings 0) (demo_http ls).
Proof.
  exists [], (Some (mkRecorder 1 [])). unfold demo_http. cbv zeta.
  generalize (hc_start false (default_server_settings 0) [] (Some (mkRecorder 1 []))).
  induction ls as [|l ls IH]; intros r; cbn; [constructor|].
  destruct (hc_exec _ _ _ _ l r) as [r'|] eqn:He; [|constructor].
  specialize (IH r'). destruct (hc_exec_all ls r') as [r''|]; [|constructor].
  econstructor; [by exists l|exact IH].
Qed.

Lemma http_one_request_at_a_time_witness :
  length (hc_responses (demo_http [HRead (inr (demo_request "/a" false)); HReply;
            HResponse default_HttpMsg; HWritten None])) = 1
  ∧ waiting (demo_http [HRead (inr (demo_request "/a" false)); HReply;
            HResponse default_HttpMsg; HWritten None]) ≤ 1.
Proof.
  split; [by vm_compute|].
  apply (http_one_request_at_a_time beast_result beast_payload false 5 (default_server_settings 0)).
  apply demo_http_reachable.
Defined.

Lemma http_request_dispatch_witness :
  req_is_upgrade (demo_request "/a?b=c" false) = false
  ∧ ∃ handler srv2, FindHttpHandler "/a" (mkRecorder 2 []) = (Ok handler, srv2)
                    ∧ handler = Some 0.
Proof.
  split; [done|].
  destruct (http_request_dispatch beast_result beast_payload 5
              (mkHttpConn [] (default_server_settings 0)) (mkRecorder 1 [])
              (demo_request "/a?b=c" false) eq_refl)
    as (query & id & srv1 & handler & srv2 & _ & Hid & Hh & _).
  exists handler, srv2. vm_compute in Hid. simplify_eq. vm_compute in Hh. by simplify_eq.
Defined.

Lemma http_upgrade_dispatch_witness :
  req_is_upgrade (demo_request "/a?b=c" true) = true
  ∧ OnRead beast_result beast_payload 5 (inr (demo_request "/a?b=c" true))
      (mkHttpConn [] (default_server_settings 0), Some (mkRecorder 1 []))
    = (Ok tt, (mkHttpConn [] (default_server_settings 0), Some (mkRecorder 1 [])),
       [HcEvent (HeUpgradeAllowed "/a" true);
        HcSession (default_server_settings 0) "/a?b=c"]).
Proof.
  split; [done|].
  destruct (http_upgrade_dispatch beast_result beast_payload 5
              (mkHttpConn [] (default_server_settings 0)) (mkRecorder 1 [])
              (demo_request "/a?b=c" true) eq_refl) as (allowed & srv1 & Ha & Hr).
  vm_compute in Ha. simplify_eq. exact Hr.
Defined.

(** The target of a request reaches the JSON error body unescaped: the body of the 404 is
    the JSON the header promises exactly when the path is JSON-string safe, and a
    quote in the path breaks it. *)
Theorem not_found_body_json uri :
  (json_message (no_handler_body uri)
     = Some ("Not Found", "No handler registered for '" +:+ uri +:+ "'")
   ↔ json_safe uri = true)
  ∧ json_message (no_handler_body ("/a" +:+ dquote +:+ "b")) = None.
Proof.
  split; [|by vm_compute]. unfold no_handler_body. rewrite error_message_json.
  assert (Happ : ∀ s t, json_safe (s +:+ t) = json_safe s && json_safe t).
  { intros s t. induction s as [|ch s IH]; [done|]. rewrite sapp_cons. cbn.
    by rewrite IH, andb_assoc. }
  rewrite !Happ. destruct (json_safe uri); vm_compute; split; [done|done|by intros []|done].
Qed.

(** A handler that replies with a status above 999, or with a body under 204, makes the
    closure on the IO thread throw; nothing there catches it. *)
Theorem reply_can_throw_on_io_thread :
  ∃ (r : hc_rt recorder) what,
    hc_reachable beast_result beast_payload false 5 (default_server_settings 0) r
    ∧ hc_fault r = Some (InvalidArgument what) ∧ hc_writes r = [].
Proof.
  exists (demo_http [HRead (inr (demo_request "/a" false)); HReply;
    HResponse (mkHttpMsg [] true 11 "" "" "OK" 1000 0 "" ∅)]), "invalid status-code".
  split; [apply demo_http_reachable|by vm_compute].
Qed.
