(* ===== verification/HttpSystem.v ===== *)
(** * The server with everything it accepts

    The system of System.v and Delivery.v (threads, worker, websocket sessions) together
    with what its accepted sockets become: a socket may be examined for ssl first
    ([CDetectSession]), is an http connection then ([CHttpConnection]), and may end as
    the stream of a session.  The wrappers of http requests are objects of their own: the
    application holds them, changes their message, replies whenever it likes, and
    destroys them.

    [front] [k] is the [k]th accepted socket; [hs_links] says which of them a session came
    from.  Wrapper [n] is the [n]th that was posted; [handed] counts the handlers called so
    far, which are called in that order ([callbacks_follow_posts]): a wrapper can be used
    once its handler has been called with it, and goes away unused when [Shutdown]
    discards the closure that holds it.  A handler of a connection runs to its end, its
    calls of the server included.  What a second [Reply] prints is left out. *)

From S2P Require Import Prelude CppString Uri Net Events WorkQueue WsSession Threads.
From S2P Require Import HttpWrapper Server ServerOps Registry System Delivery Steady HttpConnection.

(** ** State *)

Inductive front :=
  | Detecting (d : CDetectSession)           (** [async_detect_ssl] is outstanding *)
  | Dropped                                  (** it failed *)
  | Connected (isSsl : bool) (r : hc_rt world).

(** A wrapper: whose request it is, what it was made with, what it is now, and whether the
    last pointer to it has gone. *)
Record wrapper := mkWrapper {
  wr_front : nat;
  wr_task : task;
  wr_now : CHttpWrapper;
  wr_gone : bool
}.

Record hsystem := mkHs {
  hs_sys : system;
  hs_fronts : list front;
  hs_links : list nat;
  hs_wrappers : list wrapper;
  hs_replies : list nat          (** wrappers whose reply closure is posted to a strand *)
}.

(** A wrapper that has not answered yet. *)
Definition pending (w : wrapper) : bool := negb (mResponseSent (wr_now w)) && negb (wr_gone w).

(** The wrappers the application's handlers have been called with. *)
Definition http_calls (l : list invocation) : list CHttpWrapper :=
  omap (λ i, match i with CallHttp _ w => Some w | _ => None end) l.

Definition handed (st : hsystem) : nat :=
  length (http_calls (called (trace (sys_server (hs_sys st))))).

(** ** Steps *)

Inductive hs_label :=
  | HsServer (l : sched CImpl srv_op)
  | HsSession (i : nat) (l : ws_label (Srv:=world))
  | HsDetected (k : nat) (peeked : list byte) (r : error_code + bool)
  | HsHttp (k : nat) (l : hc_label (Srv:=world))   (** an operation of connection [k] completes *)
  | HsUse (n : nat) (a : handler_act)              (** the application uses wrapper [n] *)
  | HsDrop (n : nat)                               (** its last pointer goes away *)
  | HsRespond (j : nat).                           (** the [j]th posted reply closure runs *)

(** The server as a handler finds it, and what its calls made of it. *)
Definition current (st : system) : world := mkWorld (shared (sys_server st)) (sys_history st) [].

Definition after (w : world) (st : system) : system :=
  mkSystem (mkConfig (w_impl w) (pool (sys_server st)) (trace (sys_server st) ++ w_ops w))
    (w_history w) (deliver (w_ops w) (sys_sessions st)).

(** What an accepted socket becomes. *)
Definition accepted_front (w : world) (o : srv_op) : option front :=
  match o with
  | RunConnection PlainHttp _ s => Some (Connected false (hc_start false s [] (Some w)))
  | RunConnection (SslHttp _) _ s => Some (Connected true (hc_start true s [] (Some w)))
  | RunConnection (DetectSsl ctx) _ s => Some (Detecting (CDetectSession_new ctx s))
  | _ => None
  end.

Definition detected_front (w : world) (ops : list ds_op) : front :=
  match ops with
  | DsRun isSsl buffer s :: _ => Connected isSsl (hc_start isSsl s buffer (Some w))
  | _ => Dropped
  end.

(** Whether a session is an ssl one: what its connection was. *)
Definition hs_is_ssl (st : hsystem) (i : nat) : bool :=
  match k ← hs_links st !! i; hs_fronts st !! k with
  | Some (Connected isSsl _) => isSsl
  | _ => false
  end.

Section HttpSystem.
Context (app : application) (strict : Prop) {Happ : Behaves strict app}.
Context (settings : CServerSettings).
Context (set_result : Z → res unit) (prepare_payload : CHttpResponse → res unit).

(** A connection runs a handler: it calls the server, its stream may become a session, it
    may post a wrapper. *)
Definition front_exec (k : nat) (l : hc_label (Srv:=world)) (st : hsystem) : option hsystem :=
  let '(mkHs sys fs ls ws rs) := st in
  match fs !! k with
  | Some (Connected isSsl r) =>
      r0 ← hc_exec set_result prepare_payload isSsl k (HServer (current sys)) r;
      r1 ← hc_exec set_result prepare_payload isSsl k l r0;
      w ← hc_srv r1;
      let sys1 := after w sys in
      let new := drop (length (hc_events r)) (hc_events r1) in
      let moved := drop (length (hc_sessions r)) (hc_sessions r1) in
      Some (mkHs
        (mkSystem (sys_server sys1) (sys_history sys1)
           (sys_sessions sys1 ++ ((λ x, ws_start x.1 (Some (current sys1)) x.2) <$> moved)))
        (<[k := Connected isSsl r1]> fs)
        (ls ++ replicate (length moved) k)
        (ws ++ omap (λ t, (λ x, mkWrapper k t x false) <$> task_wrapper t) (http_posts new))
        rs)
  | _ => None
  end.

Definition set_wrapper (n : nat) (w : wrapper) (st : hsystem) : hsystem :=
  mkHs (hs_sys st) (hs_fronts st) (hs_links st) (<[n := w]> (hs_wrappers st)) (hs_replies st).

Definition set_replies (l : list nat) (st : hsystem) : hsystem :=
  mkHs (hs_sys st) (hs_fronts st) (hs_links st) (hs_wrappers st) l.

(** The reply function posts a closure to the strand of its connection. *)
Fixpoint post_replies (n : nat) (l : list nat) (st : hsystem) : option hsystem :=
  match l with
  | [] => Some st
  | k :: l' =>
      st' ← front_exec k HReply st;
      post_replies n l' (set_replies (hs_replies st' ++ [n]) st')
  end.

(** A member function of wrapper [n] runs; [gone] says whether the object remains. *)
Definition wrapper_exec (n : nat) (m : WR unit) (gone : bool) (st : hsystem) : option hsystem :=
  x ← hs_wrappers st !! n;
  let '(_, now, ops) := m (wr_now x) in
  post_replies n (replies ops)
    (set_wrapper n (mkWrapper (wr_front x) (wr_task x) now (wr_gone x || gone)) st).

Definition posting (fn : nat) : option fault := None.    (** posting to a strand does not throw *)

Definition hs_exec (l : hs_label) (st : hsystem) : option hsystem :=
  let '(mkHs sys fs ls ws rs) := st in
  match l with
  | HsServer l =>
      sys' ← sys_exec (hs_is_ssl st) settings (SysServer l) sys;
      let ops := drop (length (trace (sys_server sys))) (trace (sys_server sys')) in
      Some (mkHs sys' (fs ++ omap (accepted_front (current sys')) ops) ls ws rs)
  | HsSession i l =>
      sys' ← sys_exec (hs_is_ssl st) settings (SysSession i l) sys;
      Some (mkHs sys' fs ls ws rs)
  | HsDetected k peeked r =>
      match fs !! k with
      | Some (Detecting d) =>
          Some (mkHs sys (<[k := detected_front (current sys) (OnDetected d peeked r)]> fs) ls ws rs)
      | _ => None
      end
  | HsHttp k l => front_exec k l st
  | HsUse n a =>
      x ← ws !! n;
      (* a gone wrapper leaves the message to whoever kept it *)
      if wr_gone x && match a with ActReply => true | ActMutate _ => false end then None
      else wrapper_exec n (handler_run posting [a]) false st
  | HsDrop n =>
      x ← ws !! n;
      if wr_gone x then None else wrapper_exec n (CHttpWrapper_delete posting) true st
  | HsRespond j =>
      n ← rs !! j;
      x ← ws !! n;
      msg ← mHttpMsg (wr_now x);
      st' ← front_exec (wr_front x) (HResponse msg) st;
      Some (set_replies (delete j rs) st')
  end.

(** The closure that holds wrapper [n] was thrown away unused: the queue is stopped, and the
    worker is not the one that has it. *)
Definition discarded (n : nat) (st : hsystem) : Prop :=
  mStopped (mWorkQueue (shared (sys_server (hs_sys st)))) = true ∧ handed st ≤ n
  ∧ (n = handed st → Forall (never is_worker_op) (pool (sys_server (hs_sys st)))).

Definition hs_ok (l : hs_label) (st : hsystem) : Prop :=
  match l with
  | HsServer l => sys_ok app strict (SysServer l) ∧ one_round app (SysServer l) (hs_sys st)
  | HsSession _ l => own_label l = true
  | HsHttp _ l => hc_own l = true
  | HsUse n _ => n < handed st
  | HsDrop n => n < handed st ∨ discarded n st
  | HsDetected _ _ _ | HsRespond _ => True
  end.

Definition hs_step (st st' : hsystem) : Prop := ∃ l, hs_ok l st ∧ hs_exec l st = Some st'.

Definition hs_init (name : string) : hsystem := mkHs (sys_init settings name) [] [] [] [].

Definition hs_reachable (name : string) (st : hsystem) : Prop := star hs_step (hs_init name) st.

(** ** It is the system of System.v *)

#[local] Abbreviation served f := (served_step app strict f settings).

Lemma after_current (st : system) : after (current st) st = st.
Proof. destruct st as [[s ps tr] g ss]. unfold after. cbn. by rewrite app_nil_r. Qed.

Lemma after_after (st : system) s1 g1 o1 s2 g2 o2 :
  after (mkWorld s2 g2 o2) (after (mkWorld s1 g1 o1) st) = after (mkWorld s2 g2 (o1 ++ o2)) st.
Proof. unfold after, deliver. cbn. by rewrite foldl_app, app_assoc. Qed.

(** What a call does does not depend on what was called before. *)
Lemma on_world_ops {A} (p : SRV A) s g o :
  on_world p (mkWorld s g o)
  = let '(r, w) := on_world p (mkWorld s g []) in (r, mkWorld (w_impl w) (w_history w) (o ++ w_ops w)).
Proof. unfold on_world. cbn. by destruct (run p s) as [[r s'] ops]. Qed.

Lemma on_world_call {A} (p : SRV A) w : (on_world (call p) w).2 = (on_world p w).2.
Proof.
  unfold on_world.
  assert (Hobs : ∀ s g, run_obs observe (call p) s g = run_obs observe p s g).
  { unfold call. induction p as [[a|e]|upd next IH|e p IH]; intros s g; cbn; auto. }
  assert (Hrun : ∀ s, (run (call p) s).1.2 = (run p s).1.2 ∧ (run (call p) s).2 = (run p s).2).
  { unfold call. clear Hobs. induction p as [[a|e]|upd next IH|e p IH]; intros s; cbn; [done|done|apply IH|].
    destruct (IH s) as [H1 H2].
    destruct (run (pbind p _) s) as [[r1 s1] o1], (run p s) as [[r2 s2] o2]. cbn in *. by subst. }
  rewrite Hobs. destruct (Hrun (w_impl w)) as [H1 H2].
  destruct (run (call p) _) as [[r1 s1] o1], (run p _) as [[r2 s2] o2]. cbn in *. by subst.
Qed.

(** A call of a connection is a step of the system. *)
Lemma served_call f (p : SRV unit) st :
  conn_call p → served f st (after (on_world p (current st)).2 st).
Proof. intros Hp. exists (SysConnection p). split_and!; [done|done|]. by destruct st as [[s ps tr] g ss]. Qed.

Lemma served_calls f ev w0 w :
  hc_called ev w0 w →
  ∃ ops, w_ops w = w_ops w0 ++ ops
    ∧ ∀ st, current st = mkWorld (w_impl w0) (w_history w0) [] →
            star (served f) st (after (mkWorld (w_impl w) (w_history w) ops) st).
Proof.
  assert (Hone : ∀ (p : SRV unit) v v1 v2,
    conn_call p → (on_world p v).2 = v1 →
    (∃ ops, w_ops v2 = w_ops v1 ++ ops
       ∧ ∀ st, current st = mkWorld (w_impl v1) (w_history v1) [] →
               star (served f) st (after (mkWorld (w_impl v2) (w_history v2) ops) st)) →
    ∃ ops, w_ops v2 = w_ops v ++ ops
       ∧ ∀ st, current st = mkWorld (w_impl v) (w_history v) [] →
               star (served f) st (after (mkWorld (w_impl v2) (w_history v2) ops) st)).
  { intros p v v1 v2 Hp Hv (ops & Hops & Hst). destruct v as [s g o]. cbn in *.
    rewrite on_world_ops in Hv. destruct (on_world p (mkWorld s g [])) as [r w1] eqn:Hw.
    cbn in Hv. subst v1. cbn in *. exists (w_ops w1 ++ ops). split; [by rewrite Hops, app_assoc|].
    intros st Hcur. destruct w1 as [s1 g1 o1]. cbn in *.
    rewrite <-(after_after st s1 g1). eapply star_step; [by apply (served_call f p)|].
    rewrite Hcur, Hw. cbn. by apply Hst. }
  induction 1 as [v|p b ev v v1 v2 Hc _ IH|i ev v v1 v2 Hc _ IH|p h ev v v1 v2 Hc _ IH
    |h x ev v v1 v2 Hc _ IH|m ev v v1 v2 Hc _ IH].
  - exists []. rewrite app_nil_r. split; [done|]. intros st <-. rewrite after_current. constructor.
  - eapply (Hone (call (Server.UpgradeAllowed p))); [constructor| |exact IH].
    rewrite on_world_call. by change (on_world _ v) with (Events.UpgradeAllowed p v); rewrite Hc.
  - eapply (Hone (call Server.NextConnectionId)); [constructor| |exact IH].
    rewrite on_world_call. by change (on_world _ v) with (Events.NextConnectionId v); rewrite Hc.
  - eapply (Hone (call (Server.FindHttpHandler p))); [constructor| |exact IH].
    rewrite on_world_call. by change (on_world _ v) with (Events.FindHttpHandler p v); rewrite Hc.
  - eapply (Hone (Server.PostCallback (TaskHttp h x))); [constructor| |exact IH].
    by change (on_world _ v) with (Events.PostCallback (TaskHttp h x) v); rewrite Hc.
  - eapply (Hone (Server.LogError m)); [constructor| |exact IH].
    by change (on_world _ v) with (Events.LogError m v); rewrite Hc.
Qed.

(** A step of a connection, taken apart. *)
Definition local_label (l : hc_label (Srv:=world)) : bool :=
  match l with HServer _ | HServerGone => false | _ => true end.

Record front_step (k : nat) (l : hc_label (Srv:=world)) (st st' : hsystem) (isSsl : bool)
    (r r1 : hc_rt world) (w : world) (new : list hc_event)
    (moved : list (CServerSettings * string)) : Prop := {
  fs_before : hs_fronts st !! k = Some (Connected isSsl r);
  fs_steps : star (hc_step set_result prepare_payload isSsl k) r r1;
  fs_srv : hc_srv r1 = Some w;
  fs_called : hc_called new (current (hs_sys st)) w;
  fs_events : hc_events r1 = hc_events r ++ new;
  fs_sessions : hc_sessions r1 = hc_sessions r ++ moved;
  fs_waiting : match l with
               | HReply => (∃ x, hc_handlers r = x :: hc_handlers r1)
                           ∧ hc_posts r1 = S (hc_posts r) ∧ new = []
               | HResponse _ => hc_handlers r1 = hc_handlers r
                                ∧ hc_posts r = S (hc_posts r1) ∧ new = []
               | _ => hc_handlers r1 = hc_handlers r ++ http_wrappers new
                      ∧ hc_posts r1 = hc_posts r
               end;
  fs_after : let sys1 := after w (hs_sys st) in
    st' = mkHs
      (mkSystem (sys_server sys1) (sys_history sys1)
         (sys_sessions sys1 ++ ((λ x, ws_start x.1 (Some (current sys1)) x.2) <$> moved)))
      (<[k := Connected isSsl r1]> (hs_fronts st)) (hs_links st ++ replicate (length moved) k)
      (hs_wrappers st ++ omap (λ t, (λ x, mkWrapper k t x false) <$> task_wrapper t) (http_posts new))
      (hs_replies st)
}.

Lemma hc_exec_server isSsl k (w : world) r r0 :
  hc_exec set_result prepare_payload isSsl k (HServer w) r = Some r0 →
  hc_srv r0 = Some w ∧ hc_events r0 = hc_events r ∧ hc_sessions r0 = hc_sessions r
  ∧ hc_handlers r0 = hc_handlers r ∧ hc_posts r0 = hc_posts r.
Proof. destruct r as [c [v|] h rd ws sd hd p m ft rq rs ev]; cbn; intros; by simplify_eq. Qed.

Lemma front_exec_step k l st st' :
  local_label l = true → front_exec k l st = Some st' →
  ∃ isSsl r r1 w new moved, front_step k l st st' isSsl r r1 w new moved.
Proof.
  destruct st as [sys fs ls ws rs]. intros Hl He. cbn -[hc_exec after] in He.
  destruct (fs !! k) as [[d| |isSsl r]|] eqn:Hk; try done.
  destruct (hc_exec _ _ _ _ (HServer _) r) as [r0|] eqn:H0; [|done]. cbn -[hc_exec after] in He.
  destruct (hc_exec _ _ _ _ l r0) as [r1|] eqn:H1; [|done]. cbn -[hc_exec after] in He.
  destruct (hc_srv r1) as [w|] eqn:Hw; [|done]. cbn -[hc_exec after] in He.
  destruct (hc_exec_server _ _ _ _ _ H0) as (S0 & E0 & M0 & D0 & P0).
  assert (Hst : star (hc_step set_result prepare_payload isSsl k) r r1).
  { eapply star_step; [by exists (HServer (current sys))|]. apply star_one. by exists l. }
  assert (∃ new moved, hc_called new (current sys) w ∧ hc_events r1 = hc_events r ++ new
    ∧ hc_sessions r1 = hc_sessions r ++ moved
    ∧ match l with
      | HReply => (∃ x, hc_handlers r = x :: hc_handlers r1) ∧ hc_posts r1 = S (hc_posts r) ∧ new = []
      | HResponse _ => hc_handlers r1 = hc_handlers r ∧ hc_posts r = S (hc_posts r1) ∧ new = []
      | _ => hc_handlers r1 = hc_handlers r ++ http_wrappers new ∧ hc_posts r1 = hc_posts r
      end) as (new & moved & Hc & Hev & Hm & Hwait).
  { assert (Hown : hc_own l = true → ∃ new moved, hc_called new (current sys) w
      ∧ hc_events r1 = hc_events r ++ new ∧ hc_sessions r1 = hc_sessions r ++ moved
      ∧ hc_handlers r1 = hc_handlers r ++ http_wrappers new ∧ hc_posts r1 = hc_posts r).
    { intros Ho. destruct (hc_exec_effect _ _ _ _ _ _ _ _ S0 Ho H1)
        as (new & v' & [Hs He' Hc Hh Hp (moved & Hm)]).
      exists new, moved. rewrite Hw in Hs. simplify_eq. split_and!; congruence. }
    destruct l as [x|x| |msg|ec|srv|]; try done; try by apply Hown.
    - destruct (hc_reply_effect _ _ _ _ _ _ H1) as ((x & Hx) & Hp & Hs & He' & Hm). exists [], [].
      rewrite !app_nil_r. rewrite Hs, S0 in Hw. simplify_eq.
      split_and!; [constructor|congruence|congruence|exists x; congruence|congruence|done].
    - destruct (hc_response_effect _ _ _ _ _ _ _ H1) as (Hp & Hh & Hs & He' & Hm). exists [], [].
      rewrite !app_nil_r. rewrite Hs, S0 in Hw. simplify_eq.
      split_and!; [constructor|congruence|congruence|congruence|congruence|done]. }
  rewrite Hev, Hm, !drop_app_length in He. injection He as <-.
  exists isSsl, r, r1, w, new, moved. by split.
Qed.

(** ** Connections keep to their kind *)

(** What a socket may be, by the settings. *)
Definition front_fits (f : front) : Prop :=
  match f, accepts_as settings with
  | Detecting d, DetectSsl _ => ds_mSettings d = session_settings settings
  | Detecting _, _ => False
  | Dropped, _ | Connected _ _, DetectSsl _ => True
  | Connected isSsl _, SslHttp _ => isSsl = true
  | Connected isSsl _, PlainHttp => isSsl = false
  end.

Definition connection_ok (k : nat) (f : front) : Prop :=
  match f with
  | Connected isSsl r =>
      hc_reachable set_result prepare_payload isSsl k (session_settings settings) r
      ∧ is_Some (hc_srv r)
  | _ => True
  end.

Record hs_base (st : hsystem) : Prop := {
  hb_fits k f : hs_fronts st !! k = Some f → front_fits f ∧ connection_ok k f;
  hb_length : length (hs_links st) = length (sys_sessions (hs_sys st));
  hb_links i k : hs_links st !! i = Some k →
    ∃ isSsl r, hs_fronts st !! k = Some (Connected isSsl r)
}.

(** [f] says which sessions are ssl ones. *)
Definition agrees (f : nat → bool) (st : hsystem) : Prop :=
  ∀ i k isSsl r, hs_links st !! i = Some k → hs_fronts st !! k = Some (Connected isSsl r) →
                 f i = isSsl.

Lemma agrees_is_ssl st : hs_base st → agrees (hs_is_ssl st) st.
Proof. intros _ i k isSsl r Hi Hk. unfold hs_is_ssl. rewrite Hi. cbn. by rewrite Hk. Qed.

Lemma deliver_length ops ss : length (deliver ops ss) = length ss.
Proof.
  unfold deliver. revert ss. induction ops as [|o ops IH]; intros ss; [done|]. cbn. rewrite IH.
  destruct o; cbn; by rewrite ?length_alter.
Qed.

Lemma after_sessions w st : length (sys_sessions (after w st)) = length (sys_sessions st).
Proof. apply deliver_length. Qed.

(** Upgrades are steps of the system. *)
Lemma served_connects f moved (st : system) :
  Forall (λ x : CServerSettings * string, x.1 = session_settings settings) moved →
  star (served f) st
    (mkSystem (sys_server st) (sys_history st)
       (sys_sessions st ++ ((λ x, ws_start x.1 (Some (current st)) x.2) <$> moved))).
Proof.
  intros Hm. revert st. induction Hm as [|[s t] moved Hs _ IH]; intros [c g ss]; cbn.
  - rewrite app_nil_r. constructor.
  - cbn in Hs. subst s. eapply star_step; [exists (SysConnect t); by split_and!|].
    pose proof (IH (mkSystem c g (ss ++ [ws_start (session_settings settings)
      (Some (mkWorld (shared c) g [])) t]))) as Hrest. cbn [sys_server sys_history sys_sessions] in Hrest.
    rewrite <-app_assoc in Hrest. exact Hrest.
Qed.

Lemma front_reachable k l st st' isSsl r r1 w new moved :
  hs_base st → front_step k l st st' isSsl r r1 w new moved →
  hc_reachable set_result prepare_payload isSsl k (session_settings settings) r1.
Proof.
  intros Hb Hf. destruct (hb_fits _ Hb k _ (fs_before _ _ _ _ _ _ _ _ _ _ Hf)) as [_ [(buf & srv & Hr) _]].
  exists buf, srv. eapply star_trans; [exact Hr|apply Hf].
Qed.

Lemma front_moved k l st st' isSsl r r1 w new moved :
  hs_base st → front_step k l st st' isSsl r r1 w new moved →
  Forall (λ x, x.1 = session_settings settings) moved.
Proof.
  intros Hb Hf. pose proof (front_reachable _ _ _ _ _ _ _ _ _ _ Hb Hf) as Hr.
  apply hc_reachable_past in Hr. apply Forall_forall. intros [s t] Hin.
  apply (hp_sessions _ _ _ Hr s t). rewrite (fs_sessions _ _ _ _ _ _ _ _ _ _ Hf).
  apply elem_of_app. by right.
Qed.

Lemma front_step_served f k l st st' isSsl r r1 w new moved :
  hs_base st → front_step k l st st' isSsl r r1 w new moved →
  star (served f) (hs_sys st) (hs_sys st').
Proof.
  intros Hb Hf. pose proof (front_moved _ _ _ _ _ _ _ _ _ _ Hb Hf) as Hm.
  rewrite (fs_after _ _ _ _ _ _ _ _ _ _ Hf). cbv zeta. cbn [hs_sys].
  destruct (served_calls f _ _ _ (fs_called _ _ _ _ _ _ _ _ _ _ Hf)) as (ops & Hops & Hst).
  cbn in Hops. eapply star_trans; [apply Hst; reflexivity|].
  destruct w as [s g o]. cbn in *. subst o. by apply served_connects.
Qed.

Lemma front_step_base k l st st' isSsl r r1 w new moved :
  hs_base st → front_step k l st st' isSsl r r1 w new moved →
  hs_base st' ∧ ∀ f, agrees f st' → agrees f st.
Proof.
  intros Hb Hf. pose proof (front_reachable _ _ _ _ _ _ _ _ _ _ Hb Hf) as Hr1.
  destruct Hf as [Hk _ Hsrv _ _ _ _ ->]. destruct (hb_fits _ Hb k _ Hk) as [Hfit _].
  assert (Hself : <[k := Connected isSsl r1]> (hs_fronts st) !! k = Some (Connected isSsl r1))
    by (apply list_lookup_insert_eq; by eapply lookup_lt_Some).
  split; [split; cbn|].
  - intros j f [[-> ->]|[_ Hj]]%list_insert_cases; [|by apply Hb]. split; [done|]. by split; [|eexists].
  - rewrite !length_app, length_replicate, length_fmap, deliver_length. f_equal. apply Hb.
  - intros i j [Hi|[_ [-> _]%lookup_replicate]]%lookup_app_Some; [|by eexists _, _].
    destruct (hb_links _ Hb i j Hi) as (b & q & Hj). destruct (decide (j = k)) as [->|Hne].
    + by eexists _, _.
    + exists b, q. by rewrite list_lookup_insert_ne.
  - intros f Hag i j b q Hi Hj. cbn in Hag. destruct (decide (j = k)) as [->|Hne].
    + rewrite Hj in Hk. simplify_eq. eapply (Hag i k); [by apply lookup_app_l_Some|exact Hself].
    + eapply (Hag i j); [by apply lookup_app_l_Some|]. cbn. by rewrite list_lookup_insert_ne.
Qed.

(** *** Every step *)

Definition simulated (st st' : hsystem) : Prop :=
  hs_base st' ∧ ∀ f, agrees f st' → agrees f st ∧ star (served f) (hs_sys st) (hs_sys st').

Lemma simulated_refl st : hs_base st → simulated st st.
Proof. intros Hb. split; [done|]. intros f Hf. split; [done|constructor]. Qed.

Lemma simulated_trans st1 st2 st3 : simulated st1 st2 → simulated st2 st3 → simulated st1 st3.
Proof.
  intros [_ H1] [Hb H2]. split; [done|]. intros f Hf. destruct (H2 f Hf) as [Hf2 ?].
  destruct (H1 f Hf2). split; [done|by eapply star_trans].
Qed.

(** Wrappers and posted replies are not part of the smaller system. *)
Lemma simulated_same st st' :
  hs_sys st' = hs_sys st → hs_fronts st' = hs_fronts st → hs_links st' = hs_links st →
  hs_base st → simulated st st'.
Proof.
  intros H1 H2 H3 [Hfit Hl Hlk]. split.
  - split; rewrite ?H1, ?H2, ?H3; [exact Hfit|exact Hl|exact Hlk].
  - intros f Hf. split; [|rewrite H1; constructor]. intros i k. rewrite <-H2, <-H3. apply Hf.
Qed.

Lemma simulated_front k l st st' :
  local_label l = true → hs_base st → front_exec k l st = Some st' → simulated st st'.
Proof.
  intros Hl Hb He. destruct (front_exec_step k l st st' Hl He) as (b & r & r1 & w & new & moved & Hf).
  destruct (front_step_base _ _ _ _ _ _ _ _ _ _ Hb Hf) as [Hb' Hag]. split; [done|].
  intros f Hf'. split; [by apply Hag|]. by eapply front_step_served.
Qed.

Lemma simulated_replies n l st st' :
  hs_base st → post_replies n l st = Some st' → simulated st st'.
Proof.
  revert st. induction l as [|k l IH]; intros st Hb He; cbn -[front_exec] in He.
  - simplify_eq. by apply simulated_refl.
  - destruct (front_exec k HReply st) as [st1|] eqn:H1; [|done]. cbn -[front_exec] in He.
    pose proof (simulated_front k HReply st st1 eq_refl Hb H1) as Hs1.
    pose proof (simulated_same st1 (set_replies (hs_replies st1 ++ [n]) st1) eq_refl eq_refl eq_refl
                  (proj1 Hs1)) as Hs2.
    eapply simulated_trans; [exact Hs1|]. eapply simulated_trans; [exact Hs2|].
    apply IH; [apply Hs2|exact He].
Qed.

Lemma simulated_wrapper n m gone st st' :
  hs_base st → wrapper_exec n m gone st = Some st' → simulated st st'.
Proof.
  intros Hb He. unfold wrapper_exec in He. destruct (hs_wrappers st !! n) as [x|]; [|done].
  cbn -[post_replies] in He. destruct (m (wr_now x)) as [[r now] ops].
  set (st1 := set_wrapper _ _ st) in He.
  pose proof (simulated_same st st1 eq_refl eq_refl eq_refl Hb) as Hs1.
  eapply simulated_trans; [exact Hs1|]. eapply simulated_replies; [apply Hs1|exact He].
Qed.

Lemma sys_server_ssl f g l st :
  sys_exec f settings (SysServer l) st = sys_exec g settings (SysServer l) st.
Proof. by destruct st. Qed.

Lemma sys_session_ssl f g i l st :
  f i = g i → sys_exec f settings (SysSession i l) st = sys_exec g settings (SysSession i l) st.
Proof. intros Hfg. destruct st as [c h ss]. cbn -[ws_exec]. by rewrite Hfg. Qed.

Lemma sys_exec_sessions f l st st' :
  sys_exec f settings l st = Some st' →
  match l with SysConnect _ => True | _ => length (sys_sessions st') = length (sys_sessions st) end.
Proof.
  destruct st as [c h ss]. destruct l as [l|t|p|i l]; cbn -[exec_sched ws_exec on_world]; [|done| |].
  - destruct (exec_sched l c); intros; simplify_eq/=. apply deliver_length.
  - intros. simplify_eq/=. apply deliver_length.
  - destruct (ss !! i) as [r|] eqn:Hi; [|done]. cbn -[ws_exec].
    destruct (ws_exec _ _ _ _ r) as [r0|]; [|done]. cbn -[ws_exec].
    destruct (ws_exec _ _ _ l r0) as [r1|]; [|done]. cbn -[ws_exec].
    destruct (rt_srv r1); intros; simplify_eq/=. by rewrite deliver_length, length_insert.
Qed.

(** What a thread of the system accepts becomes a connection of the right kind. *)
Lemma accepted_fits w o k f :
  as_accepted settings o → accepted_front w o = Some f → front_fits f ∧ connection_ok k f.
Proof.
  destruct o as [| | | | | | |kind sock s|]; cbn; try done. intros [-> ->].
  unfold front_fits. destruct (accepts_as settings); intros; simplify_eq/=;
    (split; [done|]); try done; (split; [by exists [], (Some w); constructor|by eexists]).
Qed.

Lemma simulated_server l st st' :
  hs_base st → (∀ f, agrees f st → ∃ name, served_reachable app strict f settings name (hs_sys st)) →
  hs_ok (HsServer l) st → hs_exec (HsServer l) st = Some st' → simulated st st'.
Proof using Happ.
  intros Hb Hreach [Hok Hone] He. destruct st as [sys fs ls ws rs]. cbn -[sys_exec] in *.
  set (st := mkHs sys fs ls ws rs) in *.
  destruct (sys_exec (hs_is_ssl st) settings (SysServer l) sys) as [sys'|] eqn:Hs; [|done].
  cbn -[sys_exec] in He. injection He as <-.
  assert (Hsteady : steady_sys (hs_is_ssl st) settings sys).
  { destruct (Hreach (hs_is_ssl st) (agrees_is_ssl st Hb)) as [name Hr]. cbn in Hr.
    eapply (sys_steady app strict), served_sys; exact Hr. }
  assert (Hnew : ∀ f, f ∈ omap (accepted_front (current sys'))
                            (drop (length (trace (sys_server sys))) (trace (sys_server sys'))) →
                 ∀ k, front_fits f ∧ connection_ok k f).
  { intros f (o & Ho & Hf)%list_elem_of_omap k. eapply accepted_fits; [|exact Hf].
    destruct sys as [[s ps tr] g ss]. destruct Hsteady as [_ Hth]. cbn -[exec_sched] in Hth, Hs, Ho.
    destruct (exec_sched l _) as [c'|] eqn:Hx; [|done]. cbn -[exec_sched] in Hs. injection Hs as <-. cbn in Ho.
    destruct l as [p|i]; cbn in Hx; [simplify_eq/=; rewrite drop_all in Ho; by apply not_elem_of_nil in Ho|].
    destruct (ps !! i) as [[r|upd next|e p]|] eqn:Hi; simplify_eq/=.
    - rewrite drop_all in Ho. by apply not_elem_of_nil in Ho.
    - rewrite drop_app_length in Ho. apply list_elem_of_singleton in Ho as ->.
      apply (proj1 (Forall_lookup _ _) Hth _ _ Hi). }
  destruct Hb as [Hfit Hlen Hlk]. cbn in Hfit, Hlen, Hlk. split; [split; cbn|].
  - intros k f [Hk|[_ Hk]]%lookup_app_Some; [by apply Hfit|].
    eapply Hnew. by eapply list_elem_of_lookup_2.
  - rewrite Hlen. symmetry. exact (sys_exec_sessions _ _ _ _ Hs).
  - intros i k Hi. destruct (Hlk i k Hi) as (b & r & Hk). exists b, r. by apply lookup_app_l_Some.
  - intros f Hag. split.
    + intros i k b r Hi Hk. eapply (Hag i k b r); [done|]. cbn. by apply lookup_app_l_Some.
    + apply star_one. exists (SysServer l). cbn -[sys_exec]. split_and!; [done|done|].
      by rewrite (sys_server_ssl f (hs_is_ssl st)).
Qed.

Lemma simulated_session i l st st' :
  hs_base st → hs_ok (HsSession i l) st → hs_exec (HsSession i l) st = Some st' → simulated st st'.
Proof.
  intros Hb Hok He. destruct st as [sys fs ls ws rs]. cbn -[sys_exec] in *.
  set (st := mkHs sys fs ls ws rs) in *.
  destruct (sys_exec (hs_is_ssl st) settings (SysSession i l) sys) as [sys'|] eqn:Hs; [|done].
  cbn -[sys_exec] in He. injection He as <-.
  destruct Hb as [Hfit Hlen Hlk]. cbn in Hfit, Hlen, Hlk. split; [split; cbn|].
  - exact Hfit.
  - rewrite Hlen. symmetry. exact (sys_exec_sessions _ _ _ _ Hs).
  - exact Hlk.
  - intros f Hag. split; [done|]. apply star_one. exists (SysSession i l). split_and!; [done|done|].
    cbn [hs_sys]. rewrite (sys_session_ssl f (hs_is_ssl st)); [exact Hs|].
    assert (is_Some (ls !! i)) as [k Hi].
    { apply lookup_lt_is_Some. rewrite Hlen. destruct sys as [c h ss]. cbn -[ws_exec] in *.
      destruct (ss !! i) eqn:Hi; [by eapply lookup_lt_Some|done]. }
    destruct (Hlk i k Hi) as (b & r & Hk). unfold hs_is_ssl. cbn. rewrite Hi. cbn. rewrite Hk.
    by eapply Hag.
Qed.

Lemma simulated_detected k peeked x st st' :
  hs_base st → hs_exec (HsDetected k peeked x) st = Some st' → simulated st st'.
Proof.
  intros [Hfit Hlen Hlk] He. destruct st as [sys fs ls ws rs]. cbn in *.
  destruct (fs !! k) as [[d| |]|] eqn:Hk; try done. injection He as <-.
  destruct (Hfit k _ Hk) as [Hd _]. unfold front_fits in Hd.
  destruct (accepts_as settings) as [| |ctx] eqn:Hkind; try done.
  split; [split; cbn|].
  - intros j f [[-> ->]|[_ Hj]]%list_insert_cases; [|by apply Hfit].
    unfold front_fits. rewrite Hkind. destruct x as [ec|b]; cbn; [done|]. split; [done|].
    rewrite Hd. split; [eexists _, _; constructor|by destruct b; eexists].
  - exact Hlen.
  - intros i j Hi. destruct (Hlk i j Hi) as (b & r & Hj). exists b, r.
    rewrite list_lookup_insert_ne; [done|]. intros ->. congruence.
  - intros f Hag. split; [|constructor]. intros i j b r Hi Hj. apply (Hag i j b r); [done|]. cbn.
    rewrite list_lookup_insert_ne; [done|]. intros ->. cbn in Hj. congruence.
Qed.

Lemma simulated_step name st st' :
  hs_base st → (∀ f, agrees f st → served_reachable app strict f settings name (hs_sys st)) →
  hs_step st st' → simulated st st'.
Proof using Happ.
  intros Hb Hreach (l & Hok & He). destruct l as [l|i l|k pk x|k l|n a|n|j].
  - eapply simulated_server; [done| |done|exact He]. intros f Hf. exists name. auto.
  - by eapply simulated_session.
  - by eapply simulated_detected.
  - eapply (simulated_front k l); [by destruct l|done|]. by destruct st.
  - destruct st as [sys fs ls ws rs]. cbn -[wrapper_exec] in He. destruct (ws !! n) as [x|]; [|done].
    cbn -[wrapper_exec] in He. destruct (_ && _); [done|]. by eapply simulated_wrapper.
  - destruct st as [sys fs ls ws rs]. cbn -[wrapper_exec] in He. destruct (ws !! n) as [x|]; [|done].
    cbn -[wrapper_exec] in He. destruct (wr_gone x); [done|]. by eapply simulated_wrapper.
  - destruct st as [sys fs ls ws rs]. cbn -[front_exec] in He. destruct (rs !! j) as [n|]; [|done].
    cbn -[front_exec] in He. destruct (ws !! n) as [x|]; [|done]. cbn -[front_exec] in He.
    destruct (mHttpMsg (wr_now x)) as [msg|]; [|done]. cbn -[front_exec] in He.
    destruct (front_exec _ (HResponse msg) _) as [st1|] eqn:H1; [|done]. cbn -[front_exec] in He.
    injection He as <-. pose proof (simulated_front _ (HResponse msg) _ _ eq_refl Hb H1) as Hs1.
    eapply simulated_trans; [exact Hs1|]. by apply simulated_same; [..|apply Hs1].
Qed.

Lemma hs_reachable_simulated name st :
  hs_reachable name st →
  hs_base st ∧ ∀ f, agrees f st → served_reachable app strict f settings name (hs_sys st).
Proof using Happ.
  intros Hrun.
  apply (star_invariant (λ st, hs_base st ∧ ∀ f, agrees f st →
           served_reachable app strict f settings name (hs_sys st)) _ _) in Hrun; [done| |].
  - intros x y [Hb Hr] Hstep. destruct (simulated_step name x y Hb Hr Hstep) as [Hb' Hsim].
    split; [done|]. intros f Hf. destruct (Hsim f Hf) as [Hf' Hst].
    eapply star_trans; [by apply Hr|exact Hst].
  - split; [by split|]. constructor.
Qed.

End HttpSystem.

(** ** Properties *)

(** C8. The server with its accepted sockets, http connections and wrappers behaves as the
    system of threads, worker and sessions: leaving them out, every run of it is a run of
    that system, in which a session is an ssl one if its connection was.  So what holds
    of registry, sessions and callbacks there holds here. *)
Theorem http_system_refines app strict `{!Behaves strict app} settings set_result prepare_payload name st :
  hs_reachable app strict settings set_result prepare_payload name st →
  served_reachable app strict (hs_is_ssl st) settings name (hs_sys st).
Proof.
  intros Hrun. destruct (hs_reachable_simulated _ _ _ _ _ _ _ Hrun) as [Hb Hr].
  apply Hr. by eapply agrees_is_ssl.
Qed.

(** ** Concrete runs *)

(** Calls start when the threads have returned; wrappers are used after their handlers
    were called. *)
Definition hs_may (l : hs_label) (st : hsystem) : bool :=
  match l with
  | HsServer (SCall _) => all_done (hs_sys st)
  | HsUse n _ | HsDrop n => Nat.ltb n (handed st)
  | _ => true
  end.

Definition hs_fits app strict (l : hs_label) : Prop :=
  match l with
  | HsServer l => sys_ok app strict (SysServer l)
  | HsSession _ l => own_label l = true
  | HsHttp _ l => hc_own l = true
  | _ => True
  end.

Fixpoint hs_exec_all settings (ls : list hs_label) (st : hsystem) : option hsystem :=
  match ls with
  | [] => Some st
  | l :: ls' =>
      if hs_may l st
      then st' ← hs_exec settings beast_result beast_payload l st; hs_exec_all settings ls' st'
      else None
  end.

Lemma hs_may_ok app strict l st : hs_fits app strict l → hs_may l st = true → hs_ok app strict l st.
Proof.
  destruct l as [l|i l|k pk x|k l|n a|n|n]; cbn; try done.
  - intros Hfit Hmay. split; [done|]. destruct l as [p|i]; [|done]. intros _.
    unfold all_done in Hmay. apply Forall_forall. intros q Hq%list_elem_of_In.
    rewrite forallb_forall in Hmay. specialize (Hmay q Hq). by destruct q.
  - by intros _ ?%Nat.ltb_lt.
  - intros _ ?%Nat.ltb_lt. by left.
Qed.

Lemma hs_exec_all_reachable app strict settings name ls st st' :
  Forall (hs_fits app strict) ls →
  hs_reachable app strict settings beast_result beast_payload name st →
  hs_exec_all settings ls st = Some st' →
  hs_reachable app strict settings beast_result beast_payload name st'.
Proof.
  revert st. induction ls as [|l ls IH]; intros st Hls Hr He; cbn -[hs_exec] in He; [by simplify_eq|].
  apply Forall_cons in Hls as [Hl Hls]. destruct (hs_may l st) eqn:Hm; [|done].
  destruct (hs_exec _ _ _ l st) as [st1|] eqn:H1; [|done]. cbn -[hs_exec] in He.
  eapply IH; [done| |done]. eapply star_trans; [exact Hr|]. apply star_one. exists l.
  split; [by apply hs_may_ok|done].
Qed.

Definition server_turn (i n : nat) (p : SRV unit) : list hs_label :=
  HsServer (SCall p) :: replicate n (HsServer (SStep i)).

(** A handler is registered for /api; a socket is accepted; a request is read, handled,
    answered and the answer written; the next request is an upgrade. *)
Definition demo_requests : list hs_label :=
  server_turn 0 1 (AddUri "/api" (mkUriCallbacks None None None (Some 4)))
  ++ server_turn 1 3 (Start demo_listen "0.0.0.0" 8080 all_cbs)
  ++ server_turn 2 3 (accepted 0 true true (inr 7))
  ++ [HsHttp 0 (HRead (inr (demo_request "/api/status?x=1" false)))]
  ++ server_turn 3 2 (worker_round demo_app)
  ++ [HsUse 0 ActReply; HsDrop 0; HsRespond 0; HsHttp 0 (HWritten None);
      HsHttp 0 (HRead (inr (demo_request "/chat" true)));
      HsSession 0 (WAccepted None)].

Definition demo_hs (n : nat) : hsystem :=
  default (hs_init (default_server_settings 0) "demo")
    (hs_exec_all (default_server_settings 0) (take n demo_requests)
       (hs_init (default_server_settings 0) "demo")).

Lemma demo_requests_fit strict : Forall (hs_fits demo_app strict) demo_requests.
Proof. repeat constructor. intros _. by eexists. Qed.

Lemma demo_hs_reachable strict n :
  hs_reachable demo_app strict (default_server_settings 0) beast_result beast_payload "demo" (demo_hs n).
Proof.
  unfold demo_hs. destruct (hs_exec_all _ _ _) as [st|] eqn:He; [|constructor].
  eapply hs_exec_all_reachable; [|constructor|exact He].
  apply Forall_take, demo_requests_fit.
Qed.

Lemma http_system_refines_witness :
  length (sys_sessions (hs_sys (demo_hs 21))) = 1
  ∧ served_reachable demo_app True (hs_is_ssl (demo_hs 21)) (default_server_settings 0) "demo"
      (hs_sys (demo_hs 21)).
Proof.
  split; [by vm_compute|].
  apply (http_system_refines demo_app True _ beast_result beast_payload "demo"), demo_hs_reachable.
Defined.
