(* ===== verification/Requests.v ===== *)
(** * What becomes of http requests

    In the system of HttpSystem.v every request that a connection has read is accounted for:
    it has been answered, it is the last one and became a session, or its wrapper is with
    the application, in the queue, or on its way back.  Handlers are called in the order
    the requests were read.  Sessions come from upgrade requests the server allowed, each
    from a connection of its own; where the settings ask for ssl, every client has it. *)

From S2P Require Import Prelude CppString Uri Net Events WorkQueue WsSession Threads.
From S2P Require Import HttpWrapper Server ServerOps Registry System Delivery Steady HttpConnection.
From S2P Require Import HttpSystem.

(** ** What is posted and called *)

Definition http_task (t : task) : bool := match t with TaskHttp _ _ => true | _ => false end.

(** The closures, the wrappers and the calls of connection [k]. *)
Definition task_on (k : nat) (t : task) : bool :=
  match t with TaskHttp _ x => bool_decide (mReplyFn x = Some k) | _ => false end.
Definition call_on (k : nat) (i : invocation) : bool :=
  match i with CallHttp _ x => bool_decide (mReplyFn x = Some k) | _ => false end.
Definition http_call (i : invocation) : bool := match i with CallHttp _ _ => true | _ => false end.
Definition of_front (k : nat) (w : wrapper) : bool := Nat.eqb (wr_front w) k.

Definition is_http_post (o : srv_op) : bool :=
  match o with Posted t => http_task t | _ => false end.

Lemma plain_posts ops :
  Forall (λ o, is_http_post o = false) ops → List.filter http_task (posted ops) = [].
Proof.
  induction 1 as [|o ops Ho _ IH]; [done|]. destruct o; try done. cbn in *. by rewrite Ho.
Qed.

Lemma is_http_post_posted t :
  match t with TaskHttp _ _ => True | _ => is_http_post (Posted t) = false end.
Proof. by destruct t. Qed.

Lemma on_world_never {A} (p : SRV A) bad r (w w' : world) :
  never bad p → on_world p w = (r, w') →
  ∃ ops, w_ops w' = w_ops w ++ ops ∧ Forall (λ o, bad o = false) ops.
Proof.
  unfold on_world. intros Hp. destruct (run p (w_impl w)) as [[r0 s'] ops] eqn:Hr.
  intros [= _ <-]. exists ops. split; [done|]. by eapply never_run.
Qed.

(** Sessions post no http closure. *)
Lemma called_plain ssl i ev (w w' : world) :
  ws_called ssl i ev w w' →
  ∃ ops, w_ops w' = w_ops w ++ ops ∧ Forall (λ o, is_http_post o = false) ops.
Proof.
  induction 1 as [v|t id ev v v' v'' Hc _ IH|id ev v v' v'' Hc _ IH|id m ev v v' v'' Hc _ IH
    |id c ev v v' v'' Hc _ IH|m ev v v' v'' Hc _ IH]; [exists []; by rewrite app_nil_r|..];
    destruct IH as (o2 & H2 & F2); (eapply (on_world_never _ is_http_post) in Hc as (o1 & H1 & F1);
      [exists (o1 ++ o2); rewrite H2, H1, app_assoc; by split; [|apply Forall_app]|]).
  - apply never_RegisterWsClient, is_http_post_posted.
  - apply never_OnWsClosed, is_http_post_posted.
  - apply never_OnWsMessage, is_http_post_posted.
  - apply never_OnWsContent, is_http_post_posted.
  - done.
Qed.

(** A connection posts the closures it says, and calls no callback. *)
Lemma hc_called_posts ev (w w' : world) :
  hc_called ev w w' →
  ∃ ops, w_ops w' = w_ops w ++ ops ∧ posted ops = http_posts ev ∧ called ops = [].
Proof.
  assert (Hquiet : ∀ A (p : SRV A) r v v' v'' ev,
    (∃ o1, w_ops v' = w_ops v ++ o1 ∧ posted o1 = [] ∧ called o1 = []) →
    on_world p v = (r, v') →
    (∃ ops, w_ops v'' = w_ops v' ++ ops ∧ posted ops = http_posts ev ∧ called ops = []) →
    ∃ ops, w_ops v'' = w_ops v ++ ops ∧ posted ops = http_posts ev ∧ called ops = []).
  { intros A p r v v' v'' e (o1 & H1 & P1 & C1) _ (o2 & H2 & P2 & C2). exists (o1 ++ o2).
    rewrite H2, H1, posted_app, called_app, P1, C1, P2, C2. by rewrite app_assoc. }
  induction 1 as [v|p b ev v v1 v2 Hc _ IH|i ev v v1 v2 Hc _ IH|p h ev v v1 v2 Hc _ IH
    |h x ev v v1 v2 Hc _ IH|m ev v v1 v2 Hc _ IH].
  - exists []. by rewrite app_nil_r.
  - eapply (Hquiet _ (Server.UpgradeAllowed p)); [|exact Hc|exact IH].
    exists []. revert Hc. cbn. intros [= _ <-]. by rewrite app_nil_r.
  - eapply (Hquiet _ Server.NextConnectionId); [|exact Hc|exact IH].
    exists []. revert Hc. cbn. intros [= _ <-]. cbn. by rewrite app_nil_r.
  - eapply (Hquiet _ (Server.FindHttpHandler p)); [|exact Hc|exact IH].
    exists []. revert Hc. cbn. unfold on_world. cbn. intros [= _ <-]. cbn. by rewrite app_nil_r.
  - destruct IH as (o2 & H2 & P2 & C2). exists ([Posted (TaskHttp h x)] ++ o2).
    unfold Events.PostCallback, world_events, on_world in Hc. cbn in Hc. injection Hc as <-. cbn in H2.
    by rewrite H2, <-app_assoc, posted_app, called_app, P2, C2.
  - eapply (Hquiet _ (Server.LogError m)); [|exact Hc|exact IH].
    revert Hc. cbn. unfold on_world. cbn. intros [= <-]. by eexists.
Qed.

(** ** Where sessions come from *)

Section Target.
#[local] Arguments Nat.ltb : simpl never.
#[local] Arguments Nat.eqb : simpl never.
Context {Srv : Type} `{ServerEventsLaws Srv} (IS_SSL : bool) (self : nat).

Definition registers_as (t : string) (b : bool) (ev : list ws_event) : Prop :=
  Forall (λ e, match e with EvRegister t' b' _ => t' = t ∧ b' = b | _ => True end) ev.

Ltac target_new := split_and!; [reflexivity|reflexivity|by repeat constructor].
Ltac target_done :=
  first [exists []; rewrite app_nil_r; target_new|eexists [_]; target_new
        |eexists [_; _]; rewrite <-app_assoc; target_new].

(** A session keeps its target, and registers with it and as what it is. *)
Lemma ws_exec_target l (r r' : ws_rt Srv) v :
  rt_srv r = Some v → own_label l = true → ws_exec IS_SSL self true l r = Some r' →
  ∃ new, mTarget (rt_session r') = mTarget (rt_session r) ∧ rt_events r' = rt_events r ++ new
         ∧ registers_as (mTarget (rt_session r)) IS_SSL new.
Proof.
  destruct r as [[st q tg id op cr cs dl] v0 tk a rd tx w c fl ft ev wi ac].
  cbn. intros -> Hl. unfold registers_as.
  destruct l as [x| |ec|x|ec| |srv|]; try done; cbn [ws_exec].
  - destruct tk as [|[p|] tk]; intros; simplify_eq; ws_run; ws_cases; target_done.
  - destruct a; intros; simplify_eq; ws_run; ws_cases; target_done.
  - destruct rd as [|rd]; [done|]. case_match; intros; simplify_eq.
    unfold WsSession.OnRead, HandleClosed. destruct op, x as [e|[b|b]]; ws_run; ws_cases; target_done.
  - destruct w as [|f w]; [done|]. case_match; intros; simplify_eq.
    unfold WsSession.OnWrite, HandleClosed. destruct op, ec; ws_run; ws_cases; target_done.
  - destruct c; intros; simplify_eq. target_done.
Qed.

Lemma ws_start_target s (v : option Srv) t :
  mTarget (rt_session (ws_start s v t)) = t ∧ rt_events (ws_start s v t) = [].
Proof. unfold ws_start. ws_run. done. Qed.
End Target.

Section Requests.
Context (app : application) (strict : Prop) {Happ : Behaves strict app}.
Context (settings : CServerSettings).
Context (set_result : Z → res unit) (prepare_payload : CHttpResponse → res unit).

#[local] Abbreviation reachable := (hs_reachable app strict settings set_result prepare_payload).
#[local] Abbreviation exec := (hs_exec settings set_result prepare_payload).
#[local] Abbreviation base := (hs_base settings set_result prepare_payload).

(** ** The books of the wrappers *)

(** The reply closures posted for connection [k]. *)
Definition replying (k : nat) (ws : list wrapper) (n : nat) : bool :=
  match ws !! n with Some w => of_front k w | None => false end.

Definition unanswered_on (k : nat) (w : wrapper) : bool := of_front k w && pending w.

Definition wrapper_ok (fs : list front) (w : wrapper) : Prop :=
  (∃ isSsl r, fs !! wr_front w = Some (Connected isSsl r))
  ∧ mReplyFn (wr_now w) = Some (wr_front w) ∧ is_Some (mHttpMsg (wr_now w))
  ∧ ∃ h x, wr_task w = TaskHttp h x ∧ mReplyFn x = Some (wr_front w).

Record books (st : hsystem) : Prop := {
  bk_posted : List.filter http_task (posted (trace (sys_server (hs_sys st)))) = wr_task <$> hs_wrappers st;
  bk_front k isSsl r : hs_fronts st !! k = Some (Connected isSsl r) →
    http_posts (hc_events r) = wr_task <$> List.filter (of_front k) (hs_wrappers st)
    ∧ length (hc_handlers r) = count (unanswered_on k) (hs_wrappers st)
    ∧ hc_posts r = count (replying k (hs_wrappers st)) (hs_replies st);
  bk_wrapper n w : hs_wrappers st !! n = Some w → wrapper_ok (hs_fronts st) w;
  bk_replies n : n ∈ hs_replies st → n < length (hs_wrappers st)
}.

(** What a use of a wrapper does: at most one reply, which it then has sent. *)
Record used (x : wrapper) (now : CHttpWrapper) (gone : bool) (rep : list nat) : Prop := {
  us_fn : mReplyFn now = mReplyFn (wr_now x);
  us_msg : is_Some (mHttpMsg (wr_now x)) → is_Some (mHttpMsg now);
  us_reply : let x' := mkWrapper (wr_front x) (wr_task x) now (wr_gone x || gone) in
    (rep = [] ∧ pending x' = pending x)
    ∨ (pending x = true ∧ pending x' = false
       ∧ ∃ fn, mReplyFn (wr_now x) = Some fn ∧ rep = [fn])
}.

Lemma used_act x a :
  wr_gone x && (match a with ActReply => true | ActMutate _ => false end) = false →
  mReplyFn (wr_now x) ≠ None →
  match handler_run posting [a] (wr_now x) with (_, now, ops) => used x now false (replies ops) end.
Proof.
  destruct x as [k t [msg fn sent] gone]. intros Hg Hfn. destruct a as [f|]; cbn in *.
  - split; [done| |left; by rewrite orb_false_r]. cbn. intros [m ->]. by eexists.
  - rewrite andb_true_r in Hg. subst gone. unfold Reply, bind, gets, emit. cbn.
    destruct sent; cbn; [by split; [done|done|left]|].
    destruct fn as [fn|]; [|done]. cbn. split; [done|done|]. right. split_and!; [done|done|].
    by eexists.
Qed.

Lemma used_delete x :
  wr_gone x = false → mReplyFn (wr_now x) ≠ None → is_Some (mHttpMsg (wr_now x)) →
  match CHttpWrapper_delete posting (wr_now x) with (_, now, ops) => used x now true (replies ops) end.
Proof.
  destruct x as [k t [msg fn sent] gone]. cbn. intros -> Hfn [m ->]. destruct fn as [fn|]; [|done].
  unfold CHttpWrapper_delete. cbn. destruct sent; cbn; (split; cbn; [done|by eexists|]); [by left|].
  right. split_and!; [done|done|]. by eexists.
Qed.

(** *** New connections *)

Lemma hc_start_empty isSsl s buffer (w : option world) :
  hc_events (hc_start isSsl s buffer w) = [] ∧ hc_handlers (hc_start isSsl s buffer w) = []
  ∧ hc_posts (hc_start isSsl s buffer w) = 0 ∧ hc_sessions (hc_start isSsl s buffer w) = [].
Proof. by destruct isSsl. Qed.

Definition connected (fs : list front) (k : nat) : Prop := ∃ isSsl r, fs !! k = Some (Connected isSsl r).

(** Connections are added where there was none, and have done nothing yet. *)
Record extends (fs fs' : list front) : Prop := {
  ex_old k isSsl r : fs' !! k = Some (Connected isSsl r) →
    fs !! k = Some (Connected isSsl r)
    ∨ (¬ connected fs k ∧ hc_events r = [] ∧ hc_handlers r = [] ∧ hc_posts r = 0 ∧ hc_sessions r = []);
  ex_new k : connected fs k → connected fs' k
}.

Lemma extends_refl fs : extends fs fs.
Proof. split; [by left|done]. Qed.

Lemma extends_accepted w ops fs : extends fs (fs ++ omap (accepted_front w) ops).
Proof.
  split.
  - intros k b r [Hk|[Hlen Hk]]%lookup_app_Some; [by left|right].
    assert (Hno : ¬ connected fs k).
    { intros (b' & r' & Hk'). apply lookup_lt_Some in Hk'. lia. }
    apply list_elem_of_lookup_2, list_elem_of_omap in Hk as (o & _ & Ho).
    destruct o as [| | | | | | |[]|]; cbn in Ho; by simplify_eq.
  - intros k (b & r & Hk). exists b, r. by apply lookup_app_l_Some.
Qed.

Lemma extends_detected w k d peeked x fs :
  fs !! k = Some (Detecting d) → extends fs (<[k := detected_front w (OnDetected d peeked x)]> fs).
Proof.
  intros Hk. split.
  - intros j b r [[-> Hf]|[_ Hj]]%list_insert_cases; [right|by left].
    split; [intros (b' & r' & Hk'); congruence|].
    destruct x as [ec|[]]; cbn in Hf; by simplify_eq.
  - intros j (b & r & Hj). exists b, r. rewrite list_lookup_insert_ne; [done|]. intros ->. congruence.
Qed.

Lemma books_extend sys sys' fs fs' ls ls' ws rs :
  List.filter http_task (posted (trace (sys_server sys')))
  = List.filter http_task (posted (trace (sys_server sys))) →
  extends fs fs' → books (mkHs sys fs ls ws rs) → books (mkHs sys' fs' ls' ws rs).
Proof.
  intros Hp [Hold Hnew] [B1 B2 B3 B4]. cbn in *. split; cbn.
  - congruence.
  - intros k b r Hk. destruct (Hold k b r Hk) as [Hk'|(Hno & E & D & P & _)]; [by eapply B2|].
    assert (Hoff : ∀ w, w ∈ ws → of_front k w = false).
    { intros w (n & Hn)%list_elem_of_lookup. apply Nat.eqb_neq. intros <-. by apply Hno, (B3 n). }
    rewrite E, D, P. split_and!.
    + assert (List.filter (of_front k) ws = []) as ->; [|done].
      apply length_zero_iff_nil. by apply (count_none (of_front k)).
    + symmetry. apply count_none. intros w Hw. unfold unanswered_on. by rewrite Hoff.
    + symmetry. apply count_none. intros n Hn. unfold replying.
      destruct (ws !! n) as [w|] eqn:Hw; [|done]. apply Hoff. by eapply list_elem_of_lookup_2.
  - intros n w Hn. destruct (B3 n w Hn) as (Hc & ? & ? & ?). split; [by apply Hnew|done].
  - exact B4.
Qed.

(** *** A connection makes a step of its own *)

Lemma books_front k l st st' isSsl r r1 w new moved :
  base st → hc_own l = true →
  front_step set_result prepare_payload k l st st' isSsl r r1 w new moved → books st → books st'.
Proof.
  intros Hb Hl Hf [B1 B2 B3 B4].
  pose proof (front_reachable _ _ _ _ _ _ _ _ _ _ _ _ _ Hb Hf) as Hr1.
  apply hc_reachable_past in Hr1. destruct (hp_posts _ _ _ Hr1) as (qs & _ & Hasks).
  destruct Hf as [Hk _ _ Hcall Hev _ Hw ->]. cbv zeta.
  assert (Hw' : hc_handlers r1 = hc_handlers r ++ http_wrappers new ∧ hc_posts r1 = hc_posts r)
    by (by destruct l). clear Hw. destruct Hw' as [Hh Hp].
  assert (Hnew : Forall (λ t, ∃ h m, t = TaskHttp h (CHttpWrapper_new (Some m) (Some k))) (http_posts new)).
  { rewrite Hev, http_posts_app in Hasks. apply Forall2_app_inv_r in Hasks as (q1 & q2 & _ & H2 & _).
    eapply Forall2_Forall_r; [exact H2|]. apply Forall_true. intros q t (_ & h & query & id & _ & ->).
    by eexists _, _. }
  set (add := omap (λ t, (λ x, mkWrapper k t x false) <$> task_wrapper t) (http_posts new)).
  assert (Hadd : Forall (λ w, wr_front w = k ∧ ∃ h m, let x := CHttpWrapper_new (Some m) (Some k) in
                   w = mkWrapper k (TaskHttp h x) x false) add
                 ∧ wr_task <$> add = http_posts new ∧ length add = length (http_wrappers new)).
  { subst add. unfold http_wrappers. clear -Hnew.
    induction Hnew as [|t ts (h & m & ->) _ IH]; [by split_and!|]. cbn in *.
    destruct IH as (IH1 & -> & IH3). split_and!; [|done|by f_equal].
    constructor; [|done]. split; [done|]. by eexists _, _. }
  destruct Hadd as (Hadd & Htask & Hlen). clearbody add. rewrite Forall_forall in Hadd.
  split; cbn [hs_sys hs_fronts hs_wrappers hs_replies sys_server].
  - destruct (hc_called_posts _ _ _ Hcall) as (ops & Hops & Hpo & _). cbn in Hops. subst ops. cbn.
    rewrite posted_app, List.filter_app, B1, fmap_app, Htask, Hpo. f_equal.
    clear -Hnew. induction Hnew as [|t ts (h & m & ->) _ IH]; [done|]. cbn. by rewrite IH.
  - intros j b q [[-> [= -> ->]]|[Hne Hj]]%list_insert_cases.
    + destruct (B2 k isSsl r Hk) as (E & D & P).
      rewrite List.filter_app, fmap_app, Hev, http_posts_app, E, Hh, length_app, D, Hp, P, count_app.
      split_and!.
      * f_equal. rewrite <-Htask. f_equal. clear -Hadd. induction add as [|u add IH]; [done|]. cbn.
        destruct (Hadd u) as [Hw _]; [by left|]. unfold of_front at 1. rewrite Hw, Nat.eqb_refl.
        f_equal. apply IH. intros u' Hw'. apply Hadd. by right.
      * f_equal. rewrite <-Hlen. symmetry. apply count_all. intros u Hw.
        destruct (Hadd u Hw) as (Hf & h & m & ->). unfold unanswered_on, of_front. cbn.
        by rewrite Nat.eqb_refl.
      * apply count_ext. intros n Hn. unfold replying. by rewrite lookup_app_l by (by apply B4).
    + destruct (B2 j b q Hj) as (E & D & P).
      assert (Hoff : ∀ u, u ∈ add → of_front j u = false).
      { intros u Hw. destruct (Hadd u Hw) as [Hf _]. apply Nat.eqb_neq. congruence. }
      rewrite List.filter_app, fmap_app, E, D, P, count_app. split_and!.
      * assert (List.filter (of_front j) add = []) as ->; [|by rewrite app_nil_r].
        apply length_zero_iff_nil. by apply (count_none (of_front j)).
      * rewrite (count_none _ add); [lia|]. intros u Hw. unfold unanswered_on. by rewrite Hoff.
      * apply count_ext. intros n Hn. unfold replying. by rewrite lookup_app_l by (by apply B4).
  - assert (Hkeep : ∀ u, wrapper_ok (hs_fronts st) u →
              wrapper_ok (<[k := Connected isSsl r1]> (hs_fronts st)) u).
    { intros u ((b & q & Hj) & Hw). split; [|exact Hw]. destruct (decide (wr_front u = k)) as [->|Hne].
      - exists isSsl, r1. apply list_lookup_insert_eq. by eapply lookup_lt_Some.
      - exists b, q. by rewrite list_lookup_insert_ne. }
    intros n u [Hn|[_ Hn%list_elem_of_lookup_2]]%lookup_app_Some; [by eapply Hkeep, B3|].
    destruct (Hadd u Hn) as (Hf & h & m & ->). split; [|split_and!; [done|by eexists|by eexists _, _]].
    cbn. exists isSsl, r1. apply list_lookup_insert_eq. by eapply lookup_lt_Some.
  - intros n Hn%B4. rewrite length_app. lia.
Qed.

(** *** A wrapper is used *)

Lemma replying_insert k (ws : list wrapper) (n : nat) x y m :
  ws !! n = Some x → wr_front y = wr_front x → replying k (<[n := y]> ws) m = replying k ws m.
Proof.
  intros Hn Hf. unfold replying. destruct (decide (m = n)) as [->|Hne].
  - rewrite list_lookup_insert_eq by (by eapply lookup_lt_Some). rewrite Hn. unfold of_front. by rewrite Hf.
  - by rewrite list_lookup_insert_ne.
Qed.

Lemma same_front k (ws : list wrapper) (n : nat) x y :
  ws !! n = Some x → wr_front y = wr_front x → wr_task y = wr_task x →
  wr_task <$> List.filter (of_front k) (<[n := y]> ws) = wr_task <$> List.filter (of_front k) ws
  ∧ wr_task <$> <[n := y]> ws = wr_task <$> ws.
Proof.
  intros Hn Hf Ht. apply list_elem_of_split_length in Hn as (l1 & l2 & -> & ->).
  rewrite insert_app_r_alt by lia. rewrite Nat.sub_diag. cbn [insert list_insert].
  assert (Hof : of_front k y = of_front k x) by (unfold of_front; by rewrite Hf).
  rewrite !List.filter_app, !fmap_app. cbn. rewrite Hof.
  split; [|by rewrite Ht]. destruct (of_front k x); cbn; by rewrite ?Ht.
Qed.

Lemma wrapper_ok_insert fs (n : nat) x y (ws : list wrapper) :
  ws !! n = Some x → wr_front y = wr_front x → wr_task y = wr_task x →
  mReplyFn (wr_now y) = mReplyFn (wr_now x) → is_Some (mHttpMsg (wr_now y)) →
  (∀ (m : nat) w, ws !! m = Some w → wrapper_ok fs w) →
  ∀ (m : nat) w, <[n := y]> ws !! m = Some w → wrapper_ok fs w.
Proof.
  intros Hn Hf Ht Hfn Hmsg Hok m w [[-> ->]|[_ Hm]]%list_insert_cases; [|by eapply Hok].
  destruct (Hok n x Hn) as (Hc & Hx & _ & Htask). split_and!; rewrite ?Hf, ?Ht, ?Hfn; done.
Qed.

(** A step of the connection's strand that only moves a reply along. *)
Lemma front_exec_quiet k l st st' :
  local_label l = true → hc_own l = false → front_exec set_result prepare_payload k l st = Some st' →
  ∃ isSsl r r1 sys' ls',
    hs_fronts st !! k = Some (Connected isSsl r)
    ∧ st' = mkHs sys' (<[k := Connected isSsl r1]> (hs_fronts st)) ls' (hs_wrappers st) (hs_replies st)
    ∧ hc_events r1 = hc_events r
    ∧ posted (trace (sys_server sys')) = posted (trace (sys_server (hs_sys st)))
    ∧ match l with
      | HReply => S (length (hc_handlers r1)) = length (hc_handlers r) ∧ hc_posts r1 = S (hc_posts r)
      | _ => hc_handlers r1 = hc_handlers r ∧ hc_posts r = S (hc_posts r1)
      end.
Proof.
  intros Hl Hown He. destruct (front_exec_step _ _ _ _ _ _ Hl He) as (b & r & r1 & w & new & moved & Hf).
  destruct Hf as [Hk _ _ Hcall Hev _ Hw ->]. cbv zeta.
  assert (new = []) as -> by (destruct l; try done; by destruct Hw as (_ & _ & ->)).
  destruct (hc_called_posts _ _ _ Hcall) as (ops & Hops & Hpo & _). cbn in Hops. subst ops.
  rewrite app_nil_r in Hev. eexists b, r, r1, _, _. split_and!; [done|cbn; by rewrite app_nil_r|done| |].
  - cbn. by rewrite posted_app, Hpo, app_nil_r.
  - destruct l; try done; [|by destruct Hw as (? & ? & _)].
    destruct Hw as ((x & ->) & -> & _). done.
Qed.

Lemma connected_insert fs k isSsl r1 w :
  connected fs k → wrapper_ok fs w → wrapper_ok (<[k := Connected isSsl r1]> fs) w.
Proof.
  intros (b0 & r0 & Hk) ((b & q & Hj) & Hw). split; [|exact Hw].
  destruct (decide (wr_front w = k)) as [->|Hne].
  - exists isSsl, r1. apply list_lookup_insert_eq. by eapply lookup_lt_Some.
  - exists b, q. by rewrite list_lookup_insert_ne.
Qed.

Lemma books_used n x now gone rep st st' :
  hs_wrappers st !! n = Some x → used x now gone rep → books st →
  post_replies set_result prepare_payload n rep
    (set_wrapper n (mkWrapper (wr_front x) (wr_task x) now (wr_gone x || gone)) st) = Some st' →
  books st'.
Proof.
  set (x' := mkWrapper _ _ _ _). intros Hn [Hfn Hmsg Hrep] [B1 B2 B3 B4] He.
  destruct (B3 n x Hn) as (_ & Hxfn & Hxm & _).
  assert (Hok : ∀ m w, <[n := x']> (hs_wrappers st) !! m = Some w → wrapper_ok (hs_fronts st) w)
    by (eapply wrapper_ok_insert; eauto).
  pose proof (λ k, same_front k _ n x x' Hn eq_refl eq_refl) as Hsame.
  pose proof (λ k, count_insert (unanswered_on k) _ n x x' Hn) as Hcount.
  assert (Hrs : ∀ k l, count (replying k (<[n := x']> (hs_wrappers st))) l
                       = count (replying k (hs_wrappers st)) l)
    by (intros k l; apply count_ext; intros m _; by apply (replying_insert k _ n x)).
  destruct Hrep as [[-> Hpend]|(Hpend & Hpend' & fn & Hf & ->)].
  - cbn in He. injection He as <-. split; cbn; rewrite ?(proj2 (Hsame 0)), ?length_insert; try done.
    intros k b r Hk. destruct (B2 k b r Hk) as (E & D & P). specialize (Hcount k).
    rewrite !count_one in Hcount. unfold unanswered_on at 2 4 in Hcount. fold x' in Hpend.
    rewrite Hpend in Hcount. unfold of_front in Hcount. cbn [wr_front x'] in Hcount.
    rewrite (proj1 (Hsame k)), Hrs. split_and!; [done| |done]. lia.
  - rewrite Hxfn in Hf. injection Hf as <-. cbn -[front_exec] in He.
    destruct (front_exec _ _ (wr_front x) HReply _) as [st2|] eqn:H2; [|done].
    cbn -[front_exec] in He. injection He as <-.
    destruct (front_exec_quiet _ HReply _ _ eq_refl eq_refl H2)
      as (b & r & r1 & sys' & ls' & Hk & -> & Hev & Hpo & Hh & Hp). cbn in Hk, Hpo |- *.
    split; cbn; rewrite ?(proj2 (Hsame 0)), ?length_insert.
    + by rewrite Hpo.
    + intros j b' q Hj. specialize (Hcount j). rewrite !count_one in Hcount.
      unfold unanswered_on at 2 4 in Hcount. fold x' in Hpend'. rewrite Hpend, Hpend' in Hcount.
      rewrite (proj1 (Hsame j)), Hrs, count_app, count_one. unfold replying at 2. rewrite Hn.
      unfold of_front in *. cbn [wr_front x'] in Hcount. rewrite andb_true_r, andb_false_r in Hcount.
      destruct (list_insert_cases _ _ _ _ _ Hj) as [[-> [= -> ->]]|[Hne Hj']].
      * destruct (B2 _ b r Hk) as (E & D & P). rewrite Nat.eqb_refl in *. rewrite Hev.
        split_and!; [done|lia|lia].
      * destruct (B2 j b' q Hj') as (E & D & P).
        apply not_eq_sym, Nat.eqb_neq in Hne. rewrite Hne in *. split_and!; [done|lia|lia].
    + intros m w Hm. apply connected_insert; [by eexists _, _|by eapply Hok].
    + intros m [Hm| ->%list_elem_of_singleton]%elem_of_app; [by apply B4|by eapply lookup_lt_Some].
Qed.

Lemma books_wrapper n m gone st st' :
  (∀ x, hs_wrappers st !! n = Some x → wrapper_ok (hs_fronts st) x →
     match m (wr_now x) with (_, now, ops) => used x now gone (replies ops) end) →
  books st → wrapper_exec set_result prepare_payload n m gone st = Some st' → books st'.
Proof.
  intros Hm Hb He. unfold wrapper_exec in He. destruct (hs_wrappers st !! n) as [x|] eqn:Hn; [|done].
  cbn -[post_replies] in He. specialize (Hm x eq_refl (bk_wrapper _ Hb n x Hn)).
  destruct (m (wr_now x)) as [[res now] ops]. by eapply books_used.
Qed.

(** The reply closure runs. *)
Lemma books_respond j st st' : books st → exec (HsRespond j) st = Some st' → books st'.
Proof.
  destruct st as [sys fs ls ws rs]. intros [B1 B2 B3 B4] He. cbn -[front_exec] in *.
  destruct (rs !! j) as [n|] eqn:Hj; [|done]. cbn -[front_exec] in He.
  destruct (ws !! n) as [x|] eqn:Hn; [|done]. cbn -[front_exec] in He.
  destruct (mHttpMsg (wr_now x)) as [msg|]; [|done]. cbn -[front_exec] in He.
  destruct (front_exec _ _ _ (HResponse msg) _) as [st1|] eqn:H1; [|done].
  cbn -[front_exec] in He. injection He as <-.
  destruct (front_exec_quiet _ (HResponse msg) _ _ eq_refl eq_refl H1)
    as (b & r & r1 & sys' & ls' & Hk & -> & Hev & Hpo & Hh & Hp). cbn in Hk, Hpo |- *.
  split; cbn.
  - by rewrite Hpo.
  - intros k b' q Hk'. pose proof (count_delete (replying k ws) rs j n Hj) as Hd.
    rewrite count_one in Hd. unfold replying at 2 in Hd. rewrite Hn in Hd. unfold of_front in Hd.
    destruct (list_insert_cases _ _ _ _ _ Hk') as [[-> [= -> ->]]|[Hne Hk'']].
    + destruct (B2 _ b r Hk) as (E & D & P). rewrite Nat.eqb_refl in Hd. rewrite Hev, Hh.
      split_and!; [done|done|lia].
    + destruct (B2 k b' q Hk'') as (E & D & P). apply not_eq_sym, Nat.eqb_neq in Hne.
      rewrite Hne in Hd. split_and!; [done|done|lia].
  - intros m w Hm. apply connected_insert; [by eexists _, _|by eapply B3].
  - intros m Hm. apply B4. apply list_elem_of_lookup in Hm as [i Hi].
    rewrite list_lookup_delete in Hi. by eapply list_elem_of_lookup_2.
Qed.

(** *** Every step *)

Lemma owed_http t : owed app [t] = [] → http_task t = false.
Proof. by destruct t. Qed.

(** A thread posts no http closure. *)
Lemma server_plain f l st st' :
  delivered_sys app st → sys_exec f settings (SysServer l) st = Some st' →
  List.filter http_task (posted (trace (sys_server st')))
  = List.filter http_task (posted (trace (sys_server st))).
Proof.
  destruct st as [[s ps tr] g ss]. intros (cs & rest & Hd & _) He. cbn -[exec_sched] in *.
  destruct (exec_sched l _) as [c'|] eqn:Hx; cbn -[exec_sched] in He; simplify_eq/=.
  destruct l as [p|i]; cbn in Hx; [by simplify_eq|].
  destruct (ps !! i) as [[r|upd next|e p]|] eqn:Hi; simplify_eq/=; [done|].
  rewrite posted_app, List.filter_app. destruct e as [| | |t| | | | |]; cbn; rewrite ?app_nil_r; try done.
  destruct (duty_posts app _ _ _ _ _ Hd Hi) as [_ Ho]. by rewrite (owed_http _ Ho), app_nil_r.
Qed.

Lemma session_plain f i l st st' :
  own_label l = true → base_inv settings st → sys_exec f settings (SysSession i l) st = Some st' →
  List.filter http_task (posted (trace (sys_server st')))
  = List.filter http_task (posted (trace (sys_server st))).
Proof.
  intros Hl Hb He.
  destruct (sys_session_step app strict f settings i l st st' Hl Hb He) as (r & r1 & w & new & Hss).
  rewrite (ss_after _ _ _ _ _ _ _ _ _ _ Hss). cbn.
  destruct (called_plain _ _ _ _ _ (ss_called _ _ _ _ _ _ _ _ _ _ Hss)) as (ops & Hops & Hpl).
  cbn in Hops. subst ops. by rewrite posted_app, List.filter_app, (plain_posts _ Hpl), app_nil_r.
Qed.

Lemma books_step name st st' :
  base st → (∀ f, agrees f st → served_reachable app strict f settings name (hs_sys st)) →
  hs_step app strict settings set_result prepare_payload st st' → books st → books st'.
Proof using Happ.
  intros Hb Hreach (l & Hok & He) HB.
  pose proof (Hreach _ (agrees_is_ssl _ _ _ st Hb)) as Hr.
  pose proof (proj1 (sys_reachable_inv app strict _ settings name _ (served_sys _ _ _ _ _ _ Hr))) as Hbi.
  destruct l as [l|i l|k pk x|k l|n a|n|j]; [..|by eapply books_respond].
  - destruct st as [sys fs ls ws rs]. cbn -[sys_exec] in He, Hok.
    destruct (sys_exec _ _ (SysServer l) sys) as [sys'|] eqn:Hs; [|done].
    cbn -[sys_exec] in He. injection He as <-.
    eapply (books_extend sys); [|apply extends_accepted|exact HB].
    eapply server_plain; [|exact Hs]. by eapply served_delivered.
  - destruct st as [sys fs ls ws rs]. cbn -[sys_exec] in He, Hok.
    destruct (sys_exec _ _ (SysSession i l) sys) as [sys'|] eqn:Hs; [|done].
    cbn -[sys_exec] in He. injection He as <-.
    eapply (books_extend sys); [|apply extends_refl|exact HB].
    by eapply session_plain.
  - destruct st as [sys fs ls ws rs]. cbn in He.
    destruct (fs !! k) as [[d| |]|] eqn:Hk; try done. injection He as <-.
    by eapply (books_extend sys); [|eapply extends_detected|exact HB].
  - assert (Hl : local_label l = true) by (by destruct l).
    assert (He' : front_exec set_result prepare_payload k l st = Some st') by (by destruct st).
    destruct (front_exec_step _ _ _ _ _ _ Hl He') as (b & r & r1 & w & new & moved & Hf).
    by eapply books_front.
  - destruct st as [sys fs ls ws rs]. cbn -[wrapper_exec] in He. destruct (ws !! n) as [x|] eqn:Hn; [|done].
    cbn -[wrapper_exec] in He. destruct (_ && _) eqn:Hg; [done|].
    eapply books_wrapper; [|exact HB|exact He]. cbn. intros x' Hn' (_ & Hfn & _). simplify_eq.
    apply used_act; [done|congruence].
  - destruct st as [sys fs ls ws rs]. cbn -[wrapper_exec] in He. destruct (ws !! n) as [x|] eqn:Hn; [|done].
    cbn -[wrapper_exec] in He. destruct (wr_gone x) eqn:Hg; [done|].
    eapply books_wrapper; [|exact HB|exact He]. cbn. intros x' Hn' (_ & Hfn & Hm & _). simplify_eq.
    apply used_delete; [done|congruence|done].
Qed.

Lemma hs_reachable_books name st : reachable name st → books st.
Proof using Happ.
  intros Hrun.
  apply (star_invariant (λ st, reachable name st ∧ books st) _ _) in Hrun; [by destruct Hrun| |].
  - intros x y [Hr HB] Hstep. destruct (hs_reachable_simulated _ _ _ _ _ _ _ Hr) as [Hb Hsim].
    split; [by eapply star_trans; [exact Hr|apply star_one]|by eapply books_step].
  - split; [constructor|]. split; cbn; try done. intros n Hn. by apply not_elem_of_nil in Hn.
Qed.

(** ** What handlers are called with *)

Lemma owed_http_calls ts :
  List.filter http_call (owed app ts)
  = List.filter http_task ts ≫= task_calls.
Proof.
  induction ts as [|t ts IH]; [done|]. rewrite owed_cons, List.filter_app, IH, owed_one. cbn [List.filter].
  destruct t as [cb j u s|cb n|cb j|[g|] [u|] j m|[g|] [u|] j c|cb w]; cbn;
    repeat (match goal with |- context [cb_end app ?i] => destruct (cb_end app i) end; cbn); done.
Qed.

Lemma owed_on k ts :
  List.filter (call_on k) (owed app ts) = List.filter (task_on k) ts ≫= task_calls.
Proof.
  induction ts as [|t ts IH]; [done|]. rewrite owed_cons, List.filter_app, IH, owed_one. cbn [List.filter].
  destruct t as [cb j u s|cb n|cb j|[g|] [u|] j m|[g|] [u|] j c|cb w]; cbn;
    repeat (match goal with |- context [cb_end app ?i] => destruct (cb_end app i) end; cbn); try done;
    by destruct (bool_decide _).
Qed.

Lemma http_calls_filter l : http_calls l = http_calls (List.filter http_call l).
Proof. unfold http_calls. induction l as [|[] l IH]; cbn; try done. by f_equal. Qed.

(** The closures of a connection are those of its wrappers. *)
Lemma posted_on st k isSsl r :
  books st → hs_fronts st !! k = Some (Connected isSsl r) →
  List.filter (task_on k) (posted (trace (sys_server (hs_sys st)))) = http_posts (hc_events r).
Proof.
  intros [B1 B2 B3 _] Hk. destruct (B2 k isSsl r Hk) as [-> _].
  transitivity (List.filter (task_on k) (List.filter http_task (posted (trace (sys_server (hs_sys st)))))).
  { clear. induction (posted _) as [|t ts IH]; [done|]. cbn. destruct t; cbn; try done.
    destruct (bool_decide _); cbn; by rewrite IH. }
  rewrite B1. clear B1 B2 Hk.
  assert (Hw : Forall (wrapper_ok (hs_fronts st)) (hs_wrappers st)) by (by apply Forall_lookup).
  clear B3. induction Hw as [|w ws (_ & _ & _ & h & x & Ht & Hx) _ IH]; [done|].
  cbn [fmap list_fmap List.filter]. rewrite IH.
  rewrite Ht. cbn. rewrite Hx. unfold of_front. destruct (Nat.eqb_spec (wr_front w) k) as [->|Hne].
  - rewrite bool_decide_true by done. cbn. by rewrite Ht.
  - rewrite bool_decide_false by congruence. done.
Qed.

(** The [n]th call of a handler is about the [n]th wrapper. *)
Lemma handed_calls f name st n w :
  served_reachable app strict f settings name (hs_sys st) → books st →
  settled (sys_server (hs_sys st)) → mQueue (mWorkQueue (shared (sys_server (hs_sys st)))) = [] →
  mStopped (mWorkQueue (shared (sys_server (hs_sys st)))) = false →
  hs_wrappers st !! n = Some w →
  n < handed st
  ∧ ∃ h x, wr_task w = TaskHttp h x
      ∧ List.filter http_call (called (trace (sys_server (hs_sys st)))) !! n = Some (CallHttp h x).
Proof using Happ.
  intros Hr HB Hset Hq Hst Hn.
  destruct (called_posted app strict f settings name _ Hr) as [_ Hall].
  specialize (Hall (settled_never is_worker_op _ Hset) Hq Hst). unfold handed. rewrite Hall, owed_http_calls, (bk_posted _ HB).
  assert (Hhttp : http_calls (owed app (posted (trace (sys_server (hs_sys st)))))
                  = http_calls ((wr_task <$> hs_wrappers st) ≫= task_calls)).
  { rewrite <-(bk_posted _ HB), <-owed_http_calls. apply http_calls_filter. }
  rewrite Hhttp. clear Hhttp Hall.
  assert (Hw : Forall (wrapper_ok (hs_fronts st)) (hs_wrappers st))
    by (apply Forall_lookup; apply (bk_wrapper _ HB)).
  revert n Hn. induction Hw as [|u ws (_ & _ & _ & h & x & Ht & _) _ IH]; intros n Hn; [done|].
  cbn [fmap list_fmap mbind list_bind]. rewrite Ht. cbn. destruct n as [|n]; cbn in Hn.
  - simplify_eq. split; [lia|]. by exists h, x.
  - destruct (IH n Hn) as [Hlt Hx]. split; [exact (proj1 (Nat.succ_lt_mono _ _) Hlt)|exact Hx].
Qed.

(** ** Sessions come from upgrades *)

Record origins (st : hsystem) : Prop := {
  or_session i s : sys_sessions (hs_sys st) !! i = Some s →
    ∃ k isSsl r, hs_links st !! i = Some k ∧ hs_fronts st !! k = Some (Connected isSsl r)
      ∧ hc_sessions r = [(session_settings settings, mTarget (rt_session s))]
      ∧ registers_as (mTarget (rt_session s)) isSsl (rt_events s);
  or_links k isSsl r : hs_fronts st !! k = Some (Connected isSsl r) →
    count (Nat.eqb k) (hs_links st) = length (hc_sessions r);
  or_allowed k isSsl r p b : hs_fronts st !! k = Some (Connected isSsl r) →
    HeUpgradeAllowed p b ∈ hc_events r → b = UpgradeAllowed_by settings p
}.

(** The system of which all this is known. *)
Definition known name st : Prop :=
  base st ∧ (∀ f, agrees f st → served_reachable app strict f settings name (hs_sys st)).

Lemma known_simulated name st st' :
  simulated app strict settings set_result prepare_payload st st' → known name st → known name st'.
Proof.
  intros [Hb' Hsim] [_ Hr]. split; [done|]. intros f Hf. destruct (Hsim f Hf) as [Hf' Hst].
  eapply star_trans; [by apply Hr|exact Hst].
Qed.

Lemma known_steady name st : known name st → Server.mSettings (shared (sys_server (hs_sys st))) = settings.
Proof using Happ.
  intros [Hb Hr]. specialize (Hr _ (agrees_is_ssl _ _ _ st Hb)).
  apply served_sys, (sys_steady app strict) in Hr. apply Hr.
Qed.

Lemma deliver_sessions ops ss i s' :
  deliver ops ss !! i = Some s' →
  ∃ s, ss !! i = Some s ∧ rt_session s' = rt_session s ∧ rt_events s' = rt_events s.
Proof.
  unfold deliver. revert ss. induction ops as [|o ops IH]; intros ss Hi; cbn in *; [by eauto|].
  destruct (IH _ Hi) as (s1 & H1 & Hs & He). destruct (deliver_events o ss i s1 H1) as (s & ? & ? & ?).
  exists s. split_and!; congruence.
Qed.

(** Calls answer the upgrade question by the settings. *)
Lemma hc_called_allowed ev (w w' : world) p b :
  hc_called ev w w' → Server.mSettings (w_impl w) = settings →
  Server.mSettings (w_impl w') = settings
  ∧ (HeUpgradeAllowed p b ∈ ev → b = UpgradeAllowed_by settings p).
Proof.
  induction 1 as [v|p' b' ev v v1 v2 Hc _ IH|i ev v v1 v2 Hc _ IH|p' h ev v v1 v2 Hc _ IH
    |h x ev v v1 v2 Hc _ IH|m ev v v1 v2 Hc _ IH]; intros Hs.
  { split; [done|]. by intros ?%not_elem_of_nil. }
  1: cbn in Hc; unfold on_world in Hc; cbn in Hc; injection Hc as Hb' <-; cbn in IH.
  2,3,4,5: cbn in Hc; unfold on_world in Hc; cbn in Hc;
    first [injection Hc as _ <-|injection Hc as <-]; cbn in IH.
  3: unfold FindHttpHandler_locked in IH; destruct (is_empty _) in IH.
  all: destruct (IH Hs) as [Hs' Hin]; (split; [exact Hs'|]);
    intros [Heq|Hev]%elem_of_cons; try done; try by apply Hin.
  injection Heq as -> ->. by rewrite <-Hb', Hs.
Qed.

Lemma origins_front name k l st st' :
  known name st → local_label l = true → front_exec set_result prepare_payload k l st = Some st' →
  origins st → origins st'.
Proof using Happ.
  intros Hk Hl He [O1 O2 O3]. pose proof (known_steady _ _ Hk) as Hset. destruct Hk as [Hb _].
  destruct (front_exec_step _ _ _ _ _ _ Hl He) as (isSsl & r & r1 & w & new & moved & Hf).
  pose proof (front_reachable _ _ _ _ _ _ _ _ _ _ _ _ _ Hb Hf) as Hr1.
  pose proof (front_moved _ _ _ _ _ _ _ _ _ _ _ _ _ Hb Hf) as Hmv.
  apply hc_reachable_inv in Hr1. pose proof (hi_one _ _ Hr1) as Hone. unfold waiting in Hone.
  destruct Hf as [Hbk _ _ Hcall Hev Hses _ ->]. cbv zeta.
  rewrite Hses, length_app in Hone.
  assert (Hself : <[k := Connected isSsl r1]> (hs_fronts st) !! k = Some (Connected isSsl r1))
    by (apply list_lookup_insert_eq; by eapply lookup_lt_Some).
  pose proof (hb_length _ _ _ _ Hb) as Hlen.
  split; cbn [hs_sys hs_fronts hs_links sys_sessions].
  - intros i s [Hi|[Hge Hi]]%lookup_app_Some.
    + destruct (deliver_sessions _ _ _ _ Hi) as (s0 & H0 & -> & ->).
      destruct (O1 i s0 H0) as (j & b & q & Hlk & Hj & Hq & Hreg). destruct (decide (j = k)) as [->|Hne].
      * rewrite Hj in Hbk. simplify_eq. exists k, isSsl, r1.
        split_and!; [by apply lookup_app_l_Some|done| |done].
        rewrite Hses, Hq. rewrite Hq in Hone. cbn in Hone. destruct moved; [done|cbn in Hone; lia].
      * exists j, b, q. rewrite list_lookup_insert_ne by done.
        split_and!; [by apply lookup_app_l_Some|done..].
    + cbn in Hge, Hi. rewrite deliver_length in Hge, Hi. rewrite list_lookup_fmap in Hi.
      destruct moved as [|[s0 t] [|]]; cbn in Hone; [done| |lia].
      assert (i = length (sys_sessions (hs_sys st))) as ->.
      { destruct (i - _) eqn:Hd; [lia|]. by cbn in Hi. }
      rewrite Nat.sub_diag in Hi.
      destruct (ws_start_target s0 (Some (current (after w (hs_sys st)))) t) as [Ht Hevs].
      set (s1 := ws_start _ _ _) in Ht, Hevs. change (Some s1 = Some s) in Hi. injection Hi as <-.
      apply Forall_cons in Hmv as [Hs0 _]. cbn in Hs0. subst s0.
      exists k, isSsl, r1. rewrite Ht, Hevs. split_and!; [|done| |constructor].
      * rewrite lookup_app_r, Hlen by lia. by rewrite Nat.sub_diag.
      * rewrite Hses. destruct (hc_sessions r); [done|cbn in Hone; lia].
  - intros j b q [[-> [= -> ->]]|[Hne Hj]]%list_insert_cases; rewrite count_app.
    + rewrite Hses, length_app, (O2 k isSsl r Hbk). f_equal. rewrite count_all, length_replicate; [done|].
      intros x [-> _]%elem_of_replicate. apply Nat.eqb_refl.
    + rewrite (O2 j b q Hj), (count_none _ (replicate _ _)); [lia|].
      intros x [-> _]%elem_of_replicate. by apply Nat.eqb_neq.
  - intros j b q p a [[-> [= -> ->]]|[Hne Hj]]%list_insert_cases; [|by eapply O3].
    rewrite Hev. intros [Hin|Hin]%elem_of_app; [by eapply O3|].
    by eapply (hc_called_allowed _ _ _ p a Hcall).
Qed.

(** Sessions went on, connections were added. *)
Lemma origins_extend sys sys' fs fs' ls ws rs ws' rs' :
  base (mkHs sys fs ls ws rs) → extends fs fs' →
  (∀ (i : nat) s', sys_sessions sys' !! i = Some s' → ∃ s new, sys_sessions sys !! i = Some s
     ∧ mTarget (rt_session s') = mTarget (rt_session s) ∧ rt_events s' = rt_events s ++ new
     ∧ registers_as (mTarget (rt_session s)) (hs_is_ssl (mkHs sys fs ls ws rs) i) new) →
  origins (mkHs sys fs ls ws rs) → origins (mkHs sys' fs' ls ws' rs').
Proof.
  intros Hb [Hold Hnew] Hss [O1 O2 O3]. cbn in *. split; cbn.
  - intros i s' Hi. destruct (Hss i s' Hi) as (s & new & H0 & Ht & He & Hreg).
    destruct (O1 i s H0) as (k & b & r & Hlk & Hk & Hr & Hregs). rewrite Ht, He.
    destruct (Hnew k) as (b' & r' & Hk'); [by eexists _, _|].
    assert (fs' !! k = Some (Connected b r)) as Hkr.
    { destruct (Hold k b' r' Hk') as [Heq|[Hno _]]; [congruence|]. destruct Hno. by eexists _, _. }
    exists k, b, r. split_and!; try done. apply Forall_app. split; [done|].
    unfold hs_is_ssl in Hreg. cbn in Hreg. rewrite Hlk in Hreg. cbn in Hreg. by rewrite Hk in Hreg.
  - intros k b r Hk. destruct (Hold k b r Hk) as [Hk'|(Hno & _ & _ & _ & Hs)]; [by eapply O2|].
    rewrite Hs. apply count_none. intros j (i & Hi)%list_elem_of_lookup. apply Nat.eqb_neq. intros <-.
    apply Hno. exact (hb_links _ _ _ _ Hb i k Hi).
  - intros k b r p a Hk. destruct (Hold k b r Hk) as [Hk'|(_ & He & _)]; [by eapply O3|].
    rewrite He. by intros ?%not_elem_of_nil.
Qed.

Lemma server_sessions f l st st' (i : nat) s' :
  sys_exec f settings (SysServer l) st = Some st' → sys_sessions st' !! i = Some s' →
  ∃ s, sys_sessions st !! i = Some s ∧ rt_session s' = rt_session s ∧ rt_events s' = rt_events s.
Proof.
  destruct st as [c g ss]. cbn -[exec_sched]. destruct (exec_sched l c) as [c'|]; [|done].
  cbn. intros [= <-]. cbn. apply deliver_sessions.
Qed.

Lemma session_sessions f j l st st' (i : nat) s' :
  own_label l = true → sys_exec f settings (SysSession j l) st = Some st' →
  (∀ i r, sys_sessions st !! i = Some r → is_Some (rt_srv r)) →
  sys_sessions st' !! i = Some s' →
  ∃ s new, sys_sessions st !! i = Some s ∧ mTarget (rt_session s') = mTarget (rt_session s)
    ∧ rt_events s' = rt_events s ++ new ∧ registers_as (mTarget (rt_session s)) (f i) new.
Proof.
  destruct st as [c g ss]. intros Hl He Hsrv Hi. cbn -[ws_exec] in *.
  destruct (ss !! j) as [r|] eqn:Hj; [|done]. cbn -[ws_exec] in He.
  destruct (ws_exec _ _ _ (WServer _) r) as [r0|] eqn:H0; [|done]. cbn -[ws_exec] in He.
  destruct (ws_exec _ _ _ l r0) as [r1|] eqn:H1; [|done]. cbn -[ws_exec] in He.
  destruct (rt_srv r1) as [w|]; [|done]. cbn in He. injection He as <-. cbn in Hi.
  destruct (deliver_sessions _ _ _ _ Hi) as (s1 & Hs1 & -> & ->).
  destruct (exec_server_srv _ _ _ _ _ H0) as (Hv0 & Hs0 & _).
  assert (Hev0 : rt_events r0 = rt_events r).
  { clear -H0. destruct r as [? [?|]]; cbn in H0; by simplify_eq. }
  destruct (ws_exec_target _ _ _ _ _ _ Hv0 Hl H1) as (new & Ht & He & Hreg).
  destruct (list_insert_cases _ _ _ _ _ Hs1) as [[-> ->]|[_ Hs1']].
  - exists r, new. by rewrite Ht, He, Hev0, <-Hs0.
  - exists s1, []. rewrite app_nil_r. split_and!; [done..|constructor].
Qed.

Lemma origins_replies name n l st st' :
  known name st → post_replies set_result prepare_payload n l st = Some st' → origins st → origins st'.
Proof using Happ.
  revert st. induction l as [|k l IH]; intros st Hk He HO; cbn -[front_exec] in He; [by simplify_eq|].
  destruct (front_exec _ _ k HReply st) as [st1|] eqn:H1; [|done]. cbn -[front_exec] in He.
  pose proof (simulated_front app strict _ _ _ k HReply st st1 eq_refl (proj1 Hk) H1) as Hs1.
  eapply IH; [|exact He|].
  - eapply (known_simulated name st1); [by apply simulated_same; [..|apply Hs1]|].
    by eapply known_simulated.
  - assert (HO1 : origins st1) by (by eapply (origins_front name k HReply st)).
    destruct HO1 as [O1 O2 O3]. by split.
Qed.

Lemma origins_wrapper name n m gone st st' :
  known name st → wrapper_exec set_result prepare_payload n m gone st = Some st' →
  origins st → origins st'.
Proof using Happ.
  intros Hk He [O1 O2 O3]. unfold wrapper_exec in He. destruct (hs_wrappers st !! n) as [x|]; [|done].
  cbn -[post_replies] in He. destruct (m (wr_now x)) as [[res now] ops].
  eapply origins_replies; [|exact He|by split].
  eapply known_simulated; [|exact Hk]. by apply simulated_same; [..|apply Hk].
Qed.

Lemma origins_step name st st' :
  known name st → hs_step app strict settings set_result prepare_payload st st' →
  origins st → origins st'.
Proof using Happ.
  intros Hk (l & Hok & He) HO. pose proof Hk as [Hb Hreach].
  pose proof (Hreach _ (agrees_is_ssl _ _ _ st Hb)) as Hr.
  pose proof (proj1 (sys_reachable_inv app strict _ settings name _ (served_sys _ _ _ _ _ _ Hr))) as Hbi.
  destruct l as [l|i l|k pk x|k l|n a|n|j]; destruct st as [sys fs ls ws rs].
  - cbn -[sys_exec] in He. destruct (sys_exec _ _ (SysServer l) sys) as [sys'|] eqn:Hs; [|done].
    cbn -[sys_exec] in He. injection He as <-.
    eapply origins_extend; [exact Hb|apply extends_accepted| |exact HO]. intros i s' Hi.
    destruct (server_sessions _ _ _ _ _ _ Hs Hi) as (s & Hs0 & -> & ->). exists s, [].
    rewrite app_nil_r. split_and!; [done..|constructor].
  - cbn -[sys_exec] in He, Hok. destruct (sys_exec _ _ (SysSession i l) sys) as [sys'|] eqn:Hs; [|done].
    cbn -[sys_exec] in He. injection He as <-.
    eapply origins_extend; [exact Hb|apply extends_refl| |exact HO]. intros j s' Hj.
    eapply session_sessions; [exact Hok|exact Hs| |exact Hj]. intros j' r' Hj'.
    by eapply (bi_sessions _ _ Hbi).
  - cbn in He. destruct (fs !! k) as [[d| |]|] eqn:Hfk; try done. injection He as <-.
    eapply origins_extend; [exact Hb|by eapply extends_detected| |exact HO]. intros i s Hi.
    exists s, []. rewrite app_nil_r. split_and!; [done..|constructor].
  - eapply (origins_front name k l); [exact Hk|by destruct l|exact He|exact HO].
  - cbn -[wrapper_exec] in He. destruct (ws !! n) as [x|]; [|done]. cbn -[wrapper_exec] in He.
    destruct (_ && _); [done|]. by eapply origins_wrapper.
  - cbn -[wrapper_exec] in He. destruct (ws !! n) as [x|]; [|done]. cbn -[wrapper_exec] in He.
    destruct (wr_gone x); [done|]. by eapply origins_wrapper.
  - cbn -[front_exec] in He. destruct (rs !! j) as [n|]; [|done]. cbn -[front_exec] in He.
    destruct (ws !! n) as [x|]; [|done]. cbn -[front_exec] in He.
    destruct (mHttpMsg (wr_now x)) as [msg|]; [|done]. cbn -[front_exec] in He.
    destruct (front_exec _ _ _ (HResponse msg) _) as [st1|] eqn:H1; [|done].
    cbn -[front_exec] in He. injection He as <-.
    assert (HO1 : origins st1) by (by eapply (origins_front name _ (HResponse msg))).
    destruct HO1 as [O1 O2 O3]. by split.
Qed.

Lemma hs_reachable_known name st : reachable name st → known name st ∧ origins st.
Proof using Happ.
  intros Hrun.
  apply (star_invariant (λ st, reachable name st ∧ known name st ∧ origins st) _ _) in Hrun;
    [by destruct Hrun| |].
  - intros x y (Hr & Hk & HO) Hstep.
    assert (Hy : reachable name y) by (by eapply star_trans; [exact Hr|apply star_one]).
    split; [done|]. split; [exact (hs_reachable_simulated _ _ _ _ _ _ _ Hy)|by eapply origins_step].
  - assert (Hi : reachable name (hs_init settings name)) by constructor.
    split; [done|]. split; [exact (hs_reachable_simulated _ _ _ _ _ _ _ Hi)|]. by split.
Qed.

End Requests.

(** ** Properties *)

(** C4. Every http request is accounted for.  When the calls have returned and the workqueue
    is empty, and no response of the connection was refused by Beast, the requests a connection has read are those it has answered, the one it
    became a session for, those whose reply is on its strand, and those whose wrapper
    has not replied; and unless the queue was stopped each wrapper's handler has been
    called with it, so that an unanswered request is in the hands of the application. *)
Theorem every_request_accounted app strict `{!Behaves strict app} settings set_result prepare_payload
    name st k isSsl r :
  hs_reachable app strict settings set_result prepare_payload name st →
  settled (sys_server (hs_sys st)) →
  mQueue (mWorkQueue (shared (sys_server (hs_sys st)))) = [] →
  hs_fronts st !! k = Some (Connected isSsl r) → hc_fault r = None →
  length (hc_requests r)
    = length (hc_responses r) + length (hc_sessions r)
      + count (replying k (hs_wrappers st)) (hs_replies st)
      + count (unanswered_on k) (hs_wrappers st)
  ∧ (mStopped (mWorkQueue (shared (sys_server (hs_sys st)))) = false →
     ∀ n w, hs_wrappers st !! n = Some w →
       n < handed st
       ∧ ∃ h x, wr_task w = TaskHttp h x
           ∧ List.filter http_call (called (trace (sys_server (hs_sys st)))) !! n = Some (CallHttp h x)).
Proof.
  intros Hrun Hset Hq Hk Hft.
  destruct (hs_reachable_known _ _ _ _ _ _ _ Hrun) as [[Hb Hreach] _].
  pose proof (hs_reachable_books _ _ _ _ _ _ _ Hrun) as HB. split.
  - destruct (hb_fits _ _ _ _ Hb k _ Hk) as [_ [Hr Hsrv]].
    destruct (bk_front _ HB k isSsl r Hk) as (_ & <- & <-).
    apply hc_reachable_inv in Hr as [_ _ Hall _]. rewrite <-(Hall Hft Hsrv). unfold unanswered. lia.
  - intros Hst n w Hn. by eapply (handed_calls app strict settings _ name); [apply Hreach, (agrees_is_ssl _ _ _ _ Hb)|..].
Qed.

(** C7. Handlers are called in the order of the requests.  About every request a connection
    read something was done, in the order it read them and before the next one: an upgrade
    was checked against the settings; for any other a handler was looked up, and if there
    is one, the closure that calls it, with the path, the query and the body of the
    request, was posted to the server's queue.  The handlers are called with exactly those
    posted closures, in that order and without a gap, and with all of them once the calls
    have returned and the queue is empty, unless it was stopped. *)
Theorem requests_handled_in_order app strict `{!Behaves strict app} settings set_result prepare_payload
    name st k isSsl r :
  hs_reachable app strict settings set_result prepare_payload name st →
  hs_fronts st !! k = Some (Connected isSsl r) →
  (∃ cs, Forall2 (decides k) (hc_requests r) cs
     ∧ List.filter is_decision (hc_events r) = concat cs)
  ∧ let tr := trace (sys_server (hs_sys st)) in
    let owing := http_posts (hc_events r) ≫= task_calls in
    List.filter (call_on k) (called tr) `prefix_of` owing
    ∧ (settled (sys_server (hs_sys st)) →
       mQueue (mWorkQueue (shared (sys_server (hs_sys st)))) = [] →
       mStopped (mWorkQueue (shared (sys_server (hs_sys st)))) = false →
       List.filter (call_on k) (called tr) = owing).
Proof.
  intros Hrun Hk. destruct (hs_reachable_known _ _ _ _ _ _ _ Hrun) as [[Hb Hreach] _].
  pose proof (hs_reachable_books _ _ _ _ _ _ _ Hrun) as HB.
  destruct (hb_fits _ _ _ _ Hb k _ Hk) as [_ [Hr Hsrv]]. apply hc_reachable_past in Hr.
  split; [by apply (hp_decided _ _ _ Hr)|]. intros tr owing. unfold owing.
  destruct (called_posted app strict _ settings name _ (Hreach _ (agrees_is_ssl _ _ _ _ Hb)))
    as [[rest Hpre] Hall].
  rewrite <-(posted_on _ _ _ _ HB Hk), <-(owed_on app). split.
  - exists (List.filter (call_on k) rest). by rewrite Hpre, List.filter_app.
  - intros Hset Hq Hst. subst tr. apply (settled_never is_worker_op) in Hset. by rewrite Hall.
Qed.

(** C5. Every session comes from an upgrade: from a connection of its own, which read the
    request last, was allowed to upgrade by the settings, and has nothing else to wait for.
    The session registers with the target of that request, as ssl or not like the
    connection. *)
Theorem session_from_upgrade app strict `{!Behaves strict app} settings set_result prepare_payload
    name st i s :
  hs_reachable app strict settings set_result prepare_payload name st →
  sys_sessions (hs_sys st) !! i = Some s →
  ∃ k isSsl r q,
    hs_links st !! i = Some k ∧ hs_fronts st !! k = Some (Connected isSsl r)
    ∧ (∀ j, hs_links st !! j = Some k → j = i)
    ∧ last (hc_requests r) = Some q ∧ req_is_upgrade q = true
    ∧ UpgradeAllowed_by settings (target_path (req_target q)) = true
    ∧ hc_handshakes r + hc_reads r + length (hc_writes r) + length (hc_handlers r) + hc_posts r = 0
    ∧ ∀ t b id, EvRegister t b id ∈ rt_events s → t = req_target q ∧ b = isSsl.
Proof.
  intros Hrun Hi. destruct (hs_reachable_known _ _ _ _ _ _ _ Hrun) as [[Hb _] [O1 O2 O3]].
  destruct (O1 i s Hi) as (k & b & r & Hlk & Hk & Hr & Hreg).
  destruct (hb_fits _ _ _ _ Hb k _ Hk) as [_ [Hhc _]].
  pose proof (hc_reachable_past _ _ _ _ _ _ Hhc) as [_ _ Hp].
  apply hc_reachable_inv in Hhc as [Hone _ _ _]. unfold waiting in Hone. rewrite Hr in Hone. cbn in Hone.
  destruct (Hp _ _ ltac:(rewrite Hr; by left)) as (_ & q & Hq & Hup & Ht & Hev).
  exists k, b, r, q. split_and!; try done.
  - intros j Hj. eapply (count_unique (Nat.eqb k)); [|exact Hj|exact Hlk|apply Nat.eqb_refl..].
    by rewrite (O2 k b r Hk), Hr.
  - rewrite Ht. symmetry. by eapply O3.
  - lia.
  - intros t a id Hin. unfold registers_as in Hreg. rewrite Forall_forall in Hreg.
    rewrite Ht. exact (Hreg _ Hin).
Qed.

(** C6. What the server says about ssl is true: a client that is listed as ssl came over an ssl
    connection and one that is not did not, and where the settings require ssl every
    client is one, where they have none no client is. *)
Theorem clients_ssl_as_configured app strict `{!Behaves strict app} settings set_result prepare_payload
    name st id e :
  hs_reachable app strict settings set_result prepare_payload name st →
  in_range (sys_history (hs_sys st)) →
  mClients (shared (sys_server (hs_sys st))) !! id = Some e →
  (∃ k r, hs_links st !! session e = Some k ∧ hs_fronts st !! k = Some (Connected (isSsl e) r))
  ∧ (ssl_of (sslContext settings) = None → isSsl e = false)
  ∧ (ssl_of (sslContext settings) ≠ None → sslRequired settings = true → isSsl e = true).
Proof.
  intros Hrun Hin He. destruct (hs_reachable_known _ _ _ _ _ _ _ Hrun) as [[Hb Hreach] [O1 _ _]].
  pose proof (served_sys _ _ _ _ _ _ (Hreach _ (agrees_is_ssl _ _ _ _ Hb))) as Hsys.
  destruct (sys_reachable_inv _ _ _ _ _ _ Hsys) as [_ Hinv]. destruct (Hinv Hin) as [_ [L1 _ _ _]].
  destruct (L1 id e He) as (s & Hs & _ & _). destruct (O1 _ s Hs) as (k & b & r & Hlk & Hk & _ & _).
  apply (sys_steady app strict) in Hsys as [[_ _ Hssl] _].
  assert (isSsl e = b) as ->.
  { rewrite (Hssl id e He). unfold hs_is_ssl. rewrite Hlk. cbn. by rewrite Hk. }
  destruct (hb_fits _ _ _ _ Hb k _ Hk) as [Hfit _]. unfold front_fits, accepts_as in Hfit.
  split; [by exists k, r|]. split.
  - intros Hno. by rewrite Hno in Hfit.
  - intros Hyes Hreq. destruct (ssl_of _) as [ctx|]; [|done]. by rewrite Hreq in Hfit.
Qed.

(** ** Concrete runs *)

Definition demo_connection (n : nat) : hc_rt world :=
  match hs_fronts (demo_hs n) !! 0 with
  | Some (Connected _ r) => r
  | _ => hc_start false (default_server_settings 0) [] None
  end.

Lemma every_request_accounted_witness :
  length (hc_requests (demo_connection 14)) = 1 ∧ length (hc_responses (demo_connection 14)) = 0
  ∧ handed (demo_hs 14) = 1
  ∧ length (hc_requests (demo_connection 14))
    = length (hc_responses (demo_connection 14)) + length (hc_sessions (demo_connection 14))
      + count (replying 0 (hs_wrappers (demo_hs 14))) (hs_replies (demo_hs 14))
      + count (unanswered_on 0) (hs_wrappers (demo_hs 14)).
Proof.
  split_and!; [by vm_compute..|].
  apply (every_request_accounted demo_app True (default_server_settings 0) beast_result beast_payload
           "demo" (demo_hs 14) 0 false); [apply demo_hs_reachable|..].
  - unfold settled. vm_compute. repeat constructor; by eexists.
  - by vm_compute.
  - by vm_compute.
  - by vm_compute.
Defined.

Lemma requests_handled_in_order_witness :
  List.filter (call_on 0) (called (trace (sys_server (hs_sys (demo_hs 14)))))
    = [CallHttp 4 (CHttpWrapper_new
         (Some (request_msg (demo_request "/api/status?x=1" false) "/api/status" {["x" := "1"]} 1))
         (Some 0))]
  ∧ hc_requests (demo_connection 14) = [demo_request "/api/status?x=1" false]
  ∧ (∃ cs, Forall2 (decides 0) (hc_requests (demo_connection 14)) cs
       ∧ List.filter is_decision (hc_events (demo_connection 14)) = concat cs)
  ∧ List.filter (call_on 0) (called (trace (sys_server (hs_sys (demo_hs 14)))))
    = http_posts (hc_events (demo_connection 14)) ≫= task_calls.
Proof.
  split; [by vm_compute|]. split; [by vm_compute|].
  destruct (requests_handled_in_order demo_app True (default_server_settings 0) beast_result
              beast_payload "demo" (demo_hs 14) 0 false (demo_connection 14))
    as (Hcs & _ & Hall); [apply demo_hs_reachable|by vm_compute|].
  split; [exact Hcs|]. apply Hall; [|by vm_compute|by vm_compute].
  unfold settled. vm_compute. repeat constructor; by eexists.
Defined.

Definition demo_session : ws_rt world :=
  default (ws_start (default_server_settings 0) None "") (sys_sessions (hs_sys (demo_hs 20)) !! 0).

Lemma session_from_upgrade_witness :
  EvRegister "/chat" false 2 ∈ rt_events demo_session
  ∧ ∃ k isSsl r q, hs_links (demo_hs 20) !! 0 = Some k
      ∧ hs_fronts (demo_hs 20) !! k = Some (Connected isSsl r)
      ∧ last (hc_requests r) = Some q ∧ req_target q = "/chat".
Proof.
  assert (Hev : rt_events demo_session = [EvRegister "/chat" false 2]) by by vm_compute.
  split; [rewrite Hev; by left|].
  destruct (session_from_upgrade demo_app True (default_server_settings 0) beast_result beast_payload
              "demo" (demo_hs 20) 0 demo_session)
    as (k & b & r & q & Hl & Hk & _ & Hq & _ & _ & _ & Hreg);
    [apply demo_hs_reachable|by vm_compute|].
  exists k, b, r, q. split_and!; [done..|].
  symmetry. apply (Hreg _ false 2%Z). rewrite Hev. by left.
Defined.

Lemma clients_ssl_as_configured_witness :
  mClients (shared (sys_server (hs_sys (demo_hs 20)))) !! 2%Z = Some (mkEntry 0 "" false)
  ∧ ∃ k r, hs_links (demo_hs 20) !! 0 = Some k
      ∧ hs_fronts (demo_hs 20) !! k = Some (Connected false r).
Proof.
  split; [by vm_compute|].
  apply (clients_ssl_as_configured demo_app True (default_server_settings 0) beast_result beast_payload
           "demo" (demo_hs 20) 2 (mkEntry 0 "" false)).
  - apply demo_hs_reachable.
  - by vm_compute.
  - by vm_compute.
Defined.
