(* ===== verification/ServerApi.v ===== *)
(** * [CWebsocketServer] and [CUriWrapper]: the public interface of the server

    The facade forwards to [CImpl]; the operations with content of their own are the
    delayed sends, which build the payload only when somebody will receive it, and the
    overloads, which fill in defaults.  A delayed function is application code: a
    program of its own, which may call the server and may throw. *)

From S2P Require Import Prelude CppString Uri Net Events WorkQueue Threads Server ServerOps.
Open Scope prog_scope.

Section Api.
Context (app : application).
Context (listen : string → Z → res (nat * Z)).

(** ** Life cycle *)

(** The constructor creates the implementation and starts its workqueue. *)
Definition CWebsocketServer_new (name : string) (settings : CServerSettings) : CImpl :=
  state_of (run StartThreads (CImpl_new name settings)).

Definition CWebsocketServer_new_named (new_mutex : nat) (name : string) : CImpl :=
  CWebsocketServer_new name (default_server_settings new_mutex).

Definition CWebsocketServer_new_default (new_mutex : nat) : CImpl :=
  CWebsocketServer_new_named new_mutex "CWebsocketServer".

Definition CWebsocketServer_delete : SRV unit := Shutdown app.

Definition Start4 (address : string) (port : Z) (clientCbs : CClientCallbacks) : SRV unit :=
  Start listen address port clientCbs.
Definition Start_port (port : Z) (clientCbs : CClientCallbacks) : SRV unit :=
  Start4 "0.0.0.0" port clientCbs.
Definition Start_cbs (clientCbs : CClientCallbacks) : SRV unit :=
  Start4 "0.0.0.0" 8080 clientCbs.
Definition Start_default : SRV unit := Start4 "0.0.0.0" 8080 no_client_callbacks.

Definition server_Stop : SRV unit := Stop app.
Definition server_Port : SRV Z := Port.
Definition server_RemoveClient (clientId : Z) : SRV unit := RemoveClient app clientId.
Definition server_AddUri (uri : string) (callbacks : CUriCallbacks) : SRV unit :=
  AddUri uri callbacks.
Definition server_RemoveUri (uri : string) : SRV unit := RemoveUri uri.

(** ** Sending *)

Definition SendContent_to (clientId : Z) (content : list byte) : SRV unit :=
  SendToClient clientId (MakeContentPayload content).
Definition SendContent_all (content : list byte) : SRV unit :=
  Broadcast None (MakeContentPayload content).
Definition SendContent_uri (uri : string) (content : list byte) : SRV unit :=
  Broadcast (Some uri) (MakeContentPayload content).

Definition SendMessage_to (clientId : Z) (message : string) : SRV unit :=
  SendToClient clientId (MakeTextPayload message).
Definition SendMessage_all (message : string) : SRV unit :=
  Broadcast None (MakeTextPayload message).
Definition SendMessage_uri (uri : string) (message : string) : SRV unit :=
  Broadcast (Some uri) (MakeTextPayload message).

(** The four delayed overloads: [uri] is [None] for a null uri, [eval] is [None] for an
    empty function. *)
Definition SendContent_delayed (uri : option string) (eval : option (SRV (list byte)))
    : SRV unit :=
  match eval with
  | None => pret tt
  | Some content =>
      any <- AnyClients uri ;;
      if negb any then pret tt
      else payload <- content ;; Broadcast uri (MakeContentPayload payload)
  end.

Definition SendMessage_delayed (uri : option string) (eval : option (SRV string)) : SRV unit :=
  match eval with
  | None => pret tt
  | Some message =>
      any <- AnyClients uri ;;
      if negb any then pret tt
      else payload <- message ;; Broadcast uri (MakeTextPayload payload)
  end.

(** ** Queries *)

Definition server_GetConnectedClientIds : SRV (gmap Z bool) := GetConnectedClientIds.
Definition ClientsConnected : SRV bool := AnyClients None.
Definition ClientsConnected_uri (uri : string) : SRV bool := AnyClients (Some uri).

(** ** [CUriWrapper] *)

(** [mServer] is false for a null pointer. *)
Record CUriWrapper := mkUriWrapper { mServer : bool; mUri : string }.

Definition CUriWrapper_new (server : bool) (uri : string) (callbacks : CUriCallbacks)
    : SRV CUriWrapper :=
  pwhen server (AddUri uri callbacks) ;; pret (mkUriWrapper server uri).

Definition CUriWrapper_delete (w : CUriWrapper) : SRV unit :=
  pwhen (mServer w) (RemoveUri (mUri w)).

Definition wrapper_SendContent (w : CUriWrapper) (content : list byte) : SRV unit :=
  pwhen (mServer w) (SendContent_uri (mUri w) content).
Definition wrapper_SendContent_delayed (w : CUriWrapper) (eval : option (SRV (list byte)))
    : SRV unit :=
  pwhen (mServer w) (SendContent_delayed (Some (mUri w)) eval).
Definition wrapper_SendMessage (w : CUriWrapper) (message : string) : SRV unit :=
  pwhen (mServer w) (SendMessage_uri (mUri w) message).
Definition wrapper_SendMessage_delayed (w : CUriWrapper) (eval : option (SRV string))
    : SRV unit :=
  pwhen (mServer w) (SendMessage_delayed (Some (mUri w)) eval).
Definition wrapper_ClientsConnected (w : CUriWrapper) : SRV bool :=
  if mServer w then ClientsConnected_uri (mUri w) else pret false.

End Api.

(** ** Lemmas *)

(** The public functions stay within what the application may call, delayed sends when
    their function does. *)
Lemma api_delayed_message strict uri f :
  (∀ g, f = Some g → api_call strict g) → api_call strict (SendMessage_delayed uri f).
Proof.
  intros Hf. destruct f as [g|]; [|apply api_done]. apply api_bind; [constructor|].
  intros []; [|apply api_done]. apply api_bind; [by apply Hf|]. intros m. by apply api_broadcast.
Qed.

Lemma api_delayed_content strict uri f :
  (∀ g, f = Some g → api_call strict g) → api_call strict (SendContent_delayed uri f).
Proof.
  intros Hf. destruct f as [g|]; [|apply api_done]. apply api_bind; [constructor|].
  intros []; [|apply api_done]. apply api_bind; [by apply Hf|]. intros m. by apply api_broadcast.
Qed.

Lemma api_facade strict app `{!Behaves strict app} :
  api_call strict (server_Stop app) ∧ api_call strict server_Port
  ∧ (∀ id, api_call strict (server_RemoveClient app id))
  ∧ (∀ u cbs, api_call strict (server_AddUri u cbs)) ∧ (∀ u, api_call strict (server_RemoveUri u))
  ∧ (∀ id m, api_call strict (SendMessage_to id m)) ∧ (∀ id c, api_call strict (SendContent_to id c))
  ∧ (∀ m, api_call strict (SendMessage_all m)) ∧ (∀ c, api_call strict (SendContent_all c))
  ∧ (∀ u m, api_call strict (SendMessage_uri u m)) ∧ (∀ u c, api_call strict (SendContent_uri u c))
  ∧ api_call strict server_GetConnectedClientIds ∧ api_call strict ClientsConnected
  ∧ (∀ u, api_call strict (ClientsConnected_uri u)).
Proof. split_and!; intros; constructor; auto. Qed.

Lemma run_SendMessage_delayed uri (f : SRV string) s :
  run (SendMessage_delayed uri (Some f)) s
  = if AnyClients_locked uri s then
      bind (run f) (λ m, run (Broadcast uri (MakeTextPayload m))) s
    else (Ok tt, s, []).
Proof.
  unfold SendMessage_delayed, AnyClients. cbn [pbind pgets locked pret run fst snd].
  destruct (AnyClients_locked uri s); cbn [negb]; [apply run_bind|done].
Qed.

Lemma run_SendContent_delayed uri (f : SRV (list byte)) s :
  run (SendContent_delayed uri (Some f)) s
  = if AnyClients_locked uri s then
      bind (run f) (λ c, run (Broadcast uri (MakeContentPayload c))) s
    else (Ok tt, s, []).
Proof.
  unfold SendContent_delayed, AnyClients. cbn [pbind pgets locked pret run fst snd].
  destruct (AnyClients_locked uri s); cbn [negb]; [apply run_bind|done].
Qed.

(** ** Properties *)

(** A delayed send runs its function exactly when a matching client is connected, and
    then sends what the function produced to the clients matching after it ran; if the
    function throws, the exception reaches the caller and nothing is sent. *)
Theorem delayed_send_only_when_connected uri (f : SRV string) s :
  if AnyClients_locked uri s then
    match run f s with
    | (Ok m, s', ops) =>
        run (SendMessage_delayed uri (Some f)) s
        = (Ok tt, s', ops ++ ((λ sess, SessionSend sess (MakeTextPayload m))
                              <$> Broadcast_targets uri s'))
    | (Throw e, s', ops) => run (SendMessage_delayed uri (Some f)) s = (Throw e, s', ops)
    end
  else run (SendMessage_delayed uri (Some f)) s = (Ok tt, s, []).
Proof.
  rewrite run_SendMessage_delayed. destruct (AnyClients_locked uri s); [|done].
  unfold bind. destruct (run f s) as [[[m|e] s'] ops]; [|done].
  unfold Broadcast. cbn [pbind pgets locked pret run fst snd]. by rewrite run_emits.
Qed.

(** A [CUriWrapper] registers its uri for its lifetime: requests and clients arriving in
    between find its callbacks; afterwards the uri is gone, and clients connected through
    it stay connected under it. *)
Theorem uri_wrapper_lifetime uri callbacks s :
  let s1 := state_of (run (CUriWrapper_new true uri callbacks) s) in
  let s2 := state_of (run (CUriWrapper_delete (mkUriWrapper true uri)) s1) in
  result_of (run (CUriWrapper_new true uri callbacks) s) = Ok (mkUriWrapper true uri)
  ∧ mUris s1 !! uri = Some callbacks
  ∧ mUris s2 !! uri = None ∧ (∀ u, u ≠ uri → mUris s2 !! u = mUris s !! u)
  ∧ mClients s2 = mClients s ∧ mUriCounts s2 = mUriCounts s
  ∧ (uri ≠ "" → ∀ path, UriMatches uri path = true →
     longest_in (λ v, is_Some (mUris s1 !! v)) path (LongestUriMatchLocked path s1)).
Proof.
  cbn. split_and!; try done.
  - apply lookup_insert_eq.
  - apply lookup_delete_eq.
  - intros u Hu. by rewrite lookup_delete_ne, lookup_insert_ne.
  - intros Hne path Hm.
    destruct (LongestUriMatch_spec path (set_mUris (<[uri:=callbacks]> (mUris s)) s))
      as [[_ Hnone]|[_ ?]]; [|done].
    rewrite Hnone in Hm; [done|]. cbn. rewrite lookup_insert_eq. by eexists.
Qed.
