(* ===== verification/EchoServer.v ===== *)
(** * The echo server example

    examples/echo_server.cpp: the callbacks it registers, as an [application] whose callbacks
    call the server back, and [main].  A statement that writes to a stream is one effect.
    SIGINT is an input: [polls] is how often the loop finds the flag unset.  Callback
    names: 0 to 3 are those of [CClientCallbacks] in the order of its fields, 4 is the
    http handler. *)

From S2P Require Import Prelude CppString Uri Net Events WorkQueue Threads HttpWrapper.
From S2P Require Import Server ServerOps ServerApi.
Open Scope prog_scope.

Definition newline : string := String "010" "".
Definition show_bool (b : bool) : string := if b then "1" else "0".

(** ** The callbacks *)

Definition callbacks : CClientCallbacks := mkClientCallbacks (Some 0) (Some 1) (Some 2) (Some 3).
Definition apiCallbacks : CUriCallbacks := mkUriCallbacks None None None (Some 4).

Definition cout (text : string) : SRV unit := pemit (ByApp (Cout text)).
Definition cerr (text : string) : SRV unit := pemit (ByApp (Cerr text)).

Definition on_added (id : Z) (uriAppend : string) (isSsl : bool) : SRV unit :=
  cout ("client " +:+ to_string id +:+ " connected (uri append '" +:+ uriAppend +:+ "', ssl "
        +:+ show_bool isSsl +:+ ")" +:+ newline).

Definition on_closed (id : Z) : SRV unit :=
  cout ("client " +:+ to_string id +:+ " disconnected" +:+ newline).

Definition on_message (id : Z) (message : string) : SRV unit :=
  cout ("client " +:+ to_string id +:+ " says: " +:+ message +:+ newline) ;;
  SendMessage_to id message.

Definition on_content (id : Z) (content : list byte) : SRV unit :=
  cout ("client " +:+ to_string id +:+ " sent " +:+ to_string (Z.of_nat (length content))
        +:+ " bytes" +:+ newline) ;;
  SendContent_to id content.

(** What the handler prints; what it does with its wrapper is [api_acts]. *)
Definition on_request (w : CHttpWrapper) : SRV unit :=
  match mHttpMsg w with
  | Some m => cout (method m +:+ " " +:+ uri m +:+ newline)
  | None => Done (Throw (UndefinedBehaviour "null message"))
  end.

Definition status_body : string := "{" +:+ dquote +:+ "status" +:+ dquote +:+ ": " +:+ dquote +:+ "ok" +:+ dquote +:+ "}".

Definition set_body (b : list byte) (m : HttpMsg) : HttpMsg :=
  mkHttpMsg b (keepAlive m) (version m) (uri m) (method m) (reason m) (responseCode m) (clientId m)
    (contextType m) (queryParameters m).

Definition api_acts : list handler_act :=
  [ActMutate (set_body (bytes_of_string status_body)); ActReply].

Definition echo_body (i : invocation) : SRV unit :=
  match i with
  | CallAdded _ id append ssl => on_added id append ssl
  | CallClosed _ id => on_closed id
  | CallMessage _ id m => on_message id m
  | CallContent _ id c => on_content id c
  | CallHttp _ w => on_request w
  | CallConnectionChange _ _ => pret tt
  end.

Definition echo_app : application := mkApplication (λ _, Returns) echo_body.

(** ** [main] *)

(** [static_cast<unsigned short>(std::stoul(argv[1]))]; [args] are the arguments after the
    program's name. *)
Definition echo_port (args : list string) : res Z :=
  match args with
  | [] => Ok 8080%Z
  | a :: _ => n ← stoul a; Ok (n mod 2 ^ 16)%Z
  end.

(** [catch (const std::exception& e)]: what [e.what()] says. *)
Definition std_what (f : fault) : option string :=
  match f with
  | OutOfRange w | InvalidArgument w | RuntimeError w | SystemError w => Some w
  | UndefinedBehaviour _ | OutOfFuel => None
  end.

(** The server object exists when [main] runs: the port is read before it is made, and a
    throwing [stoul] ends the program there. *)
Definition main (listen : string → Z → res (nat * Z)) (args : list string) (polls : nat) : SRV Z :=
  port <- Done (echo_port args) ;;
  server_AddUri "/api" apiCallbacks ;;
  started <- pcatch (Start_port listen port callbacks ;; pret true) (λ f,
    match std_what f with
    | Some what =>
        cerr ("failed to start on port " +:+ to_string port +:+ ": " +:+ what +:+ newline) ;;
        pret false
    | None => Done (Throw f)
    end) ;;
  if negb started then CWebsocketServer_delete echo_app ;; pret 1%Z
  else
    p <- server_Port ;;
    cout ("listening on port " +:+ to_string p +:+ " (ctrl-c to stop)" +:+ newline) ;;
    pemit (ByApp OnSigint) ;;
    pfor (seq 0 polls) (λ _, pemit (ByApp (SleepMs 100))) ;;
    server_Stop echo_app ;;
    CWebsocketServer_delete echo_app ;;
    pret 0%Z.

(** The callbacks only use the public interface. *)
#[export] Instance echo_behaves strict : Behaves strict echo_app.
Proof.
  intros [cb id u s|cb n|cb id|cb id m|cb id c|cb w]; unfold cb_body, echo_app, echo_body.
  - apply api_effect.
  - apply api_done.
  - apply api_effect.
  - apply api_bind; [apply api_effect|]. intros _. by apply api_send.
  - apply api_bind; [apply api_effect|]. intros _. by apply api_send.
  - unfold on_request. destruct (mHttpMsg w); [apply api_effect|apply api_done].
Qed.

(** [main] does too; it shuts the server down, so it is no thread of a [strict] system. *)
Lemma main_api listen args polls : api_call False (main listen args polls).
Proof.
  apply api_bind; [apply api_done|]. intros port. apply api_bind; [apply api_add_uri|]. intros _.
  apply api_bind.
  - apply api_catch.
    + apply api_bind; [by apply (api_start False listen "0.0.0.0" port callbacks)|]. intros _. apply api_done.
    + intros f. destruct (std_what f); [|apply api_done]. apply api_bind; [apply api_effect|].
      intros _. apply api_done.
  - assert (Hdel : api_call False (CWebsocketServer_delete echo_app))
      by (apply api_shutdown; [auto|apply behaves]).
    intros []; cbn [negb].
    + apply api_bind; [apply api_port|]. intros p. do 2 (apply api_bind; [apply api_effect|]; intros _).
      apply api_bind.
      { induction (seq 0 polls) as [|x l IH]; [apply api_done|].
        apply api_bind; [apply api_effect|]. by intros _. }
      intros _. apply api_bind; [apply api_stop, behaves|]. intros _.
      apply api_bind; [done|]. intros _. apply api_done.
    + apply api_bind; [done|]. intros _. apply api_done.
Qed.

(** ** What the program does by itself *)

Lemma echo_port_value n :
  (0 ≤ n < 2 ^ 64)%Z → echo_port [to_string n] = Ok (n mod 2 ^ 16)%Z.
Proof. intros Hn. unfold echo_port. by rewrite stoul_to_string. Qed.

(** A status request is answered with the JSON text, a 200, by the handler itself, whether
    the strand runs before or after the wrapper goes away. *)
Lemma api_reply fn m es c :
  es = [Release; Deliver] ∨ es = [Deliver; Release] →
  converse (λ _, None) ((Act <$> api_acts) ++ es) (conversation_start m fn) = Some c →
  c_sent c = [(fn, Some (set_body (bytes_of_string status_body) m))].
Proof. intros [-> | ->] Hc; by injection Hc as <-. Qed.

(** ** [main] alone *)

Definition echo_server (mutex : nat) : CImpl := CWebsocketServer_new_named mutex "echo_server".

Lemma run_sleeps n (s : CImpl) :
  run (pfor (seq 0 n) (λ _, pemit (ByApp (SleepMs 100)))) s
  = (Ok tt, s, replicate n (ByApp (SleepMs 100))).
Proof.
  rewrite (run_emits (seq 0 n) (λ _, ByApp (SleepMs 100))). f_equal.
  generalize 0. induction n as [|n IH]; intros k; [done|]. cbn. by rewrite IH.
Qed.

Lemma run_delete_empty s :
  mClients s = ∅ → mShutdown s = false →
  ∃ s', run (CWebsocketServer_delete echo_app) s = (Ok tt, s', CloseAcceptor <$> option_list (mAcceptor s))
        ∧ mShutdown s' = true ∧ mClients s' = ∅ ∧ mStopped (mWorkQueue s') = true.
Proof.
  intros Hc Hsd. unfold CWebsocketServer_delete, Shutdown. cbn. rewrite Hsd. cbn.
  unfold in_order. cbn. rewrite Hc, map_to_list_empty. cbn.
  assert (Hst : mStopped (WorkQueue.Stop_locked (mWorkQueue s)).2 = true)
    by (unfold WorkQueue.Stop_locked; by destruct (mStopped (mWorkQueue s)) eqn:E).
  destruct (mAcceptor s); cbn; eexists; (split; [reflexivity|]); by split_and!.
Qed.

(** From the signal to the end. *)
Lemma run_finish polls s acceptor :
  mClients s = ∅ → mShutdown s = false → mAcceptor s = Some acceptor →
  ∃ s', run (pfor (seq 0 polls) (λ _, pemit (ByApp (SleepMs 100))) ;;
             server_Stop echo_app ;; CWebsocketServer_delete echo_app ;; pret 0%Z) s
        = (Ok 0%Z, s', replicate polls (ByApp (SleepMs 100)) ++ [CloseAcceptor acceptor])
        ∧ mShutdown s' = true ∧ mStopped (mWorkQueue s') = true ∧ mClients s' = ∅.
Proof.
  intros Hc Hsd Ha. set (s1 := (Server.Stop_locked s).2).
  destruct (run_delete_empty s1) as (s' & Hrun & H1 & H2 & H3); [done|done|].
  assert (Hstop : run (server_Stop echo_app) s = (Ok tt, s1, [CloseAcceptor acceptor])).
  { unfold server_Stop, Server.Stop. cbn. unfold in_order. rewrite Hc, map_to_list_empty, Ha. done. }
  exists s'. split; [|done].
  rewrite (run_then _ _ _ _ _ _ (run_sleeps polls s)), (run_then _ _ _ _ _ _ Hstop),
    (run_then _ _ _ _ _ _ Hrun). done.
Qed.

(** C26. What [main] does when nothing else runs.  A bad argument ends it with the exception of
    [stoul]; a port that cannot be listened on is reported and gives exit code 1; else
    the server listens, waits for the signal, closes the acceptor and gives 0.  The
    server is shut down whenever [main] returns. *)
Theorem echo_main listen args polls mutex :
  let s := echo_server mutex in
  match echo_port args with
  | Throw f => run (main listen args polls) s = (Throw f, s, [])
  | Ok port =>
      match listen "0.0.0.0" port with
      | Throw f =>
          match std_what f with
          | Some what =>
              ∃ s', run (main listen args polls) s
                = (Ok 1%Z, s', [ByApp (Cerr ("failed to start on port " +:+ to_string port +:+ ": "
                                             +:+ what +:+ newline))])
              ∧ mShutdown s' = true
          | None => ∃ s', run (main listen args polls) s = (Throw f, s', [])
          end
      | Ok (acceptor, local_port) =>
          ∃ s', run (main listen args polls) s
            = (Ok 0%Z, s',
               AsyncAccept acceptor
               :: ByApp (Cout ("listening on port " +:+ to_string local_port +:+ " (ctrl-c to stop)"
                               +:+ newline))
               :: ByApp OnSigint :: replicate polls (ByApp (SleepMs 100)) ++ [CloseAcceptor acceptor])
          ∧ mShutdown s' = true ∧ mStopped (mWorkQueue s') = true ∧ mClients s' = ∅
      end
  end.
Proof.
  intros s. unfold main. destruct (echo_port args) as [port|f] eqn:Hp; [|done].
  destruct (listen "0.0.0.0" port) as [[acceptor lp]|f] eqn:Hl.
  - destruct (run_finish polls (set_mClientCbs callbacks (set_listening (Some acceptor) lp
      (run (AddUri "/api" apiCallbacks) s).1.2)) acceptor) as (s' & Hrun & ? & ? & ?); [done..|].
    exists s'. split; [|done]. unfold server_AddUri, AddUri, Start_port, Start4, Start.
    cbn [pbind locked pret run pcatch pgets]. rewrite Hl.
    cbn -[to_string CWebsocketServer_delete Server.Stop newline pfor seq].
    cbn -[to_string CWebsocketServer_delete Server.Stop newline pfor seq] in Hrun.
    by rewrite Hrun.
  - destruct (run_delete_empty (run (AddUri "/api" apiCallbacks) s).1.2) as (s' & Hrun & ? & _); [done..|].
    cbn -[CWebsocketServer_delete] in Hrun.
    destruct (std_what f) as [what|] eqn:Hw; exists s' + eexists;
      unfold server_AddUri, AddUri, Start_port, Start4, Start;
      cbn [pbind locked pret run pcatch pgets]; rewrite Hl;
      cbn -[to_string CWebsocketServer_delete newline]; rewrite Hw;
      cbn -[to_string CWebsocketServer_delete newline]; [|done].
    split; [|done]. by rewrite (run_then _ _ _ _ _ _ Hrun).
Qed.
