(* ===== verification/EchoSystem.v ===== *)
(** * The echo server among its clients

    The system of Delivery.v with the callbacks and the [main] of the echo server: what is sent
    to a client, followed from the message a session read, through the closure it posted,
    to the callback that sends it back and the session it is handed to. *)

From S2P Require Import Prelude CppString Uri Net Events WorkQueue WsSession Threads.
From S2P Require Import Server ServerOps Registry System Delivery ServerApi EchoServer.
Open Scope prog_scope.

(** ** The worker's thread *)

(** What a call of a callback gives the client: its id and the payload. *)
Definition echo_of (i : invocation) : option (Z * SPayload) :=
  match i with
  | CallMessage _ id m => Some (id, MakeTextPayload m)
  | CallContent _ id c => Some (id, MakeContentPayload c)
  | _ => None
  end.

(** What the worker is about to do: nothing, look up the client it owes an answer, or
    hand it to the session it found. *)
Inductive owing := Idle | Due (id : Z) (p : SPayload) | Found (sess : nat) (p : SPayload).

Definition due (o : option (Z * SPayload)) : owing :=
  match o with Some (id, p) => Due id p | None => Idle end.

(** A call of the worker, or a send. *)
Definition loud (o : srv_op) : bool :=
  is_worker_op o || match o with SessionSend _ _ => true | _ => false end.

#[local] Notation quiet := (never (S:=CImpl) loud).

(** The rest of a thread answers every message it calls the callback with, once, to the
    session the registry names at that moment, before it calls the next. *)
Fixpoint echoing {A} (d : owing) (p : SRV A) : Prop :=
  match p with
  | Done _ => d = Idle
  | Atomic upd next =>
      (∀ s, echoing d (next s))
      ∨ ∃ id pl, d = Due id pl ∧ ∀ s,
          mClients (upd s) = mClients s
          ∧ echoing (match mClients s !! id with Some e => Found (session e) pl | None => Idle end)
              (next s)
  | Emit e p =>
      match e with
      | Invoked i => if worker_call i then d = Idle ∧ echoing (due (echo_of i)) p else echoing d p
      | SessionSend s pl => d = Found s pl ∧ echoing Idle p
      | _ => echoing d p
      end
  end.

Lemma quiet_echoing {A} (p : SRV A) : quiet p → echoing Idle p.
Proof.
  induction p as [r|upd next IH|e p IH]; cbn; [done|by left; auto|]. intros [He Hp].
  destruct e as [| |i| | | | | |]; unfold loud in He; cbn in He; try (by apply IH); [done|].
  destruct (worker_call i); [done|by apply IH].
Qed.

(** A thread that is quiet from now on owes nothing. *)
Lemma echoing_quiet {A} d (p : SRV A) : echoing d p → quiet p → d = Idle.
Proof.
  revert d. induction p as [r|upd next IH|e p IH]; intros d; cbn; [done| |].
  - set (s := CImpl_new "" (default_server_settings 0)).
    intros [Hd|(id & pl & -> & Hd)] Hq; [by apply (IH s)|]. exfalso.
    set (s1 := set_mClients {[id := mkEntry 0 "" false]} s). destruct (Hd s1) as [_ He].
    cbn in He. rewrite lookup_singleton_eq in He. by apply IH in He.
  - intros Hd [He Hq]. destruct e as [| |i| | | | | |]; unfold loud in He; cbn in He; try (by apply IH).
    destruct (worker_call i); [done|by apply IH].
Qed.

Lemma echoing_bind {A B} d (p : SRV A) (k : A → SRV B) :
  echoing d p → (∀ a, echoing Idle (k a)) → echoing d (pbind p k).
Proof.
  intros Hp Hk. revert d Hp. induction p as [[a|f]|upd next IH|e p IH]; intros d Hp; cbn in *.
  - by subst.
  - done.
  - destruct Hp as [Hp|(id & pl & -> & Hp)]; [left; auto|right]. exists id, pl. split; [done|].
    intros s. destruct (Hp s). split; auto.
  - destruct e as [| |i| | | | | |]; auto; [by destruct Hp; auto|].
    destruct (worker_call i); [destruct Hp|]; auto.
Qed.

Lemma echoing_catch {A} d (p : SRV A) h :
  echoing d p → (∀ f, echoing Idle (h f)) → echoing d (pcatch p h).
Proof.
  intros Hp Hh. revert d Hp. induction p as [[a|f]|upd next IH|e p IH]; intros d Hp; cbn in *.
  - done.
  - by subst.
  - destruct Hp as [Hp|(id & pl & -> & Hp)]; [left; auto|right]. exists id, pl. split; [done|].
    intros s. destruct (Hp s). split; auto.
  - destruct e as [| |i| | | | | |]; auto; [by destruct Hp; auto|].
    destruct (worker_call i); [destruct Hp|]; auto.
Qed.

Lemma echoing_send id pl : echoing (Due id pl) (SendToClient id pl).
Proof.
  right. exists id, pl. split; [done|]. intros s. split; [done|]. cbn.
  destruct (mClients s !! id) as [e|]; cbn; [by split|]. by left.
Qed.

Lemma echoing_body i :
  worker_call i = true → echoing (due (echo_of i)) (cb_body echo_app i).
Proof.
  destruct i as [cb id u s|cb n|cb id|cb id m|cb id c|cb w]; intros Hw; try done; cbn.
  - apply (echoing_send id (MakeTextPayload m)).
  - apply (echoing_send id (MakeContentPayload c)).
  - unfold on_request. by destruct (mHttpMsg w).
Qed.

Lemma echoing_Invoke calls : echoing Idle (Invoke echo_app calls).
Proof.
  induction calls as [|i calls IH]; [done|]. apply echoing_bind; [|by intros []].
  assert (Hrest : ∀ d, echoing d (cb_body echo_app i) →
    echoing d (pbind (pcatch (cb_body echo_app i) (λ _, pret tt)) (λ _, pret true))).
  { intros d Hd. apply echoing_bind; [by apply echoing_catch|done]. }
  cbn -[cb_body]. destruct (worker_call i) eqn:Hw; [split; [done|]|]; apply Hrest.
  - by apply echoing_body.
  - by destruct i.
Qed.

Lemma echoing_round : echoing Idle (worker_round echo_app).
Proof. left. intros s. apply echoing_bind; [done|]. intros [t|]; [apply echoing_Invoke|done]. Qed.

(** ** The other threads *)

Lemma quiet_NotifyClosedSync id uri : quiet (NotifyClosedSync echo_app id uri).
Proof.
  apply never_bind; [done|]. intros [[c cc] n].
  apply never_bind; [|intros _]; apply never_option; done.
Qed.

Lemma quiet_Stop : quiet (Server.Stop echo_app).
Proof.
  apply never_bind; [done|]. intros [acc entries]. apply never_bind; [by apply never_option|].
  intros _. apply never_bind; [by apply never_for|]. intros _.
  apply never_for. intros. apply quiet_NotifyClosedSync.
Qed.

Lemma quiet_delete : quiet (CWebsocketServer_delete echo_app).
Proof.
  apply never_bind; [done|]. intros []; cbn [negb]; [|done].
  apply never_bind; [apply quiet_Stop|done].
Qed.

Lemma quiet_main listen args polls : quiet (main listen args polls).
Proof.
  apply never_bind; [done|]. intros port. apply never_bind; [done|]. intros _.
  apply never_bind.
  - apply never_catch; [|intros f; by destruct (std_what f)].
    apply never_bind; [|done]. apply never_bind; [done|]. intros []; [done|].
    apply never_bind; [by destruct (listen _ port)|]. intros [acc lp].
    apply never_bind; [|done]. intros s. by destruct (Start_locked acc lp callbacks s).1.
  - intros []; cbn [negb]; [|by apply never_bind; [apply quiet_delete|]].
    apply never_bind; [done|]. intros p. apply never_bind; [done|]. intros _.
    apply never_bind; [done|]. intros _. apply never_bind; [by apply never_for|]. intros _.
    apply never_bind; [apply quiet_Stop|]. intros _. by apply never_bind; [apply quiet_delete|].
Qed.

Section System.
Context (is_ssl : nat → bool) (settings : CServerSettings).

(** The threads of the program. *)
Inductive echo_call : SRV unit → Prop :=
  | echo_main_thread listen args polls : echo_call (call (main listen args polls))
  | echo_threads : echo_call StartThreads
  | echo_accepted a alive opn r : echo_call (accepted a alive opn r)
  | echo_worker : echo_call (worker_round echo_app).

Lemma echo_call_app p : echo_call p → app_call echo_app False p.
Proof.
  intros []; try by constructor. apply app_api, api_bind; [apply main_api|]. intros _. apply api_done.
Qed.

Lemma echo_call_quiet p : echo_call p → p = worker_round echo_app ∨ quiet p.
Proof.
  intros []; [right..|by left].
  - apply never_bind; [apply quiet_main|done].
  - done.
  - unfold accepted. destruct (negb alive || negb opn); [done|]. destruct r as [ec|sock]; [|done].
    by destruct (ec_is EcAborted ec).
Qed.

Abbreviation thread := (prog CImpl srv_op unit).

(** At most one thread, the [j]th, is not quiet; it owes [d]. *)
Record echo_at (j : nat) (d : owing) (ps : list thread) : Prop := {
  ea_others i (p : thread) : ps !! i = Some p → i ≠ j → quiet p;
  ea_worker (p : thread) : ps !! j = Some p → echoing d p;
  ea_none : ps !! j = None → d = Idle
}.

Lemma echo_at_round j d (ps : list thread) :
  Forall quiet ps → echo_at j d ps →
  d = Idle ∧ echo_at (length ps) Idle (ps ++ [worker_round echo_app : thread]).
Proof.
  intros Hq [Ho Hw Hn]. rewrite Forall_lookup in Hq. split.
  - destruct (ps !! j) as [p|] eqn:Hp; [|by apply Hn]. eapply echoing_quiet; [by apply Hw|by eapply Hq].
  - split; [| |done].
    + intros i p [Hi|[Hlen Hi]]%lookup_app_Some Hne; [by eapply Hq|].
      apply list_lookup_singleton_Some in Hi as [? _]. lia.
    + intros p Hp. rewrite list_lookup_middle in Hp by done. simplify_eq. apply echoing_round.
Qed.

Lemma echo_at_call j d (ps : list thread) (p : thread) :
  quiet p → echo_at j d ps → echo_at j d (ps ++ [p]).
Proof.
  intros Hp [Ho Hw Hn].
  assert (Hlk : ∀ i q, (ps ++ [p]) !! i = Some q → ps !! i = Some q ∨ (ps !! i = None ∧ q = p)).
  { intros i q [?|[Hlen Hq]]%lookup_app_Some; [by left|right].
    apply list_lookup_singleton_Some in Hq as [_ <-]. split; [|done].
    by apply lookup_ge_None_2. }
  split.
  - intros i q [Hi|[_ ->]]%Hlk Hne; [by eapply Ho|done].
  - intros q [Hi|[Hi ->]]%Hlk; [by apply Hw|]. rewrite (Hn Hi). by apply quiet_echoing.
  - intros Hi. apply Hn, lookup_ge_None_2. apply lookup_ge_None_1 in Hi.
    rewrite length_app in Hi. lia.
Qed.

Lemma echo_at_other j d (ps : list thread) i (p p' : thread) :
  echo_at j d ps → ps !! i = Some p → i ≠ j → quiet p' → echo_at j d (<[i := p']> ps).
Proof.
  intros [Ho Hw Hn] Hi Hne Hp'. split.
  - intros k pk [[-> ->]|[_ Hk]]%list_insert_cases Hkj; [done|by eapply Ho].
  - rewrite list_lookup_insert_ne by done. apply Hw.
  - rewrite list_lookup_insert_ne by done. apply Hn.
Qed.

Lemma echo_at_worker j d d' (ps : list thread) (p p' : thread) :
  echo_at j d ps → ps !! j = Some p → echoing d' p' → echo_at j d' (<[j := p']> ps).
Proof.
  intros [Ho _ _] Hj Hp'. split.
  - intros k pk [[-> ->]|[_ Hk]]%list_insert_cases Hkj; [done|by eapply Ho].
  - rewrite list_lookup_insert_eq by (by eapply lookup_lt_Some). by intros q [= <-].
  - by rewrite list_lookup_insert_eq by (by eapply lookup_lt_Some).
Qed.

(** ** The ledger of answers *)

(** What has been handed to session [i]; the answers to calls about client [id]. *)
Definition sends (i : nat) (tr : list srv_op) : list SPayload :=
  omap (λ o, match o with
             | SessionSend s p => if bool_decide (s = i) then Some p else None
             | _ => None
             end) tr.
Definition echoes (id : Z) (calls : list invocation) : list SPayload :=
  omap (λ c, x ← echo_of c; if bool_decide (x.1 = id) then Some x.2 else None) calls.

(** The answer under way to session [i], and the one still to be looked up. *)
Definition found_for (i : nat) (d : owing) : list SPayload :=
  match d with Found s p => if bool_decide (s = i) then [p] else [] | _ => [] end.
Definition due_for (id : Z) (d : owing) : list SPayload :=
  match d with Due k p => if bool_decide (k = id) then [p] else [] | _ => [] end.

Lemma sends_app i tr tr' : sends i (tr ++ tr') = sends i tr ++ sends i tr'.
Proof. apply omap_app. Qed.
Lemma echoes_app id l l' : echoes id (l ++ l') = echoes id l ++ echoes id l'.
Proof. apply omap_app. Qed.

(** The client of session [i], 0 if there is none. *)
Definition client_of (ss : list (ws_rt world)) (i : nat) : Z :=
  match ss !! i with Some r => mClientId (rt_session r) | None => 0%Z end.

(** The answers to the calls about a client: those handed to its session, the one under
    way, those [lost] because the client was gone, the one to be looked up. *)
Record ledger (d : owing) (tr : list srv_op) (m : gmap Z SClientEntry) (client : nat → Z) : Prop := {
  lg_none i : client i = 0%Z → sends i tr = [] ∧ found_for i d = [];
  lg_some i : client i ≠ 0%Z → ∃ lost,
    sends i tr ++ found_for i d ++ lost ++ due_for (client i) d = echoes (client i) (called tr)
    ∧ (lost ≠ [] → m !! client i = None ∧ found_for i d = []);
  lg_due id : due_for id d ≠ [] → echoes id (called tr) ≠ []
}.

Lemma ledger_quiet d tr ops m m' client :
  (∀ i, sends i ops = []) → called ops = [] →
  (∀ i, client i ≠ 0%Z → m !! client i = None → m' !! client i = None) →
  ledger d tr m client → ledger d (tr ++ ops) m' client.
Proof.
  intros Hs Hc Hm [L1 L2 L3].
  split; [intros i|intros i|intros id]; rewrite ?sends_app, ?called_app, ?Hs, ?Hc, ?app_nil_r; auto.
  intros Hi. destruct (L2 i Hi) as (lost & Hsum & Hl). exists lost. split; [done|].
  intros Hne. destruct (Hl Hne). auto.
Qed.

(** The worker calls a callback. *)
Lemma ledger_call tr i m client :
  worker_call i = true → ledger Idle tr m client →
  ledger (due (echo_of i)) (tr ++ [Invoked i]) m client.
Proof.
  intros Hw [L1 L2 L3].
  assert (Hc : called [Invoked i] = [i]) by (cbn; by rewrite Hw).
  assert (Hf : ∀ j, found_for j (due (echo_of i)) = []) by (intros j; by destruct i).
  assert (Hd : ∀ id, due_for id (due (echo_of i)) = echoes id [i]).
  { intros id. destruct i; try done; cbn; by case_bool_decide. }
  split; [intros j|intros j|intros id];
    rewrite ?sends_app, ?called_app, ?echoes_app, ?Hc, ?app_nil_r, ?Hf, ?Hd.
  - intros Hj. split; [by apply L1|done].
  - intros Hj. destruct (L2 j Hj) as (lost & Hsum & Hl). exists lost. rewrite <-Hsum.
    cbn [found_for due_for]. rewrite !app_nil_r, <-!app_assoc. split; [done|].
    intros Hne. by destruct (Hl Hne).
  - intros Hne Hx. apply app_nil in Hx as [_ Hx]. done.
Qed.

(** It hands the answer to the session. *)
Lemma ledger_send s p tr m client :
  ledger (Found s p) tr m client → ledger Idle (tr ++ [SessionSend s p]) m client.
Proof.
  intros [L1 L2 L3].
  assert (Hs : ∀ i, sends i [SessionSend s p] = found_for i (Found s p)).
  { intros i. cbn. by case_bool_decide. }
  split; [intros i|intros i|intros id]; rewrite ?sends_app, ?called_app, ?Hs, ?app_nil_r.
  - intros Hi. destruct (L1 i Hi) as [-> ->]. done.
  - intros Hi. destruct (L2 i Hi) as (lost & Hsum & Hl). exists lost. rewrite <-app_assoc.
    split; [done|]. intros Hne. by destruct (Hl Hne).
  - done.
Qed.

(** It looks the client up. *)
Lemma ledger_lookup id p tr m client :
  (∀ e, m !! id = Some e → client (session e) = id ∧ id ≠ 0%Z) →
  (∀ i j, client i ≠ 0%Z → client i = client j → i = j) →
  ledger (Due id p) tr m client →
  ledger (match m !! id with Some e => Found (session e) p | None => Idle end) tr m client.
Proof.
  intros Hreg Huniq [L1 L2 L3]. destruct (m !! id) as [e|] eqn:He.
  - destruct (Hreg e eq_refl) as [Hcl Hnz]. split; [| |done].
    + intros i Hi. split; [by apply L1|]. cbn. rewrite bool_decide_false; [done|]. congruence.
    + intros i Hi. destruct (L2 i Hi) as (lost & Hsum & Hl). cbn in Hsum |- *.
      destruct (decide (session e = i)) as [<-|Hne].
      * rewrite !bool_decide_true in * by congruence.
        assert (lost = []) as ->.
        { destruct lost; [done|]. destruct Hl as [Hl _]; [done|]. congruence. }
        exists []. by rewrite app_nil_r.
      * rewrite (bool_decide_false (session e = i)) by done. exists lost.
        rewrite bool_decide_false in Hsum; [done|]. intros Heq. apply Hne, Huniq; congruence.
  - split; [by intros i Hi; split; [apply L1|]| |done].
    intros i Hi. destruct (L2 i Hi) as (lost & Hsum & Hl). cbn in Hsum |- *.
    exists (lost ++ (if bool_decide (id = client i) then [p] else [])). rewrite app_nil_r.
    split; [done|]. intros Hne. split; [|done]. case_bool_decide as Heq; [by rewrite <-Heq|].
    rewrite app_nil_r in Hne. by apply Hl.
Qed.

(** A session gets an id nobody has heard of. *)
Lemma ledger_register d tr m client client' k :
  (∀ i, i ≠ k → client' i = client i) →
  client k = client' k ∨ client k = 0%Z ∧ echoes (client' k) (called tr) = [] →
  ledger d tr m client → ledger d tr m client'.
Proof.
  intros Hother Hk Hl. destruct (decide (client k = client' k)) as [Heq|Hne].
  { assert (Hsame : ∀ i, client' i = client i) by (intros i; destruct (decide (i = k)); subst; auto).
    destruct Hl as [L1 L2 L3]. split; [intros i|intros i|done]; rewrite Hsame; auto. }
  destruct Hk as [?|[Hz Hnew]]; [done|]. destruct Hl as [L1 L2 L3].
  split; [intros i Hi|intros i Hi|done]; (destruct (decide (i = k)) as [->|Hik];
    [|rewrite Hother in * by done; auto]); [congruence|].
  destruct (L1 k Hz) as [Hs Hf]. exists []. rewrite Hs, Hf, Hnew. split; [|done]. cbn.
  destruct (due_for (client' k) d) eqn:Hd; [done|]. exfalso.
  apply (L3 (client' k)); [by rewrite Hd|done].
Qed.

(** ** The system *)

(** A round of the worker starts when its last one has ended. *)
Definition echo_round (l : sys_label) (st : system) : Prop :=
  match l with
  | SysServer (SCall p) => p = worker_round echo_app → Forall quiet (pool (sys_server st))
  | _ => True
  end.

Definition echo_ok (l : sys_label) : Prop :=
  match l with
  | SysServer l => sched_ok echo_call l
  | SysConnect _ => True
  | SysConnection p => conn_call p
  | SysSession _ l => own_label l = true
  end.

Definition echo_step (st st' : system) : Prop :=
  ∃ l, echo_ok l ∧ echo_round l st ∧ sys_exec is_ssl settings l st = Some st'.

Definition echo_reachable (name : string) (st : system) : Prop :=
  star echo_step (sys_init settings name) st.

Lemma quiet_never (p : thread) : quiet p → never is_worker_op p.
Proof.
  induction p as [r|upd next IH|e p IH]; cbn; [done|by auto|].
  intros [[He _]%orb_false_iff Hp]. by auto.
Qed.

Lemma echo_step_served x y : echo_step x y → served_step echo_app False is_ssl settings x y.
Proof.
  intros (l & Hok & Hr & He). exists l. split_and!; [| |done].
  - destruct l as [[p|i]| | |]; try done. by apply echo_call_app.
  - destruct l as [[p|i]| | |]; try done. intros ->. specialize (Hr eq_refl).
    eapply Forall_impl; [exact Hr|]. apply quiet_never.
Qed.

Lemma echo_served name st : echo_reachable name st → served_reachable echo_app False is_ssl settings name st.
Proof.
  unfold echo_reachable, served_reachable. generalize (sys_init settings name). intros st0 Hs.
  induction Hs as [|x y z Hstep _ IH]; [constructor|]. econstructor; [by apply echo_step_served|done].
Qed.

(** Closures that say nothing about a client owe it no answer. *)
Lemma echoes_owed id ts :
  about task_report id ts = [] → echoes id (owed echo_app ts) = [].
Proof.
  induction ts as [|t ts IH]; [done|]. rewrite about_cons, owed_cons, echoes_app.
  intros [Ht Hts]%app_nil. rewrite (IH Hts), app_nil_r, owed_one. clear -Ht. unfold about in Ht. cbn in Ht.
  destruct t as [cb j u s|cb n|cb j|[g|] [u|] j m|[g|] [u|] j c|cb w]; cbn in *; try done;
    case_bool_decide; done.
Qed.

Lemma echoes_called calls ts :
  calls `prefix_of` owed echo_app ts → ∀ id, about task_report id ts = [] → echoes id calls = [].
Proof.
  intros [rest Hr] id Ha. apply echoes_owed in Ha. rewrite Hr, echoes_app in Ha.
  by apply app_nil in Ha as [? _].
Qed.

(** Every message the callbacks were called with is answered once. *)
Definition answered (st : system) : Prop :=
  ∃ j d, echo_at j d (pool (sys_server st))
    ∧ ledger d (trace (sys_server st)) (mClients (shared (sys_server st)))
        (client_of (sys_sessions st)).

Lemma client_of_deliver ss o i : client_of (deliver_op ss o) i = client_of ss i.
Proof.
  unfold client_of. destruct (ss !! i) as [r|] eqn:Hi.
  - by destruct (deliver_op_forward ss o i r Hi) as (r' & -> & ->).
  - destruct (deliver_op ss o !! i) as [r'|] eqn:Hi'; [|done].
    destruct (deliver_op_lookup _ _ _ _ Hi') as (r & Hr & _). congruence.
Qed.

Lemma ledger_clients d tr m c c' :
  (∀ i, c' i = c i) → ledger d tr m c → ledger d tr m c'.
Proof. intros Hc. apply (ledger_register _ _ _ _ _ 0); [auto|left; by rewrite Hc]. Qed.

Section Step.
Context (x y : system) (Hb : base_inv settings x) (Hx : sys_inv False x).

Lemma registered_client id e :
  mClients (shared (sys_server x)) !! id = Some e →
  client_of (sys_sessions x) (session e) = id ∧ id ≠ 0%Z.
Proof using Hx.
  intros He. destruct (li_open _ _ _ _ (si_links _ _ Hx) id e He) as (r & Hr & _ & Hid).
  unfold client_of. rewrite Hr. split; [done|].
  by destruct (registered_nonzero False _ _ _ _ (server_ok_registry _ _ _ _ _ (si_server _ _ Hx)) He).
Qed.

Lemma clients_unique i j :
  client_of (sys_sessions x) i ≠ 0%Z → client_of (sys_sessions x) i = client_of (sys_sessions x) j → i = j.
Proof using Hx.
  unfold client_of. destruct (sys_sessions x !! i) as [r|] eqn:Hi; [|done].
  destruct (sys_sessions x !! j) as [r'|] eqn:Hj; [|congruence]. intros Hnz Heq.
  by eapply (li_unique _ _ _ _ (si_links _ _ Hx)).
Qed.

Lemma answered_server l :
  echo_ok (SysServer l) → echo_round (SysServer l) x →
  sys_exec is_ssl settings (SysServer l) x = Some y → answered x → answered y.
Proof using Hb Hx.
  intros Hok Hone He (j & d & Hj & Hl). revert Hj Hl. pose proof registered_client as Hreg.
  pose proof clients_unique as Huniq. destruct Hb as [Hcare _].
  destruct x as [[s ps tr] g ss]. cbn -[exec_sched] in *.
  destruct (exec_sched l _) as [c'|] eqn:Hc; cbn -[exec_sched] in He; simplify_eq/=. intros Hj Hl.
  destruct l as [p|i]; cbn in Hc; [|destruct (ps !! i) as [[r|upd next|e p]|] eqn:Hi];
    simplify_eq/=; rewrite ?drop_all, ?drop_app_length; cbn; unfold answered; cbn.
  - destruct (echo_call_quiet p Hok) as [->|Hq].
    + destruct (echo_at_round j d ps (Hone eq_refl) Hj) as [-> ?]. by eexists _, Idle.
    + exists j, d. split; [by apply echo_at_call|done].
  - rewrite Forall_lookup in Hcare. destruct (Hcare i _ Hi s) as (Hsub & _ & _).
    assert (Hgone : ∀ id, mClients s !! id = None → mClients (upd s) !! id = None).
    { intros id Hn. by eapply lookup_weaken_None. }
    assert (Hsame : ledger d tr (mClients (upd s)) (client_of ss)).
    { rewrite <-(app_nil_r tr). apply (ledger_quiet d tr [] (mClients s)); auto. }
    destruct (decide (i = j)) as [->|Hne].
    + destruct (ea_worker _ _ _ Hj _ Hi) as [Hd|(id & pl & -> & Hd)].
      * exists j, d. split; [|done]. eapply echo_at_worker; [exact Hj|exact Hi|apply Hd].
      * destruct (Hd s) as [Hm He]. eexists j, _. split; [by eapply echo_at_worker|].
        rewrite Hm. apply ledger_lookup; [apply Hreg|exact Huniq|exact Hl].
    + exists j, d. split; [|done]. eapply echo_at_other; [done..|].
      apply (ea_others _ _ _ Hj _ _ Hi Hne).
  - assert (Hcl : ∀ tr' m d', ledger d' tr' m (client_of ss) →
                  ledger d' tr' m (client_of (deliver_op ss e))).
    { intros tr' m d'. apply ledger_clients. intros k. apply client_of_deliver. }
    destruct (decide (i = j)) as [->|Hne].
    + pose proof (ea_worker _ _ _ Hj _ Hi) as Hd.
      assert (∃ d', echoing d' p ∧ ledger d' (tr ++ [e]) (mClients s) (client_of ss)) as (d' & Hd' & Hl').
      { destruct e as [s0 pl| |v| | | | | |]; cbn in Hd;
          try (exists d; split; [done|]; by apply (ledger_quiet d tr _ (mClients s))).
        - destruct Hd as [-> Hd]. exists Idle. split; [done|by apply ledger_send].
        - destruct (worker_call v) eqn:Hv.
          + destruct Hd as [-> Hd]. eexists. split; [exact Hd|by apply ledger_call].
          + exists d. split; [done|]. apply (ledger_quiet d tr _ (mClients s)); auto. cbn. by rewrite Hv. }
      exists j, d'. split; [by eapply echo_at_worker|by apply Hcl].
    + destruct (ea_others _ _ _ Hj _ _ Hi Hne) as [Hq Hqp]. exists j, d.
      split; [by eapply echo_at_other|]. apply Hcl, (ledger_quiet d tr _ (mClients s)); auto.
      * intros k. by destruct e.
      * destruct e as [| |v| | | | | |]; try done. unfold loud in Hq. cbn in Hq |- *.
        by destruct (worker_call v).
Qed.

Lemma quiet_ops ops : Forall (λ o, session_op o = false) ops → ∀ i, sends i ops = [].
Proof. intros Ho i. induction Ho as [|o ops H1 _ IH]; [done|]. cbn. by destruct o. Qed.

(** What an http connection or a session does. *)
Lemma answered_session i l :
  own_label l = true → sys_inv False y → in_range (sys_history y) →
  told_sys x → called (trace (sys_server x)) `prefix_of` owed echo_app (posted (trace (sys_server x))) →
  sys_exec is_ssl settings (SysSession i l) x = Some y → answered x → answered y.
Proof using Hb Hx.
  intros Hl Hy Hin [_ Hnew] Hpre He (j & d & Hj & Hled).
  destruct (sys_session_step echo_app False is_ssl settings i l x y Hl Hb He)
    as (r & r1 & w & new & [Hi -> Hev Hown Hrep _ Hp Hid]). cbn in Hin, Hy.
  destruct (Hid Hin Hx) as [Hcase Hgone]. destruct Hrep as [(ops & Hops & Hcall & _)].
  destruct (pass_ops _ _ _ Hp) as (ops' & Hops' & Hsil). cbn in Hops, Hops'.
  assert (ops' = ops) as -> by congruence. exists j, d. cbn. split; [done|]. rewrite Hops.
  eapply (ledger_register _ _ _ (client_of (sys_sessions x)) _ i).
  - intros k Hk. unfold client_of. by rewrite list_lookup_insert_ne.
  - unfold client_of. rewrite Hi, list_lookup_insert_eq by (by eapply lookup_lt_Some).
    destruct Hcase as [?|[Hz [?|Hfresh]]]; [by left|left; congruence|].
    destruct (decide (mClientId (rt_session r1) = 0%Z)) as [?|Hnz]; [left; congruence|right].
    split; [done|]. rewrite called_app, Hcall, app_nil_r. apply (echoes_called _ _ Hpre). by apply Hnew.
  - apply (ledger_quiet _ _ _ (mClients (shared (sys_server x)))); [by apply quiet_ops|done| |done].
    intros k Hk Hn. apply Hgone; [|done]. unfold client_of in Hk |- *.
    destruct (sys_sessions x !! k) as [rk|] eqn:Hrk; [|done].
    by eapply (li_seen _ _ _ _ (si_links _ _ Hx)).
Qed.

Lemma answered_connection p :
  conn_call p → sys_exec is_ssl settings (SysConnection p) x = Some y → answered x → answered y.
Proof using All.
  intros Hp He (j & d & Hj & Hl). revert Hj Hl. destruct x as [[s ps tr] g ss]. cbn -[on_world] in He.
  destruct (on_world p (mkWorld s g [])) as [r w] eqn:Hw. cbn in He. simplify_eq. cbn. intros Hj Hl.
  destruct (conn_passes echo_app False p r _ w Hp Hw) as [Hpass Hm]. cbn in Hm.
  destruct (conn_reported echo_app p r _ w Hp Hw) as [(ops & Hops & Hcall & _)].
  destruct (pass_ops _ _ _ Hpass) as (ops' & Hops' & Hsil). cbn in Hops, Hops'.
  assert (ops' = ops) as -> by congruence. exists j, d. cbn. split; [done|].
  rewrite Hm, Hops, deliver_silent by done.
  apply (ledger_quiet _ _ _ (mClients s)); auto. by apply quiet_ops.
Qed.

Lemma answered_connect target :
  sys_exec is_ssl settings (SysConnect target) x = Some y → answered x → answered y.
Proof.
  intros He (j & d & Hj & Hl). revert Hj Hl. destruct x as [[s ps tr] g ss]. cbn in He. simplify_eq.
  cbn. intros Hj Hl. exists j, d. cbn. split; [done|]. apply (ledger_clients _ _ _ (client_of ss)); [|done].
  intros i. unfold client_of. destruct (decide (i < length ss)).
  - by rewrite lookup_app_l.
  - rewrite (lookup_ge_None_2 ss) by lia. destruct ((ss ++ _) !! i) as [r|] eqn:Hr; [|done].
    apply lookup_app_Some in Hr as [Hr|[_ Hr]]; [by apply lookup_lt_Some in Hr|].
    by apply list_lookup_singleton_Some in Hr as [_ <-].
Qed.
End Step.

(** What a step of the program may rely on. *)
Record echo_run (name : string) (l : sys_label) (x y : system) : Prop := {
  er_ok : echo_ok l;
  er_round : echo_round l x;
  er_exec : sys_exec is_ssl settings l x = Some y;
  er_base : base_inv settings x;
  er_inv : sys_inv False x;
  er_base' : base_inv settings y;
  er_inv' : sys_inv False y;
  er_range : in_range (sys_history y);
  er_told : told_sys x;
  er_served : served_reachable echo_app False is_ssl settings name x
}.

Lemma echo_invariant (P : system → Prop) name :
  P (sys_init settings name) → (∀ l x y, echo_run name l x y → P x → P y) →
  ∀ st, echo_reachable name st → in_range (sys_history st) → P st.
Proof.
  intros Hinit HP st Hrun.
  apply (star_invariant (λ st, echo_reachable name st ∧ (in_range (sys_history st) → P st))
           _ _) in Hrun; [by destruct Hrun| |by split; [constructor|]].
  intros x y [Hx Ha] Hstep.
  assert (Hy : echo_reachable name y) by (eapply star_trans; [exact Hx|by apply star_one]).
  split; [done|]. intros Hin. pose proof (echo_served name x Hx) as Hsx.
  destruct (sys_reachable_inv echo_app False is_ssl settings name x (served_sys _ _ _ _ _ _ Hsx)) as [Hb Hi].
  destruct (sys_reachable_inv echo_app False is_ssl settings name y
              (served_sys _ _ _ _ _ _ (echo_served name y Hy))) as [Hb' Hi'].
  destruct (echo_step_served x y Hstep) as (l0 & Hok0 & _ & He0).
  assert (Hin' : in_range (sys_history x)).
  { destruct (sys_step_keeps echo_app False is_ssl settings x y Hb) as [_ Hk]; [by exists l0|]. by apply Hk. }
  destruct Hstep as (l & Hok & Hone & He). apply (HP l x y); [split; auto|by apply Ha].
  eapply served_told; [apply _|exact Hsx|exact Hin'].
Qed.

Lemma echo_answered name st :
  echo_reachable name st → in_range (sys_history st) → answered st.
Proof.
  revert st. apply echo_invariant.
  - exists 0, Idle. cbn. split; [by split|]. split; [done|done|]. intros id. done.
  - intros [l|target|p|i l] x y [Hok Hone He Hb Hi _ Hi' Hin Ht Hs].
    + by apply (answered_server x y Hb Hi l).
    + by eapply (answered_connect x y); eauto.
    + by eapply (answered_connection x y); eauto.
    + apply (answered_session x y Hb Hi i l); try done.
      by apply (called_posted echo_app False is_ssl settings name x).
Qed.

(** ** The callbacks the server calls *)

(** Uris have no callbacks for messages; the callbacks of the program are set, or
    [allowed] is not and the server does not listen. *)
Record configured (b : Prop) (s : CImpl) : Prop := {
  cf_uris u cbs : mUris s !! u = Some cbs →
    mOnUriMessageReceivedCb cbs = None ∧ mOnUriContentReceivedCb cbs = None;
  cf_callbacks : mClientCbs s = callbacks
    ∨ ¬ b ∧ mClientCbs s = no_client_callbacks ∧ mAcceptor s = None
}.

(** Sections that keep it, at either stage. *)
Definition configuring (s s' : CImpl) : Prop := ∀ b, configured b s → configured b s'.

Abbreviation configures := (moves (S:=CImpl) (E:=srv_op) configuring).

Lemma configured_same b (s s' : CImpl) :
  mUris s' = mUris s → mClientCbs s' = mClientCbs s →
  (mAcceptor s = None → mAcceptor s' = None) → configured b s → configured b s'.
Proof. intros E1 E2 E3 [H1 H2]. split; rewrite ?E1, ?E2; [done|]. naive_solver. Qed.

Lemma configures_locked {A} (f : CImpl → A * CImpl) :
  (∀ s, mUris (f s).2 = mUris s ∧ mClientCbs (f s).2 = mClientCbs s
        ∧ (mAcceptor s = None → mAcceptor (f s).2 = None)) → configures (locked f).
Proof.
  intros Hf. apply moves_locked. intros s b. destruct (Hf s) as (? & ? & ?). by apply configured_same.
Qed.

Lemma configures_gets {A} (f : CImpl → A) : configures (pgets f).
Proof. by apply configures_locked. Qed.

Lemma configures_LogError m : configures (LogError m).
Proof. by apply moves_bind; [apply configures_gets|]. Qed.

Lemma configures_send id p : configures (SendToClient id p).
Proof. apply moves_bind; [apply configures_gets|]. intros [sess|]; [done|apply configures_LogError]. Qed.

Lemma configures_Invoke calls : configures (Invoke echo_app calls).
Proof.
  induction calls as [|i calls IH]; [done|]. apply moves_bind; [|by intros []].
  cbn [pbind pret Invoke1 pemit moves]. apply moves_bind; [|done]. apply moves_catch; [|done].
  destruct i as [cb id u s|cb n|cb id|cb id m|cb id c|cb w]; cbn -[SendToClient];
    try done; try apply configures_send.
  unfold on_request. by destruct (mHttpMsg w).
Qed.

Lemma configures_Stop : configures (Server.Stop echo_app).
Proof.
  apply moves_bind; [by apply configures_locked|]. intros [acc entries].
  apply moves_bind; [by apply moves_option|]. intros _.
  apply moves_bind; [by apply moves_for|]. intros _. apply moves_for. intros [id e].
  apply moves_bind; [apply configures_gets|]. intros [[c cc] n].
  apply moves_bind; [|intros _]; apply moves_option; intros; apply configures_Invoke.
Qed.

Lemma configures_delete : configures (CWebsocketServer_delete echo_app).
Proof.
  apply moves_bind; [by apply configures_locked|]. intros []; cbn [negb]; [|done].
  apply moves_bind; [apply configures_Stop|]. intros _. by apply configures_locked.
Qed.

Lemma configures_main listen args polls : configures (main listen args polls).
Proof.
  apply moves_bind; [done|]. intros port. apply moves_bind.
  { apply moves_locked. intros s b [H1 H2]. split; [|done]. cbn. intros u cbs.
    intros [[_ <-]|[_ ?]]%lookup_insert_Some; [done|by eapply H1]. }
  intros _. apply moves_bind.
  - apply moves_catch; [|intros f; by destruct (std_what f)].
    apply moves_bind; [|done]. apply moves_bind; [apply configures_gets|]. intros []; [done|].
    apply moves_bind; [by destruct (listen _ port)|]. intros [acc lp].
    apply moves_bind; [|done]. intros s. split; [intros b [H1 H2]|by destruct (Start_locked acc lp callbacks s).1].
    cbn. unfold Start_locked. destruct (mAcceptor s) eqn:Ha; split; cbn; rewrite ?Ha; auto.
  - intros []; cbn [negb]; [|by apply moves_bind; [apply configures_delete|]].
    apply moves_bind; [apply configures_gets|]. intros p. apply moves_bind; [done|]. intros _.
    apply moves_bind; [done|]. intros _. apply moves_bind; [by apply moves_for|]. intros _.
    apply moves_bind; [apply configures_Stop|]. intros _.
    by apply moves_bind; [apply configures_delete|].
Qed.

Lemma configures_call p : echo_call p → configures p.
Proof.
  intros [].
  - apply moves_bind; [apply configures_main|done].
  - by apply configures_locked.
  - unfold accepted. destruct (negb alive || negb opn); [done|]. destruct r as [ec|sock].
    + destruct (ec_is EcAborted ec); [done|]. by apply moves_bind; [apply configures_LogError|].
    + apply moves_bind; [|done]. by apply moves_bind; [apply configures_gets|].
  - apply moves_bind; [|intros [t|]; [apply configures_Invoke|done]].
    apply configures_locked. intros s. by destruct (Run_locked (mWorkQueue s)).
Qed.

(** ** Closures for messages *)

(** A closure for a message calls the callback of the program, and nothing else. *)
Definition task_ok (t : task) : Prop :=
  match t with
  | TaskMessage g u _ _ => g = Some 2 ∧ u = None
  | TaskContent g u _ _ => g = Some 3 ∧ u = None
  | _ => True
  end.

Definition plain_op (o : srv_op) : Prop :=
  match o with Posted (TaskMessage _ _ _ _ | TaskContent _ _ _ _) => False | _ => True end.

(** The answers to what is reported about a client. *)
Definition answer (x : report) : option SPayload :=
  match x with
  | ReportMessage m => Some (MakeTextPayload m)
  | ReportContent c => Some (MakeContentPayload c)
  | ReportAdded | ReportClosed => None
  end.
Definition asked (id : Z) (ts : list task) : list SPayload := omap answer (about task_report id ts).
Definition reads (id : Z) (ev : list ws_event) : list SPayload :=
  omap answer (about event_report id ev).

Lemma asked_app id l l' : asked id (l ++ l') = asked id l ++ asked id l'.
Proof. unfold asked. by rewrite about_app, omap_app. Qed.
Lemma reads_app id l l' : reads id (l ++ l') = reads id l ++ reads id l'.
Proof. unfold reads. by rewrite about_app, omap_app. Qed.

Lemma plain_tasks ops :
  Forall plain_op ops → Forall task_ok (posted ops) ∧ ∀ id, asked id (posted ops) = [].
Proof.
  induction 1 as [|o ops Ho _ [IH1 IH2]]; [done|].
  change (posted (o :: ops)) with (posted ([o] ++ ops)). rewrite posted_app.
  split; [apply Forall_app; split; [|done]|intros id; rewrite asked_app, IH2, app_nil_r];
    destruct o as [| | |t| | | | |]; try done; destruct t; try done; try by repeat constructor.
  all: unfold asked, about; cbn; by case_bool_decide.
Qed.

Lemma task_ok_owed id ts :
  Forall task_ok ts → echoes id (owed echo_app ts) = asked id ts.
Proof.
  induction 1 as [|t ts Ht _ IH]; [done|]. rewrite owed_cons, echoes_app, IH.
  change (t :: ts) with ([t] ++ ts). rewrite asked_app. f_equal. rewrite owed_one. unfold asked, about.
  destruct t as [cb j u s|cb n|cb j|g u j m|g u j c|cb w]; cbn in *; try done; try by case_bool_decide.
  all: destruct Ht as [-> ->]; cbn; by case_bool_decide.
Qed.

Lemma configured_lookup b id msg s :
  configured b s →
  LookupReceiveCallbacks id msg s = (Some (if msg then 2 else 3), None)
  ∨ ¬ b ∧ LookupReceiveCallbacks id msg s = (None, None).
Proof.
  intros [Hu Hc]. unfold LookupReceiveCallbacks.
  assert (Huri : ∀ g : option callback, match mClients s !! id with
    | None => (g, None)
    | Some entry =>
        if is_empty (entry_uri entry) then (g, None)
        else match mUris s !! entry_uri entry with
             | None => (g, None)
             | Some cbs => (g, if msg then mOnUriMessageReceivedCb cbs else mOnUriContentReceivedCb cbs)
             end
    end = (g, None)).
  { intros g. destruct (mClients s !! id) as [e|]; [|done]. destruct (is_empty (entry_uri e)); [done|].
    destruct (mUris s !! entry_uri e) as [cbs|] eqn:Hl; [|done].
    destruct (Hu _ _ Hl) as [-> ->]. by destruct msg. }
  rewrite Huri. destruct Hc as [->|(Hb & -> & _)]; [left|right]; by destruct msg.
Qed.

(** *** The calls of a session *)

(** What a call of a session did to the server: closures for messages are in order, and
    they ask for the answers [l id]. *)
Definition asks_for (b : Prop) (w w' : world) (l : Z → list SPayload) : Prop :=
  ∃ ops, w_ops w' = w_ops w ++ ops ∧ Forall task_ok (posted ops) ∧ configured b (w_impl w')
         ∧ ∀ id, asked id (posted ops) = l id.

Lemma asks_keeps {A} b (p : SRV A) r w w' :
  keeps (configured b) plain_op p → on_world p w = (r, w') → configured b (w_impl w) →
  asks_for b w w' (λ _, []).
Proof.
  unfold on_world. intros Hp Hw Hc. destruct (run p (w_impl w)) as [[r0 s'] ops] eqn:Hr. simplify_eq.
  destruct (keeps_run _ _ _ _ _ _ _ Hp Hr Hc) as [Hc' Ho]. destruct (plain_tasks ops Ho).
  by exists ops.
Qed.

Lemma plain_post b t : plain_op (Posted t) → keeps (configured b) plain_op (PostCallback t).
Proof.
  intros Ht. split; [done|]. apply keeps_locked. intros s. by apply configured_same.
Qed.

Lemma asks_log b m w w' :
  Events.LogError m w = (Ok tt, w') → configured b (w_impl w) → asks_for b w w' (λ _, []).
Proof. apply (asks_keeps b (LogError m)). by apply keeps_bind; [apply keeps_gets|]. Qed.

Lemma asks_closed b id w w' :
  Events.OnWsClosed id w = (Ok tt, w') → configured b (w_impl w) → asks_for b w w' (λ _, []).
Proof.
  apply (asks_keeps b (Server.OnWsClosed id)). apply keeps_bind.
  - apply keeps_locked. intros s. unfold OnWsClosed_locked. destruct (mClients s !! id) as [e|]; [|done].
    destruct (decrement_core (entry_uri e) (set_mClients (delete id (mClients s)) s))
      as (_ & _ & Hu & _).
    unfold DecrementUriCountLocked. destruct (is_empty _); [by apply configured_same|].
    destruct (mUriCounts _ !! _) as [c|]; [|by apply configured_same].
    destruct (Z.eqb c 0); by apply configured_same.
  - intros [[[c cc] n]|]; [|done]. apply keeps_bind; [|intros _];
      apply keeps_option; intros cb; by apply plain_post.
Qed.

Lemma asks_register b sess target ssl id w w' :
  Events.RegisterWsClient sess target ssl w = (Ok id, w') → configured b (w_impl w) →
  asks_for (b ∨ id ≠ 0%Z) w w' (λ _, []).
Proof.
  intros Hr Hc.
  assert (Hup : configured (b ∨ id ≠ 0%Z) (w_impl w)).
  { destruct Hc as [H1 H2]. split; [done|]. destruct H2 as [?|(Hb & Hcb & Ha)]; [by left|right].
    split_and!; [|done|done]. intros [?|Hnz]; [done|]. apply Hnz.
    change (Events.RegisterWsClient sess target ssl w)
      with (on_world (Server.RegisterWsClient sess target ssl) w) in Hr. unfold on_world in Hr.
    rewrite RegisterWsClient_rejects in Hr by (by right). by simplify_eq. }
  eapply (asks_keeps _ (Server.RegisterWsClient sess target ssl)); [|exact Hr|done]. clear.
  unfold Server.RegisterWsClient. destruct (ParseTarget_path target ∅) as [m ->].
  cbn [pbind locked pret]. intros s Hs. split.
  - unfold RegisterWsClient_locked. destruct (mShutdown s || _); [done|].
    cbn. destruct (is_empty _); [by eapply configured_same; [..|exact Hs]|].
    destruct Hs as [H1 H2]. split; [|done]. cbn. intros u cbs.
    intros [[_ <-]|[_ ?]]%lookup_insert_Some; [|by eapply H1].
    destruct (mUris s !! _) as [cbs|] eqn:Hl; cbn; [by eapply H1|done].
  - destruct (RegisterWsClient_locked _ _ _ s).1 as [reg|]; [|done].
    apply keeps_bind; [apply keeps_gets|]. intros st. rewrite substr_from_ok by lia. cbn [pbind].
    repeat (apply keeps_bind; [apply keeps_option; intros cb; by apply plain_post|intros _]). done.
Qed.

Lemma asks_received b id (msg : bool) (f : option callback → option callback → task) w w' :
  on_world ('(g, u) <- pgets (LookupReceiveCallbacks id msg) ;;
            match g, u with None, None => pret tt | _, _ => PostCallback (f g u) end) w
  = (Ok tt, w') →
  task_ok (f (Some (if msg then 2 else 3)) None) → configured b (w_impl w) →
  ∃ ts, asks_for b w w' (λ k, asked k ts)
    ∧ (ts = [f (Some (if msg then 2 else 3)) None] ∨ ¬ b ∧ ts = []).
Proof.
  unfold on_world. cbn [pbind pgets locked pret run fst snd]. intros Hw Ht Hc.
  destruct (configured_lookup b id msg _ Hc) as [Hl|[Hb Hl]]; rewrite Hl in Hw; cbn in Hw; simplify_eq.
  - eexists. split; [|by left]. eexists. split; [reflexivity|]. cbn [posted omap list_omap w_impl].
    split_and!; [by repeat constructor|by eapply configured_same; [..|exact Hc]|done].
  - exists []. split; [|by right]. exists []. by rewrite app_nil_r.
Qed.

Lemma asks_trans b c w1 w2 w3 l1 l2 :
  asks_for b w1 w2 l1 → asks_for c w2 w3 l2 → asks_for c w1 w3 (λ id, l1 id ++ l2 id).
Proof.
  intros (o1 & H1 & T1 & _ & A1) (o2 & H2 & T2 & C2 & A2). exists (o1 ++ o2).
  rewrite H2, H1, posted_app, <-app_assoc. split_and!; [done|by apply Forall_app|done|].
  intros id. by rewrite asked_app, A1, A2.
Qed.

(** A session has been registered. *)
Definition registers (ev : list ws_event) : Prop :=
  ∃ t ssl id, EvRegister t ssl id ∈ ev ∧ id ≠ 0%Z.

Lemma registers_other e ev :
  (∀ t b i, e ≠ EvRegister t b i) → registers (e :: ev) → registers ev.
Proof.
  intros He (t & b & id & [<-|Hin]%elem_of_cons & Hnz); [by destruct (He t b id)|by exists t, b, id].
Qed.

(** The reports about a client start with its registration, if there are any. *)
Definition starts_added (id : Z) (ev : list ws_event) : Prop :=
  about event_report id ev = [] ∨ head (about event_report id ev) = Some ReportAdded.

Lemma configured_mono (b c : Prop) s : (c → b) → configured b s → configured c s.
Proof. intros Hcb [H1 H2]. split; [done|]. naive_solver. Qed.

Lemma asks_mono (b c : Prop) w w' l : (c → b) → asks_for b w w' l → asks_for c w w' l.
Proof. intros Hcb (o & H1 & T1 & C1 & A1). exists o. split_and!; try done. by eapply configured_mono. Qed.

Lemma starts_skip id e ev :
  about event_report id [e] = [] → starts_added id (e :: ev) → starts_added id ev.
Proof. intros He. unfold starts_added. by rewrite about_cons, He. Qed.

(** Reports that start with another event are about somebody else. *)
Lemma starts_other id e ev :
  (∀ t s i, e ≠ EvRegister t s i) → starts_added id (e :: ev) →
  about event_report id [e] = [] ∧ starts_added id ev.
Proof.
  intros He Hs. assert (Ha : about event_report id [e] = []).
  { revert Hs. unfold starts_added. rewrite about_cons. unfold about at 1 3 5. cbn.
    destruct e; cbn; try done; [by destruct (He _ _ _ eq_refl)|..];
      case_bool_decide; try done; by intros [|]. }
  split; [done|]. by eapply starts_skip.
Qed.

(** The events [ev] that led from [w] to [w'] ask for their answers, if the callbacks were
    set before, or the registration is among the events. *)
Definition all_asked (b : Prop) (ev : list ws_event) (w w' : world) : Prop :=
  ∃ l, asks_for (b ∨ registers ev) w w' l
    ∧ ∀ id, id ≠ 0%Z → b ∨ starts_added id ev → l id = reads id ev.

Lemma all_asked_cons e ev (b b' : Prop) w v w'' l0 :
  all_asked b' ev v w'' → (b ∨ registers (e :: ev) → b' ∨ registers ev) → asks_for b' w v l0 →
  (∀ id, id ≠ 0%Z → b ∨ starts_added id (e :: ev) → l0 id = reads id [e] ∧ (b' ∨ starts_added id ev)) →
  all_asked b (e :: ev) w w''.
Proof.
  intros (l & Hl & Hr) Hreg H0 Hid. exists (λ id, l0 id ++ l id). split.
  - eapply asks_trans; [exact H0|]. by eapply asks_mono.
  - intros id Hnz Hs. destruct (Hid id Hnz Hs) as [-> Hs']. rewrite (Hr id Hnz Hs').
    change (e :: ev) with ([e] ++ ev). by rewrite reads_app.
Qed.

(** An event that is no registration. *)
Lemma all_asked_other e ev (b : Prop) w v w'' l0 :
  (∀ t s i, e ≠ EvRegister t s i) → (configured b (w_impl v) → all_asked b ev v w'') →
  asks_for b w v l0 → ((∀ id, l0 id = reads id [e]) ∨ ¬ b ∧ ∀ id, l0 id = []) →
  all_asked b (e :: ev) w w''.
Proof.
  intros He Hev Ha Hl0. pose proof Ha as (_ & _ & _ & Hb & _).
  eapply all_asked_cons; [by apply Hev| |exact Ha|].
  { intros [?|?%registers_other]; auto. }
  intros id Hnz Hs. destruct Hl0 as [Hl0|[Hnb Hl0]].
  - split; [done|]. destruct Hs as [?|Hs]; [by left|right]. by eapply starts_other.
  - destruct Hs as [?|Hs]; [done|]. destruct (starts_other _ _ _ He Hs) as [Hno ?].
    rewrite Hl0. unfold reads. rewrite Hno. auto.
Qed.

Lemma called_asks ssl i ev w w' :
  ws_called ssl i ev w w' → ∀ b, configured b (w_impl w) → all_asked b ev w w'.
Proof.
  induction 1 as [v|t id ev v v' v'' Hc _ IH|id ev v v' v'' Hc _ IH|id m ev v v' v'' Hc _ IH
    |id c ev v v' v'' Hc _ IH|m ev v v' v'' Hc _ IH]; intros b Hb.
  - exists (λ _, []). split; [|done]. exists []. rewrite app_nil_r. split_and!; try done.
    eapply configured_mono; [|exact Hb]. intros [?|(? & ? & ? & ?%not_elem_of_nil & _)]; done.
  - pose proof (asks_register b _ _ _ _ _ _ Hc Hb) as Ha. pose proof Ha as (_ & _ & _ & Hb' & _).
    eapply all_asked_cons; [by apply IH| |exact Ha|].
    + intros [?|(t' & s' & id' & [[= -> -> ->]|Hin]%elem_of_cons & ?)]; [by auto|by auto|].
      right. by exists t', s', id'.
    + intros k Hk Hs. unfold reads, about at 1. cbn. split; [by case_bool_decide|].
      destruct Hs as [?|Hs]; [by auto|]. destruct (decide (id = 0%Z)) as [->|]; [|by auto].
      right. eapply starts_skip; [|exact Hs]. unfold about. cbn. by rewrite bool_decide_false.
  - eapply all_asked_other; [done|by apply IH|by apply (asks_closed b id)|left].
    intros k. unfold reads, about. cbn. by case_bool_decide.
  - destruct (asks_received b id true (λ g u, TaskMessage g u id m) v v' Hc) as (ts & Ha & Hts); [done..|].
    eapply all_asked_other; [done|by apply IH|exact Ha|].
    destruct Hts as [->|[? ->]]; [left|by right]. intros k. unfold asked, reads, about. done.
  - destruct (asks_received b id false (λ g u, TaskContent g u id c) v v' Hc) as (ts & Ha & Hts); [done..|].
    eapply all_asked_other; [done|by apply IH|exact Ha|].
    destruct Hts as [->|[? ->]]; [left|by right]. intros k. unfold asked, reads, about. done.
  - eapply all_asked_other; [done|by apply IH|by apply (asks_log b m)|by left].
Qed.

(** ** Everything that is read is asked for *)

Record exact_sys (st : system) : Prop := {
  ex_tasks : Forall task_ok (posted (trace (sys_server st)));
  ex_threads : Forall configures (pool (sys_server st));
  ex_configured :
    configured (∃ i, client_of (sys_sessions st) i ≠ 0%Z) (shared (sys_server st));
  ex_session i r : sys_sessions st !! i = Some r → mClientId (rt_session r) ≠ 0%Z →
    asked (mClientId (rt_session r)) (posted (trace (sys_server st)))
    = reads (mClientId (rt_session r)) (rt_events r)
}.

(** Conditions for what is posted without a session being told anything. *)
Lemma exact_quiet st st' ops :
  trace (sys_server st') = trace (sys_server st) ++ ops →
  Forall task_ok (posted ops) → (∀ id, asked id (posted ops) = []) →
  Forall configures (pool (sys_server st')) →
  (∀ b, configured b (shared (sys_server st)) → configured b (shared (sys_server st'))) →
  (∀ i r', sys_sessions st' !! i = Some r' → mClientId (rt_session r') ≠ 0%Z →
     ∃ r, sys_sessions st !! i = Some r ∧ rt_session r' = rt_session r ∧ rt_events r' = rt_events r) →
  exact_sys st → exact_sys st'.
Proof.
  intros Htr Hok Hno Hth Hcf Hss [E1 _ E3 E4].
  split; [rewrite Htr, posted_app; by apply Forall_app|done| |].
  - apply Hcf. eapply configured_mono; [|exact E3]. intros [i Hi]. exists i.
    unfold client_of in *. destruct (sys_sessions st' !! i) as [r'|] eqn:Hr; [|done].
    destruct (Hss i r' Hr Hi) as (r & -> & <- & _). done.
  - intros i r' Hi Hnz. destruct (Hss i r' Hi Hnz) as (r & Hr & Hs & ->). rewrite Hs in *.
    rewrite Htr, posted_app, asked_app, Hno, app_nil_r. by apply E4 with i.
Qed.

Lemma exact_server l x y :
  echo_ok (SysServer l) → delivered_sys echo_app x →
  sys_exec is_ssl settings (SysServer l) x = Some y → exact_sys x → exact_sys y.
Proof.
  destruct x as [[s ps tr] g ss]. intros Hok (cs & rest & Hd & _) He Hx.
  pose proof Hx as [_ Hth _ _]. cbn -[exec_sched] in *.
  destruct (exec_sched l _) as [c'|] eqn:Hc; cbn -[exec_sched] in He; simplify_eq/=.
  destruct l as [p|i]; cbn in Hc; [|destruct (ps !! i) as [[r|upd next|e p]|] eqn:Hi];
    simplify_eq/=; rewrite ?drop_all, ?drop_app_length; cbn.
  - apply (exact_quiet _ _ []) with (7 := Hx); cbn; rewrite ?app_nil_r; try done; [|by eauto].
    apply Forall_app. split; [done|]. constructor; [|done]. by apply configures_call.
  - destruct (proj1 (Forall_lookup _ _) Hth _ _ Hi s) as [Hs Hp].
    apply (exact_quiet _ _ []) with (7 := Hx); cbn; rewrite ?app_nil_r; try done; [|by eauto].
    by apply Forall_insert.
  - apply (exact_quiet _ _ [e]) with (7 := Hx); cbn -[posted]; try done.
    + destruct e as [| | |t| | | | |]; try done. repeat constructor.
      destruct (duty_posts _ _ _ _ _ _ Hd Hi) as [Ht _]. by destruct t.
    + intros id. unfold asked. by rewrite (duty_trace _ _ _ _ _ _ id Hd Hi).
    + apply Forall_insert; [done|]. apply (proj1 (Forall_lookup _ _) Hth _ _ Hi).
    + intros k r' Hk _. by apply (deliver_events e).
Qed.

Lemma conn_plain b p : conn_call p → keeps (configured b) plain_op p.
Proof.
  intros [].
  - apply keeps_bind; [|done]. by apply keeps_bind; [apply keeps_gets|].
  - apply keeps_bind; [|done]. apply keeps_locked. intros s Hs. unfold FindHttpHandler_locked.
    destruct (is_empty _); [done|]. destruct Hs as [H1 H2]. split; [|done]. cbn. intros u cbs.
    intros [[_ <-]|[_ ?]]%lookup_insert_Some; [|by eapply H1].
    destruct (mUris s !! _) as [cbs|] eqn:Hl; cbn; [by eapply H1|done].
  - by apply keeps_bind; [apply keeps_locked; intros s; apply configured_same|].
  - by apply plain_post.
  - by apply keeps_bind; [apply keeps_gets|].
Qed.

Lemma exact_connection p x y :
  conn_call p → sys_exec is_ssl settings (SysConnection p) x = Some y → exact_sys x → exact_sys y.
Proof.
  destruct x as [[s ps tr] g ss]. intros Hp He Hx. cbn -[on_world] in He.
  destruct (on_world p (mkWorld s g [])) as [r w] eqn:Hw. cbn in He. simplify_eq.
  destruct (conn_passes echo_app False p r _ w Hp Hw) as [Hpass _].
  destruct (pass_ops _ _ _ Hpass) as (ops & Hops & Hsil). cbn in Hops.
  assert (Hcf : ∀ b, configured b s → asks_for b (mkWorld s g []) w (λ _, [])).
  { intros b. apply (asks_keeps b p r (mkWorld s g [])); [by apply conn_plain|done]. }
  destruct (Hcf _ (ex_configured _ Hx)) as (ops' & Hops' & Hok & _ & Hno). cbn in Hops'.
  assert (ops' = ops) as -> by congruence.
  rewrite Hops, deliver_silent by done.
  apply (exact_quiet _ _ ops) with (7 := Hx); cbn; try done; [apply Hx| |by eauto].
  intros b Hb. by destruct (Hcf b Hb) as (_ & _ & _ & ? & _).
Qed.

Lemma exact_connect target x y :
  sys_exec is_ssl settings (SysConnect target) x = Some y → exact_sys x → exact_sys y.
Proof.
  destruct x as [[s ps tr] g ss]. intros He Hx. cbn in He. simplify_eq.
  apply (exact_quiet _ _ []) with (7 := Hx); cbn; rewrite ?app_nil_r; try done; [apply Hx|].
  intros i r' [Hi|[_ Hr]]%lookup_app_Some Hnz; [by eauto|].
  by apply list_lookup_singleton_Some in Hr as [_ <-].
Qed.

(** A session that has just got its id reports its registration first. *)
Lemma fresh_starts (r r1 : ws_rt world) new :
  ws_inv (session_settings settings) r → ws_inv (session_settings settings) r1 →
  rt_events r1 = rt_events r ++ new → mClientId (rt_session r) = 0%Z →
  mClientId (rt_session r1) ≠ 0%Z →
  registers new ∧ starts_added (mClientId (rt_session r1)) new
  ∧ about event_report (mClientId (rt_session r1)) (rt_events r) = [].
Proof.
  intros [_ Hr] [_ Hr1] Hev Hz Hnz.
  assert (Hold : about event_report (mClientId (rt_session r1)) (rt_events r) = [])
    by (apply (phase_others settings r); [done|congruence]).
  destruct (phase_registered settings r1 Hr1 Hnz) as (t & b & Hin).
  destruct (reports_in_order settings r1 t b _ Hr1 Hin) as (read & closed & Hrep & _).
  rewrite Hev, about_app, Hold in Hrep. rewrite Hev in Hin.
  split_and!; [|right; cbn in Hrep; by rewrite Hrep|done]. exists t, b, (mClientId (rt_session r1)).
  split; [|done]. apply elem_of_app in Hin as [Hin|?]; [|done]. exfalso.
  assert (ReportAdded ∈ about event_report (mClientId (rt_session r1)) (rt_events r)).
  { unfold about. apply list_elem_of_omap. eexists. split; [exact Hin|]. cbn. by rewrite bool_decide_true. }
  rewrite Hold in *. by apply not_elem_of_nil in H.
Qed.

Lemma exact_session i l x y :
  own_label l = true → base_inv settings x → sys_inv False x → base_inv settings y →
  sys_inv False y → in_range (sys_history y) → told_sys x →
  sys_exec is_ssl settings (SysSession i l) x = Some y → exact_sys x → exact_sys y.
Proof.
  intros Hl Hb Hx Hby Hy Hin [_ Hnew] He [E1 E2 E3 E4].
  destruct (sys_session_step echo_app False is_ssl settings i l x y Hl Hb He)
    as (r & r1 & w & new & [Hi -> Hev Hown _ Hcall _ Hid]). cbn in Hin, Hy, Hby.
  destruct (called_asks _ _ _ _ _ Hcall _ E3) as (ans & (ops & Hops & Hok & Hcf & Hasked) & Hans).
  cbn in Hops. set (id1 := mClientId (rt_session r1)) in *.
  assert (Hself : <[i:=r1]> (sys_sessions x) !! i = Some r1)
    by (apply list_lookup_insert_eq; by eapply lookup_lt_Some).
  assert (Hset : ∀ k q, sys_sessions x !! k = Some q → mClientId (rt_session q) ≠ 0%Z →
                 ∃ j, client_of (sys_sessions x) j ≠ 0%Z).
  { intros k q Hk Hnz. exists k. unfold client_of. by rewrite Hk. }
  assert (Hcase : id1 ≠ 0%Z →
    mClientId (rt_session r) = id1
    ∨ registers new ∧ starts_added id1 new ∧ about event_report id1 (rt_events r) = []
      ∧ about task_report id1 (posted (trace (sys_server x))) = []).
  { intros Hnz. destruct (si_own _ _ _ _ _ (Hid Hin Hx)) as [Hsame|[Hz [?|Hfresh]]]; [by left|done|right].
    destruct (fresh_starts r r1 new) as (? & ? & ?); [by destruct (bi_sessions _ _ Hb i r Hi)|by destruct (bi_sessions _ _ Hby i r1 Hself)|done..|].
    split_and!; [done..|by apply Hnew]. }
  assert (Hsum : ∀ id, asked id (posted (trace (sys_server x) ++ ops))
                       = asked id (posted (trace (sys_server x))) ++ ans id).
  { intros id. by rewrite posted_app, asked_app, Hasked. }
  split; cbn -[asked reads posted]; rewrite ?Hops.
  - rewrite posted_app. by apply Forall_app.
  - done.
  - eapply configured_mono; [|exact Hcf]. intros [k Hk]. unfold client_of in Hk.
    destruct (<[i:=r1]> (sys_sessions x) !! k) as [q|] eqn:Hq; [|done].
    destruct (list_insert_cases _ _ _ _ _ Hq) as [[-> ->]|[_ Hq']]; [|left; by eapply Hset].
    destruct (Hcase Hk) as [Hs|(? & _)]; [left|by right]. eapply Hset; [exact Hi|by rewrite Hs].
  - intros k q Hk Hnz. rewrite Hsum.
    destruct (list_insert_cases _ _ _ _ _ Hk) as [[-> ->]|[Hne Hk']].
    + fold id1 in Hnz |- *. rewrite Hev, reads_app. destruct (Hcase Hnz) as [Hs|(_ & Hst & Hold & Hno)].
      * rewrite (Hans id1 Hnz); [|left; eapply Hset; [exact Hi|congruence]].
        rewrite <-Hs. f_equal. apply (E4 i r Hi). congruence.
      * rewrite (Hans id1 Hnz) by (by right). f_equal. unfold asked, reads. by rewrite Hold, Hno.
    + rewrite (Hans _ Hnz) by (left; by eapply Hset).
      assert (Hnone : about event_report (mClientId (rt_session q)) new = []).
      { apply about_none. eapply Forall_impl; [exact Hown|]. intros e He' z Hz Heq.
        apply Hne. apply (li_unique _ _ _ _ (si_links _ _ Hy) k i q r1); [done|done|done|].
        by rewrite <-Heq, (He' z Hz). }
      unfold reads at 1. rewrite Hnone, app_nil_r. by apply (E4 k).
Qed.

Lemma echo_exact name st :
  echo_reachable name st → in_range (sys_history st) → exact_sys st.
Proof.
  revert st. apply echo_invariant.
  - split; cbn; [constructor|constructor| |done]. split; [done|]. right. split; [|done].
    intros [i Hi]. by unfold client_of in Hi.
  - intros [l|target|p|i l] x y [Hok Hone He Hb Hi Hb' Hi' Hin Ht Hs].
    + apply (exact_server l x y); try done. eapply served_delivered; [apply _|exact Hs].
    + by apply (exact_connect target x y).
    + by apply (exact_connection p x y).
    + by apply (exact_session i l x y).
Qed.

(** What a session has read. *)
Definition messages_read (ev : list ws_event) : list SPayload :=
  omap (λ e, match e with
             | EvMessage _ m => Some (MakeTextPayload m)
             | EvContent _ c => Some (MakeContentPayload c)
             | _ => None
             end) ev.

Lemma reads_all (r : ws_rt world) :
  ws_inv (session_settings settings) r →
  reads (mClientId (rt_session r)) (rt_events r) = messages_read (rt_events r).
Proof.
  intros [_ Hph].
  assert (Hown : ∀ e x, e ∈ rt_events r → event_report e = Some x → x.1 = mClientId (rt_session r)).
  { intros e x He Hx. destruct (decide (x.1 = mClientId (rt_session r))) as [|Hne]; [done|exfalso].
    pose proof (phase_others settings r x.1 Hph (λ H, Hne (eq_sym H))) as Hno.
    assert (x.2 ∈ about event_report x.1 (rt_events r)) as Hin.
    { apply list_elem_of_omap. exists e. split; [done|]. rewrite Hx. cbn. by rewrite bool_decide_true. }
    rewrite Hno in Hin. by apply not_elem_of_nil in Hin. }
  revert Hown. generalize (mClientId (rt_session r)) (rt_events r). clear. intros id ev Hown.
  induction ev as [|e ev IH]; [done|].
  change (e :: ev) with ([e] ++ ev). rewrite reads_app, IH.
  - change (messages_read ([e] ++ ev)) with (messages_read (e :: ev)). unfold reads, about. cbn.
    destruct e; cbn; try done; try by case_bool_decide.
    all: rewrite bool_decide_true; [done|]. all: eapply (Hown _ (_, _)); [by left|reflexivity].
  - intros e' x He'. apply Hown. by right.
Qed.

End System.

(** ** The property *)

(** C11. What the server hands to the session of a client is a prefix of the messages the
    session has read, texts as texts and bytes as bytes, in order; when no thread has a
    callback to call or an answer to send, and the queue is empty and was not stopped, it
    is all of them, if the client is still registered.  A connection that was not
    registered is sent nothing. *)
Theorem echo_server_echoes is_ssl settings name st i r :
  echo_reachable is_ssl settings name st → in_range (sys_history st) →
  sys_sessions st !! i = Some r →
  let c := sys_server st in
  let id := mClientId (rt_session r) in
  (id = 0%Z → sends i (trace c) = [])
  ∧ (id ≠ 0%Z →
     sends i (trace c) `prefix_of` messages_read (rt_events r)
     ∧ (Forall (never loud) (pool c) → mQueue (mWorkQueue (shared c)) = [] →
        mStopped (mWorkQueue (shared c)) = false → is_Some (mClients (shared c) !! id) →
        sends i (trace c) = messages_read (rt_events r))).
Proof.
  intros Hrun Hin Hi c id. pose proof (echo_served is_ssl settings name st Hrun) as Hs.
  destruct (called_posted echo_app False is_ssl settings name st Hs) as [Hpre Hall].
  destruct (echo_answered _ _ name st Hrun Hin) as (j & d & Hj & [L1 L2 _]).
  destruct (echo_exact _ _ name st Hrun Hin) as [E1 _ _ E4].
  destruct (sys_reachable_inv echo_app False is_ssl settings name st (served_sys _ _ _ _ _ _ Hs)) as [Hb _].
  destruct (bi_sessions _ _ Hb i r Hi) as [Hinv _].
  assert (Hcl : client_of (sys_sessions st) i = mClientId (rt_session r))
    by (unfold client_of; by rewrite Hi).
  subst id c. rewrite <-Hcl in *. split; [intros Hz; by apply L1|]. intros Hnz.
  destruct (L2 i Hnz) as (lost & Hsum & Hlost).
  assert (Hread : echoes (client_of (sys_sessions st) i) (owed echo_app (posted (trace (sys_server st))))
                  = messages_read (rt_events r)).
  { rewrite task_ok_owed by done. rewrite <-(reads_all settings) by done. rewrite Hcl. apply (E4 i); congruence. }
  split.
  - destruct Hpre as [rest Hrest]. rewrite <-Hread, Hrest, echoes_app, <-Hsum, <-!app_assoc.
    by apply prefix_app_r.
  - intros Hset Hq Hst [e He]. rewrite <-Hread, <-Hall, <-Hsum; [|by eapply Forall_impl; [exact Hset|apply quiet_never]|done..].
    assert (lost = []) as ->.
    { destruct lost; [done|]. destruct Hlost as [Hl _]; [done|]. congruence. }
    assert (d = Idle) as ->.
    { destruct (pool (sys_server st) !! j) as [p|] eqn:Hp; [|by apply Hj].
      rewrite Forall_lookup in Hset. eapply echoing_quiet; [by eapply ea_worker|by eapply Hset]. }
    cbn. by rewrite app_nil_r.
Qed.

(** ** A concrete run *)

(** Thread 0 is [main]; another is started when all others have returned. *)
Definition rest_done (st : system) : bool :=
  forallb (λ p, match p with Done _ => true | _ => false end) (tail (pool (sys_server st))).

Fixpoint echo_exec_all (is_ssl : nat → bool) (settings : CServerSettings) (ls : list sys_label)
    (st : system) : option system :=
  match ls with
  | [] => Some st
  | l :: ls' =>
      if match l with SysServer (SCall _) => rest_done st | _ => true end
      then st' ← sys_exec is_ssl settings l st; echo_exec_all is_ssl settings ls' st'
      else None
  end.

(** [main] has been started, and is quiet. *)
Definition main_quiet (st : system) : Prop :=
  match pool (sys_server st) with p :: _ => never loud p | [] => False end.

Lemma rest_done_quiet st :
  main_quiet st → rest_done st = true → Forall (never loud) (pool (sys_server st)).
Proof.
  unfold main_quiet, rest_done. destruct (pool (sys_server st)) as [|p ps]; [done|]. intros Hp Hps.
  constructor; [done|]. apply Forall_forall. intros q Hq%list_elem_of_In.
  rewrite forallb_forall in Hps. specialize (Hps q Hq). by destruct q.
Qed.

Lemma main_quiet_step is_ssl settings l st st' :
  main_quiet st → sys_exec is_ssl settings l st = Some st' → main_quiet st'.
Proof.
  destruct st as [[s [|p ps] tr] g ss]; [done|]. unfold main_quiet. cbn [sys_server pool]. intros Hp.
  destruct l as [[q|[|i]]|target|q|i l]; cbn -[ws_exec on_world never].
  - by intros [= <-].
  - destruct p as [r|upd next|e p]; cbn -[never]; [done|intros [= <-]..]; by apply Hp.
  - destruct (ps !! i) as [[r|upd next|e q]|]; cbn -[never]; try done; by intros [= <-].
  - by intros [= <-].
  - by intros [= <-].
  - destruct (ss !! i) as [r|]; cbn -[ws_exec never]; [|done].
    destruct (ws_exec _ _ _ (WServer _) r) as [r0|]; cbn -[ws_exec never]; [|done].
    destruct (ws_exec _ _ _ l r0) as [r1|]; cbn -[never]; [|done].
    destruct (rt_srv r1); cbn -[never]; [|done]. by intros [= <-].
Qed.

Lemma echo_exec_all_reachable is_ssl settings name ls st st' :
  Forall echo_ok ls → echo_reachable is_ssl settings name st → main_quiet st →
  echo_exec_all is_ssl settings ls st = Some st' →
  echo_reachable is_ssl settings name st' ∧ main_quiet st'.
Proof.
  revert st. induction ls as [|l ls IH]; intros st Hls Hr Hm He; cbn in He; [by simplify_eq|].
  apply Forall_cons in Hls as [Hl Hls].
  destruct (match l with SysServer (SCall _) => rest_done st | _ => true end) eqn:Hd; [|done].
  destruct (sys_exec is_ssl settings l st) as [st1|] eqn:H1; [|done]. cbn in He.
  eapply IH; [done| | |done]; [|by eapply main_quiet_step].
  eapply star_trans; [exact Hr|]. apply star_one. exists l. split_and!; [done| |done].
  destruct l as [[p|]| | |]; try done. intros _. by apply rest_done_quiet.
Qed.

Definition demo_main : SRV unit := call (main demo_listen ["9000"] 3).
Definition echo_start : system :=
  mkSystem (mkConfig (shared (server_start "echo_server" (default_server_settings 0))) [demo_main] [])
    no_history [].
Definition echo_turn (i n : nat) : list sys_label :=
  SysServer (SCall (worker_round echo_app)) :: replicate n (SysServer (SStep i)).

(** [main] listens; two clients connect; the first sends a text and some bytes, the second
    a text; the worker calls the callbacks. *)
Definition demo_echo : list sys_label :=
  replicate 4 (SysServer (SStep 0))
  ++ [SysConnect "/"; SysConnect "/chat"; SysSession 0 (WAccepted None);
      SysSession 1 (WAccepted None);
      SysSession 0 (WRead (inr (GotText (bytes_of_string "hi"))));
      SysSession 1 (WRead (inr (GotText (bytes_of_string "ho"))));
      SysSession 0 (WRead (inr (GotBinary [Byte.x01])))]
  ++ echo_turn 1 3 ++ echo_turn 2 3 ++ echo_turn 3 5 ++ echo_turn 4 5 ++ echo_turn 5 5.

Definition echo_done : system :=
  default echo_start (echo_exec_all no_ssl (default_server_settings 0) demo_echo echo_start).

Lemma echo_turn_ok i n : Forall echo_ok (echo_turn i n).
Proof. constructor; [apply echo_worker|]. by apply Forall_replicate. Qed.

Lemma demo_echo_ok : Forall echo_ok demo_echo.
Proof.
  unfold demo_echo. rewrite !Forall_app. split_and!; try apply echo_turn_ok.
  - by apply Forall_replicate.
  - repeat (apply Forall_cons; split; [done|]). done.
Qed.

Lemma echo_done_reachable :
  echo_reachable no_ssl (default_server_settings 0) "echo_server" echo_done
  ∧ Forall (never loud) (pool (sys_server echo_done)).
Proof.
  assert (Hsome : bool_decide (is_Some (echo_exec_all no_ssl (default_server_settings 0) demo_echo
                                        echo_start)) = true) by (vm_compute; reflexivity).
  apply bool_decide_eq_true in Hsome as [st He].
  assert (Hd : echo_done = st) by (unfold echo_done; by rewrite He).
  destruct (echo_exec_all_reachable no_ssl (default_server_settings 0) "echo_server" demo_echo
              echo_start st) as [Hr Hm].
  - exact demo_echo_ok.
  - apply star_one. exists (SysServer (SCall demo_main)). split_and!; [constructor| |reflexivity].
    intros Heq. by apply (f_equal (λ p, match p with Atomic upd _ =>
      bool_decide (mUris (upd (CImpl_new "" (default_server_settings 0))) = ∅) | _ => true end)) in Heq.
  - apply never_bind; [apply quiet_main|done].
  - exact He.
  - rewrite Hd. split; [done|]. apply rest_done_quiet; [done|]. rewrite <-Hd. by vm_compute.
Qed.

Lemma echo_server_echoes_witness :
  ∃ r, sys_sessions echo_done !! 0 = Some r
    ∧ messages_read (rt_events r) = [MakeTextPayload "hi"; MakeContentPayload [Byte.x01]]
    ∧ sends 0 (trace (sys_server echo_done)) = messages_read (rt_events r).
Proof.
  assert (Hm : (λ r, (messages_read (rt_events r), mClientId (rt_session r))) <$> sys_sessions echo_done !! 0
                = Some ([MakeTextPayload "hi"; MakeContentPayload [Byte.x01]], 1%Z))
    by (vm_compute; reflexivity).
  apply fmap_Some in Hm as (r & Hr & [= Hread Hid]). symmetry in Hread, Hid.
  exists r. split; [exact Hr|]. split; [exact Hread|].
  destruct echo_done_reachable as [Hreach Hq].
  destruct (echo_server_echoes no_ssl (default_server_settings 0) "echo_server" echo_done 0 r) as [_ Hs].
  - exact Hreach.
  - vm_compute. reflexivity.
  - exact Hr.
  - apply Hs; [rewrite Hid; discriminate|exact Hq|vm_compute; reflexivity|vm_compute; reflexivity|].
    rewrite Hid. vm_compute. eexists. reflexivity.
Defined.
