(* ===== verification/IoPool.v ===== *)
(** * [CIoPool] and [CSslContext]

    The pool's object: its threads as [std::thread] handles, the work guard, the stopped
    flag.  The io context itself is Asio's; of it only the guard and [stop()] matter
    here.  [CSslContext] is its list of settings. *)

From S2P Require Import Prelude CppString.

(** ** [CIoPool] *)

Inductive pool_thread := ThreadJoinable | ThreadJoined | ThreadDetached.

#[export] Instance pool_thread_eq_dec : EqDecision pool_thread.
Proof. solve_decision. Defined.

Record CIoPool := mkIoPool {
  concurrency_hint : Z;      (** what the io context was constructed with *)
  mWorkGuard : bool;
  ioc_stopped : bool;
  mThreads : list pool_thread;
  mStopped : bool
}.

Definition CIoPool_new (numThreads : Z) : CIoPool :=
  let threadCount := Z.max 1 numThreads in
  mkIoPool threadCount true false (replicate (Z.to_nat threadCount) ThreadJoinable) false.

(** [static_cast<int>] of an [unsigned]. *)
Definition int_of_unsigned (n : Z) : Z := (if Z.ltb n (2 ^ 31) then n else n - 2 ^ 32)%Z.

(** [Default()], created on the first call. *)
Definition Default_new (hardware_concurrency : Z) : CIoPool :=
  CIoPool_new (int_of_unsigned (Z.max 2 hardware_concurrency)).

(** The loop of [Stop]; [self] is the index of the calling thread when it is one of the
    pool's. *)
Fixpoint release_threads (self : option nat) (i : nat) (threads : list pool_thread)
    : list pool_thread :=
  match threads with
  | [] => []
  | t :: threads' =>
      (match t with
       | ThreadJoinable => if bool_decide (self = Some i) then ThreadDetached else ThreadJoined
       | ThreadJoined | ThreadDetached => t
       end) :: release_threads self (S i) threads'
  end.

Definition Stop (self : option nat) (p : CIoPool) : CIoPool :=
  if mStopped p then p
  else mkIoPool (concurrency_hint p) false true (release_threads self 0 (mThreads p)) true.

Definition CIoPool_delete (self : option nat) (p : CIoPool) : CIoPool := Stop self p.

Lemma release_threads_lookup self i threads j :
  release_threads self i threads !! j
  = (λ t, match t with
          | ThreadJoinable =>
              if bool_decide (self = Some (i + j)) then ThreadDetached else ThreadJoined
          | _ => t
          end) <$> threads !! j.
Proof.
  revert i j. induction threads as [|t threads IH]; intros i [|j]; cbn; try done.
  - by rewrite Nat.add_0_r.
  - rewrite IH. by rewrite Nat.add_succ_r.
Qed.

(** A pool always has a thread, the default one at least two on any machine with fewer
    than 2^31 processors; stopping it releases every handle (the caller's own is
    detached, the others joined), so no joinable handle is left for the destructor, and
    a second [Stop] does nothing. *)
Theorem io_pool_threads n hardware self :
  (0 ≤ hardware < 2 ^ 31)%Z →
  let p := CIoPool_new n in
  (Z.of_nat (length (mThreads p)) = Z.max 1 n)
  ∧ 2 ≤ length (mThreads (Default_new hardware))
  ∧ (∀ j t, mThreads (Stop self p) !! j = Some t →
            t = if bool_decide (self = Some j) then ThreadDetached else ThreadJoined)
  ∧ length (mThreads (Stop self p)) = length (mThreads p)
  ∧ (∀ self', Stop self' (Stop self p) = Stop self p).
Proof.
  intros Hh p. split_and!.
  - cbn. rewrite length_replicate. lia.
  - unfold Default_new, int_of_unsigned. cbn. rewrite length_replicate.
    destruct (Z.ltb_spec (Z.max 2 hardware) (2 ^ 31)); lia.
  - intros j t Ht. cbn in Ht. rewrite release_threads_lookup in Ht.
    destruct (replicate _ _ !! j) as [t0|] eqn:Hj; [|done].
    apply lookup_replicate in Hj as [-> _]. cbn in Ht. by simplify_eq.
  - cbn. generalize 0. induction (replicate _ _) as [|t l IH]; intros i; cbn; [done|].
    by rewrite IH.
  - done.
Qed.

Lemma io_pool_threads_witness :
  (0 ≤ 8 < 2 ^ 31)%Z ∧ 2 ≤ length (mThreads (Default_new 8)).
Proof. split; [lia|]. apply (io_pool_threads (-3) 8 None). lia. Defined.

(** ** [CSslContext] *)

Inductive ssl_method := tls_client.
Inductive ssl_option := default_workarounds | no_sslv2 | no_sslv3 | no_tlsv1 | no_tlsv1_1.
Inductive ssl_verify := verify_none | verify_peer.

(** What was asked of a [boost::asio::ssl::context]. *)
Record ssl_context := mkContext {
  method : ssl_method;
  options : list ssl_option;
  default_verify_paths : bool;
  verify_mode : ssl_verify
}.

Class ISslContext (A : Type) := Context : A → ssl_context.

Record CSslContext := mkSslContext { mContext : ssl_context }.

#[export] Instance CSslContext_Context : ISslContext CSslContext := mContext.

Definition CSslContext_new (verifyPeer : bool) : CSslContext :=
  mkSslContext
    (mkContext tls_client [default_workarounds; no_sslv2; no_sslv3; no_tlsv1; no_tlsv1_1]
       verifyPeer (if verifyPeer then verify_peer else verify_none)).

(** [std::shared_ptr<ISslContext>] on a new [CSslContext]. *)
Definition MakeSslContext (verifyPeer : bool) : CSslContext := CSslContext_new verifyPeer.

(** Peers are verified, against the system's authorities, exactly when asked for; the old
    protocol versions are always off. *)
Lemma MakeSslContext_settings verifyPeer :
  let c := Context (MakeSslContext verifyPeer) in
  (verify_mode c = verify_peer ↔ verifyPeer = true)
  ∧ default_verify_paths c = verifyPeer
  ∧ ∀ o, o ∈ [no_sslv2; no_sslv3; no_tlsv1; no_tlsv1_1] → o ∈ options c.
Proof.
  split_and!; [by destruct verifyPeer|done|]. intros o Ho. right. exact Ho.
Qed.
