(* ===== verification/ClientSession.v ===== *)
(** * [CSession]: one connection of the client

    The chain resolve, tcp connect, ssl handshake (TLS only), websocket handshake, then
    the open connection: each member function is a definition over the session and the
    client behind its weak [ISessionEvents] pointer.  The connect handler passed to
    [AsyncConnect] belongs to the client; calling it is the effect [CsComplete].

    The second half runs a session on its strand, as [WsSession.v] does for the
    server's side. *)

From S2P Require Import Prelude CppString Net Events.
Open Scope cpp_scope.

Definition DEFAULT_HOST : string := "127.0.0.1".
Definition DEFAULT_PORT : Z := 8080.
Definition DEFAULT_RESOURCE : string := "/".

(** [CClientSettings]; [client_ioPool] names the pool. *)
Record CClientSettings := mkClientSettings {
  client_handshakeTimeoutS : Z;
  client_idleTimeoutS : Z;
  client_enablePings : bool;
  client_sslContext : ssl_setting;
  client_ioPool : option nat
}.

Definition default_client_settings : CClientSettings := mkClientSettings 30 30 true None None.

Definition client_session_settings (s : CClientSettings) : CClientSettings :=
  mkClientSettings (client_handshakeTimeoutS s) (client_idleTimeoutS s) (client_enablePings s)
    (client_sslContext s) None.

(** [SOutgoingMessage]: text by value, binary through a pointer. *)
Record SOutgoingMessage := mkOutgoing {
  out_isText : bool;
  out_text : string;
  out_binary : option (list byte)
}.

Definition out_Buffer (m : SOutgoingMessage) : res (list byte) :=
  if out_isText m then Ok (bytes_of_string (out_text m))
  else match out_binary m with
       | Some b => Ok b
       | None => Throw (UndefinedBehaviour "null binary")
       end.

Definition out_ok (m : SOutgoingMessage) : bool :=
  match out_Buffer m with Ok _ => true | Throw _ => false end.

Definition out_frame (m : SOutgoingMessage) : frame :=
  (out_isText m, match out_Buffer m with Ok b => b | Throw _ => [] end).

Lemma out_ok_buffer m : out_ok m = true → out_Buffer m = Ok (out_frame m).2.
Proof. unfold out_ok, out_frame. by destruct (out_Buffer m). Qed.

Definition CHandshakeHeaders : Type := gmap string string.

(** ** [ISessionEvents] *)

Class ISessionEvents (Cli : Type) := {
  OnSessionMessage : string → Cli → res unit * Cli;
  OnSessionContent : list byte → Cli → res unit * Cli;
  OnSessionDisconnect : Cli → res unit * Cli;
  LogSessionError : string → Cli → res unit * Cli
}.

Class SessionEventsLaws (Cli : Type) `{ISessionEvents Cli} := {
  OnSessionMessage_total m c : ∃ c', OnSessionMessage m c = (Ok tt, c');
  OnSessionContent_total b c : ∃ c', OnSessionContent b c = (Ok tt, c');
  OnSessionDisconnect_total c : ∃ c', OnSessionDisconnect c = (Ok tt, c');
  LogSessionError_total m c : ∃ c', LogSessionError m c = (Ok tt, c')
}.

(** A client that only listens, to evaluate sessions on their own. *)
#[export] Instance unit_session_events : ISessionEvents unit := {|
  OnSessionMessage _ c := (Ok tt, c);
  OnSessionContent _ c := (Ok tt, c);
  OnSessionDisconnect c := (Ok tt, c);
  LogSessionError _ c := (Ok tt, c)
|}.

#[export] Instance unit_session_laws : SessionEventsLaws unit.
Proof. split; intros; simpl; eauto. Qed.

(** ** The object *)

Record CSession := mkSession {
  mSettings : CClientSettings;
  mWriteQueue : list SOutgoingMessage;
  mHost : string;
  mPort : Z;
  mResource : string;
  mHostHeader : string;
  mHandshakeHeaders : CHandshakeHeaders;
  mOnConnectComplete : option nat;
  mOpen : bool;
  mCloseRequested : bool;
  mCloseSent : bool
}.

Definition new_session (settings : CClientSettings) : CSession :=
  mkSession settings [] "" DEFAULT_PORT "" "" ∅ None false false false.

Definition set_target (host : string) (port : Z) (resource hostHeader : string)
    (headers : CHandshakeHeaders) (s : CSession) : CSession :=
  mkSession (mSettings s) (mWriteQueue s) host port resource hostHeader headers
    (mOnConnectComplete s) (mOpen s) (mCloseRequested s) (mCloseSent s).
Definition set_mWriteQueue (q : list SOutgoingMessage) (s : CSession) : CSession :=
  mkSession (mSettings s) q (mHost s) (mPort s) (mResource s) (mHostHeader s)
    (mHandshakeHeaders s) (mOnConnectComplete s) (mOpen s) (mCloseRequested s) (mCloseSent s).
Definition set_mOnConnectComplete (k : option nat) (s : CSession) : CSession :=
  mkSession (mSettings s) (mWriteQueue s) (mHost s) (mPort s) (mResource s) (mHostHeader s)
    (mHandshakeHeaders s) k (mOpen s) (mCloseRequested s) (mCloseSent s).
Definition set_mOpen (b : bool) (s : CSession) : CSession :=
  mkSession (mSettings s) (mWriteQueue s) (mHost s) (mPort s) (mResource s) (mHostHeader s)
    (mHandshakeHeaders s) (mOnConnectComplete s) b (mCloseRequested s) (mCloseSent s).
Definition set_mCloseRequested (b : bool) (s : CSession) : CSession :=
  mkSession (mSettings s) (mWriteQueue s) (mHost s) (mPort s) (mResource s) (mHostHeader s)
    (mHandshakeHeaders s) (mOnConnectComplete s) (mOpen s) b (mCloseSent s).
Definition set_mCloseSent (b : bool) (s : CSession) : CSession :=
  mkSession (mSettings s) (mWriteQueue s) (mHost s) (mPort s) (mResource s) (mHostHeader s)
    (mHandshakeHeaders s) (mOnConnectComplete s) (mOpen s) (mCloseRequested s) b.

(** The calls a session makes outside itself. *)
Inductive cs_event :=
  | EvComplete (k : nat) (success : bool)   (** [onComplete(success)] *)
  | EvMessage (m : string)
  | EvContent (b : list byte)
  | EvDisconnect
  | EvError (m : string).

(** The closures a session posts to its strand. *)
Inductive cs_task :=
  | TaskConnect (host : string) (port : Z) (resource : string) (headers : CHandshakeHeaders)
      (k : option nat)
  | TaskSend (m : SOutgoingMessage)
  | TaskClose.

Inductive cs_op :=
  | OpResolve (host service : string)
  | OpExpiry (e : expiry)
  | OpTcpConnect
  | OpSni (host : string)
  | OpSslHandshake
  | OpSetTimeout (t : ws_timeout)
  | OpSetHeaders (headers : CHandshakeHeaders)   (** the request decorator *)
  | OpWsHandshake (hostHeader resource : string)
  | OpAsyncRead
  | OpText (isText : bool)
  | OpAsyncWrite (data : list byte)
  | OpAsyncClose
  | OpCancel                                     (** resolver and lowest layer *)
  | OpPost (t : cs_task)
  | OpEvent (e : cs_event).

Section Handlers.
Context {Cli : Type} `{ISessionEvents Cli}.
Context (IS_SSL : bool).

Definition CS : Type → Type := cpp (CSession * option Cli) cs_op.

Definition this (f : CSession → CSession) : CS unit := modify (λ w, (f w.1, w.2)).

Definition call_events (call : Cli → res unit * Cli) (ev : cs_event) : CS unit :=
  _ <- lock_call call (λ _, OpEvent ev) ;; ret tt.

Definition cs_LogError (message : string) : CS unit :=
  call_events (LogSessionError message) (EvError message).

(** [AsyncConnect], [Send] and [Close] run their closures on the strand. *)
Definition AsyncConnect (host : string) (port : Z) (resource : string)
    (headers : CHandshakeHeaders) (onComplete : option nat) : CS unit :=
  emit (OpPost (TaskConnect host port resource headers onComplete)).

Definition AsyncConnect_posted (host : string) (port : Z) (resource : string)
    (headers : CHandshakeHeaders) (onComplete : option nat) : CS unit :=
  this (set_target host port (if is_empty resource then DEFAULT_RESOURCE else resource)
          (host +:+ ":" +:+ to_string port) headers) ;;
  this (set_mOnConnectComplete onComplete) ;;
  emit (OpResolve host (to_string port)).

Definition DoRead : CS unit := emit OpAsyncRead.

Definition DoWrite : CS unit :=
  queue <- gets (λ w, mWriteQueue w.1) ;;
  match queue with
  | [] => throw (UndefinedBehaviour "front() of an empty deque")
  | message :: _ =>
      emit (OpText (out_isText message)) ;;
      data <- of_res (out_Buffer message) ;;
      emit (OpAsyncWrite data)
  end.

Definition MaybeSendClose : CS unit :=
  s <- gets fst ;;
  if mCloseSent s || negb (bool_decide (mWriteQueue s = [])) then ret tt
  else
    this (set_mCloseSent true) ;;
    emit OpAsyncClose.

Definition Send (message : SOutgoingMessage) : CS unit := emit (OpPost (TaskSend message)).

Definition Send_posted (message : SOutgoingMessage) : CS unit :=
  s <- gets fst ;;
  if negb (mOpen s) || mCloseRequested s then cs_LogError "Send dropped: not connected"
  else
    this (set_mWriteQueue (mWriteQueue s ++ [message])) ;;
    n <- gets (λ w, length (mWriteQueue w.1)) ;;
    when (Nat.eqb n 1) DoWrite.

Definition Close : CS unit := emit (OpPost TaskClose).

Definition Close_posted : CS unit :=
  this (set_mCloseRequested true) ;;
  s <- gets fst ;;
  if negb (mOpen s) then emit OpCancel else MaybeSendClose.

(** [ec] is [None] on success. *)
Definition CompleteConnect (success : bool) (stage : string) (ec : option error_code) : CS unit :=
  match success, ec with
  | false, Some e => when (negb (ec_is EcAborted e)) (cs_LogError (DescribeError stage e))
  | _, _ => ret tt
  end ;;
  s <- gets fst ;;
  match mOnConnectComplete s with
  | Some k =>
      this (set_mOnConnectComplete None) ;;
      emit (OpEvent (EvComplete k success))
  | None => ret tt
  end.

Definition OnResolve (ec : option error_code) : CS unit :=
  match ec with
  | Some e => CompleteConnect false "resolve" (Some e)
  | None =>
      s <- gets fst ;;
      emit (OpExpiry (expiry_of (client_handshakeTimeoutS (mSettings s)))) ;;
      emit OpTcpConnect
  end.

Definition DoWebsocketHandshake : CS unit :=
  s <- gets fst ;;
  emit (OpExpiry ExpiresNever) ;;
  emit (OpSetTimeout (ws_timeout_of (client_handshakeTimeoutS (mSettings s))
          (client_idleTimeoutS (mSettings s)) (client_enablePings (mSettings s)))) ;;
  emit (OpSetHeaders (mHandshakeHeaders s)) ;;
  emit (OpWsHandshake (mHostHeader s) (mResource s)).

(** [sni] is the error of setting the TLS host name, if any. *)
Definition OnTcpConnect (ec sni : option error_code) : CS unit :=
  match ec with
  | Some e => CompleteConnect false "connect" (Some e)
  | None =>
      if IS_SSL then
        s <- gets fst ;;
        emit (OpSni (mHost s)) ;;
        match sni with
        | Some e => CompleteConnect false "SNI" (Some e)
        | None => emit OpSslHandshake
        end
      else DoWebsocketHandshake
  end.

Definition OnSslHandshake (ec : option error_code) : CS unit :=
  match ec with
  | Some e => CompleteConnect false "ssl handshake" (Some e)
  | None => DoWebsocketHandshake
  end.

Definition OnWebsocketHandshake (ec : option error_code) : CS unit :=
  match ec with
  | Some e => CompleteConnect false "websocket handshake" (Some e)
  | None =>
      this (set_mOpen true) ;;
      CompleteConnect true "" None ;;
      s <- gets fst ;;
      when (mCloseRequested s) MaybeSendClose ;;
      DoRead
  end.

Definition HandleClosed (ec : error_code) : CS unit :=
  this (set_mWriteQueue []) ;;
  s <- gets fst ;;
  this (set_mOpen false) ;;
  if negb (mOpen s) then ret tt
  else
    let expected := ec_is EcClosed ec || ec_is EcAborted ec || mCloseRequested s in
    when (negb expected) (cs_LogError (DescribeError "connection" ec)) ;;
    call_events OnSessionDisconnect EvDisconnect.

Definition OnRead (r : error_code + (bool * list byte)) : CS unit :=
  match r with
  | inl ec => HandleClosed ec
  | inr (got_text, data) =>
      (if got_text then
         call_events (OnSessionMessage (string_of_bytes data)) (EvMessage (string_of_bytes data))
       else call_events (OnSessionContent data) (EvContent data)) ;;
      DoRead
  end.

Definition OnWrite (ec : option error_code) : CS unit :=
  match ec with
  | Some e => HandleClosed e
  | None =>
      s <- gets fst ;;
      match mWriteQueue s with
      | [] => throw (UndefinedBehaviour "pop_front() of an empty deque")
      | _ :: rest =>
          this (set_mWriteQueue rest) ;;
          s' <- gets fst ;;
          if negb (bool_decide (mWriteQueue s' = [])) then DoWrite
          else when (mCloseRequested s') MaybeSendClose
      end
  end.

(** [IsOpen], the only member other threads read. *)
Definition IsOpen (s : CSession) : bool := mOpen s.

End Handlers.

(** ** Running a session *)

Inductive stage := StResolve | StTcp | StSsl | StWs.

(** The session with its strand, the connect stage in progress and the other
    outstanding operations; the last three fields are histories, as in [WsSession.v]. *)
Record cs_rt (Cli : Type) := mkCsRt {
  cs_session : CSession;
  cs_cli : option Cli;
  cs_tasks : list cs_task;
  cs_stages : list stage;
  cs_reads : nat;
  cs_text : bool;
  cs_writes : list frame;
  cs_closes : nat;
  cs_failed : bool;
  cs_fault : option fault;
  cs_events : list cs_event;
  cs_wire : list frame;
  cs_accepted : list SOutgoingMessage
}.
Arguments mkCsRt {Cli}.
Arguments cs_session {Cli}.
Arguments cs_cli {Cli}.
Arguments cs_tasks {Cli}.
Arguments cs_stages {Cli}.
Arguments cs_reads {Cli}.
Arguments cs_text {Cli}.
Arguments cs_writes {Cli}.
Arguments cs_closes {Cli}.
Arguments cs_failed {Cli}.
Arguments cs_fault {Cli}.
Arguments cs_events {Cli}.
Arguments cs_wire {Cli}.
Arguments cs_accepted {Cli}.

Section Run.
Context {Cli : Type} `{ISessionEvents Cli}.
Context (IS_SSL : bool).

Definition cs_apply (o : cs_op) (r : cs_rt Cli) : cs_rt Cli :=
  let '(mkCsRt s v t g rd tx w c fl ft ev wi ac) := r in
  match o with
  | OpResolve _ _ => mkCsRt s v t (g ++ [StResolve]) rd tx w c fl ft ev wi ac
  | OpTcpConnect => mkCsRt s v t (g ++ [StTcp]) rd tx w c fl ft ev wi ac
  | OpSslHandshake => mkCsRt s v t (g ++ [StSsl]) rd tx w c fl ft ev wi ac
  | OpWsHandshake _ _ => mkCsRt s v t (g ++ [StWs]) rd tx w c fl ft ev wi ac
  | OpAsyncRead => mkCsRt s v t g (S rd) tx w c fl ft ev wi ac
  | OpText b => mkCsRt s v t g rd b w c fl ft ev wi ac
  | OpAsyncWrite d => mkCsRt s v t g rd tx (w ++ [(tx, d)]) c fl ft ev (wi ++ [(tx, d)]) ac
  | OpAsyncClose => mkCsRt s v t g rd tx w (S c) fl ft ev wi ac
  | OpPost k => mkCsRt s v (t ++ [k]) g rd tx w c fl ft ev wi ac
  | OpEvent e => mkCsRt s v t g rd tx w c fl ft (ev ++ [e]) wi ac
  | OpExpiry _ | OpSni _ | OpSetTimeout _ | OpSetHeaders _ | OpCancel => r
  end.

Definition cs_run (m : CS unit) (r : cs_rt Cli) : cs_rt Cli :=
  let '(mkCsRt s v t g rd tx w c fl ft ev wi ac) := r in
  match m (s, v) with
  | (res, (s', v'), ops) =>
      foldl (λ r o, cs_apply o r)
        (mkCsRt s' v' t g rd tx w c fl
           (match res with Ok _ => ft | Throw f => Some f end) ev wi ac) ops
  end.

Definition cs_note_accepted (m : SOutgoingMessage) (before after : cs_rt Cli) : cs_rt Cli :=
  let '(mkCsRt s v t g rd tx w c fl ft ev wi ac) := after in
  mkCsRt s v t g rd tx w c fl ft ev wi
    (if Nat.ltb (length (mWriteQueue (cs_session before))) (length (mWriteQueue s))
     then ac ++ [m] else ac).

Inductive cs_label :=
  | CPost (k : cs_task)                        (** a call of [Send] or [Close] *)
  | CTask                                      (** the strand runs a posted closure *)
  | CStage (ec sni : option error_code)        (** the connect stage completes *)
  | CRead (r : error_code + (bool * list byte))
  | CWritten (ec : option error_code)
  | CClosed
  | CClient (cli : Cli)                        (** the client's state changed *)
  | CClientGone.

(** As for the server's sessions: after an operation on the open stream has completed
    with an error, no later one succeeds. *)
Definition cs_exec (l : cs_label) (r : cs_rt Cli) : option (cs_rt Cli) :=
  let '(mkCsRt s v t g rd tx w c fl ft ev wi ac) := r in
  match l with
  | CPost k => Some (mkCsRt s v (t ++ [k]) g rd tx w c fl ft ev wi ac)
  | CTask =>
      match t with
      | [] => None
      | TaskConnect host port resource headers k :: t' =>
          Some (cs_run (AsyncConnect_posted host port resource headers k)
                  (mkCsRt s v t' g rd tx w c fl ft ev wi ac))
      | TaskSend m :: t' =>
          let r' := mkCsRt s v t' g rd tx w c fl ft ev wi ac in
          Some (cs_note_accepted m r' (cs_run (Send_posted m) r'))
      | TaskClose :: t' => Some (cs_run Close_posted (mkCsRt s v t' g rd tx w c fl ft ev wi ac))
      end
  | CStage ec sni =>
      match g with
      | [] => None
      | st :: g' =>
          Some (cs_run (match st with
                        | StResolve => OnResolve ec
                        | StTcp => OnTcpConnect IS_SSL ec sni
                        | StSsl => OnSslHandshake ec
                        | StWs => OnWebsocketHandshake ec
                        end) (mkCsRt s v t g' rd tx w c fl ft ev wi ac))
      end
  | CRead x =>
      match rd with
      | O => None
      | S rd' =>
          let bad := match x with inl _ => true | inr _ => false end in
          if fl && negb bad then None
          else Some (cs_run (OnRead x) (mkCsRt s v t g rd' tx w c (fl || bad) ft ev wi ac))
      end
  | CWritten ec =>
      match w with
      | [] => None
      | _ :: w' =>
          let bad := match ec with Some _ => true | None => false end in
          if fl && negb bad then None
          else Some (cs_run (OnWrite ec) (mkCsRt s v t g rd tx w' c (fl || bad) ft ev wi ac))
      end
  | CClosed =>
      match c with
      | O => None
      | S c' => Some (mkCsRt s v t g rd tx w c' fl ft ev wi ac)
      end
  | CClient cli =>
      match v with
      | Some _ => Some (mkCsRt s (Some cli) t g rd tx w c fl ft ev wi ac)
      | None => None
      end
  | CClientGone => Some (mkCsRt s None t g rd tx w c fl ft ev wi ac)
  end.

Definition cs_start (settings : CClientSettings) (cli : option Cli) (host : string) (port : Z)
    (resource : string) (headers : CHandshakeHeaders) (k : nat) : cs_rt Cli :=
  cs_run (AsyncConnect host port resource headers (Some k))
    (mkCsRt (new_session settings) cli [] [] 0 true [] 0 false None [] [] []).

(** Callers connect a session once and send what the program can build. *)
Definition cs_label_ok (l : cs_label) : bool :=
  match l with
  | CPost (TaskConnect _ _ _ _ _) => false
  | CPost (TaskSend m) => out_ok m
  | _ => true
  end.

Definition cs_step (r r' : cs_rt Cli) : Prop :=
  ∃ l, cs_label_ok l = true ∧ cs_exec l r = Some r'.

Definition cs_reachable (settings : CClientSettings) (k : nat) (r : cs_rt Cli) : Prop :=
  ∃ cli host port resource headers,
    star cs_step (cs_start settings cli host port resource headers k) r.

End Run.

(** ** Invariant *)

Definition is_call (e : cs_event) : bool := match e with EvError _ => false | _ => true end.
Definition calls (ev : list cs_event) : list cs_event := List.filter is_call ev.
#[global] Arguments calls : simpl never.

Definition is_received (e : cs_event) : Prop :=
  match e with EvMessage _ | EvContent _ => True | _ => False end.

(** The calls of a connection that was established. *)
Definition connected_order (k : nat) (disconnected : bool) (ev : list cs_event) : Prop :=
  ∃ ms, calls ev = EvComplete k true :: ms ++ (if disconnected then [EvDisconnect] else [])
        ∧ Forall is_received ms.

Definition is_connect (t : cs_task) : bool :=
  match t with TaskConnect _ _ _ _ _ => true | _ => false end.

Section Phases.
Context {Cli : Type} (settings : CClientSettings) (k : nat).
Implicit Type r : cs_rt Cli.

Definition sess_ok r : Prop :=
  cs_fault r = None ∧ mSettings (cs_session r) = settings
  ∧ (∀ m, TaskSend m ∈ cs_tasks r → out_ok m = true).

(** Nothing of an open connection. *)
Definition not_open r : Prop :=
  mOpen (cs_session r) = false ∧ mCloseSent (cs_session r) = false
  ∧ mWriteQueue (cs_session r) = [] ∧ cs_reads r = 0 ∧ cs_writes r = [] ∧ cs_closes r = 0
  ∧ cs_failed r = false ∧ cs_wire r = [] ∧ cs_accepted r = [].

Definition no_connect (t : list cs_task) : Prop := Forall (λ t, is_connect t = false) t.

(** Exactly one connect closure is waiting. *)
Definition one_connect (t : list cs_task) : Prop :=
  ∃ t1 h p re hd t2, t = t1 ++ TaskConnect h p re hd (Some k) :: t2
                     ∧ no_connect t1 ∧ no_connect t2.

(** The connect closure has not run. *)
Definition fresh_phase r : Prop :=
  not_open r ∧ cs_stages r = [] ∧ mOnConnectComplete (cs_session r) = None
  ∧ calls (cs_events r) = [] ∧ one_connect (cs_tasks r).

(** One stage of the chain is in progress. *)
Definition connecting_phase r : Prop :=
  not_open r ∧ length (cs_stages r) = 1 ∧ mOnConnectComplete (cs_session r) = Some k
  ∧ calls (cs_events r) = [] ∧ no_connect (cs_tasks r).

Definition failed_phase r : Prop :=
  not_open r ∧ cs_stages r = [] ∧ mOnConnectComplete (cs_session r) = None
  ∧ calls (cs_events r) = [EvComplete k false] ∧ no_connect (cs_tasks r).

Definition close_ok r : Prop :=
  cs_closes r ≤ (if mCloseSent (cs_session r) then 1 else 0)
  ∧ (mCloseSent (cs_session r) = true →
     mCloseRequested (cs_session r) = true ∧ mWriteQueue (cs_session r) = []
     ∧ cs_writes r = []).

Definition close_due r : Prop :=
  mCloseRequested (cs_session r) = true → mWriteQueue (cs_session r) = [] →
  mCloseSent (cs_session r) = true.

Definition open_phase r : Prop :=
  mOpen (cs_session r) = true ∧ cs_stages r = [] ∧ mOnConnectComplete (cs_session r) = None
  ∧ no_connect (cs_tasks r) ∧ cs_failed r = false ∧ cs_reads r = 1
  ∧ Forall (λ m, out_ok m = true) (mWriteQueue (cs_session r))
  ∧ cs_writes r = out_frame <$> take 1 (mWriteQueue (cs_session r))
  ∧ out_frame <$> cs_accepted r
    = cs_wire r ++ (out_frame <$> drop 1 (mWriteQueue (cs_session r)))
  ∧ close_ok r ∧ close_due r ∧ connected_order k false (cs_events r).

Definition shut_phase r : Prop :=
  mOpen (cs_session r) = false ∧ cs_stages r = [] ∧ mOnConnectComplete (cs_session r) = None
  ∧ no_connect (cs_tasks r) ∧ cs_failed r = true
  ∧ cs_reads r ≤ 1 ∧ length (cs_writes r) ≤ 1 ∧ mWriteQueue (cs_session r) = []
  ∧ cs_wire r `prefix_of` (out_frame <$> cs_accepted r)
  ∧ close_ok r ∧ (∃ d, connected_order k d (cs_events r)).

Definition cs_inv r : Prop :=
  sess_ok r ∧ (fresh_phase r ∨ connecting_phase r ∨ failed_phase r ∨ open_phase r ∨ shut_phase r).

End Phases.

Ltac cs_unfold :=
  unfold cs_run, AsyncConnect, AsyncConnect_posted, DoRead, DoWrite, MaybeSendClose, Send_posted,
    Close_posted, OnResolve, OnTcpConnect, OnSslHandshake, OnWebsocketHandshake,
    DoWebsocketHandshake, CompleteConnect, HandleClosed, OnRead, OnWrite, cs_note_accepted,
    cs_LogError, call_events, lock_call, this, bind, ret, throw, gets, modify, emit, of_res,
    when, set_target, set_mWriteQueue, set_mOnConnectComplete, set_mOpen, set_mCloseRequested,
    set_mCloseSent; cbn.

Ltac cs_calls :=
  match goal with
  | |- context [OnSessionMessage ?a ?b] => destruct (OnSessionMessage_total a b) as (? & ->)
  | |- context [OnSessionContent ?a ?b] => destruct (OnSessionContent_total a b) as (? & ->)
  | |- context [OnSessionDisconnect ?a] => destruct (OnSessionDisconnect_total a) as (? & ->)
  | |- context [LogSessionError ?a ?b] => destruct (LogSessionError_total a b) as (? & ->)
  end; cbn.

Section Invariant.
#[local] Arguments Nat.ltb : simpl never.
#[local] Arguments Nat.eqb : simpl nomatch.
Context {Cli : Type} `{SessionEventsLaws Cli}.
Context (IS_SSL : bool) (settings : CClientSettings) (k : nat).
Implicit Type r : cs_rt Cli.

Definition live r : Prop := sess_ok settings r ∧ open_phase k r.
Definition shut r : Prop := sess_ok settings r ∧ shut_phase k r.
Definition failed r : Prop := sess_ok settings r ∧ failed_phase k r.
Definition connecting r : Prop := sess_ok settings r ∧ connecting_phase k r.

(** Introduces a session of a phase with its record taken apart. *)
Ltac live_intro r :=
  destruct r as [[se q ho po re hh hs oc op cr cs] v tk g rd tx w c fl ft ev wi ac];
  unfold live, sess_ok, open_phase, close_ok, close_due; cbn;
  intros [(Hft & Hst & Htk) (Hop & Hg & Hoc & Hnc & Hfl & Hrd & Hqok & Hw & Hac & [Hcl Hcs] &
    Hdue & Hord)]; subst op g oc fl w ft se rd.

Ltac closed_intro r :=
  destruct r as [[se q ho po re hh hs oc op cr cs] v tk g rd tx w c fl ft ev wi ac];
  unfold sess_ok, connecting_phase, not_open; cbn;
  intros (Hft & Hst & Htk)
    ((Hop & Hcs & Hq & Hrd & Hw & Hc & Hfl & Hwi & Hac) & Hg & Hoc & Hev & Hnc);
  subst op cs q rd w c fl wi ac oc ft se.

Lemma calls_error ev m : calls (ev ++ [EvError m]) = calls ev.
Proof. unfold calls. rewrite List.filter_app. cbn. apply app_nil_r. Qed.

Lemma cs_calls_snoc ev e : is_call e = true → calls (ev ++ [e]) = calls ev ++ [e].
Proof. intros He. unfold calls. rewrite List.filter_app. cbn. by rewrite He. Qed.

Lemma connected_error d ev m :
  connected_order k d ev → connected_order k d (ev ++ [EvError m]).
Proof. unfold connected_order. by rewrite calls_error. Qed.

Lemma connected_received ev e :
  is_received e → connected_order k false ev → connected_order k false (ev ++ [e]).
Proof.
  intros He (ms & Hc & Hms). exists (ms ++ [e]).
  rewrite cs_calls_snoc, Hc by (by destruct e). rewrite !app_nil_r. split; [done|].
  by apply Forall_app_2; [|constructor].
Qed.

Lemma connected_disconnect ev :
  connected_order k false ev → connected_order k true (ev ++ [EvDisconnect]).
Proof.
  intros (ms & Hc & Hms). exists ms. rewrite cs_calls_snoc, Hc by done. by rewrite app_nil_r.
Qed.

Hint Resolve connected_error connected_received connected_disconnect : cpp.

Lemma cs_inv_start cli host port resource headers :
  cs_inv settings k (cs_start (Cli:=Cli) settings cli host port resource headers k).
Proof.
  unfold cs_start. cs_unfold. split; [|left].
  - split_and!; try done. intros m ?%list_elem_of_singleton. done.
  - split_and!; try done. exists [], host, port, resource, headers, [].
    by split_and!; [|constructor|constructor].
Qed.

Lemma run_sni (m : CS unit) r :
  cs_run (s <- gets fst ;; emit (OpSni (mHost s)) ;; m) r = cs_run m r.
Proof.
  destruct r. unfold cs_run, bind, gets, emit. cbn. by destruct (m _) as [[res [s' v']] ops].
Qed.

(** A stage completes: the next one starts, or the attempt fails and says so once. *)
Lemma run_stage ec sni r st :
  connecting r → cs_stages r = [st] →
  let r' := mkCsRt (cs_session r) (cs_cli r) (cs_tasks r) [] (cs_reads r) (cs_text r)
              (cs_writes r) (cs_closes r) (cs_failed r) (cs_fault r) (cs_events r) (cs_wire r)
              (cs_accepted r) in
  let m := match st with
           | StResolve => OnResolve ec
           | StTcp => OnTcpConnect IS_SSL ec sni
           | StSsl => OnSslHandshake ec
           | StWs => OnWebsocketHandshake ec
           end in
  connecting (cs_run m r') ∨ failed (cs_run m r') ∨ live (cs_run m r').
Proof.
  intros [Hs Hp] Hstage. revert Hs Hp. closed_intro r. cbn in Hstage. subst g.
  assert (Hfail : ∀ str e,
    failed (cs_run (CompleteConnect (Cli:=Cli) false str (Some e))
      (mkCsRt (mkSession settings [] ho po re hh hs (Some k) false cr false) v tk [] 0 tx [] 0
         false None ev [] []))).
  { intros str e. cs_unfold. destruct (negb _); [destruct v|]; cbn; try cs_calls;
      (split; [by split_and!|]); unfold failed_phase, not_open; cbn;
      rewrite cs_calls_snoc by done; rewrite ?calls_error, Hev; by split_and!. }
  assert (Hnext : ∀ stg, connecting
      (mkCsRt (mkSession settings [] ho po re hh hs (Some k) false cr false) v tk [stg] 0 tx [] 0
         false None ev [] [])).
  { intros stg. split; [by split_and!|]. unfold connecting_phase, not_open. cbn. by split_and!. }
  destruct ec as [e|].
  { right; left. destruct st; [apply (Hfail "resolve" e)|apply (Hfail "connect" e)
      |apply (Hfail "ssl handshake" e)|apply (Hfail "websocket handshake" e)]. }
  destruct st.
  - left. apply Hnext.
  - unfold OnTcpConnect. destruct IS_SSL; [|left; apply Hnext].
    destruct sni as [e|]; [right; left|left; apply Hnext].
    pose proof (Hfail "SNI" e) as Hsni. rewrite <-run_sni in Hsni. exact Hsni.
  - left. apply Hnext.
  - right; right. cs_unfold.
    assert (Hord : connected_order k false (ev ++ [EvComplete k true]))
      by (exists []; by rewrite cs_calls_snoc, Hev by done).
    destruct cr; cbn; (split; [by split_and!|]); unfold open_phase, close_ok, close_due; cbn;
      by split_and!.
Qed.

Lemma run_MaybeSendClose_open r :
  live r → live (cs_run Close_posted r).
Proof.
  live_intro r. cs_unfold. destruct cs; cbn; [split_and!; try done; tauto|].
  destruct q; cbn; split_and!; try done; lia.
Qed.

Lemma cs_run_Send_open m r :
  live r → out_ok m = true → live (cs_note_accepted m r (cs_run (Send_posted m) r)).
Proof.
  live_intro r. intros Hm. cs_unfold.
  destruct cr; cbn.
  { destruct v; cbn; try cs_calls; rewrite Nat.ltb_irrefl; split_and!; try done.
    by apply connected_error. }
  destruct cs; [by destruct (Hcs eq_refl)|].
  destruct q as [|p0 q]; cbn.
  - rewrite (out_ok_buffer m Hm). cbn. rewrite (proj2 (Nat.ltb_lt 0 1)) by lia.
    split_and!; try done.
    + by constructor.
    + rewrite fmap_app, Hac. cbn. by rewrite !app_nil_r.
  - rewrite length_app, Nat.add_1_r. cbn. rewrite length_app, Nat.add_1_r.
    rewrite (proj2 (Nat.ltb_lt _ _)) by lia. cbn in *. split_and!; try done.
    + change (p0 :: q ++ [m]) with ((p0 :: q) ++ [m]). by apply Forall_app_2; [|constructor].
    + by rewrite fmap_app, Hac, ?drop_0, fmap_app, <-app_assoc.
Qed.

(** While the session is not open, sending only logs and closing only cancels. *)
Lemma cs_run_Send_closed m r :
  mOpen (cs_session r) = false →
  ∃ v ev, cs_note_accepted m r (cs_run (Send_posted m) r)
          = mkCsRt (cs_session r) v (cs_tasks r) (cs_stages r) (cs_reads r) (cs_text r)
              (cs_writes r) (cs_closes r) (cs_failed r) (cs_fault r) ev (cs_wire r)
              (cs_accepted r)
          ∧ (ev = cs_events r ∨ ∃ e, ev = cs_events r ++ [EvError e]).
Proof.
  intros Ho. destruct r as [[se q ho po re hh hs oc op cr cs] v tk g rd tx w c fl ft ev wi ac].
  cbn in Ho. subst op. cs_unfold. destruct v; cbn; [cs_calls|]; rewrite Nat.ltb_irrefl;
    do 2 eexists; (split; [done|]); [right; by eexists|by left].
Qed.

Lemma cs_run_Close_closed r :
  mOpen (cs_session r) = false →
  cs_run Close_posted r
  = mkCsRt (set_mCloseRequested true (cs_session r)) (cs_cli r) (cs_tasks r) (cs_stages r)
      (cs_reads r) (cs_text r) (cs_writes r) (cs_closes r) (cs_failed r) (cs_fault r)
      (cs_events r) (cs_wire r) (cs_accepted r).
Proof.
  intros Ho. destruct r as [[]]. cbn in Ho. subst. by cs_unfold.
Qed.

(** The first error shuts the session and reports it once, whatever operation it
    came from. *)
Lemma cs_run_HandleClosed_open e r rd' w' :
  live r → rd' ≤ 1 → w' = cs_writes r ∨ w' = [] →
  shut (cs_run (HandleClosed e)
    (mkCsRt (cs_session r) (cs_cli r) (cs_tasks r) (cs_stages r) rd' (cs_text r)
       w' (cs_closes r) true (cs_fault r) (cs_events r) (cs_wire r) (cs_accepted r))).
Proof.
  live_intro r. intros Hrd' Hw'. cbn in Hw'.
  assert (Hwire : wi `prefix_of` (out_frame <$> ac)) by (rewrite Hac; by apply prefix_app_r).
  assert (Hlen : length w' ≤ 1) by (destruct Hw' as [-> | ->], q; simpl; lia).
  assert (Hcs' : cs = true → cr = true ∧ [] = [] ∧ w' = [])
    by (intros Hc; destruct (Hcs Hc) as (? & ? & ?); destruct Hw'; subst; auto).
  cs_unfold. destruct (negb _); destruct v; cbn; repeat cs_calls;
    unfold shut, sess_ok, shut_phase, close_ok; cbn; split_and!; try done;
    eauto using connected_error, connected_disconnect.
Qed.

Lemma cs_run_HandleClosed_shut e r rd' w' :
  shut r → rd' ≤ 1 → w' = cs_writes r ∨ w' = [] →
  shut (cs_run (HandleClosed e)
    (mkCsRt (cs_session r) (cs_cli r) (cs_tasks r) (cs_stages r) rd' (cs_text r)
       w' (cs_closes r) true (cs_fault r) (cs_events r) (cs_wire r) (cs_accepted r))).
Proof.
  destruct r as [[se q ho po re hh hs oc op cr cs] v tk g rd tx w c fl ft ev wi ac].
  unfold shut, sess_ok, shut_phase, close_ok; cbn.
  intros [(Hft & Hst & Htk) (Hop & Hg & Hoc & Hnc & Hfl & Hrd & Hw & Hq & Hwi & [Hcl Hcs] & Hord)].
  intros Hrd' Hw'. subst. cs_unfold. split_and!; try done.
  - destruct Hw' as [-> | ->]; simpl; lia.
  - intros Hc. destruct (Hcs Hc) as (? & ? & ?). destruct Hw'; subst; auto.
Qed.

Lemma cs_run_OnRead_got got r :
  live r →
  live (cs_run (OnRead (inr got))
    (mkCsRt (cs_session r) (cs_cli r) (cs_tasks r) (cs_stages r) 0 (cs_text r)
       (cs_writes r) (cs_closes r) false (cs_fault r) (cs_events r) (cs_wire r) (cs_accepted r))).
Proof.
  live_intro r. cs_unfold. destruct got as [[] data], v; cbn; try cs_calls;
    split_and!; try done; by apply connected_received.
Qed.

Lemma cs_run_OnWrite_ok r f w' :
  live r → cs_writes r = f :: w' →
  live (cs_run (OnWrite None)
    (mkCsRt (cs_session r) (cs_cli r) (cs_tasks r) (cs_stages r) (cs_reads r) (cs_text r)
       w' (cs_closes r) false (cs_fault r) (cs_events r) (cs_wire r) (cs_accepted r))).
Proof.
  live_intro r. intros Hf. cbn in Hf. destruct q as [|p q]; [done|].
  cbn in Hf. simplify_eq. destruct cs; [by destruct (Hcs eq_refl) as (_ & ? & _)|].
  cs_unfold. destruct q as [|p' q]; cbn.
  - destruct cr; cbn; split_and!; try done; lia.
  - inversion_clear Hqok as [|? ? Hp Hqok']. pose proof Hqok' as Hqok2.
    inversion_clear Hqok' as [|? ? Hp' _].
    rewrite (out_ok_buffer p' Hp'). cbn in *. split_and!; try done; try lia.
    rewrite Hac, <-app_assoc. by rewrite ?drop_0.
Qed.

(** *** One step *)

Definition closed_phase r : Prop :=
  fresh_phase k r ∨ connecting_phase k r ∨ failed_phase k r ∨ shut_phase k r.

Lemma closed_not_open r : closed_phase r → mOpen (cs_session r) = false.
Proof. by intros [[(? & _) _]|[[(? & _) _]|[[(? & _) _]|(? & _)]]]. Qed.

Lemma inv_cases r :
  cs_inv settings k r ↔ sess_ok settings r ∧ (open_phase k r ∨ closed_phase r).
Proof. unfold cs_inv, closed_phase. tauto. Qed.

(** The phases of a session that is not open survive a change of the client, of the
    pending closures, of the log, and a requested close. *)
Lemma closed_phase_keep r s' v' tk' ev' :
  closed_phase r →
  s' = cs_session r ∨ s' = set_mCloseRequested true (cs_session r) →
  calls ev' = calls (cs_events r) →
  (no_connect (cs_tasks r) → no_connect tk') →
  (one_connect k (cs_tasks r) → one_connect k tk') →
  closed_phase (mkCsRt s' v' tk' (cs_stages r) (cs_reads r) (cs_text r) (cs_writes r)
    (cs_closes r) (cs_failed r) (cs_fault r) ev' (cs_wire r) (cs_accepted r)).
Proof.
  intros Hph Hs Hev Hnc Hoc.
  assert (Hflags : mOpen s' = mOpen (cs_session r) ∧ mCloseSent s' = mCloseSent (cs_session r)
    ∧ mWriteQueue s' = mWriteQueue (cs_session r)
    ∧ mOnConnectComplete s' = mOnConnectComplete (cs_session r)
    ∧ (mCloseRequested (cs_session r) = true → mCloseRequested s' = true))
    by (destruct Hs as [-> | ->]; by split_and!).
  destruct Hflags as (Ho & Hc & Hq & Hk & Hcr).
  destruct Hph as [Hp|[Hp|[Hp|Hp]]]; [left|right; left|right; right; left|right; right; right];
    revert Hp; unfold fresh_phase, connecting_phase, failed_phase, shut_phase, not_open, close_ok,
    connected_order; cbn; rewrite ?Hev, ?Ho, ?Hc, ?Hq, ?Hk.
  - intros (? & ? & ? & ? & ?). by split_and!; try tauto; apply Hoc.
  - intros (? & ? & ? & ? & ?). by split_and!; try tauto; apply Hnc.
  - intros (? & ? & ? & ? & ?). by split_and!; try tauto; apply Hnc.
  - intros (? & ? & ? & ? & ? & ? & ? & ? & ? & [? Hcs] & ?). by split_and!; try tauto; auto.
Qed.

Lemma tasks_pop x tk :
  is_connect x = false →
  (no_connect (x :: tk) → no_connect tk) ∧ (one_connect k (x :: tk) → one_connect k tk).
Proof.
  intros Hx. split; [by intros [_ ?]%Forall_cons|].
  intros (t1 & h & p & re & hd & t2 & Heq & H1 & H2). destruct t1 as [|y t1]; simplify_eq/=.
  apply Forall_cons in H1 as [_ H1]. by exists t1, h, p, re, hd, t2.
Qed.

Lemma tasks_push x tk :
  is_connect x = false →
  (no_connect tk → no_connect (tk ++ [x])) ∧ (one_connect k tk → one_connect k (tk ++ [x])).
Proof.
  intros Hx. split.
  - intros Ht. apply Forall_app_2; [done|by constructor].
  - intros (t1 & h & p & re & hd & t2 & -> & H1 & H2). exists t1, h, p, re, hd, (t2 ++ [x]).
    rewrite <-app_assoc. split_and!; [done|done|]. apply Forall_app_2; [done|by constructor].
Qed.

Lemma sess_ok_tasks r tk' :
  sess_ok settings r → (∀ m, TaskSend m ∈ tk' → out_ok m = true) →
  sess_ok settings (mkCsRt (cs_session r) (cs_cli r) tk' (cs_stages r) (cs_reads r) (cs_text r)
    (cs_writes r) (cs_closes r) (cs_failed r) (cs_fault r) (cs_events r) (cs_wire r)
    (cs_accepted r)).
Proof. intros (? & ? & _) ?. by split_and!. Qed.

(** The strand runs the connect closure. *)
Lemma step_connect r h p re hd k0 tk :
  cs_inv settings k r → cs_tasks r = TaskConnect h p re hd k0 :: tk →
  cs_inv settings k (cs_run (AsyncConnect_posted h p re hd k0)
    (mkCsRt (cs_session r) (cs_cli r) tk (cs_stages r) (cs_reads r) (cs_text r) (cs_writes r)
      (cs_closes r) (cs_failed r) (cs_fault r) (cs_events r) (cs_wire r) (cs_accepted r))).
Proof.
  intros [Hs Hph] Htk.
  assert (Hno : ¬ no_connect (cs_tasks r)) by (rewrite Htk; by intros [? _]%Forall_cons).
  destruct Hph as [Hf|[Hc|[Hf|[Ho|Hsh]]]].
  2: { by destruct Hc as (_ & _ & _ & _ & ?). }
  2: { by destruct Hf as (_ & _ & _ & _ & ?). }
  2: { by destruct Ho as (_ & _ & _ & ? & _). }
  2: { by destruct Hsh as (_ & _ & _ & ? & _). }
  destruct Hf as (Hn & Hst & Hoc & Hev & t1 & h' & p' & re' & hd' & t2 & Heq & H1 & H2).
  rewrite Htk in Heq. destruct t1 as [|y t1]; [|simplify_eq/=; by apply Forall_cons in H1 as [? _]].
  simplify_eq/=. destruct Hs as (Hft & Hse & Hm).
  destruct r as [[se q ho po rs hh hs oc op cr cs] v tk g rd tx w c fl ft ev wi ac].
  unfold not_open in Hn. cbn in *. cs_unfold. split.
  - split_and!; try done. intros m Hin. apply Hm. rewrite Htk. by right.
  - right; left. rewrite Hst. unfold connecting_phase, not_open. cbn. by split_and!; tauto.
Qed.

Lemma step_send m r tk :
  cs_inv settings k r → cs_tasks r = TaskSend m :: tk →
  let r' := mkCsRt (cs_session r) (cs_cli r) tk (cs_stages r) (cs_reads r) (cs_text r)
              (cs_writes r) (cs_closes r) (cs_failed r) (cs_fault r) (cs_events r) (cs_wire r)
              (cs_accepted r) in
  cs_inv settings k (cs_note_accepted m r' (cs_run (Send_posted m) r')).
Proof.
  intros [Hs Hph]%inv_cases Htk r'. destruct (tasks_pop (TaskSend m) tk eq_refl) as [Hnc Hoc].
  rewrite <-Htk in Hnc, Hoc.
  assert (Hs' : sess_ok settings r').
  { apply sess_ok_tasks; [done|]. destruct Hs as (_ & _ & Hm). intros m' Hin. apply Hm.
    rewrite Htk. by right. }
  apply inv_cases. destruct Hph as [Ho|Hc].
  - destruct (cs_run_Send_open m r') as [? ?]; [|destruct Hs as (_ & _ & Hm)|split; auto].
    + split; [done|]. destruct Ho as (? & ? & ? & ? & ?). unfold r', open_phase in *. cbn in *.
      split_and!; try done; try tauto.
    + apply Hm. rewrite Htk. by left.
  - destruct (cs_run_Send_closed m r' (closed_not_open r Hc)) as (v & ev & -> & Hev). split.
    + destruct Hs' as (? & ? & ?). by split_and!.
    + right. apply (closed_phase_keep r); auto.
      destruct Hev as [-> |[e ->]]; [done|apply calls_error].
Qed.

Lemma step_close r tk :
  cs_inv settings k r → cs_tasks r = TaskClose :: tk →
  cs_inv settings k (cs_run Close_posted
    (mkCsRt (cs_session r) (cs_cli r) tk (cs_stages r) (cs_reads r) (cs_text r) (cs_writes r)
      (cs_closes r) (cs_failed r) (cs_fault r) (cs_events r) (cs_wire r) (cs_accepted r))).
Proof.
  intros [Hs Hph]%inv_cases Htk. destruct (tasks_pop TaskClose tk eq_refl) as [Hnc Hoc].
  rewrite <-Htk in Hnc, Hoc.
  assert (Hm : ∀ m, TaskSend m ∈ tk → out_ok m = true).
  { destruct Hs as (_ & _ & Hm). intros m' Hin. apply Hm. rewrite Htk. by right. }
  apply inv_cases. destruct Hph as [Ho|Hc].
  - edestruct (run_MaybeSendClose_open) as [? ?]; [|split; [done|left; done]].
    split; [by apply (sess_ok_tasks r)|]. destruct Ho as (? & ? & ? & ? & ?).
    unfold open_phase in *. cbn in *. split_and!; try done; try tauto.
  - rewrite cs_run_Close_closed by (by apply (closed_not_open r)). split.
    + destruct Hs as (? & ? & ?). by split_and!.
    + right. apply (closed_phase_keep r); auto.
Qed.

Lemma step_stage ec sni r st g :
  cs_inv settings k r → cs_stages r = st :: g →
  cs_inv settings k (cs_run (match st with
                             | StResolve => OnResolve ec
                             | StTcp => OnTcpConnect IS_SSL ec sni
                             | StSsl => OnSslHandshake ec
                             | StWs => OnWebsocketHandshake ec
                             end)
    (mkCsRt (cs_session r) (cs_cli r) (cs_tasks r) g (cs_reads r) (cs_text r) (cs_writes r)
      (cs_closes r) (cs_failed r) (cs_fault r) (cs_events r) (cs_wire r) (cs_accepted r))).
Proof.
  intros [Hs Hph] Hst. destruct Hph as [Hf|[Hc|[Hf|[Ho|Hsh]]]].
  - destruct Hf as (_ & ? & _). congruence.
  - pose proof Hc as (_ & Hlen & _). rewrite Hst in Hlen.
    destruct g as [|]; [|done].
    destruct (run_stage ec sni r st) as [[? ?]|[[? ?]|[? ?]]]; [by split|done| | |];
      (split; [done|]); unfold cs_inv; auto.
  - destruct Hf as (_ & ? & _). congruence.
  - destruct Ho as (_ & ? & _). congruence.
  - destruct Hsh as (_ & ? & _). congruence.
Qed.

Lemma cs_shut_inv r : shut r → cs_inv settings k r.
Proof. intros [? ?]. split; auto. Qed.

Lemma cs_live_inv r : live r → cs_inv settings k r.
Proof. intros [? ?]. split; auto. Qed.

Lemma not_open_no_read r : not_open r → cs_reads r = 0 ∧ cs_writes r = [] ∧ cs_closes r = 0.
Proof. by intros (_ & _ & _ & ? & ? & ? & _). Qed.

Lemma step_read x r rd :
  cs_inv settings k r → cs_reads r = S rd →
  (cs_failed r && negb (match x with inl _ => true | inr _ => false end)) = false →
  cs_inv settings k (cs_run (OnRead x)
    (mkCsRt (cs_session r) (cs_cli r) (cs_tasks r) (cs_stages r) rd (cs_text r) (cs_writes r)
      (cs_closes r) (cs_failed r || match x with inl _ => true | inr _ => false end)
      (cs_fault r) (cs_events r) (cs_wire r) (cs_accepted r))).
Proof.
  intros [Hs Hph] Hrd Hok. destruct Hph as [[Hn _]|[[Hn _]|[[Hn _]|[Ho|Hsh]]]].
  1-3: destruct (not_open_no_read r Hn) as (? & _); congruence.
  - pose proof Ho as (_ & _ & _ & _ & Hfl & Hr1 & _). rewrite Hfl.
    assert (rd = 0) as -> by lia. destruct x as [e|got].
    + apply cs_shut_inv, (cs_run_HandleClosed_open e r); [by split|lia|by left].
    + apply cs_live_inv, cs_run_OnRead_got. by split.
  - pose proof Hsh as (_ & _ & _ & _ & Hfl & Hr1 & _). rewrite Hfl in *. destruct x as [e|got]; [|done].
    apply cs_shut_inv, (cs_run_HandleClosed_shut e r); [by split|lia|by left].
Qed.

Lemma step_write x r f w' :
  cs_inv settings k r → cs_writes r = f :: w' →
  (cs_failed r && negb (match x with Some _ => true | None => false end)) = false →
  cs_inv settings k (cs_run (OnWrite x)
    (mkCsRt (cs_session r) (cs_cli r) (cs_tasks r) (cs_stages r) (cs_reads r) (cs_text r) w'
      (cs_closes r) (cs_failed r || match x with Some _ => true | None => false end)
      (cs_fault r) (cs_events r) (cs_wire r) (cs_accepted r))).
Proof.
  intros [Hs Hph] Hw Hok. destruct Hph as [[Hn _]|[[Hn _]|[[Hn _]|[Ho|Hsh]]]].
  1-3: destruct (not_open_no_read r Hn) as (_ & ? & _); congruence.
  - pose proof Ho as (_ & _ & _ & _ & Hfl & Hr1 & _ & Hw0 & _). rewrite Hfl.
    destruct x as [e|].
    + apply cs_shut_inv, (cs_run_HandleClosed_open e r); [by split|lia|right].
      rewrite Hw0 in Hw. by destruct (mWriteQueue (cs_session r)); simplify_eq/=.
    + apply cs_live_inv, (cs_run_OnWrite_ok r f); [by split|done].
  - pose proof Hsh as (_ & _ & _ & _ & Hfl & Hr1 & Hlen & _). rewrite Hfl in *.
    destruct x as [e|]; [|done].
    apply cs_shut_inv, (cs_run_HandleClosed_shut e r); [by split|done|right].
    rewrite Hw in Hlen. destruct w'; simpl in *; [done|lia].
Qed.

Lemma step_closed r c' :
  cs_inv settings k r → cs_closes r = S c' →
  cs_inv settings k
    (mkCsRt (cs_session r) (cs_cli r) (cs_tasks r) (cs_stages r) (cs_reads r) (cs_text r)
      (cs_writes r) c' (cs_failed r) (cs_fault r) (cs_events r) (cs_wire r) (cs_accepted r)).
Proof.
  intros [Hs Hph] Hc. split; [done|]. destruct Hph as [[Hn _]|[[Hn _]|[[Hn _]|[Ho|Hsh]]]].
  1-3: destruct (not_open_no_read r Hn) as (_ & _ & ?); congruence.
  - do 3 right; left.
    destruct Ho as (? & ? & ? & ? & ? & ? & ? & ? & ? & [Hle ?] & ? & ?).
    unfold open_phase, close_ok. cbn. split_and!; try done. lia.
  - do 4 right. destruct Hsh as (? & ? & ? & ? & ? & ? & ? & ? & ? & [Hle ?] & ?).
    unfold shut_phase, close_ok. cbn. split_and!; try done. lia.
Qed.

Lemma cs_inv_step l r r' :
  cs_label_ok l = true → cs_inv settings k r → cs_exec IS_SSL l r = Some r' →
  cs_inv settings k r'.
Proof.
  intros Hl Hinv He. destruct r as [s v tk g rd tx w c fl ft ev wi ac].
  destruct l as [x| |ec sni|x|ec| |cli|]; cbn [cs_exec] in He.
  - simplify_eq. assert (Hx : is_connect x = false) by (by destruct x).
    destruct (tasks_push x tk Hx) as [Hnc Hoc].
    pose proof Hinv as [Hs Hph]%inv_cases. apply inv_cases. split.
    { apply (sess_ok_tasks _ _ Hs). destruct Hs as (_ & _ & Hm).
      intros m [?|Heq%list_elem_of_singleton]%elem_of_app; [by apply Hm|]. by subst x. }
    destruct Hph as [Ho|Hc]; [left|right].
    + destruct Ho as (? & ? & ? & ? & ?). unfold open_phase in *. cbn in *.
      split_and!; try done; try tauto.
    + by apply (closed_phase_keep _ s v _ ev Hc); [left| | |].
  - destruct tk as [|[h p re hd k0|m|] tk]; simplify_eq.
    + by eapply (step_connect (mkCsRt s v _ g rd tx w c fl ft ev wi ac)).
    + by eapply (step_send m (mkCsRt s v _ g rd tx w c fl ft ev wi ac)).
    + by eapply (step_close (mkCsRt s v _ g rd tx w c fl ft ev wi ac)).
  - destruct g as [|st g]; simplify_eq.
    by eapply (step_stage ec sni (mkCsRt s v tk (st :: g) rd tx w c fl ft ev wi ac)).
  - destruct rd as [|rd]; [done|]. destruct (fl && _) eqn:Hb; simplify_eq.
    by eapply (step_read x (mkCsRt s v tk g (S rd) tx w c fl ft ev wi ac)).
  - destruct w as [|f w]; [done|]. destruct (fl && _) eqn:Hb; simplify_eq.
    by eapply (step_write ec (mkCsRt s v tk g rd tx (f :: w) c fl ft ev wi ac)).
  - destruct c as [|c]; simplify_eq.
    by eapply (step_closed (mkCsRt s v tk g rd tx w (S c) fl ft ev wi ac)).
  - destruct v; simplify_eq. exact Hinv.
  - simplify_eq. exact Hinv.
Qed.

Lemma cs_reachable_inv r : cs_reachable IS_SSL settings k r → cs_inv settings k r.
Proof.
  intros (cli & h & p & re & hd & Hrun).
  apply (star_invariant (cs_inv settings k) _ _) in Hrun; [done| |apply cs_inv_start].
  intros x y Hx (l & Hl & He). by eapply cs_inv_step.
Qed.
End Invariant.

(** ** Properties *)

(** C33. No handler of the client's session has undefined behaviour; at most one connect stage,
    one read and one write-type operation are outstanding, and none of them together with
    a connect stage. *)
Theorem client_session_operations {Cli} `{SessionEventsLaws Cli} isSsl settings k (r : cs_rt Cli) :
  cs_reachable isSsl settings k r →
  cs_fault r = None ∧ length (cs_stages r) ≤ 1 ∧ cs_reads r ≤ 1
  ∧ length (cs_writes r) + cs_closes r ≤ 1
  ∧ (cs_stages r ≠ [] → cs_reads r = 0 ∧ cs_writes r = [] ∧ cs_closes r = 0).
Proof.
  intros Hr. destruct (cs_reachable_inv isSsl settings k r Hr) as [(Hft & _) Hph].
  destruct Hph as [[Hn (Hg & _)]|[[Hn (Hg & _)]|[[Hn (Hg & _)]|[Ho|Hsh]]]].
  1-3: destruct (not_open_no_read r Hn) as (-> & -> & ->); simpl;
    split_and!; try done; try lia; rewrite Hg; simpl; lia.
  - destruct Ho as (_ & -> & _ & _ & _ & -> & _ & Hw & _ & [Hcl Hcs] & _).
    assert (length (cs_writes r) ≤ 1) by (rewrite Hw, length_fmap, length_take; lia).
    split_and!; try done; simpl; try lia.
    destruct (mCloseSent _); [|lia]. destruct Hcs as (_ & _ & ->); [done|]. simpl. lia.
  - destruct Hsh as (_ & -> & _ & _ & _ & ? & ? & _ & _ & [Hcl Hcs] & _).
    split_and!; try done; simpl; try lia.
    destruct (mCloseSent _); [|lia]. destruct Hcs as (_ & _ & ->); [done|]. simpl. lia.
Qed.

(** C32. The connect handler is called exactly once: with [false] when a stage fails, in which
    case nothing else follows, or with [true] when the chain ends, and then come the
    received messages and at most one disconnect; while the session is open it is
    the former and no disconnect was reported. *)
Theorem client_session_calls {Cli} `{SessionEventsLaws Cli} isSsl settings k (r : cs_rt Cli) :
  cs_reachable isSsl settings k r →
  (calls (cs_events r) = []
   ∧ (length (cs_stages r) = 1 ∨ ∃ h p re hd, TaskConnect h p re hd (Some k) ∈ cs_tasks r))
  ∨ (calls (cs_events r) = [EvComplete k false] ∧ cs_stages r = []
     ∧ mOpen (cs_session r) = false)
  ∨ ∃ d, connected_order k d (cs_events r) ∧ cs_stages r = []
         ∧ (mOpen (cs_session r) = true → d = false).
Proof.
  intros Hr. destruct (cs_reachable_inv isSsl settings k r Hr) as [_ Hph].
  destruct Hph as [Hf|[Hc|[Hf|[Ho|Hsh]]]].
  - left. destruct Hf as (_ & _ & _ & ? & t1 & h & p & re & hd & t2 & -> & _). split; [done|].
    right. exists h, p, re, hd. apply elem_of_app. right. by left.
  - left. destruct Hc as (_ & ? & _ & ? & _). auto.
  - right; left. destruct Hf as ((? & _) & ? & _ & ? & _). auto.
  - right; right. exists false.
    by destruct Ho as (_ & ? & _ & _ & _ & _ & _ & _ & _ & _ & _ & ?).
  - right; right. destruct Hsh as (Hop & ? & _ & _ & _ & _ & _ & _ & _ & _ & d & ?).
    exists d. split_and!; [done..|congruence].
Qed.

(** Messages are written in the order their closures ran: the wire is a prefix of what
    was accepted, all but the queued rest while the session is open. *)
Theorem client_session_fifo {Cli} `{SessionEventsLaws Cli} isSsl settings k (r : cs_rt Cli) :
  cs_reachable isSsl settings k r →
  cs_wire r `prefix_of` (out_frame <$> cs_accepted r)
  ∧ (mOpen (cs_session r) = true →
     out_frame <$> cs_accepted r
       = cs_wire r ++ (out_frame <$> drop 1 (mWriteQueue (cs_session r)))
     ∧ cs_writes r = out_frame <$> take 1 (mWriteQueue (cs_session r))
     ∧ (mCloseRequested (cs_session r) = true → mWriteQueue (cs_session r) = [] →
        mCloseSent (cs_session r) = true)).
Proof.
  intros Hr. destruct (cs_reachable_inv isSsl settings k r Hr) as [_ Hph].
  destruct Hph as [[Hn _]|[[Hn _]|[[Hn _]|[Ho|Hsh]]]].
  1-3: destruct Hn as (Hop & _ & _ & _ & _ & _ & _ & -> & ->); split; [done|congruence].
  - destruct Ho as (_ & _ & _ & _ & _ & _ & _ & ? & Hac & _ & Hdue & _).
    split; [rewrite Hac; by apply prefix_app_r|done].
  - destruct Hsh as (Hop & _ & _ & _ & _ & _ & _ & _ & ? & _). split; [done|congruence].
Qed.

(** ** Concrete runs *)

Definition demo_out : SOutgoingMessage := mkOutgoing true "hello" None.
Definition demo_error (kind : ec_kind) : error_code := mkEc kind "message" "printed".

Fixpoint cs_exec_all (ls : list (cs_label (Cli:=unit))) (r : cs_rt unit) : option (cs_rt unit) :=
  match ls with
  | [] => Some r
  | l :: ls' =>
      match (if cs_label_ok l then cs_exec false l r else None) with
      | Some r' => cs_exec_all ls' r'
      | None => None
      end
  end.

Definition demo_session (ls : list (cs_label (Cli:=unit))) : cs_rt unit :=
  let r0 := cs_start default_client_settings (Some tt) "localhost" 8080 "/chat" ∅ 3 in
  default r0 (cs_exec_all ls r0).

Lemma demo_session_reachable ls :
  cs_reachable false default_client_settings 3 (demo_session ls).
Proof.
  exists (Some tt), "localhost", 8080%Z, "/chat", ∅. unfold demo_session. cbv zeta.
  generalize (cs_start default_client_settings (Some tt) "localhost" 8080 "/chat" ∅ 3).
  induction ls as [|l ls IH]; intros r; cbn [cs_exec_all]; [constructor|].
  destruct (cs_label_ok l) eqn:Hl; [|constructor].
  destruct (cs_exec false l r) as [r'|] eqn:He; [|constructor].
  specialize (IH r'). destruct (cs_exec_all ls r') as [r''|]; [|constructor].
  econstructor; [by exists l|exact IH].
Qed.

(** Connect, send two messages, ask for the close. *)
Definition demo_connect : list (cs_label (Cli:=unit)) :=
  [CTask; CStage None None; CStage None None; CStage None None].
Definition demo_sending : list (cs_label (Cli:=unit)) :=
  demo_connect ++ [CPost (TaskSend demo_out); CPost (TaskSend demo_out); CPost TaskClose;
                   CTask; CTask; CTask].

Lemma client_session_operations_witness :
  cs_fault (demo_session demo_sending) = None ∧ length (cs_writes (demo_session demo_sending)) = 1.
Proof.
  split; [|by vm_compute].
  apply (client_session_operations false default_client_settings 3 (demo_session demo_sending)).
  apply demo_session_reachable.
Defined.

Lemma client_session_calls_witness :
  calls (cs_events (demo_session (demo_sending ++ [CRead (inl (demo_error EcEof))])))
    = [EvComplete 3 true; EvDisconnect]
  ∧ (calls (cs_events (demo_session demo_sending)) = []
       ∧ (length (cs_stages (demo_session demo_sending)) = 1
          ∨ ∃ h p re hd, TaskConnect h p re hd (Some 3) ∈ cs_tasks (demo_session demo_sending))
     ∨ (calls (cs_events (demo_session demo_sending)) = [EvComplete 3 false]
        ∧ cs_stages (demo_session demo_sending) = []
        ∧ mOpen (cs_session (demo_session demo_sending)) = false)
     ∨ ∃ d, connected_order 3 d (cs_events (demo_session demo_sending))
            ∧ cs_stages (demo_session demo_sending) = []
            ∧ (mOpen (cs_session (demo_session demo_sending)) = true → d = false)).
Proof.
  split; [by vm_compute|].
  apply (client_session_calls false default_client_settings 3 (demo_session demo_sending)).
  apply demo_session_reachable.
Defined.

Lemma client_session_fifo_witness :
  length (cs_accepted (demo_session demo_sending)) = 2
  ∧ cs_wire (demo_session demo_sending)
      `prefix_of` (out_frame <$> cs_accepted (demo_session demo_sending)).
Proof.
  split; [by vm_compute|].
  apply (client_session_fifo false default_client_settings 3 (demo_session demo_sending)).
  apply demo_session_reachable.
Defined.

(** A read error while a write is outstanding destroys the message being written. *)
Theorem client_buffer_released_in_flight :
  ∃ r : cs_rt unit, cs_reachable false default_client_settings 3 r
    ∧ cs_writes r = [out_frame demo_out] ∧ mWriteQueue (cs_session r) = [].
Proof.
  exists (demo_session (demo_sending ++ [CRead (inl (demo_error EcEof))])).
  split; [apply demo_session_reachable|split; by vm_compute].
Qed.
