(* ===== verification/ClientSteps.v ===== *)
(** * What one step of a client's session does

    Facts about single steps of [ClientSession.v]'s runs that hold whatever the client
    behind [ISessionEvents] does: which calls changed the client, that a requested close is
    never forgotten, that a connection that is over stays so; and how a session that was
    asked to close gets its close frame out. *)

From S2P Require Import Prelude CppString Net Events ClientSession.

Ltac cs_call_eq lem :=
  let Hc := fresh "Hcall" in destruct lem as (? & Hc); rewrite ?Hc; cbn.

(** Case analysis on every test and call of an unfolded handler. *)
Ltac cs_split :=
  repeat match goal with
    | |- context [OnSessionMessage ?a ?b] => cs_call_eq (OnSessionMessage_total a b)
    | |- context [OnSessionContent ?a ?b] => cs_call_eq (OnSessionContent_total a b)
    | |- context [OnSessionDisconnect ?a] => cs_call_eq (OnSessionDisconnect_total a)
    | |- context [LogSessionError ?a ?b] => cs_call_eq (LogSessionError_total a b)
    | |- context [match ?x with _ => _ end] =>
        lazymatch x with context [match _ with _ => _ end] => fail | _ => destruct x; cs_unfold end
    end.

Section Steps.
#[local] Arguments Nat.ltb : simpl never.
#[local] Arguments Nat.eqb : simpl never.
Context {Cli : Type} `{SessionEventsLaws Cli}.
Context (IS_SSL : bool).
Implicit Type r : cs_rt Cli.

(** The calls [ev] took the client from one state to another; the connect handler, which
    is not one of [ISessionEvents], is not run here. *)
Inductive cs_called : list cs_event → option Cli → option Cli → Prop :=
  | called_nil v : cs_called [] v v
  | called_complete k b ev v v' : cs_called ev v v' → cs_called (EvComplete k b :: ev) v v'
  | called_message m ev w w' v :
      OnSessionMessage m w = (Ok tt, w') → cs_called ev (Some w') v →
      cs_called (EvMessage m :: ev) (Some w) v
  | called_content b ev w w' v :
      OnSessionContent b w = (Ok tt, w') → cs_called ev (Some w') v →
      cs_called (EvContent b :: ev) (Some w) v
  | called_disconnect ev w w' v :
      OnSessionDisconnect w = (Ok tt, w') → cs_called ev (Some w') v →
      cs_called (EvDisconnect :: ev) (Some w) v
  | called_error m ev w w' v :
      LogSessionError m w = (Ok tt, w') → cs_called ev (Some w') v →
      cs_called (EvError m :: ev) (Some w) v.

(** What is true of the client before is true after, if every call keeps it. *)
Lemma cs_called_keeps (P : Cli → Cli → Prop) `{!PreOrder P} ev w w' :
  (∀ m w w', OnSessionMessage m w = (Ok tt, w') → P w w') →
  (∀ b w w', OnSessionContent b w = (Ok tt, w') → P w w') →
  (∀ w w', OnSessionDisconnect w = (Ok tt, w') → P w w') →
  (∀ m w w', LogSessionError m w = (Ok tt, w') → P w w') →
  cs_called ev (Some w) w' → ∃ w1, w' = Some w1 ∧ P w w1.
Proof.
  intros Hm Hc Hd He Hcall. remember (Some w) as v eqn:Hv. revert w Hv.
  induction Hcall as [v|k b ev v v' _ IH|m ev w0 w1 v Hx _ IH|b ev w0 w1 v Hx _ IH
    |ev w0 w1 v Hx _ IH|m ev w0 w1 v Hx _ IH]; intros w ?; simplify_eq.
  - by exists w.
  - by apply IH.
  - destruct (IH w1 eq_refl) as (w2 & -> & ?). exists w2. split; [done|]. etransitivity; eauto.
  - destruct (IH w1 eq_refl) as (w2 & -> & ?). exists w2. split; [done|]. etransitivity; eauto.
  - destruct (IH w1 eq_refl) as (w2 & -> & ?). exists w2. split; [done|]. etransitivity; eauto.
  - destruct (IH w1 eq_refl) as (w2 & -> & ?). exists w2. split; [done|]. etransitivity; eauto.
Qed.

(** A close is requested, or posted. *)
Definition cs_closing r : Prop :=
  mCloseRequested (cs_session r) = true ∨ TaskClose ∈ cs_tasks r.

(** Not connected, and nothing under way to connect. *)
Definition cs_over r : Prop :=
  mOpen (cs_session r) = false ∧ cs_stages r = [] ∧ no_connect (cs_tasks r).

(** The steps a session takes by itself. *)
Definition cs_own_label (l : cs_label (Cli:=Cli)) : bool :=
  match l with CPost _ | CClient _ | CClientGone => false | _ => true end.

Record cs_effect r r' : Prop := {
  ce_called : ∃ new, cs_events r' = cs_events r ++ new ∧ cs_called new (cs_cli r) (cs_cli r');
  ce_settings : mSettings (cs_session r') = mSettings (cs_session r);
  ce_closing : cs_closing r → cs_closing r';
  ce_over : cs_over r → cs_over r'
}.

Ltac cs_new :=
  first [exists []; split; [by rewrite app_nil_r|econstructor]
        |eexists [_]; split; [reflexivity|repeat (econstructor; try eassumption)]
        |eexists [_; _]; split; [by rewrite <-app_assoc|repeat (econstructor; try eassumption)]].

Ltac cs_effect_done :=
  cs_unfold; cs_split;
  (split; unfold cs_closing, cs_over; cbn;
  [once cs_new | done
  | intros [?|Hin]; first [by left | by right | by apply elem_of_cons in Hin as [?|?]; auto]
  | intros (? & ? & Hn); simplify_eq; try (apply Forall_cons in Hn as [? Hn]); by split_and! ]).

Lemma cs_exec_effect l r r' :
  cs_own_label l = true → cs_exec IS_SSL l r = Some r' → cs_effect r r'.
Proof.
  destruct r as [[se q ho po re hh hs oc op cr cs] v tk g rd tx w c fl ft ev wi ac].
  intros Hl. destruct l as [x| |ec sni|x|ec| |cli|]; try done; cbn [cs_exec].
  - destruct tk as [|[h p rs hd k0|m|] tk]; intros; simplify_eq; cs_effect_done.
  - destruct g as [|[] g]; intros; simplify_eq; cs_effect_done.
  - destruct rd as [|rd]; [done|]. destruct (fl && _); intros; simplify_eq; cs_effect_done.
  - destruct w as [|f w]; [done|]. destruct (fl && _); intros; simplify_eq; cs_effect_done.
  - destruct c; intros; simplify_eq; cs_effect_done.
Qed.


(** *** The connect handler *)

(** The results the connect handler was called with. *)
Definition completions (ev : list cs_event) : list bool :=
  omap (λ e, match e with EvComplete _ b => Some b | _ => None end) ev.

Lemma completions_app ev ev' : completions (ev ++ ev') = completions ev ++ completions ev'.
Proof. apply omap_app. Qed.

Lemma completions_calls ev : completions ev = completions (calls ev).
Proof. unfold calls. induction ev as [|[] ev IH]; cbn in *; unfold completions in *; cbn; congruence. Qed.

Lemma completions_connected k d ev : connected_order k d ev → completions ev = [true].
Proof.
  intros (ms & Hc & Hms). rewrite completions_calls, Hc. cbn. f_equal.
  change (completions (ms ++ if d then [EvDisconnect] else []) = []).
  rewrite completions_app. clear Hc.
  induction Hms as [|e ms He _ IH]; [by destruct d|].
  destruct e; try done; exact IH.
Qed.

Section Phases.
Context (settings : CClientSettings) (k : nat).

(** How far a session that was told to connect has got. *)
Lemma cs_inv_completed r :
  cs_inv settings k r →
  (completions (cs_events r) = [] ∧ mOpen (cs_session r) = false ∧ ¬ cs_over r)
  ∨ (completions (cs_events r) = [false] ∧ mOpen (cs_session r) = false ∧ cs_over r)
  ∨ (completions (cs_events r) = [true] ∧ (cs_over r ∨ live settings k r)).
Proof.
  intros [Hs [Hf|[Hc|[Hf|[Ho|Hsh]]]]]; rewrite completions_calls.
  - left. destruct Hf as ((? & _) & _ & _ & -> & t1 & h & p & re & hd & t2 & Ht & _).
    split_and!; [done..|]. intros (_ & _ & Hn). rewrite Ht in Hn.
    apply Forall_app in Hn as [_ [? _]%Forall_cons]. done.
  - left. destruct Hc as ((? & _) & Hst & _ & -> & _). split_and!; [done..|].
    intros (_ & Hn & _). by rewrite Hn in Hst.
  - right; left. destruct Hf as ((? & _) & ? & _ & -> & ?). by split_and!.
  - right; right. rewrite <-completions_calls.
    pose proof Ho as (_ & _ & _ & _ & _ & _ & _ & _ & _ & _ & _ & Hord).
    split; [by eapply completions_connected|]. right. by split.
  - right; right. rewrite <-completions_calls.
    destruct Hsh as (? & ? & _ & ? & _ & _ & _ & _ & _ & _ & d & Hord).
    split; [by eapply completions_connected|]. left. by split_and!.
Qed.

(** A session that has been created and not been told to connect. *)
Definition idle r : Prop :=
  sess_ok settings r ∧ not_open r ∧ cs_stages r = []
  ∧ mOnConnectComplete (cs_session r) = None ∧ calls (cs_events r) = []
  ∧ no_connect (cs_tasks r).

Lemma idle_post x r r' :
  is_connect x = false → cs_label_ok (Cli:=Cli) (CPost x) = true → idle r →
  cs_exec IS_SSL (CPost x) r = Some r' → idle r'.
Proof.
  destruct r. cbn. intros Hx Hok ((? & ? & Hm) & ? & ? & ? & ? & Hn) ?. simplify_eq.
  unfold idle, sess_ok. cbn. split_and!; try done; cbn in *.
  - intros m [?|Heq%list_elem_of_singleton]%elem_of_app; [by apply Hm|]. by subst x.
  - apply Forall_app_2; [done|by constructor].
Qed.

Lemma idle_connect h p re hd r r' :
  idle r → cs_exec IS_SSL (CPost (TaskConnect h p re hd (Some k))) r = Some r' →
  cs_inv settings k r'.
Proof.
  destruct r. cbn. intros ((? & ? & Hm) & ? & ? & ? & ? & Hn) ?. simplify_eq. split.
  - split_and!; try done. cbn in *.
    intros m [?|Heq%list_elem_of_singleton]%elem_of_app; [by apply Hm|done].
  - left. split_and!; try done. cbn in *. eexists _, h, p, re, hd, [].
    by split_and!; [|done|constructor].
Qed.

Lemma idle_exec l r r' :
  cs_own_label l = true → idle r → cs_exec IS_SSL l r = Some r' → idle r'.
Proof.
  intros Hl (Hs & Hn & Hst & Hoc & Hev & Hnc) He.
  destruct (not_open_no_read r Hn) as (Hrd & Hw & Hc).
  destruct r as [s v tk g rd tx w c fl ft ev wi ac]. cbn in Hst, Hrd, Hw, Hc. subst g rd w c.
  destruct l as [x| |ec sni|x|ec| |cli|]; try done. cbn [cs_exec] in He.
  destruct tk as [|[h p re hd k0|m|] tk]; simplify_eq.
  - by apply Forall_cons in Hnc as [? _].
  - set (r0 := mkCsRt s v tk [] 0 tx [] 0 fl ft ev wi ac).
    destruct (cs_run_Send_closed m r0) as (v' & ev' & -> & Hev'); [by destruct Hn|].
    apply Forall_cons in Hnc as [_ Hnc]. destruct Hs as (? & ? & Hm).
    unfold idle, sess_ok. cbn. split_and!; try done; cbn in *.
    + intros m' Hin. apply Hm. by right.
    + destruct Hev' as [-> |[e ->]]; [done|by rewrite calls_error].
  - rewrite cs_run_Close_closed by (by destruct Hn). cbn.
    apply Forall_cons in Hnc as [_ Hnc]. destruct Hs as (? & ? & Hm).
    unfold idle, sess_ok, not_open in *. cbn in *. split_and!; try done; try tauto.
    intros m' Hin. apply Hm. by right.
Qed.

Lemma idle_completions r : idle r → completions (cs_events r) = [].
Proof. intros (_ & _ & _ & _ & Hev & _). by rewrite completions_calls, Hev. Qed.

Lemma idle_not_open r : idle r → mOpen (cs_session r) = false.
Proof. by intros (_ & (? & _) & _). Qed.

(** *** A requested close gets out *)

Fixpoint cs_steps (ls : list (cs_label (Cli:=Cli))) r : option (cs_rt Cli) :=
  match ls with
  | [] => Some r
  | l :: ls' => match cs_exec IS_SSL l r with Some r' => cs_steps ls' r' | None => None end
  end.

Lemma cs_steps_app l1 l2 r r1 :
  cs_steps l1 r = Some r1 → cs_steps (l1 ++ l2) r = cs_steps l2 r1.
Proof.
  revert r. induction l1 as [|l l1 IH]; intros r He; cbn in *; [by simplify_eq|].
  destruct (cs_exec _ l r); [by apply IH|done].
Qed.

(** A posted closure neither completes the connect nor opens or ends the connection. *)
Lemma exec_task_same r r' :
  cs_exec IS_SSL CTask r = Some r' →
  completions (cs_events r') = completions (cs_events r)
  ∧ mOpen (cs_session r') = mOpen (cs_session r) ∧ cs_tasks r' = tail (cs_tasks r)
  ∧ (mCloseRequested (cs_session r) = true ∨ head (cs_tasks r) = Some TaskClose →
     mCloseRequested (cs_session r') = true).
Proof.
  destruct r as [[se q ho po re hh hs oc op cr cs] v tk g rd tx w c fl ft ev wi ac]. cbn [cs_exec].
  destruct tk as [|[h p rs hd k0|m|] tk]; intros; simplify_eq; cs_unfold; cs_split;
    rewrite ?completions_app, ?app_nil_r; by split_and!; [..|intros [?|?]].
Qed.

Lemma run_cs_tasks tk r :
  cs_inv settings k r → ¬ cs_over r → cs_tasks r = tk →
  ∃ r', cs_steps (replicate (length tk) CTask) r = Some r' ∧ cs_inv settings k r'
        ∧ ¬ cs_over r' ∧ cs_tasks r' = []
        ∧ (cs_closing r → mCloseRequested (cs_session r') = true).
Proof.
  revert r. induction tk as [|x tk IH]; intros r Hinv Hno Htk.
  { exists r. split_and!; try done. intros [?|Hin]; [done|]. rewrite Htk in Hin.
    by apply not_elem_of_nil in Hin. }
  destruct (cs_exec IS_SSL CTask r) as [r1|] eqn:He; [|destruct r; cbn in Htk; subst; by destruct x].
  destruct (exec_task_same r r1 He) as (Hcmp & Hop & Htl & Hcr).
  pose proof (cs_inv_step IS_SSL settings k CTask r r1 eq_refl Hinv He) as Hinv1.
  destruct (IH r1 Hinv1) as (r' & Hr' & ? & ? & ? & Hc).
  - intros Ho. pose proof Ho as (Ho1 & _).
    destruct (cs_inv_completed r Hinv) as [(Hn & _)|[(_ & _ & ?)|(Hn & [?|[_ (Hp & _)]])]];
      [|done|done|congruence].
    destruct (cs_inv_completed r1 Hinv1) as [(_ & _ & ?)|[(Hn1 & _)|(Hn1 & _)]];
      [done|congruence..].
  - by rewrite Htl, Htk.
  - exists r'. cbn [length replicate cs_steps]. rewrite He. split_and!; try done.
    intros Hcl. apply Hc. unfold cs_closing in *. rewrite Htk in Hcl, Hcr, Htl. rewrite Htl.
    destruct Hcl as [?|[<-|?]%elem_of_cons]; [left; by auto..|by right].
Qed.

(** The stage after [st]. *)
Definition next_stage (st : stage) : option stage :=
  match st with
  | StResolve => Some StTcp
  | StTcp => Some (if IS_SSL then StSsl else StWs)
  | StSsl => Some StWs
  | StWs => None
  end.

Lemma exec_stage_ok r st :
  connecting settings k r → cs_stages r = [st] →
  ∃ r', cs_exec IS_SSL (CStage None None) r = Some r'
    ∧ mCloseRequested (cs_session r') = mCloseRequested (cs_session r)
    ∧ match next_stage st with
      | Some st' => connecting settings k r' ∧ cs_stages r' = [st']
      | None => live settings k r'
      end.
Proof.
  intros Hc Hst. assert (Hinv : cs_inv settings k r) by (destruct Hc; split; auto).
  destruct (cs_exec IS_SSL (CStage None None) r) as [r'|] eqn:He;
    [|destruct r; cbn in Hst; subst; by destruct st].
  pose proof (cs_inv_step IS_SSL settings k (CStage None None) r r' eq_refl Hinv He) as Hinv'.
  exists r'. split; [done|].
  assert (mCloseRequested (cs_session r') = mCloseRequested (cs_session r)
    ∧ match next_stage st with
      | Some st' => mOpen (cs_session r') = false ∧ cs_stages r' = [st']
      | None => mOpen (cs_session r') = true
      end) as [Hcr Hnext].
  { destruct Hc as (_ & (Hop & _) & _).
    destruct r as [[se q ho po re hh hs oc op cr cs] v tk g rd tx w c fl ft ev wi ac].
    cbn in Hst, Hop. subst g op. cbn [cs_exec] in He. destruct st; simplify_eq; cs_unfold; cs_split;
      by split_and!. }
  split; [done|]. destruct Hinv' as [Hs Hph]. destruct (next_stage st) as [st'|].
  - destruct Hnext as [Ho Hst']. split; [|done].
    destruct Hph as [(_ & Hn & _)|[?|[(_ & Hn & _)|[(? & _)|(_ & Hn & _)]]]];
      try congruence. by split.
  - destruct Hph as [((? & _) & _)|[((? & _) & _)|[((? & _) & _)|[?|(? & _)]]]];
      try congruence. by split.
Qed.

(** When each stage succeeds, the connection gets established. *)
Lemma stages_open n r st :
  connecting settings k r → cs_stages r = [st] →
  (match st with StResolve => 4 | StTcp => 3 | StSsl => 2 | StWs => 1 end) ≤ n →
  ∃ m r', cs_steps (replicate m (CStage None None)) r = Some r' ∧ live settings k r'
          ∧ mCloseRequested (cs_session r') = mCloseRequested (cs_session r).
Proof.
  revert r st. induction n as [|n IH]; intros r st Hc Hst Hn; [by destruct st; cbn in Hn; lia|].
  destruct (exec_stage_ok r st Hc Hst) as (r1 & He & Hcr & Hnext).
  destruct (next_stage st) as [st'|] eqn:Hst'.
  - destruct Hnext as [Hc1 Hst1]. destruct (IH r1 st' Hc1 Hst1) as (m & r' & Hr' & Hl & Hcr').
    { unfold next_stage in Hst'. destruct st; simplify_eq; try destruct IS_SSL; lia. }
    exists (S m), r'. cbn [replicate cs_steps]. rewrite He. split_and!; [done|done|congruence].
  - exists 1, r1. cbn [replicate cs_steps]. by rewrite He.
Qed.

Lemma exec_cs_written r p ps :
  live settings k r → mWriteQueue (cs_session r) = p :: ps →
  ∃ r', cs_exec IS_SSL (CWritten None) r = Some r' ∧ live settings k r'
        ∧ mWriteQueue (cs_session r') = ps
        ∧ mCloseRequested (cs_session r') = mCloseRequested (cs_session r)
        ∧ cs_accepted r' = cs_accepted r.
Proof.
  intros Hl Hq. pose proof Hl as (_ & Hop & _ & _ & _ & Hfl & _ & Hqok & Hw & _).
  rewrite Hq in Hw, Hqok. cbn in Hw.
  pose proof (cs_run_OnWrite_ok settings k r (out_frame p) [] Hl Hw) as Hl'.
  eexists. split; [|split; [exact Hl'|]]; clear Hl Hl'.
  - destruct r. cbn in *. by subst.
  - destruct r as [[se q ho po re hh hs oc op cr cs] v tk g rd tx w c fl ft ev wi ac].
    cbn in Hq, Hop. subst. apply Forall_cons in Hqok as [_ Hqok]. cs_unfold.
    destruct ps as [|p' ps]; cbn; [by destruct cr, cs|].
    apply Forall_cons in Hqok as [Hp' _]. by rewrite (out_ok_buffer _ Hp').
Qed.

Lemma cs_drain q r :
  live settings k r → mWriteQueue (cs_session r) = q → mCloseRequested (cs_session r) = true →
  ∃ r', cs_steps (replicate (length q) (CWritten None)) r = Some r'
        ∧ mCloseSent (cs_session r') = true ∧ mWriteQueue (cs_session r') = []
        ∧ live settings k r' ∧ cs_accepted r' = cs_accepted r.
Proof.
  revert r. induction q as [|p q IH]; intros r Hl Hq Hcr.
  - exists r. split_and!; [done| |done..].
    destruct Hl as (_ & _ & _ & _ & _ & _ & _ & _ & _ & _ & _ & Hdue & _). by apply Hdue.
  - destruct (exec_cs_written r p q Hl Hq) as (r1 & He & Hl1 & Hq1 & Hcr1 & Hac1).
    destruct (IH r1 Hl1 Hq1) as (r' & ? & ? & ? & ? & ?); [congruence|]. exists r'.
    cbn [length replicate cs_steps]. rewrite He. split_and!; [done..|congruence].
Qed.

(** A session that is connecting or open, and that is asked to close, closes. *)
Lemma cs_closing_sends r :
  cs_inv settings k r → ¬ cs_over r → cs_closing r →
  ∃ m n r', cs_steps (replicate (length (cs_tasks r)) CTask ++ replicate m (CStage None None)
                        ++ replicate n (CWritten None)) r = Some r'
            ∧ mCloseSent (cs_session r') = true ∧ mWriteQueue (cs_session r') = [].
Proof.
  intros Hinv Hno Hcl.
  destruct (run_cs_tasks _ r Hinv Hno eq_refl) as (r1 & He1 & Hinv1 & Hno1 & Htk1 & Hcr1).
  specialize (Hcr1 Hcl).
  assert (∃ m r2, cs_steps (replicate m (CStage None None)) r1 = Some r2 ∧ live settings k r2
                  ∧ mCloseRequested (cs_session r2) = true) as (m & r2 & He2 & Hl2 & Hcr2).
  { destruct Hinv1 as [Hs [Hf|[Hc|[Hf|[Ho|Hsh]]]]].
    - destruct Hf as (_ & _ & _ & _ & t1 & ? & ? & ? & ? & t2 & Ht & _). rewrite Htk1 in Ht.
      by destruct t1.
    - destruct (cs_stages r1) as [|st [|]] eqn:Hst;
        try (by destruct Hc as (_ & Hlen & _); rewrite Hst in Hlen).
      destruct (stages_open 4 r1 st) as (m & r2 & ? & ? & Hcr2); [by split|done| |].
      { destruct st; lia. }
      exists m, r2. by rewrite Hcr2.
    - exfalso. apply Hno1. destruct Hf as ((? & _) & ? & _ & _ & ?). by split_and!.
    - exists 0, r1. by split_and!; [|split|].
    - exfalso. apply Hno1. destruct Hsh as (? & ? & _ & ? & _). by split_and!. }
  destruct (cs_drain _ r2 Hl2 eq_refl Hcr2) as (r3 & He3 & ? & ? & _).
  exists m, (length (mWriteQueue (cs_session r2))), r3.
  rewrite (cs_steps_app _ _ _ _ He1), (cs_steps_app _ _ _ _ He2). done.
Qed.
End Phases.
End Steps.
