(* ===== verification/Client.v ===== *)
(** * [CWebsocketClient]: the client

    The operations of [CImpl] as programs over its state (see [Threads.v]), then the
    public class.  [mSessionMutex] guards [mSession], [mCallbackMutex] the callbacks and the
    handshake headers.  A session is known by a number; [mOpenSessions] are the sessions
    whose own flag [IsOpen] is set, which only they change.

    What [Connect] finds when it waits for its future is its argument; ClientSystem.v
    says when a thread may find what. *)

From S2P Require Import Prelude CppString Net Events WorkQueue Threads ClientSession.
Open Scope prog_scope.

(** ** Data *)

(** The closures posted to the client's workqueue. *)
Inductive client_task :=
  | TaskConnected (cb : callback)
  | TaskDisconnected (cb : callback)
  | TaskMessage (cb : callback) (message : string)
  | TaskContent (cb : callback) (content : list byte).

Record CImpl := mkClient {
  mName : string;
  mSettings : CClientSettings;
  mSessionSettings : CClientSettings;
  mWorkQueue : CWorkQueue client_task;
  mShutdown : bool;
  mSession : option nat;
  mHandshakeHeaders : CHandshakeHeaders;
  mOnConnect : option callback;
  mOnDisconnect : option callback;
  mOnMessage : option callback;
  mOnContent : option callback;
  mSessionCount : nat;           (** session objects created so far *)
  mOpenSessions : gset nat
}.

Definition CImpl_new (name : string) (settings : CClientSettings) : CImpl :=
  mkClient name settings (client_session_settings settings) new_queue false None ∅
    None None None None 0 ∅.

Definition set_mWorkQueue (q : CWorkQueue client_task) (s : CImpl) : CImpl :=
  mkClient (mName s) (mSettings s) (mSessionSettings s) q (mShutdown s) (mSession s)
    (mHandshakeHeaders s) (mOnConnect s) (mOnDisconnect s) (mOnMessage s) (mOnContent s)
    (mSessionCount s) (mOpenSessions s).
Definition set_mShutdown (b : bool) (s : CImpl) : CImpl :=
  mkClient (mName s) (mSettings s) (mSessionSettings s) (mWorkQueue s) b (mSession s)
    (mHandshakeHeaders s) (mOnConnect s) (mOnDisconnect s) (mOnMessage s) (mOnContent s)
    (mSessionCount s) (mOpenSessions s).
Definition set_mSession (x : option nat) (s : CImpl) : CImpl :=
  mkClient (mName s) (mSettings s) (mSessionSettings s) (mWorkQueue s) (mShutdown s) x
    (mHandshakeHeaders s) (mOnConnect s) (mOnDisconnect s) (mOnMessage s) (mOnContent s)
    (mSessionCount s) (mOpenSessions s).
Definition set_mHandshakeHeaders (h : CHandshakeHeaders) (s : CImpl) : CImpl :=
  mkClient (mName s) (mSettings s) (mSessionSettings s) (mWorkQueue s) (mShutdown s) (mSession s)
    h (mOnConnect s) (mOnDisconnect s) (mOnMessage s) (mOnContent s)
    (mSessionCount s) (mOpenSessions s).
Definition set_callbacks (c d m b : option callback) (s : CImpl) : CImpl :=
  mkClient (mName s) (mSettings s) (mSessionSettings s) (mWorkQueue s) (mShutdown s) (mSession s)
    (mHandshakeHeaders s) c d m b (mSessionCount s) (mOpenSessions s).
Definition set_mSessionCount (n : nat) (s : CImpl) : CImpl :=
  mkClient (mName s) (mSettings s) (mSessionSettings s) (mWorkQueue s) (mShutdown s) (mSession s)
    (mHandshakeHeaders s) (mOnConnect s) (mOnDisconnect s) (mOnMessage s) (mOnContent s)
    n (mOpenSessions s).
Definition set_mOpenSessions (o : gset nat) (s : CImpl) : CImpl :=
  mkClient (mName s) (mSettings s) (mSessionSettings s) (mWorkQueue s) (mShutdown s) (mSession s)
    (mHandshakeHeaders s) (mOnConnect s) (mOnDisconnect s) (mOnMessage s) (mOnContent s)
    (mSessionCount s) o.

(** A call of an application callback. *)
Inductive client_call :=
  | CallConnect (cb : callback)
  | CallDisconnect (cb : callback)
  | CallMessage (cb : callback) (message : string)
  | CallContent (cb : callback) (content : list byte).

Inductive call_outcome := Returns | ThrowsStd (what : string) | ThrowsOther.

Inductive session_kind := PlainSession | SslSession (ctx : nat).

(** What waiting for a future ends with: its value ([None]: the promise was destroyed
    without one), or the timeout. *)
Inductive future_status := Ready (value : option bool) | TimedOut.

(** [SessionConnect] passes the connect handler as what it captures: the session, weakly,
    and the promise to set, if any. *)
Inductive client_op :=
  | NewSession (session : nat) (kind : session_kind) (settings : CClientSettings)
  | SessionConnect (session : nat) (host : string) (port : Z) (resource : string)
      (headers : CHandshakeHeaders) (promise : option nat)
  | SessionSend (session : nat) (message : SOutgoingMessage)
  | SessionClose (session : nat)
  | SetPromise (promise : nat) (success : bool)
  | Wait (promise : nat) (seconds : option Z) (found : future_status)
      (** [future.wait()] or [wait_for], and what it found *)
  | Invoked (c : client_call)
  | Posted (t : client_task)
  | Stderr (line : string)
  | ByApp (a : app_op).

Definition CLI : Type → Type := prog CImpl client_op.

(** What the application's callbacks do, as in Server.v: the calls on the client, then how
    the callback ends. *)
Record application := mkApplication {
  cb_end :> client_call → call_outcome;
  cb_body : client_call → CLI unit
}.

Definition passive (ends : client_call → call_outcome) : application :=
  mkApplication ends (λ _, pret tt).

(** ** [CImpl] *)

Section Operations.
Context (app : application).

Definition LogError (message : string) : CLI unit :=
  name <- pgets mName ;;
  pemit (Stderr (log_line name message)).

Definition call_name (c : client_call) : string :=
  match c with
  | CallConnect _ => "connect"
  | CallDisconnect _ => "disconnect"
  | CallMessage _ _ => "message"
  | CallContent _ _ => "content"
  end.

Definition InvokeCallback (c : client_call) : CLI unit :=
  pemit (Invoked c) ;;
  pcatch (cb_body app c) (λ _, pret tt) ;;
  match app c with
  | Returns => pret tt
  | ThrowsStd what =>
      LogError ("Unhandled exception in " +:+ call_name c +:+ " callback: " +:+ what)
  | ThrowsOther => LogError ("Unhandled exception in " +:+ call_name c +:+ " callback")
  end.

Definition task_call (t : client_task) : client_call :=
  match t with
  | TaskConnected cb => CallConnect cb
  | TaskDisconnected cb => CallDisconnect cb
  | TaskMessage cb m => CallMessage cb m
  | TaskContent cb b => CallContent cb b
  end.

(** [mWorkQueue.Post] of a closure that invokes the callback read under the lock. *)
Definition Post (t : client_task) : CLI unit :=
  pemit (Posted t) ;;
  locked (λ s, (tt, set_mWorkQueue (WorkQueue.Post t (mWorkQueue s)) s)).

Definition post_callback (cb : CImpl → option callback) (t : callback → client_task) : CLI unit :=
  found <- pgets cb ;;
  match found with Some c => Post (t c) | None => pret tt end.

Definition OnSessionMessage (message : string) : CLI unit :=
  post_callback mOnMessage (λ cb, TaskMessage cb message).
Definition OnSessionContent (content : list byte) : CLI unit :=
  post_callback mOnContent (λ cb, TaskContent cb content).
Definition OnSessionDisconnect : CLI unit := post_callback mOnDisconnect TaskDisconnected.
Definition NotifyConnected : CLI unit := post_callback mOnConnect TaskConnected.
Definition LogSessionError (message : string) : CLI unit := LogError message.

(** One round of the worker. *)
Definition worker_round : CLI unit :=
  t <- locked (λ s, match Run_locked (mWorkQueue s) with
                    | RunTake t q => (Some t, set_mWorkQueue q s)
                    | RunWait | RunReturn => (None, s)
                    end) ;;
  match t with Some t => InvokeCallback (task_call t) | None => pret tt end.

Definition Start : CLI unit :=
  locked (λ s, (tt, set_mWorkQueue (WorkQueue.Start (mWorkQueue s)) s)).

Definition Shutdown : CLI unit :=
  first <- locked (λ s, (negb (mShutdown s), set_mShutdown true s)) ;;
  if negb first then pret tt
  else
    session <- locked (λ s, (mSession s, set_mSession None s)) ;;
    match session with Some x => pemit (SessionClose x) | None => pret tt end ;;
    locked (λ s, (tt, set_mWorkQueue (WorkQueue.Stop_locked (mWorkQueue s)).2 s)).

(** Settings are constant; creating the object only needs a new number. *)
Definition CreateSession : CLI nat :=
  s <- locked (λ s, (s, set_mSessionCount (S (mSessionCount s)) s)) ;;
  pemit (NewSession (mSessionCount s)
           (match ssl_of (client_sslContext (mSettings s)) with
            | Some ctx => SslSession ctx
            | None => PlainSession
            end) (mSessionSettings s)) ;;
  pret (mSessionCount s).

(** The handler [DoConnect] passes to the session; [alive] is what [weakSelf.lock()]
    finds. *)
Definition ConnectCompleted (alive : bool) (session : nat) (promise : option nat) (success : bool)
    : CLI unit :=
  (if alive then
     if success then NotifyConnected
     else
       locked (λ s, (tt, if bool_decide (mSession s = Some session) then set_mSession None s
                         else s)) ;;
       OnSessionDisconnect
   else pret tt) ;;
  match promise with Some p => pemit (SetPromise p success) | None => pret tt end.

(** The previous session's [Close] is called with the lock held; it only posts. *)
Definition DoConnect (host : string) (port : Z) (resource : string) (promise : option nat)
    : CLI unit :=
  headers <- pgets mHandshakeHeaders ;;
  session <- CreateSession ;;
  old <- locked (λ s, (mSession s, set_mSession (Some session) s)) ;;
  match old with Some x => pemit (SessionClose x) | None => pret tt end ;;
  pemit (SessionConnect session host port resource headers promise).

(** [mSettings.handshakeTimeoutS * 3 + 5], in [int]. *)
Definition safety_timeout (handshakeTimeoutS : Z) : Z := (handshakeTimeoutS * 3 + 5)%Z.

(** [future.get()]; a broken promise is caught. *)
Definition future_get (found : future_status) : bool :=
  match found with Ready (Some b) => b | Ready None | TimedOut => false end.

Definition Connect (promise : nat) (host : string) (port : Z) (resource : string)
    (found : future_status) : CLI bool :=
  stopped <- pgets mShutdown ;;
  if stopped then pret false
  else
    DoConnect host port resource (Some promise) ;;
    settings <- pgets mSettings ;;
    if Z.eqb (client_handshakeTimeoutS settings) 0 then
      pemit (Wait promise None found) ;;
      pret (future_get found)
    else
      pemit (Wait promise (Some (safety_timeout (client_handshakeTimeoutS settings))) found) ;;
      match found with
      | TimedOut => LogError "Connect timed out" ;; pret false
      | Ready _ => pret (future_get found)
      end.

Definition AsyncConnect (host : string) (port : Z) (resource : string) : CLI unit :=
  stopped <- pgets mShutdown ;;
  if stopped then pret tt else DoConnect host port resource None.

Definition session_open (s : CImpl) (session : nat) : bool :=
  bool_decide (session ∈ mOpenSessions s).

Definition IsConnected : CLI bool :=
  pgets (λ s, match mSession s with Some x => session_open s x | None => false end).

Definition Close : CLI unit :=
  session <- pgets mSession ;;
  match session with Some x => pemit (SessionClose x) | None => pret tt end.

Definition Send (message : SOutgoingMessage) : CLI unit :=
  session <- pgets mSession ;;
  match session with
  | None => LogError "Cannot send: not connected"
  | Some x =>
      isopen <- pgets (λ s, session_open s x) ;;
      if negb isopen then LogError "Cannot send: not connected"
      else pemit (SessionSend x message)
  end.

Definition SetHandshakeHeader (name value : string) : CLI unit :=
  locked (λ s, (tt, set_mHandshakeHeaders (<[name := value]> (mHandshakeHeaders s)) s)).
Definition ClearHandshakeHeaders : CLI unit :=
  locked (λ s, (tt, set_mHandshakeHeaders ∅ s)).

Definition RegisterConnectCallback (cb : option callback) : CLI unit :=
  locked (λ s, (tt, set_callbacks cb (mOnDisconnect s) (mOnMessage s) (mOnContent s) s)).
Definition RegisterDisconnectCallback (cb : option callback) : CLI unit :=
  locked (λ s, (tt, set_callbacks (mOnConnect s) cb (mOnMessage s) (mOnContent s) s)).
Definition RegisterMessageCallback (cb : option callback) : CLI unit :=
  locked (λ s, (tt, set_callbacks (mOnConnect s) (mOnDisconnect s) cb (mOnContent s) s)).
Definition RegisterContentCallback (cb : option callback) : CLI unit :=
  locked (λ s, (tt, set_callbacks (mOnConnect s) (mOnDisconnect s) (mOnMessage s) cb s)).

(** ** The public class *)

Definition CWebsocketClient_new (name : string) (settings : CClientSettings) : CImpl :=
  state_of (run Start (CImpl_new name settings)).
Definition CWebsocketClient_new_default : CImpl :=
  CWebsocketClient_new "" default_client_settings.
Definition CWebsocketClient_new_settings (settings : CClientSettings) : CImpl :=
  CWebsocketClient_new "" settings.
Definition CWebsocketClient_new_name (name : string) : CImpl :=
  CWebsocketClient_new name default_client_settings.
Definition CWebsocketClient_delete : CLI unit := Shutdown.

Definition host_or_default (host : string) : string :=
  if is_empty host then DEFAULT_HOST else host.

Definition client_Connect (promise : nat) (host : string) (port : Z) (resource : string) :=
  Connect promise (host_or_default host) port resource.
Definition client_Connect_host (promise : nat) (host : string) :=
  client_Connect promise host DEFAULT_PORT DEFAULT_RESOURCE.
Definition client_Connect_port (promise : nat) (host : string) (port : Z) :=
  client_Connect promise host port DEFAULT_RESOURCE.
Definition client_Connect_resource (promise : nat) (host resource : string) :=
  client_Connect promise host DEFAULT_PORT resource.

Definition client_AsyncConnect (host : string) (port : Z) (resource : string) : CLI unit :=
  AsyncConnect (host_or_default host) port resource.
Definition client_AsyncConnect_host (host : string) : CLI unit :=
  client_AsyncConnect host DEFAULT_PORT DEFAULT_RESOURCE.
Definition client_AsyncConnect_port (host : string) (port : Z) : CLI unit :=
  client_AsyncConnect host port DEFAULT_RESOURCE.
Definition client_AsyncConnect_resource (host resource : string) : CLI unit :=
  client_AsyncConnect host DEFAULT_PORT resource.

Definition client_IsConnected : CLI bool := IsConnected.
Definition client_Close : CLI unit := Close.

Definition SendMessage (message : string) : CLI unit := Send (mkOutgoing true message None).

(** The overload on a shared pointer; [None] is null. *)
Definition SendContent_shared (content : option (list byte)) : CLI unit :=
  match content with
  | None => pret tt
  | Some c => Send (mkOutgoing false "" (Some c))
  end.
Definition SendContent (content : list byte) : CLI unit := SendContent_shared (Some content).

Definition client_SetHandshakeHeader (name value : string) : CLI unit :=
  SetHandshakeHeader name value.
Definition client_ClearHandshakeHeaders : CLI unit := ClearHandshakeHeaders.
Definition client_RegisterConnectCallback (cb : option callback) : CLI unit :=
  RegisterConnectCallback cb.
Definition client_RegisterDisconnectCallback (cb : option callback) : CLI unit :=
  RegisterDisconnectCallback cb.
Definition client_RegisterMessageCallback (cb : option callback) : CLI unit :=
  RegisterMessageCallback cb.
Definition client_RegisterContentCallback (cb : option callback) : CLI unit :=
  RegisterContentCallback cb.

End Operations.

(** ** What the application calls *)

(** Programs made of calls of the public interface, in a thread of the application or in
    a callback.  [SendContent] refuses a null pointer before [Send]. *)
Inductive client_api : ∀ {A : Type}, CLI A → Prop :=
  | cl_connect promise host port resource found :
      client_api (Connect promise host port resource found)
  | cl_async host port resource : client_api (AsyncConnect host port resource)
  | cl_connected : client_api IsConnected
  | cl_close : client_api Close
  | cl_send m : out_ok m = true → client_api (Send m)
  | cl_header n v : client_api (SetHandshakeHeader n v)
  | cl_clear : client_api ClearHandshakeHeaders
  | cl_on_connect cb : client_api (RegisterConnectCallback cb)
  | cl_on_disconnect cb : client_api (RegisterDisconnectCallback cb)
  | cl_on_message cb : client_api (RegisterMessageCallback cb)
  | cl_on_content cb : client_api (RegisterContentCallback cb)
  | cl_delete : client_api CWebsocketClient_delete
  | cl_effect a : client_api (pemit (ByApp a))
  | cl_done {A} (r : res A) : client_api (Done r)
  | cl_bind {A B} (p : CLI A) (k : A → CLI B) :
      client_api p → (∀ a, client_api (k a)) → client_api (pbind p k)
  | cl_catch {A} (p : CLI A) (h : fault → CLI A) :
      client_api p → (∀ f, client_api (h f)) → client_api (pcatch p h).

(** An application whose callbacks use the client through its public interface. *)
Class Behaves (app : application) : Prop := behaves c : client_api (cb_body app c).

#[export] Instance passive_behaves ends : Behaves (passive ends).
Proof. intros c. apply cl_done. Qed.

(** ** Lemmas *)

(** What [DoConnect] does to the client. *)
Definition connecting (s : CImpl) : CImpl :=
  set_mSession (Some (mSessionCount s)) (set_mSessionCount (S (mSessionCount s)) s).

Definition connect_ops (s : CImpl) (host : string) (port : Z) (resource : string)
    (promise : option nat) : list client_op :=
  [NewSession (mSessionCount s)
     (match ssl_of (client_sslContext (mSettings s)) with
      | Some ctx => SslSession ctx
      | None => PlainSession
      end) (mSessionSettings s)]
  ++ option_list (SessionClose <$> mSession s)
  ++ [SessionConnect (mSessionCount s) host port resource (mHandshakeHeaders s) promise].

Lemma run_DoConnect host port resource promise s :
  run (DoConnect host port resource promise) s
  = (Ok tt, connecting s, connect_ops s host port resource promise).
Proof. unfold DoConnect, CreateSession, connect_ops. cbn. by destruct (mSession s). Qed.

Lemma run_post_callback cb t s :
  run (post_callback cb t) s
  = match cb s with
    | Some c => (Ok tt, set_mWorkQueue (WorkQueue.Post (t c) (mWorkQueue s)) s, [Posted (t c)])
    | None => (Ok tt, s, [])
    end.
Proof. unfold post_callback. cbn. by destruct (cb s). Qed.

Lemma no_throw_post_callback cb t : no_throw (post_callback cb t).
Proof. cbn. intros s. by destruct (cb s). Qed.

(** *** The client behind a session's [ISessionEvents] *)

Definition client_world : Type := CImpl * list client_op.

Definition on_client {A} (p : CLI A) (w : client_world) : res A * client_world :=
  match run p w.1 with (r, s', ops) => (r, (s', w.2 ++ ops)) end.
#[global] Arguments on_client : simpl never.

#[export] Instance client_events : ISessionEvents client_world := {|
  ClientSession.OnSessionMessage m := on_client (OnSessionMessage m);
  ClientSession.OnSessionContent b := on_client (OnSessionContent b);
  ClientSession.OnSessionDisconnect := on_client OnSessionDisconnect;
  ClientSession.LogSessionError m := on_client (LogSessionError m)
|}.

Lemma on_client_unit (p : CLI unit) w : no_throw p → ∃ w', on_client p w = (Ok tt, w').
Proof.
  intros Hp. unfold on_client. destruct (no_throw_run p w.1 Hp) as ([] & s' & ops & ->). eauto.
Qed.

#[export] Instance client_laws : SessionEventsLaws client_world.
Proof.
  split; intros; apply on_client_unit; try apply no_throw_post_callback. done.
Qed.

(** ** Properties *)

(** [Connect] on a client that is not shut down starts one fresh session with the
    headers set so far, after asking the previous one to close, waits for the promise, at
    most [3 * handshakeTimeoutS + 5] seconds unless the timeout is disabled (a number of
    seconds that fits an [int] for every [uint16_t]), and returns what the promise got;
    shut down, it does nothing and returns false. *)
Theorem Connect_effects promise host port resource found s :
  (0 ≤ client_handshakeTimeoutS (mSettings s) < 2 ^ 16)%Z →
  let T := client_handshakeTimeoutS (mSettings s) in
  let limit := if Z.eqb T 0 then None else Some (safety_timeout T) in
  (0 < safety_timeout T < 2 ^ 31)%Z
  ∧ run (Connect promise host port resource found) s
    = if mShutdown s then (Ok false, s, [])
      else (Ok (future_get found), connecting s,
            connect_ops s host port resource (Some promise) ++ [Wait promise limit found]
            ++ match found, limit with
               | TimedOut, Some _ => [Stderr (log_line (mName s) "Connect timed out")]
               | _, _ => []
               end).
Proof.
  intros HT T limit. split; [unfold safety_timeout, T; lia|].
  unfold Connect. cbn [pbind pgets locked pret run fst snd].
  destruct (mShutdown s); [done|]. rewrite run_bind. unfold bind. rewrite run_DoConnect.
  cbn [pbind pgets locked pret run fst snd]. change (mSettings (connecting s)) with (mSettings s).
  unfold limit. fold T. destruct (Z.eqb T 0), found as [[]|]; done.
Qed.

(** When an attempt ends: success posts the connect callback; failure forgets the session
    if it is still the current one, and no other, and posts the disconnect callback;
    either way the promise of a waiting [Connect] is set once, even if the client is
    gone by then. *)
Theorem ConnectCompleted_effects alive session promise success s :
  let s1 := if alive && negb success && bool_decide (mSession s = Some session)
            then set_mSession None s else s in
  let posted := if alive then
                  if success : bool then TaskConnected <$> mOnConnect s
                  else TaskDisconnected <$> mOnDisconnect s
                else None in
  run (ConnectCompleted alive session promise success) s
  = (Ok tt,
     match posted with
     | Some t => set_mWorkQueue (WorkQueue.Post t (mWorkQueue s1)) s1
     | None => s1
     end,
     (Posted <$> option_list posted) ++ option_list ((λ p, SetPromise p success) <$> promise)).
Proof.
  unfold ConnectCompleted, NotifyConnected, OnSessionDisconnect. rewrite run_bind. unfold bind.
  destruct alive; cbn [andb]; [|by destruct promise].
  destruct success; cbn [negb andb].
  - rewrite run_post_callback. destruct (mOnConnect s), promise; done.
  - rewrite run_bind. unfold bind. cbn [locked pret run fst snd].
    rewrite run_post_callback. case_bool_decide; cbn;
      by destruct (mOnDisconnect s), promise.
Qed.

(** [Send] hands the message to the current session when that session says it is open,
    and otherwise only logs. *)
Theorem Send_effects message s :
  run (Send message) s
  = match mSession s with
    | Some x =>
        if session_open s x then (Ok tt, s, [SessionSend x message])
        else (Ok tt, s, [Stderr (log_line (mName s) "Cannot send: not connected")])
    | None => (Ok tt, s, [Stderr (log_line (mName s) "Cannot send: not connected")])
    end.
Proof.
  unfold Send. cbn [pbind pgets locked pret run fst snd].
  destruct (mSession s) as [x|]; [|done]. cbn [pbind pgets locked pret run fst snd].
  by destruct (session_open s x).
Qed.

Lemma Connect_effects_witness :
  (0 ≤ client_handshakeTimeoutS default_client_settings < 2 ^ 16)%Z
  ∧ run (Connect 0 "localhost" 8080 "/" (Ready (Some true))) CWebsocketClient_new_default
    = (Ok true, connecting CWebsocketClient_new_default,
       [NewSession 0 PlainSession default_client_settings;
        SessionConnect 0 "localhost" 8080 "/" ∅ (Some 0);
        Wait 0 (Some 95%Z) (Ready (Some true))]).
Proof.
  split; [done|].
  apply (Connect_effects 0 "localhost" 8080 "/" (Ready (Some true)) CWebsocketClient_new_default).
  done.
Defined.

(** A [Connect] that times out returns false, but posts no disconnect callback and leaves
    the attempt running: it may still succeed, and then the client is connected. *)
Theorem connect_timeout_not_a_failure :
  ∃ s1 s2 s3 ops1 ops2,
    run (RegisterDisconnectCallback (Some 1) ;; Connect 0 "localhost" 8080 "/" TimedOut)
      CWebsocketClient_new_default = (Ok false, s1, ops1)
    ∧ (∀ t, Posted t ∉ ops1)
    ∧ run (ConnectCompleted true 0 (Some 0) true) (set_mOpenSessions {[0]} s1) = (Ok tt, s2, ops2)
    ∧ (∀ cb, Posted (TaskDisconnected cb) ∉ ops2)
    ∧ run IsConnected s2 = (Ok true, s3, []).
Proof.
  do 5 eexists. split; [reflexivity|]. split; [|split; [reflexivity|split]].
  - intros t Hin. repeat (apply elem_of_cons in Hin as [?|Hin]; [done|]).
    by apply not_elem_of_nil in Hin.
  - intros cb Hin. repeat (apply elem_of_cons in Hin as [?|Hin]; [done|]).
    by apply not_elem_of_nil in Hin.
  - reflexivity.
Qed.

(** The failure of an attempt that a newer session has replaced still posts the
    disconnect callback, although the client is connected. *)
Theorem superseded_failure_posts_disconnect :
  ∃ s ops,
    run (RegisterDisconnectCallback (Some 1) ;; AsyncConnect "localhost" 8080 "/" ;;
         AsyncConnect "localhost" 8080 "/") CWebsocketClient_new_default = (Ok tt, s, ops)
    ∧ result_of (run IsConnected (set_mOpenSessions {[1]} s)) = Ok true
    ∧ effects_of (run (ConnectCompleted true 0 None false) (set_mOpenSessions {[1]} s))
      = [Posted (TaskDisconnected 1)]
    ∧ result_of (run IsConnected (state_of (run (ConnectCompleted true 0 None false)
                                              (set_mOpenSessions {[1]} s)))) = Ok true.
Proof. do 2 eexists. split; [reflexivity|]. split; [|split]; reflexivity. Qed.
