(* ===== verification/EchoClient.v ===== *)
(** * The echo client example

    examples/echo_client.cpp: the callbacks it registers, as an [application] whose callbacks
    only print, and [main], the destructor of its client included.  A statement that writes
    to a stream is one effect.  Callback names: 0 to 3 in the order of registration.

    While [main] runs, the sessions, the worker and the connect handler run too: what they
    can do to the client between two steps of [main] is [meanwhile]. *)

From S2P Require Import Prelude CppString Net Events WorkQueue Threads ClientSession Client.
Open Scope prog_scope.

Definition newline : string := String "010" "".
Definition cout (text : string) : CLI unit := pemit (ByApp (Cout text)).
Definition cerr (text : string) : CLI unit := pemit (ByApp (Cerr text)).

(** ** The callbacks *)

Definition on_connect : CLI unit := cout ("connected" +:+ newline).
Definition on_disconnect : CLI unit := cout ("disconnected" +:+ newline).
Definition on_message (message : string) : CLI unit :=
  cout ("received text: " +:+ message +:+ newline).
Definition on_content (content : list byte) : CLI unit :=
  cout ("received binary: " +:+ to_string (Z.of_nat (length content)) +:+ " bytes" +:+ newline).

Definition echo_client_app : application := mkApplication (λ _, Returns) (λ c,
  match c with
  | CallConnect _ => on_connect
  | CallDisconnect _ => on_disconnect
  | CallMessage _ m => on_message m
  | CallContent _ b => on_content b
  end).

#[export] Instance echo_client_behaves : Behaves echo_client_app.
Proof. intros []; apply cl_effect. Qed.

(** ** [main] *)

(** [args] are the arguments after the program's name. *)
Definition client_args (args : list string) : res (string * Z * string) :=
  let host := default "127.0.0.1" (args !! 0) in
  port ← match args !! 1 with Some a => stoul a | None => Ok 8080%Z end;
  Ok (host, port, default "/" (args !! 2)).

Definition hello : string := "hello over websocket".
Definition four_bytes : list byte := [Byte.xde; Byte.xad; Byte.xbe; Byte.xef].

(** The client is made, so it is destroyed, after the arguments have been read.
    [promise] and [found] are the future of [Connect] and what waiting for it finds. *)
Definition main (promise : nat) (found : future_status) (args : list string) : CLI Z :=
  '(host, port, resource) <- Done (client_args args) ;;
  client_RegisterConnectCallback (Some 0) ;;
  client_RegisterDisconnectCallback (Some 1) ;;
  client_RegisterMessageCallback (Some 2) ;;
  client_RegisterContentCallback (Some 3) ;;
  connected <- client_Connect promise host port resource found ;;
  if negb connected then
    cerr ("failed to connect to " +:+ host +:+ ":" +:+ to_string port +:+ resource +:+ newline) ;;
    CWebsocketClient_delete ;; pret 1%Z
  else
    SendMessage hello ;;
    SendContent four_bytes ;;
    pemit (ByApp (SleepMs 2000)) ;;
    client_Close ;;
    pemit (ByApp (SleepMs 250)) ;;
    CWebsocketClient_delete ;; pret 0%Z.

(** ** What the other threads do meanwhile *)

Definition echo_client : CImpl := CWebsocketClient_new_name "echo_client".

Definition meanwhile (s s' : CImpl) : Prop :=
  mName s' = mName s ∧ mSettings s' = mSettings s ∧ mSessionSettings s' = mSessionSettings s
  ∧ mShutdown s' = mShutdown s ∧ mHandshakeHeaders s' = mHandshakeHeaders s
  ∧ mOnConnect s' = mOnConnect s ∧ mOnDisconnect s' = mOnDisconnect s
  ∧ mOnMessage s' = mOnMessage s ∧ mOnContent s' = mOnContent s
  ∧ mSessionCount s' = mSessionCount s
  ∧ (mSession s' = mSession s ∨ mSession s' = None).

#[export] Instance meanwhile_preorder : PreOrder meanwhile.
Proof.
  split; unfold meanwhile; [by intros s; auto 15|].
  intros s1 s2 s3 (?&?&?&?&?&?&?&?&?&?&Hx1) (?&?&?&?&?&?&?&?&?&?&Hx2).
  split_and!; try congruence. destruct Hx1, Hx2; [left; congruence|by right|right; congruence|by right].
Qed.

(** A program whose every section is one of those changes. *)
Definition meanwhile_only {A} (p : CLI A) : Prop := ∀ s0, keeps (meanwhile s0) (λ _, True) p.

Lemma meanwhile_step {A} (f : CImpl → A * CImpl) :
  (∀ s, meanwhile s (f s).2) → meanwhile_only (locked f).
Proof. intros Hf s0. apply keeps_locked. intros s Hs. etrans; [done|apply Hf]. Qed.

Lemma meanwhile_bind {A B} (p : CLI A) (k : A → CLI B) :
  meanwhile_only p → (∀ a, meanwhile_only (k a)) → meanwhile_only (pbind p k).
Proof. intros Hp Hk s0. apply keeps_bind; [apply Hp|intros a; apply Hk]. Qed.

(** The worker, the events of the sessions, the end of a connect attempt, and the flag
    [IsOpen] of a session. *)
Lemma others_meanwhile :
  meanwhile_only (worker_round echo_client_app)
  ∧ (∀ m, meanwhile_only (OnSessionMessage m)) ∧ (∀ b, meanwhile_only (OnSessionContent b))
  ∧ meanwhile_only OnSessionDisconnect ∧ (∀ m, meanwhile_only (LogSessionError m))
  ∧ (∀ alive n promise ok, meanwhile_only (ConnectCompleted alive n promise ok))
  ∧ (∀ s o, meanwhile s (set_mOpenSessions o s)).
Proof.
  assert (Hpost : ∀ cb t, meanwhile_only (post_callback cb t)).
  { intros cb t. apply meanwhile_bind; [apply meanwhile_step; intros s; reflexivity|].
    intros [c|]; [|done]. intros s0. split; [done|]. apply meanwhile_step.
    intros s. repeat split; auto. }
  split_and!; try (intros; apply Hpost).
  - apply meanwhile_bind; [apply meanwhile_step|].
    + intros s. destruct (Run_locked (mWorkQueue s)); [by repeat split; auto..].
    + intros [t|]; [|done]. intros s0. by destruct t.
  - intros m s0. apply keeps_read. done.
  - intros alive n promise ok. apply meanwhile_bind.
    + destruct alive, ok; try done; try apply Hpost. apply meanwhile_bind; [|intros; apply Hpost].
      apply meanwhile_step. intros s. cbn. case_bool_decide; repeat split; auto.
    + intros _. by destruct promise.
  - intros s o. repeat split; auto.
Qed.

(** ** What [main] does among them *)

Definition not_connected : client_op :=
  Stderr (log_line "echo_client" "Cannot send: not connected").

(** The client after [Connect]: its only session is number 0. *)
Definition attached (s : CImpl) : Prop :=
  mName s = "echo_client" ∧ mSettings s = default_client_settings ∧ mShutdown s = false
  ∧ (mSession s = Some 0 ∨ mSession s = None).

Lemma attached_meanwhile s s' : meanwhile s s' → attached s → attached s'.
Proof.
  intros (Hn&Hs&_&Hd&_&_&_&_&_&_&Hc) (?&?&?&Ha). unfold attached. rewrite Hn, Hs, Hd.
  split_and!; [done..|]. destruct Hc as [->| ->]; [done|by right].
Qed.

(** The moments of [main]: the clients its sections find, and what it does. *)
Notation moments := (list (moment CImpl client_op)).

(** Handing a message over: to session 0, if a section finds it current and the next finds
    it open; else a log line. *)
Definition sends (m : SOutgoingMessage) (w : moments) : Prop :=
  (∃ s1 s2, w = [Saw s1; Saw s2; Did (SessionSend 0 m)]
     ∧ mSession s1 = Some 0 ∧ session_open s2 0 = true)
  ∨ (∃ s1 s2 s3, w = [Saw s1; Saw s2; Saw s3; Did not_connected]
     ∧ mSession s1 = Some 0 ∧ session_open s2 0 = false)
  ∨ (∃ s1 s2, w = [Saw s1; Saw s2; Did not_connected] ∧ mSession s1 = None).

(** Closing: session 0, exactly if a section finds it current. *)
Definition closes (w : moments) : Prop :=
  ∃ s, (w = [Saw s; Did (SessionClose 0)] ∧ mSession s = Some 0) ∨ (w = [Saw s] ∧ mSession s = None).

(** Destroying the client: it is marked, its session is closed, its queue stopped. *)
Definition destroys (w : moments) : Prop :=
  ∃ s1 w1 s2, w = Saw s1 :: w1 ++ [Saw s2] ∧ mShutdown s1 = false ∧ closes w1.

Lemma among_send m s r w s1 :
  attached s → among meanwhile (Send m) s r w s1 → r = Ok tt ∧ sends m w ∧ attached s1.
Proof.
  assert (Hlog : ∀ s r w s1, attached s →
    among meanwhile (LogError "Cannot send: not connected") s r w s1 →
    r = Ok tt ∧ (∃ s', w = [Saw s'; Did not_connected]) ∧ attached s1).
  { clear. intros s r w s1 Hs (s' & ? & Hm & -> & w' & -> & -> & -> & ->).
    pose proof (attached_meanwhile _ _ Hm Hs) as Hs'. split_and!; [done| |done].
    exists s'. cbn. by destruct Hs' as (->&_). }
  intros Hs (s' & w1 & Hm & -> & Hy). pose proof (attached_meanwhile _ _ Hm Hs) as Hs'.
  assert (Hx0 : ∀ x, mSession s' = Some x → x = 0) by (intros x; destruct Hs' as (_&_&_&[->| ->]); congruence).
  cbn in Hy. destruct (mSession s') as [x|] eqn:Hx.
  2: { apply Hlog in Hy as (-> & [s2 ->] & ?); [|done]. split_and!; [done| |done]. right; right. eauto. }
  rewrite (Hx0 x eq_refl) in Hx, Hy. clear Hx0.
  destruct Hy as (s2 & w2 & Hm2 & -> & Hy). pose proof (attached_meanwhile _ _ Hm2 Hs') as Hs2.
  cbn in Hy. destruct (session_open s2 0) eqn:Ho.
  - destruct Hy as (w' & -> & -> & -> & ->). split_and!; [done| |done]. left. eauto.
  - apply Hlog in Hy as (-> & [s3 ->] & ?); [|done]. split_and!; [done| |done]. right; left. eauto 10.
Qed.

Lemma among_close s r w s1 :
  attached s → among meanwhile Close s r w s1 → r = Ok tt ∧ closes w ∧ attached s1.
Proof.
  intros Hs (s' & w1 & Hm & -> & Hy). pose proof (attached_meanwhile _ _ Hm Hs) as Hs'. cbn in Hy.
  destruct (mSession s') as [x|] eqn:Hx.
  - destruct Hy as (w' & -> & -> & -> & ->). split_and!; [done| |done]. exists s'. left.
    destruct Hs' as (_&_&_&[?|?]); simplify_eq; split; congruence.
  - destruct Hy as (-> & -> & ->). split_and!; [done| |done]. exists s'. by right.
Qed.

Lemma among_delete s r w s1 :
  attached s → among meanwhile CWebsocketClient_delete s r w s1 →
  r = Ok tt ∧ destroys w ∧ mShutdown s1 = true ∧ mStopped (mWorkQueue s1) = true.
Proof.
  intros Hs (s2 & w2 & Hm2 & -> & Hy). pose proof (attached_meanwhile _ _ Hm2 Hs) as Hs2. cbn in Hy.
  destruct Hs2 as (_&_&Hd&Hc). rewrite Hd in Hy. cbn in Hy.
  destruct Hy as (s3 & w3 & Hm3 & -> & Hy).
  assert (Hc3 : mShutdown s3 = true ∧ (mSession s3 = Some 0 ∨ mSession s3 = None)).
  { destruct Hm3 as (_&_&_&Hsd&_&_&_&_&_&_&Hc3). cbn in Hsd, Hc3. split; [done|].
    destruct Hc3 as [->| ->]; [done|by right]. }
  destruct Hc3 as [Hd3 Hc3].
  assert (Hrest : ∀ w s4, among meanwhile
      (locked (λ s, (tt, set_mWorkQueue (WorkQueue.Stop_locked (mWorkQueue s)).2 s)) : CLI unit)
      (set_mSession None s3) r w s4 →
    r = Ok tt ∧ (∃ s5, w = [Saw s5]) ∧ mShutdown s4 = true ∧ mStopped (mWorkQueue s4) = true).
  { intros w' s4 (s5 & w5 & Hm5 & -> & -> & -> & ->). split_and!; [done|by exists s5| |].
    - destruct Hm5 as (_&_&_&Hsd&_). cbn in *. congruence.
    - cbn. unfold WorkQueue.Stop_locked. by destruct (mStopped (mWorkQueue s5)) eqn:E. }
  cbn in Hy. destruct (mSession s3) as [x|] eqn:Hx.
  - destruct Hy as (w' & -> & Hy). apply Hrest in Hy as (-> & [s5 ->] & ? & ?).
    split_and!; [done| |done..]. exists s2, [Saw s3; Did (SessionClose x)], s5.
    split_and!; [done|done|]. exists s3. left. destruct Hc3; split; congruence.
  - apply Hrest in Hy as (-> & [s5 ->] & ? & ?). split_and!; [done| |done..].
    exists s2, [Saw s3], s5. split_and!; [done|done|]. exists s3. by right.
Qed.

(** What [Connect] does with the host it is given. *)
Definition attempt (promise : nat) (found : future_status) (host : string) (port : Z)
    (resource : string) : list client_op :=
  [NewSession 0 PlainSession default_client_settings;
   SessionConnect 0 (host_or_default host) port resource ∅ (Some promise);
   Wait promise (Some 95%Z) found]
  ++ match found with
     | TimedOut => [Stderr (log_line "echo_client" "Connect timed out")]
     | Ready _ => []
     end.

(** The client before [Connect]. *)
Definition unconnected (s : CImpl) : Prop :=
  mName s = "echo_client" ∧ mSettings s = default_client_settings
  ∧ mSessionSettings s = default_client_settings ∧ mShutdown s = false ∧ mSession s = None
  ∧ mSessionCount s = 0 ∧ mHandshakeHeaders s = ∅.

Lemma unconnected_meanwhile s s' : meanwhile s s' → unconnected s → unconnected s'.
Proof.
  intros (Hn&Hs&Hs'&Hd&Hh&_&_&_&_&Hc&Hss) (?&?&?&?&Hx&?&?). unfold unconnected.
  rewrite Hn, Hs, Hs', Hd, Hh, Hc. split_and!; [done..| |done|done].
  destruct Hss as [->| ->]; done.
Qed.

Lemma among_connect promise found host port resource s r w s1 :
  unconnected s → among meanwhile (client_Connect promise host port resource found) s r w s1 →
  r = Ok (future_get found) ∧ effects w = attempt promise found host port resource ∧ attached s1.
Proof.
  intros Hs (s2 & ? & Hm2 & -> & Hy). pose proof (unconnected_meanwhile _ _ Hm2 Hs) as Hs2.
  cbn in Hy. rewrite (proj1 (proj2 (proj2 (proj2 Hs2)))) in Hy. cbn in Hy.
  destruct Hy as (s3 & ? & Hm3 & -> & Hy). pose proof (unconnected_meanwhile _ _ Hm3 Hs2) as Hs3.
  destruct Hy as (s4 & ? & Hm4 & -> & Hy). pose proof (unconnected_meanwhile _ _ Hm4 Hs3) as Hs4.
  destruct Hs3 as (_&_&_&_&_&_&Hh3), Hs4 as (Hn&He&Hf&Hd&Hx&Hc&_).
  cbn in Hy. rewrite Hh3, He, Hf, Hc in Hy. cbn in Hy.
  destruct Hy as (w1 & -> & s5 & ? & Hm5 & -> & Hy).
  assert (Hx5 : mSession s5 = None).
  { destruct Hm5 as (_&_&_&_&_&_&_&_&_&_&Hx5). cbn in Hx5. destruct Hx5; congruence. }
  rewrite Hx5 in Hy. cbn in Hy. destruct Hy as (w2 & -> & s6 & ? & Hm6 & -> & Hy).
  assert (Hs6 : attached s6).
  { apply (attached_meanwhile _ _ Hm6). destruct Hm5 as (Hn5&He5&_&Hd5&_).
    cbn in Hn5, He5, Hd5. split_and!; cbn; [congruence..|by left]. }
  cbn in Hy. rewrite (proj1 (proj2 Hs6)) in Hy. cbn in Hy. destruct Hy as (w3 & -> & Hy).
  unfold attempt. destruct found as [v|].
  - destruct Hy as (-> & -> & ->). by destruct Hs6.
  - destruct Hy as (s7 & ? & Hm7 & -> & w4 & -> & -> & -> & ->).
    pose proof (attached_meanwhile _ _ Hm7 Hs6) as Hs7. split_and!; [done| |done].
    cbn. by rewrite (proj1 Hs7).
Qed.

(** C27. What [main] does, whatever the sessions, the worker and the connect handler do
    meanwhile ([others_meanwhile]).  A port that is no number ends it with the exception of
    [stoul], before there is a client.  Else one session is made and asked to connect; if
    that did not succeed this is reported and the exit code is 1, with nothing sent; if it
    did, the text and then the bytes are handed to that session, each exactly if it is found
    to be the current one and open (else a log line says so), it is closed exactly if it is
    still the current one, and the exit code is 0.  Whenever [main] returns, its client has
    been shut down, once, which closed the session it found. *)
Theorem echo_client_main promise found args r w s :
  among meanwhile (main promise found args) echo_client r w s →
  match client_args args with
  | Throw f => r = Throw f ∧ w = [] ∧ s = echo_client
  | Ok (host, port, resource) =>
      mShutdown s = true ∧ mStopped (mWorkQueue s) = true
      ∧ ∃ before rest gone, w = before ++ rest ++ gone
        ∧ effects before = attempt promise found host port resource ∧ destroys gone
        ∧ if future_get found then
            r = Ok 0%Z ∧ ∃ text bytes closed,
              rest = text ++ bytes ++ [Did (ByApp (SleepMs 2000))] ++ closed
                     ++ [Did (ByApp (SleepMs 250))]
              ∧ sends (mkOutgoing true hello None) text
              ∧ sends (mkOutgoing false "" (Some four_bytes)) bytes ∧ closes closed
          else
            r = Ok 1%Z ∧ rest = [Did (ByApp (Cerr ("failed to connect to " +:+ host +:+ ":"
                                   +:+ to_string port +:+ resource +:+ newline)))]
  end.
Proof.
  intros Hy. unfold main in Hy. destruct (client_args args) as [[[host port] resource]|f].
  2: { destruct Hy as (-> & -> & ->). done. }
  destruct Hy as (s1 & ? & H1 & -> & s2 & ? & H2 & -> & s3 & ? & H3 & -> & s4 & ? & H4 & -> & Hy).
  assert (Hs : unconnected (set_callbacks (mOnConnect s4) (mOnDisconnect s4) (mOnMessage s4) (Some 3) s4)).
  { apply (unconnected_meanwhile _ _ H4), (unconnected_meanwhile _ _ H3),
      (unconnected_meanwhile _ _ H2), (unconnected_meanwhile _ _ H1). done. }
  revert Hs Hy. cbn [snd fst]. generalize (set_callbacks (mOnConnect s4) (mOnDisconnect s4) (mOnMessage s4) (Some 3) s4).
  intros s0 Hs Hy.
  apply (among_then _ _ _ _ _ _ _ _ _ (λ r w s1, among_connect _ _ _ _ _ _ r w s1 Hs)) in Hy.
  destruct Hy as (w1 & w2 & s5 & -> & [Hw1 Hs5] & Hy). destruct (future_get found); cbn [negb] in Hy.
  - apply (among_then _ _ _ _ _ _ _ _ _ (λ r w s1, among_send _ _ r w s1 Hs5)) in Hy.
    destruct Hy as (text & w3 & s6 & -> & [Htext Hs6] & Hy).
    apply (among_then _ _ _ _ _ _ _ _ _ (λ r w s1, among_send _ _ r w s1 Hs6)) in Hy.
    destruct Hy as (bytes & w4 & s7 & -> & [Hbytes Hs7] & Hy). destruct Hy as (w5 & -> & Hy).
    apply (among_then _ _ _ _ _ _ _ _ _ (λ r w s1, among_close _ r w s1 Hs7)) in Hy.
    destruct Hy as (closed & w6 & s8 & -> & [Hclosed Hs8] & Hy). destruct Hy as (w7 & -> & Hy).
    apply (among_then _ _ _ _ _ _ _ _ _ (λ r w s1, among_delete _ r w s1 Hs8)) in Hy.
    destruct Hy as (gone & w8 & s9 & -> & (Hgone & ? & ?) & -> & -> & ->). split_and!; [done..|].
    eexists (Saw s1 :: Saw s2 :: Saw s3 :: Saw s4 :: w1), (text ++ bytes ++ [_] ++ closed ++ [_]), gone.
    split_and!; [|exact Hw1|done|done|by eauto 10].
    by rewrite app_nil_r, <- !app_assoc.
  - destruct Hy as (w5 & -> & Hy).
    apply (among_then _ _ _ _ _ _ _ _ _ (λ r w s1, among_delete _ r w s1 Hs5)) in Hy.
    destruct Hy as (gone & w8 & s9 & -> & (Hgone & ? & ?) & -> & -> & ->). split_and!; [done..|].
    eexists (Saw s1 :: Saw s2 :: Saw s3 :: Saw s4 :: w1), [_], gone. split_and!; [|exact Hw1|done..].
    by rewrite app_nil_r.
Qed.

(** A run in which the session is open when the text is sent, and is not any more when the
    bytes are. *)
Definition demo_between : list (CImpl → CImpl) :=
  replicate 10 id ++ [set_mOpenSessions {[0]}; id; set_mOpenSessions ∅].

Definition demo_run : res Z * CImpl * moments :=
  play (main 7 (Ready (Some true)) [""; "9000"]) demo_between echo_client.

Lemma echo_client_main_witness :
  demo_run.1.1 = Ok 0%Z
  ∧ effects demo_run.2
    = attempt 7 (Ready (Some true)) "" 9000 "/"
      ++ [SessionSend 0 (mkOutgoing true hello None); not_connected;
          ByApp (SleepMs 2000); SessionClose 0; ByApp (SleepMs 250); SessionClose 0]
  ∧ among meanwhile (main 7 (Ready (Some true)) [""; "9000"]) echo_client (Ok 0%Z)
      demo_run.2 demo_run.1.2
  ∧ mShutdown demo_run.1.2 = true.
Proof.
  split; [by vm_compute|]. split; [by vm_compute|].
  assert (Ha : among meanwhile (main 7 (Ready (Some true)) [""; "9000"]) echo_client (Ok 0%Z)
                 demo_run.2 demo_run.1.2).
  { apply (play_among _ _ demo_between); [intros s; reflexivity| |by vm_compute].
    apply Forall_app. split; [apply Forall_replicate; intros s; reflexivity|].
    repeat (apply Forall_cons; split); [..|constructor]; intros s; by split_and!; try left. }
  split; [done|]. exact (proj1 (echo_client_main _ _ _ _ _ _ Ha)).
Defined.
