(* ===== verification/ClientSystem.v ===== *)
(** * The client with its connections

    A client, the threads that call it, and the sessions it has created, each on its own
    strand.  Threads interleave at every critical section and every effect; what they call
    on a session is posted to its strand at that moment.  A handler of a session runs to
    its end, with the calls it makes of the client, while the threads are between steps.

    The client may go away at any time ([ClGone]): what its sessions hold is weak, so they
    live on.  Threads that are inside its member functions go on too.

    The connect handler that a session stores is [ConnectCompleted], with the session and
    the promise it captured.  It is the last call a session's handler makes of the client,
    so it is run after the handler. *)

From S2P Require Import Prelude CppString Net Events WorkQueue Threads.
From S2P Require Import ClientSession ClientSteps Client.
Open Scope prog_scope.

(** ** The system *)

(** A session object; [se_promise] is what [AsyncConnect] was given: nothing yet, or a
    connect handler with or without a promise to set. *)
Record client_session := mkCSess {
  se_ssl : bool;
  se_promise : option (option nat);
  se_rt : cs_rt client_world
}.

Record client_system := mkClientSystem {
  cl_client : config CImpl client_op;
  cl_alive : bool;
  cl_sessions : gmap nat client_session
}.

Definition fresh_session (kind : session_kind) (settings : CClientSettings) : client_session :=
  mkCSess (match kind with SslSession _ => true | PlainSession => false end) None
    (mkCsRt (new_session settings) None [] [] 0 true [] 0 false None [] [] []).

Definition post_to (t : cs_task) (se : client_session) : client_session :=
  mkCSess (se_ssl se) (se_promise se) (cs_apply (OpPost t) (se_rt se)).

Definition connect_to (t : cs_task) (promise : option nat) (se : client_session)
    : client_session :=
  mkCSess (se_ssl se) (Some promise) (cs_apply (OpPost t) (se_rt se)).

(** What the client does to its sessions. *)
Definition deliver_op (ss : gmap nat client_session) (o : client_op) : gmap nat client_session :=
  match o with
  | NewSession x kind settings => <[x := fresh_session kind settings]> ss
  | SessionConnect x host port resource headers promise =>
      alter (connect_to (TaskConnect host port resource headers (Some x)) promise) x ss
  | SessionSend x m => alter (post_to (TaskSend m)) x ss
  | SessionClose x => alter (post_to TaskClose) x ss
  | _ => ss
  end.

Definition deliver (ops : list client_op) (ss : gmap nat client_session) :=
  foldl deliver_op ss ops.

(** [mEvents.lock()] finds this client. *)
Definition set_cli (v : option client_world) (r : cs_rt client_world) : cs_rt client_world :=
  let '(mkCsRt s _ t g rd tx w c fl ft ev wi ac) := r in
  mkCsRt s v t g rd tx w c fl ft ev wi ac.

(** The connect handler of session [x], called with each of [bs]. *)
Definition complete (alive : bool) (x : nat) (promise : option nat) (bs : list bool)
    (w : client_world) : client_world :=
  foldl (λ w b, (on_client (ConnectCompleted alive x promise b) w).2) w bs.

(** [IsOpen] of session [x] is [b] now. *)
Definition note_open (x : nat) (b : bool) (s : CImpl) : CImpl :=
  set_mOpenSessions (if b then {[x]} ∪ mOpenSessions s else mOpenSessions s ∖ {[x]}) s.

Inductive cl_label :=
  | ClThread (l : sched CImpl client_op)   (** a thread is started, or takes a step *)
  | ClSession (x : nat) (l : cs_label (Cli:=client_world))
  | ClGone.                                (** the last reference to the client is dropped *)

Definition is_set (p : nat) (b : bool) (o : client_op) : bool :=
  match o with SetPromise p' b' => bool_decide (p = p') && Bool.eqb b b' | _ => false end.

(** How often [p] was set to [b]. *)
Definition promise_sets (p : nat) (b : bool) (tr : list client_op) : nat :=
  length (List.filter (is_set p b) tr).
#[local] Arguments promise_sets : simpl never.

(** When a thread can find what: a value once it has been set, the timeout when there is
    one; a promise may be lost with its session at any time. *)
Definition finds (tr : list client_op) (o : client_op) : bool :=
  match o with
  | Wait p sec (Ready (Some b)) => negb (Nat.eqb (promise_sets p b tr) 0)
  | Wait _ sec TimedOut => bool_decide (is_Some sec)
  | _ => true
  end.

Definition cl_exec (l : cl_label) (st : client_system) : option client_system :=
  let '(mkClientSystem c alive ss) := st in
  match l with
  | ClThread l =>
      c' ← exec_sched l c;
      let new := drop (length (trace c)) (trace c') in
      if forallb (finds (trace c)) new then Some (mkClientSystem c' alive (deliver new ss)) else None
  | ClSession x l =>
      se ← ss !! x;
      let w : client_world := (shared c, []) in
      let r := set_cli (if alive then Some w else None) (se_rt se) in
      r' ← cs_exec (se_ssl se) l r;
      let new := drop (length (cs_events r)) (cs_events r') in
      let w' := complete alive x (default None (se_promise se)) (completions new)
                  (default w (cs_cli r')) in
      Some (mkClientSystem
              (mkConfig (note_open x (mOpen (cs_session r')) w'.1) (pool c) (trace c ++ w'.2))
              alive (deliver w'.2 (<[x := mkCSess (se_ssl se) (se_promise se) r']> ss)))
  | ClGone => Some (mkClientSystem c false ss)
  end.

Section System.
Context (app : application) {Hbehaves : Behaves app}.

(** What threads run: what the application calls, and the rounds of the worker. *)
Inductive client_thread : CLI unit → Prop :=
  | ct_worker : client_thread (worker_round app)
  | ct_api p : client_api p → client_thread p.

Definition cl_ok (l : cl_label) : Prop :=
  match l with
  | ClThread l => sched_ok client_thread l
  | ClSession _ l => cs_own_label l = true
  | ClGone => True
  end.

Definition cl_step (st st' : client_system) : Prop := ∃ l, cl_ok l ∧ cl_exec l st = Some st'.

Definition cl_init (name : string) (settings : CClientSettings) : client_system :=
  mkClientSystem (mkConfig (CWebsocketClient_new name settings) [] []) true ∅.

Definition cl_reachable (name : string) (settings : CClientSettings) (st : client_system)
    : Prop := star cl_step (cl_init name settings) st.

Fixpoint cl_exec_all (ls : list cl_label) (st : client_system) : option client_system :=
  match ls with
  | [] => Some st
  | l :: ls' => st' ← cl_exec l st; cl_exec_all ls' st'
  end.

(** ** What a thread is doing about a session of its own *)

(** Between [CreateSession] and [AsyncConnect] a thread owns a session: its number is
    taken, the object exists, it is the current session. *)
Inductive phase := Idle | Made (x : nat) | Created (x : nat) | Installed (x : nat).

Definition owned (t : phase) : option nat :=
  match t with Idle => None | Made x | Created x | Installed x => Some x end.

(** The critical sections of the client; the thread closes what it takes out of
    [mSession]. *)
Inductive section_ok (closes : nat → Prop) : phase → phase → CImpl → CImpl → Prop :=
  | so_quiet t s s' :
      mSession s' = mSession s → mSessionCount s' = mSessionCount s →
      mOpenSessions s' = mOpenSessions s → section_ok closes t t s s'
  | so_drop t s s' :
      mSession s' = None → mSessionCount s' = mSessionCount s →
      mOpenSessions s' = mOpenSessions s → (∀ x, mSession s = Some x → closes x) →
      section_ok closes t t s s'
  | so_make s s' :
      mSession s' = mSession s → mSessionCount s' = S (mSessionCount s) →
      mOpenSessions s' = mOpenSessions s → section_ok closes Idle (Made (mSessionCount s)) s s'
  | so_install x s s' :
      mSession s' = Some x → mSessionCount s' = mSessionCount s →
      mOpenSessions s' = mOpenSessions s → (∀ y, mSession s = Some y → closes y) →
      section_ok closes (Created x) (Installed x) s s'.

Inductive effect_ok : phase → client_op → phase → Prop :=
  | eo_new x kind st : effect_ok (Made x) (NewSession x kind st) (Created x)
  | eo_connect x h p r hd pr : effect_ok (Installed x) (SessionConnect x h p r hd pr) Idle
  | eo_send t x m : out_ok m = true → effect_ok t (SessionSend x m) t
  | eo_close t x : effect_ok t (SessionClose x) t
  | eo_wait t p n f : effect_ok t (Wait p n f) t
  | eo_invoked t c : effect_ok t (Invoked c) t
  | eo_posted t k : effect_ok t (Posted k) t
  | eo_stderr t m : effect_ok t (Stderr m) t
  | eo_app t a : effect_ok t (ByApp a) t.

Fixpoint orderly {A} (t : phase) (p : CLI A) : Prop :=
  match p with
  | Done _ => t = Idle
  | Atomic upd next =>
      ∀ s, ∃ t', section_ok (λ x, will_emit (SessionClose x) (next s)) t t' s (upd s)
                 ∧ orderly t' (next s)
  | Emit e p => ∃ t', effect_ok t e t' ∧ orderly t' p
  end.

Lemma section_ok_mono (P Q : nat → Prop) t t' s s' :
  (∀ x, P x → Q x) → section_ok P t t' s s' → section_ok Q t t' s s'.
Proof.
  intros HPQ []; [by apply so_quiet|apply so_drop|by apply so_make|apply so_install]; eauto.
Qed.

Lemma orderly_bind {A B} t (p : CLI A) (k : A → CLI B) :
  orderly t p → (∀ a, orderly Idle (k a)) → orderly t (pbind p k).
Proof.
  intros Hp Hk. revert t Hp. induction p as [[a|f]|upd next IH|e p IH]; intros t Hp; cbn in *.
  - subst. apply Hk.
  - done.
  - intros s. destruct (Hp s) as (t' & Hs & Ho). exists t'. split; [|by apply IH].
    eapply section_ok_mono; [|exact Hs]. intros x. apply will_emit_bind_l.
  - destruct Hp as (t' & ? & ?). eauto.
Qed.

Lemma orderly_locked {A} (f : CImpl → A * CImpl) :
  (∀ s, mSession (f s).2 = mSession s ∧ mSessionCount (f s).2 = mSessionCount s
        ∧ mOpenSessions (f s).2 = mOpenSessions s) → orderly Idle (locked f).
Proof. intros Hf s. exists Idle. destruct (Hf s) as (? & ? & ?). by split; [constructor|]. Qed.

Lemma orderly_gets {A} (f : CImpl → A) : orderly Idle (pgets f).
Proof. by apply orderly_locked. Qed.

Lemma orderly_emit o : effect_ok Idle o Idle → orderly Idle (pemit o).
Proof. intros Ho. by exists Idle. Qed.

Lemma orderly_LogError m : orderly Idle (LogError m).
Proof. apply orderly_bind; [apply orderly_gets|]. intros n. apply orderly_emit. constructor. Qed.

Lemma orderly_catch {A} t (p : CLI A) h :
  orderly t p → (∀ f, orderly Idle (h f)) → orderly t (pcatch p h).
Proof.
  intros Hp Hh. revert t Hp. induction p as [[a|f]|upd next IH|e p IH]; intros t Hp; cbn in *.
  - done.
  - subst. apply Hh.
  - intros s. destruct (Hp s) as (t' & Hs & Ho). exists t'. split; [|by apply IH].
    eapply section_ok_mono; [|exact Hs]. intros x. apply will_emit_catch.
  - destruct Hp as (t' & ? & ?). eauto.
Qed.

Lemma orderly_InvokeCallback c :
  orderly Idle (cb_body app c) → orderly Idle (InvokeCallback app c).
Proof.
  intros Hbody. apply orderly_bind; [apply orderly_emit; constructor|]. intros _.
  apply orderly_bind; [by apply orderly_catch|]. intros _.
  destruct (app c); [done|apply orderly_LogError..].
Qed.

Lemma orderly_DoConnect host port resource promise :
  orderly Idle (DoConnect host port resource promise).
Proof.
  unfold DoConnect, CreateSession. apply orderly_bind; [apply orderly_gets|]. intros headers.
  cbn. intros s. exists (Made (mSessionCount s)). split; [by constructor|].
  exists (Created (mSessionCount s)). split; [constructor|].
  intros s1. exists (Installed (mSessionCount s)). split.
  - constructor; try done. intros y ->. by left.
  - destruct (mSession s1); cbn; [eexists; split; [constructor|]|];
      (eexists; split; [constructor|done]).
Qed.

Lemma orderly_Shutdown : orderly Idle Shutdown.
Proof.
  apply orderly_bind; [by apply orderly_locked|]. intros []; [|done].
  cbn. intros s. exists Idle. split.
  - apply so_drop; try done. intros x ->. by left.
  - destruct (mSession s); cbn; [eexists; split; [constructor|]|];
      intros s1; exists Idle; by split; [constructor|].
Qed.

Lemma client_api_orderly {A} (p : CLI A) : client_api p → orderly Idle p.
Proof.
  induction 1; auto using orderly_bind, orderly_catch; try done; try by apply orderly_locked.
  - apply orderly_bind; [apply orderly_gets|]. intros []; [done|].
    apply orderly_bind; [apply orderly_DoConnect|]. intros _.
    apply orderly_bind; [apply orderly_gets|]. intros st.
    destruct (Z.eqb _ 0); apply orderly_bind; try (apply orderly_emit; constructor); intros _; [done|].
    destruct found; [done|]. apply orderly_bind; [apply orderly_LogError|done].
  - apply orderly_bind; [apply orderly_gets|]. intros []; [done|apply orderly_DoConnect].
  - apply orderly_bind; [apply orderly_gets|]. intros [x|]; [|done].
    apply orderly_emit. constructor.
  - apply orderly_bind; [apply orderly_gets|]. intros [x|]; [|apply orderly_LogError].
    apply orderly_bind; [apply orderly_gets|]. intros []; cbn [negb]; [|apply orderly_LogError].
    apply orderly_emit. by constructor.
  - apply orderly_Shutdown.
  - apply orderly_emit. constructor.
Qed.

Lemma client_thread_orderly p : client_thread p → orderly Idle p.
Proof using Hbehaves.
  intros [|q Hq]; [|by apply client_api_orderly].
  apply orderly_bind.
  - apply orderly_locked. intros s. by destruct (Run_locked (mWorkQueue s)).
  - intros [t|]; [|done]. by apply orderly_InvokeCallback, client_api_orderly, behaves.
Qed.

(** ** The invariant *)

Definition linked (s : CImpl) (ps : list (CLI unit)) (x : nat) (r : cs_rt client_world) : Prop :=
  mSession s = Some x ∨ cs_closing r ∨ ∃ p, p ∈ ps ∧ will_emit (SessionClose x) p.

Definition session_inv (x : nat) (se : client_session) : Prop :=
  match se_promise se with
  | None => idle (ClientSession.mSettings (cs_session (se_rt se))) (se_rt se)
  | Some _ => cs_inv (ClientSession.mSettings (cs_session (se_rt se))) x (se_rt se)
  end.

Definition phase_ok (s : CImpl) (ps : list (CLI unit)) (ss : gmap nat client_session)
    (t : phase) : Prop :=
  match t with
  | Idle => True
  | Made x => x < mSessionCount s ∧ ss !! x = None
  | Created x => ∃ se, ss !! x = Some se ∧ se_promise se = None
  | Installed x => ∃ se, ss !! x = Some se ∧ se_promise se = None ∧ linked s ps x (se_rt se)
  end.

(** The promise [p] was given to this session, which completed with [b]. *)
Definition completed_with (p : nat) (b : bool) (se : client_session) : bool :=
  bool_decide (se_promise se = Some (Some p))
  && bool_decide (completions (cs_events (se_rt se)) = [b]).

Definition completed (p : nat) (b : bool) (ss : gmap nat client_session) : gset nat :=
  dom (filter (λ '(_, se), completed_with p b se = true) ss).

#[local] Arguments completed : simpl never.

Definition one_owner (ts : list phase) : Prop :=
  ∀ (i j x : nat), ts !! i ≫= owned = Some x → ts !! j ≫= owned = Some x → i = j.

Record cl_inv (ts : list phase) (st : client_system) : Prop := {
  ci_threads : Forall2 orderly ts (pool (cl_client st));
  ci_unique : one_owner ts;
  ci_phases i t : ts !! i = Some t →
    phase_ok (shared (cl_client st)) (pool (cl_client st)) (cl_sessions st) t;
  ci_count x : is_Some (cl_sessions st !! x) → x < mSessionCount (shared (cl_client st));
  ci_current x : mSession (shared (cl_client st)) = Some x → is_Some (cl_sessions st !! x);
  ci_sessions x se : cl_sessions st !! x = Some se → session_inv x se;
  ci_links x se : cl_sessions st !! x = Some se → se_promise se ≠ None →
    cs_over (se_rt se) ∨ linked (shared (cl_client st)) (pool (cl_client st)) x (se_rt se);
  ci_open x : x ∈ mOpenSessions (shared (cl_client st)) ↔
    ∃ se, cl_sessions st !! x = Some se ∧ mOpen (cs_session (se_rt se)) = true;
  ci_promises p b : promise_sets p b (trace (cl_client st)) = size (completed p b (cl_sessions st))
}.

(** *** Counting completed sessions *)

Definition contribution (p : nat) (b : bool) (o : option client_session) : nat :=
  match o with Some se => if completed_with p b se then 1 else 0 | None => 0 end.

Lemma completed_delete p b ss x :
  size (completed p b ss) = contribution p b (ss !! x) + size (completed p b (delete x ss)).
Proof.
  unfold completed. destruct (ss !! x) as [se|] eqn:Hx; cbn; [|by rewrite delete_id].
  rewrite <-(insert_delete_id ss x se Hx) at 1. destruct (completed_with p b se) eqn:Hc.
  - rewrite map_filter_insert_True by done. rewrite dom_insert_L, size_union; [by rewrite size_singleton|].
    apply disjoint_singleton_l. rewrite not_elem_of_dom. rewrite map_lookup_filter, lookup_delete_eq. done.
  - rewrite map_filter_insert_False by congruence. by rewrite delete_delete_eq.
Qed.

Lemma completed_change p b ss x se' :
  size (completed p b (<[x := se']> ss)) + contribution p b (ss !! x)
  = size (completed p b ss) + contribution p b (Some se').
Proof.
  rewrite (completed_delete p b (<[x := se']> ss) x), (completed_delete p b ss x).
  rewrite lookup_insert_eq, delete_insert_eq. lia.
Qed.

Lemma completed_keep p b ss x se' :
  contribution p b (Some se') = contribution p b (ss !! x) →
  size (completed p b (<[x := se']> ss)) = size (completed p b ss).
Proof. intros Heq. pose proof (completed_change p b ss x se'). lia. Qed.

Lemma promise_sets_app p b tr tr' :
  promise_sets p b (tr ++ tr') = promise_sets p b tr + promise_sets p b tr'.
Proof. unfold promise_sets. by rewrite List.filter_app, length_app. Qed.

(** *** Threads *)

Lemma linked_call s ps x r p : linked s ps x r → linked s (ps ++ [p]) x r.
Proof.
  intros [?|[?|(q & Hq & ?)]]; [by left|by right; left|]. right; right. exists q.
  split; [|done]. apply elem_of_app. by left.
Qed.

Lemma linked_atomic s ps i upd next t t' x r :
  ps !! i = Some (Atomic upd next) →
  section_ok (λ x, will_emit (SessionClose x) (next s)) t t' s (upd s) →
  linked s ps x r → linked (upd s) (<[i := next s]> ps) x r.
Proof.
  intros Hi Hsec [Hcur|[?|Hw]]; [|by right; left|].
  - assert (mSession (upd s) = Some x ∨ will_emit (SessionClose x) (next s)) as [?|?];
      [|by left|].
    { inversion Hsec as [? ? ? Hs|? ? ? _ _ _ Hc|? ? Hs|? ? ? _ _ _ Hc]; subst;
        [left; congruence|right; by apply Hc|left; congruence|right; by apply Hc]. }
    right; right. exists (next s). split; [|done]. apply list_elem_of_insert.
    by eapply lookup_lt_Some.
  - right; right. eapply will_emit_insert; [done| |done]. cbn. auto.
Qed.

Lemma linked_emit s ps i e p x r r' :
  ps !! i = Some (Emit e p) → (cs_closing r → cs_closing r') →
  (e = SessionClose x → cs_closing r') →
  linked s ps x r → linked s (<[i := p]> ps) x r'.
Proof.
  intros Hi Hcl Hnow [?|[?|(q & Hq & Hw)]]; [by left|by right; left; auto|].
  apply list_elem_of_lookup in Hq as [k Hk]. destruct (decide (k = i)) as [->|Hne].
  - pose proof (eq_trans (eq_sym Hk) Hi) as [= ->]. destruct Hw as [->|Hw]; [by right; left; auto|].
    right; right. exists p. split; [|done]. apply list_elem_of_insert. by eapply lookup_lt_Some.
  - right; right. exists q. split; [|done]. apply list_elem_of_lookup. exists k.
    by rewrite list_lookup_insert_ne.
Qed.

Lemma owned_lt s ps ss t x :
  (∀ x, is_Some (ss !! x) → x < mSessionCount s) → phase_ok s ps ss t → owned t = Some x →
  x < mSessionCount s.
Proof.
  intros Hc. destruct t; cbn; intros Hp ?; simplify_eq.
  - tauto.
  - destruct Hp as (se & ? & _). eauto.
  - destruct Hp as (se & ? & _). eauto.
Qed.

Lemma phase_ok_mono s s' ps ps' ss t :
  phase_ok s ps ss t → mSessionCount s ≤ mSessionCount s' →
  (∀ x r, linked s ps x r → linked s' ps' x r) → phase_ok s' ps' ss t.
Proof.
  destruct t as [|x|x|x]; cbn; intros Hp Hc Hl; [done|split; [lia|tauto]|done|].
  destruct Hp as (se & ? & ? & ?). exists se. split_and!; auto.
Qed.

Lemma unique_insert ts i t' :
  one_owner ts → (∀ j x, owned t' = Some x → ts !! j ≫= owned = Some x → j = i) →
  one_owner (<[i := t']> ts).
Proof.
  intros Hu Hn.
  assert (Hat : ∀ j x, <[i := t']> ts !! j ≫= owned = Some x →
    (j = i ∧ owned t' = Some x) ∨ (j ≠ i ∧ ts !! j ≫= owned = Some x)).
  { intros j x. destruct (<[i := t']> ts !! j) as [t|] eqn:Hj; [|done]. cbn. intros Ho.
    apply list_insert_cases in Hj as [[-> ->]|[? Hj]]; [by left|]. right. by rewrite Hj. }
  intros j k x [[-> Hj]|[Hne Hj]]%Hat [[-> Hk]|[Hne' Hk]]%Hat; [done| | |by eapply Hu].
  - symmetry. by eapply Hn.
  - by eapply Hn.
Qed.

Lemma cl_inv_call ts s ps tr alive ss p :
  orderly Idle p → cl_inv ts (mkClientSystem (mkConfig s ps tr) alive ss) →
  cl_inv (ts ++ [Idle]) (mkClientSystem (mkConfig s (ps ++ [p]) tr) alive ss).
Proof.
  intros Hp [I1 I2 I3 I4 I5 I6 I7 I8 I9]. cbn in *.
  assert (Hat : ∀ i t, (ts ++ [Idle]) !! i = Some t → ts !! i = Some t ∨ t = Idle).
  { intros i t [?|[_ Hi]]%lookup_app_Some; [by left|right].
    by apply list_lookup_singleton_Some in Hi as [_ ->]. }
  assert (Hown : ∀ i x, (ts ++ [Idle]) !! i ≫= owned = Some x → ts !! i ≫= owned = Some x).
  { intros i x. destruct ((ts ++ [Idle]) !! i) as [t|] eqn:Hi; [|done]. cbn. intros Ht.
    apply Hat in Hi as [-> | ->]; done. }
  split; cbn; try done.
  - apply Forall2_app; [done|by constructor].
  - intros i j x Hi%Hown Hj%Hown. by eapply I2.
  - intros i t [Hi| ->]%Hat; [|done].
    eapply phase_ok_mono; [by eapply I3|done|]. intros. by apply linked_call.
  - intros x se Hx Hpr. destruct (I7 x se Hx Hpr); [by left|right]. by apply linked_call.
Qed.

Lemma cl_inv_atomic ts s ps tr alive ss i upd next :
  ps !! i = Some (Atomic upd next) →
  cl_inv ts (mkClientSystem (mkConfig s ps tr) alive ss) →
  ∃ ts', cl_inv ts' (mkClientSystem (mkConfig (upd s) (<[i := next s]> ps) tr) alive ss).
Proof.
  intros Hi [I1 I2 I3 I4 I5 I6 I7 I8 I9]. cbn in *.
  destruct (Forall2_lookup_r _ _ _ _ _ I1 Hi) as (t & Ht & Hord). cbn in Hord.
  destruct (Hord s) as (t' & Hsec & Hnext). exists (<[i := t']> ts).
  pose proof (λ x r, linked_atomic s ps i upd next t t' x r Hi Hsec) as Hlink.
  assert (Hcount : mSessionCount s ≤ mSessionCount (upd s)) by (inversion Hsec; subst; lia).
  assert (Hopen : mOpenSessions (upd s) = mOpenSessions s) by (by inversion Hsec).
  pose proof (I3 i t Ht) as Hph.
  split; cbn; try done.
  - by apply Forall2_insert.
  - apply unique_insert; [done|]. intros j x Ho Hj. inversion Hsec; subst; cbn in Ho; simplify_eq.
    + eapply (I2 j i x Hj). by rewrite Ht.
    + eapply (I2 j i x Hj). by rewrite Ht.
    + exfalso. destruct (ts !! j) as [tj|] eqn:Htj; [|done].
      pose proof (owned_lt _ _ _ _ _ I4 (I3 j tj Htj) Hj). lia.
    + eapply (I2 j i x Hj). by rewrite Ht.
  - intros j tj [[-> ->]|[Hne Hj]]%list_insert_cases.
    + inversion Hsec; subst; cbn in Hph |- *; try by eapply phase_ok_mono.
      * split; [lia|]. destruct (ss !! mSessionCount s) eqn:Hs; [|done].
        specialize (I4 (mSessionCount s) ltac:(by eexists)). lia.
      * destruct Hph as (se & ? & ?). exists se. by split_and!; [..|left].
    + eapply phase_ok_mono; [by eapply I3|done|done].
  - intros x Hx. specialize (I4 x Hx). lia.
  - intros x Hx. inversion Hsec; subst; cbn in Hph; [apply I5; congruence|congruence|apply I5; congruence|].
    destruct Hph as (se & ? & _). exists se. congruence.
  - intros x se Hx Hpr. destruct (I7 x se Hx Hpr); [by left|right]. by apply Hlink.
  - intros x. by rewrite Hopen.
Qed.
(** *** Effects *)

Lemma phase_alter s s' ps ps' ss t x f :
  phase_ok s ps ss t → mSessionCount s' = mSessionCount s →
  (∀ y r, y ≠ x → linked s ps y r → linked s' ps' y r) →
  (∀ se, ss !! x = Some se → owned t = Some x →
     se_promise (f se) = None
     ∧ (linked s ps x (se_rt se) → linked s' ps' x (se_rt (f se)))) →
  phase_ok s' ps' (alter f x ss) t.
Proof.
  intros Hold Hc Hother Hx. destruct t as [|y|y|y]; cbn in *; [done|..].
  - destruct Hold as [? Hy]. split; [by rewrite Hc|]. destruct (decide (y = x)) as [->|Hne].
    + by rewrite lookup_alter_eq, Hy.
    + by rewrite lookup_alter_ne.
  - destruct Hold as (se & Hy & Hpr). destruct (decide (y = x)) as [->|Hne].
    + exists (f se). rewrite lookup_alter_eq, Hy. by destruct (Hx se Hy eq_refl).
    + exists se. by rewrite lookup_alter_ne.
  - destruct Hold as (se & Hy & Hpr & Hl). destruct (decide (y = x)) as [->|Hne].
    + exists (f se). rewrite lookup_alter_eq, Hy. destruct (Hx se Hy eq_refl). by split_and!; auto.
    + exists se. rewrite lookup_alter_ne by done. by split_and!; auto.
Qed.

(** A thread has an effect on at most one session, which keeps what it is. *)
Lemma cl_inv_alter ts s ps tr alive ss i e p t t' x f :
  ps !! i = Some (Emit e p) → ts !! i = Some t → orderly t' p →
  (owned t' = owned t ∧ phase_ok s ps ss t' ∨ t' = Idle) →
  (∀ q b, is_set q b e = false) → (∀ y, e = SessionClose y → y = x) →
  (∀ se, ss !! x = Some se →
     session_inv x (f se) ∧ mOpen (cs_session (se_rt (f se))) = mOpen (cs_session (se_rt se))
     ∧ (∀ q b, completed_with q b (f se) = completed_with q b se)
     ∧ (cs_closing (se_rt se) → cs_closing (se_rt (f se)))
     ∧ (e = SessionClose x → cs_closing (se_rt (f se)))
     ∧ (se_promise (f se) ≠ None → cs_over (se_rt (f se)) ∨ linked s ps x (se_rt se))
     ∧ (∀ j t, <[i := t']> ts !! j = Some t → owned t = Some x → se_promise (f se) = None)) →
  cl_inv ts (mkClientSystem (mkConfig s ps tr) alive ss) →
  cl_inv (<[i := t']> ts) (mkClientSystem (mkConfig s (<[i := p]> ps) (tr ++ [e])) alive (alter f x ss)).
Proof.
  intros Hi Ht Hord Ht' Hset Hclose Hf [I1 I2 I3 I4 I5 I6 I7 I8 I9]. cbn in *.
  assert (Hother : ∀ y r, y ≠ x → linked s ps y r → linked s (<[i := p]> ps) y r).
  { intros y r Hne. eapply linked_emit; [done|done|]. intros He%Hclose. done. }
  assert (Hsome : ∀ y, is_Some (alter f x ss !! y) → is_Some (ss !! y)) by (intros y; by rewrite lookup_alter_is_Some).
  split; cbn.
  - by apply Forall2_insert.
  - apply unique_insert; [done|]. intros j y Ho Hj. destruct Ht' as [[Heq _]| ->]; [|done].
    eapply (I2 j i y Hj). rewrite Ht. cbn. congruence.
  - intros j tj Hj.
    assert (Hold : phase_ok s ps ss tj).
    { apply list_insert_cases in Hj as [[-> ->]|[_ Hj]]; [|by eapply I3].
      by destruct Ht' as [[_ ?]| ->]. }
    apply (phase_alter s s ps _ ss tj x f Hold); [done|done|].
    intros se Hx Ho. destruct (Hf se Hx) as (_ & _ & _ & Hcl & Hnow & _ & Hpr).
    split; [by eapply Hpr|]. intros. by eapply linked_emit.
  - auto.
  - intros y Hy. rewrite lookup_alter_is_Some. auto.
  - intros y se' [[-> (se & Hse & ->)]|[Hne Hy]]%map_alter_cases; [by apply Hf|by apply I6].
  - intros y se' [[-> (se & Hse & ->)]|[Hne Hy]]%map_alter_cases Hpr.
    + destruct (Hf se Hse) as (_ & _ & _ & Hcl & Hnow & Hl & _).
      destruct (Hl Hpr); [by left|right]. by eapply linked_emit.
    + destruct (I7 y se' Hy Hpr); [by left|right]. by apply Hother.
  - intros y. rewrite I8. split.
    + intros (se & Hy & Ho). destruct (decide (y = x)) as [->|Hne].
      * exists (f se). rewrite lookup_alter_eq, Hy. destruct (Hf se Hy) as (_ & -> & _). done.
      * exists se. by rewrite lookup_alter_ne.
    + intros (se' & [[-> (se & Hse & ->)]|[Hne Hy]]%map_alter_cases & Ho); [|by eauto].
      exists se. destruct (Hf se Hse) as (_ & <- & _). done.
  - intros q b. rewrite promise_sets_app, I9. unfold promise_sets. cbn. rewrite Hset. cbn.
    rewrite Nat.add_0_r. destruct (ss !! x) as [se|] eqn:Hx.
    + rewrite (map_alter_insert _ _ _ _ Hx). symmetry. apply completed_keep. rewrite Hx. cbn.
      by destruct (Hf se eq_refl) as (_ & _ & -> & _).
    + by rewrite alter_id by congruence.
Qed.
Lemma cs_exec_post ssl k (r : cs_rt client_world) :
  cs_exec ssl (CPost k) r = Some (cs_apply (OpPost k) r).
Proof. by destruct r. Qed.

Lemma post_session k (r : cs_rt client_world) :
  cs_session (cs_apply (OpPost k) r) = cs_session r
  ∧ cs_events (cs_apply (OpPost k) r) = cs_events r
  ∧ (cs_closing r → cs_closing (cs_apply (OpPost k) r))
  ∧ (k = TaskClose → cs_closing (cs_apply (OpPost k) r))
  ∧ (is_connect k = false → cs_over r → cs_over (cs_apply (OpPost k) r)).
Proof.
  destruct r as [s v tk g rd tx w c fl ft ev wi ac]. unfold cs_closing, cs_over. cbn.
  split_and!; [done|done|intros [?|?]; [by left|right; set_solver]|intros ->; right; set_solver|].
  intros Hk (? & ? & ?). split_and!; [done|done|]. apply Forall_app_2; [done|by constructor].
Qed.

Lemma post_inv x k se :
  is_connect k = false → cs_label_ok (Cli:=client_world) (CPost k) = true →
  session_inv x se → session_inv x (post_to k se).
Proof.
  intros Hk Hok. unfold session_inv, post_to. cbn.
  destruct (post_session k (se_rt se)) as (-> & _). destruct (se_promise se).
  - intros Hinv. by eapply (cs_inv_step false _ x (CPost k)); [|exact Hinv|apply cs_exec_post].
  - intros Hidle. by eapply (idle_post false); [..|apply cs_exec_post].
Qed.

(** A thread posts [Send] or [Close] to a session. *)
Lemma cl_inv_post ts s ps tr alive ss i e p t x k :
  ps !! i = Some (Emit e p) → ts !! i = Some t → orderly t p →
  is_connect k = false → cs_label_ok (Cli:=client_world) (CPost k) = true →
  (∀ q b, is_set q b e = false) → (∀ y, e = SessionClose y → y = x ∧ k = TaskClose) →
  cl_inv ts (mkClientSystem (mkConfig s ps tr) alive ss) →
  ∃ ts', cl_inv ts' (mkClientSystem (mkConfig s (<[i := p]> ps) (tr ++ [e])) alive
                       (alter (post_to k) x ss)).
Proof.
  intros Hi Ht Hord Hk Hok Hset Hclose Hinv. exists (<[i := t]> ts).
  eapply (cl_inv_alter ts s ps tr alive ss i e p t t x (post_to k)); try done.
  - left. split; [done|]. by eapply (ci_phases _ _ Hinv).
  - intros y Hy. by destruct (Hclose y Hy).
  - intros se Hx. destruct (post_session k (se_rt se)) as (Hs & Hev & Hcl & Hnow & Hover).
    unfold completed_with. cbn. rewrite Hs, Hev. split_and!; try done.
    + apply post_inv; [done|done|]. by apply (ci_sessions _ _ Hinv).
    + intros He. apply Hnow. by destruct (Hclose x He).
    + intros Hpr. destruct (ci_links _ _ Hinv x se Hx Hpr); [left; auto|by right].
    + intros j tj Hj Ho. rewrite list_insert_id in Hj by done.
      pose proof (ci_phases _ _ Hinv j tj Hj) as Hph. cbn in Hph.
      destruct tj; cbn in *; simplify_eq; [naive_solver|..];
        destruct Hph as (se' & ? & ? & ?) || destruct Hph as (se' & ? & ?); congruence.
Qed.

Lemma cl_inv_connect ts s ps tr alive ss i p x h po re hd pr :
  ps !! i = Some (Emit (SessionConnect x h po re hd pr) p) → ts !! i = Some (Installed x) →
  orderly Idle p →
  cl_inv ts (mkClientSystem (mkConfig s ps tr) alive ss) →
  ∃ ts', cl_inv ts' (mkClientSystem
                       (mkConfig s (<[i := p]> ps) (tr ++ [SessionConnect x h po re hd pr])) alive
                       (alter (connect_to (TaskConnect h po re hd (Some x)) pr) x ss)).
Proof.
  intros Hi Ht Hord Hinv. exists (<[i := Idle]> ts).
  eapply (cl_inv_alter ts s ps tr alive ss i _ p (Installed x) Idle x); try done; [by right|].
  pose proof (ci_phases _ _ Hinv i _ Ht) as (se0 & Hx0 & Hpr & Hl). cbn in Hx0, Hl.
  intros se Hx. assert (se0 = se) as -> by congruence. clear Hx0.
  pose proof (ci_sessions _ _ Hinv x se Hx) as Hs. unfold session_inv in Hs. rewrite Hpr in Hs.
  destruct (post_session (TaskConnect h po re hd (Some x)) (se_rt se)) as (Hse & Hev & Hcl & _).
  unfold session_inv, completed_with. cbn. rewrite Hse, Hev, (idle_completions _ _ Hs).
  split_and!; try done.
  - by eapply (idle_connect false); [exact Hs|apply cs_exec_post].
  - intros q b. by rewrite !andb_false_r.
  - by right.
  - intros j tj [[-> ->]|[Hne Hj]]%list_insert_cases Ho; [done|]. exfalso. apply Hne.
    eapply (ci_unique _ _ Hinv j i x); [by rewrite Hj|by rewrite Ht].
Qed.

Lemma cl_inv_new ts s ps tr alive ss i p x kind st :
  ps !! i = Some (Emit (NewSession x kind st) p) → ts !! i = Some (Made x) →
  orderly (Created x) p →
  cl_inv ts (mkClientSystem (mkConfig s ps tr) alive ss) →
  ∃ ts', cl_inv ts' (mkClientSystem (mkConfig s (<[i := p]> ps) (tr ++ [NewSession x kind st]))
                       alive (<[x := fresh_session kind st]> ss)).
Proof.
  intros Hi Ht Hord [I1 I2 I3 I4 I5 I6 I7 I8 I9]. exists (<[i := Created x]> ts). cbn in *.
  destruct (I3 i _ Ht) as [Hlt Hnone]. cbn in Hlt, Hnone.
  assert (Hl : ∀ y r, linked s ps y r → linked s (<[i := p]> ps) y r).
  { intros y r. by eapply linked_emit. }
  assert (Hne : ∀ y se, ss !! y = Some se → y ≠ x) by congruence.
  split; cbn.
  - by apply Forall2_insert.
  - apply unique_insert; [done|]. intros j y [= <-] Hj. eapply (I2 j i x Hj). by rewrite Ht.
  - intros j tj [[-> ->]|[Hji Hj]]%list_insert_cases.
    + cbn. eexists. by rewrite lookup_insert_eq.
    + pose proof (I3 j tj Hj) as Hp. destruct tj as [|y|y|y]; cbn in *; [done|..].
      * destruct Hp as [? Hy]. split; [done|]. rewrite lookup_insert_ne; [done|].
        intros <-. apply Hji. eapply (I2 j i x); [by rewrite Hj|by rewrite Ht].
      * destruct Hp as (se & Hy & ?). exists se. rewrite lookup_insert_ne; [done|]. apply not_eq_sym. eauto.
      * destruct Hp as (se & Hy & ? & ?). exists se.
        rewrite lookup_insert_ne; [split_and!; auto|]. apply not_eq_sym. eauto.
  - intros y [<-|?]%lookup_insert_is_Some'; auto.
  - intros y Hy. apply lookup_insert_is_Some'. auto.
  - intros y se [[<- <-]|[? Hy]]%lookup_insert_Some; [|by apply I6].
    unfold session_inv, idle, sess_ok, not_open, no_connect. cbn.
    by split_and!; try done; intros ? ?%not_elem_of_nil.
  - intros y se [[<- <-]|[? Hy]]%lookup_insert_Some Hpr; [done|].
    destruct (I7 y se Hy Hpr); [by left|right; by apply Hl].
  - intros y. rewrite I8. split; intros (se & Hy & Ho).
    + exists se. rewrite lookup_insert_ne; [done|]. apply not_eq_sym. eauto.
    + apply lookup_insert_Some in Hy as [[<- <-]|[? Hy]]; [done|by eauto].
  - intros q b. rewrite promise_sets_app, I9. unfold promise_sets. cbn. rewrite Nat.add_0_r.
    symmetry. apply completed_keep. rewrite Hnone. cbn. unfold completed_with. by rewrite andb_false_r.
Qed.

Lemma cl_inv_emit ts s ps tr alive ss i e p :
  ps !! i = Some (Emit e p) →
  cl_inv ts (mkClientSystem (mkConfig s ps tr) alive ss) →
  ∃ ts', cl_inv ts' (mkClientSystem (mkConfig s (<[i := p]> ps) (tr ++ [e])) alive
                       (deliver_op ss e)).
Proof.
  intros Hi Hinv. destruct (Forall2_lookup_r _ _ _ _ _ (ci_threads _ _ Hinv) Hi) as (t & Ht & Hord).
  destruct Hord as (t' & He & Hord).
  assert (Hsilent : t' = t → deliver_op ss e = ss → (∀ q b, is_set q b e = false) →
    (∀ y, e ≠ SessionClose y) →
    ∃ ts', cl_inv ts' (mkClientSystem (mkConfig s (<[i := p]> ps) (tr ++ [e])) alive
                         (deliver_op ss e))).
  { intros -> -> Hset Hno. exists (<[i := t]> ts).
    rewrite <-(alter_id id ss (mSessionCount s)) by done.
    eapply cl_inv_alter; try done.
    - left. split; [done|]. by apply (ci_phases _ _ Hinv i).
    - intros y Hy. by apply Hno in Hy.
    - intros se Hx. pose proof (ci_count _ _ Hinv _ (mk_is_Some _ _ Hx)) as Hlt. cbn in Hlt. lia. }
  destruct He; try (by apply Hsilent); cbn [deliver_op].
  - by eapply cl_inv_new.
  - by eapply cl_inv_connect.
  - eapply cl_inv_post; try done; by cbn.
  - eapply cl_inv_post; try done. by intros y [= ->].
Qed.

(** *** A session takes a step *)

(** What sessions make the client do: no call of a session. *)
Definition plain (o : client_op) : bool :=
  match o with Posted _ | Stderr _ | SetPromise _ _ => true | _ => false end.

Lemma deliver_plain ops ss : Forall (λ o, plain o = true) ops → deliver ops ss = ss.
Proof.
  unfold deliver. revert ss. induction ops as [|o ops IH]; intros ss Hp; [done|].
  apply Forall_cons in Hp as [Ho Hp]. cbn. replace (deliver_op ss o) with ss by (by destruct o).
  by apply IH.
Qed.

(** What no call of [ISessionEvents] changes. *)
Record same_client (w w' : client_world) : Prop := {
  sc_session : mSession w'.1 = mSession w.1;
  sc_count : mSessionCount w'.1 = mSessionCount w.1;
  sc_open : mOpenSessions w'.1 = mOpenSessions w.1;
  sc_shutdown : mShutdown w'.1 = mShutdown w.1;
  sc_ops : ∃ ops, w'.2 = w.2 ++ ops ∧ Forall (λ o, plain o = true) ops
                  ∧ ∀ p b, promise_sets p b ops = 0
}.

#[local] Instance same_client_preorder : PreOrder same_client.
Proof.
  split.
  - intros w. split; try done. exists []. by rewrite app_nil_r.
  - intros w1 w2 w3 [S1 C1 O1 D1 (o1 & H1 & P1 & N1)] [S2 C2 O2 D2 (o2 & H2 & P2 & N2)].
    split; try congruence. exists (o1 ++ o2). rewrite H2, H1, <-app_assoc.
    split_and!; [done|by apply Forall_app|]. intros p b. by rewrite promise_sets_app, N1, N2.
Qed.

Lemma same_LogError m w w' : on_client (LogError m) w = (Ok tt, w') → same_client w w'.
Proof.
  destruct w as [s ops]. unfold on_client. cbn. intros [= <-]. split; try done. cbn.
  eexists. split_and!; [done|by repeat constructor|done].
Qed.

Lemma same_post_callback cb t w w' :
  on_client (post_callback cb t) w = (Ok tt, w') → same_client w w'.
Proof.
  destruct w as [s ops]. unfold on_client. rewrite run_post_callback. cbn.
  destruct (cb s); intros [= <-]; (split; try done); cbn; eexists;
    (split_and!; [done|by repeat constructor|done]).
Qed.

(** The calls a step of a session makes. *)
Lemma called_same alive s ev (v : option client_world) :
  cs_called ev (if alive : bool then Some (s, []) else None) v →
  same_client (s, []) (default (s, []) v).
Proof.
  destruct alive; intros Hc.
  - edestruct (cs_called_keeps same_client) as (w & -> & Hs); [| | | |exact Hc|exact Hs].
    + intros m w w'. apply same_post_callback.
    + intros b w w'. apply same_post_callback.
    + intros w w'. apply same_post_callback.
    + intros m w w'. apply same_LogError.
  - assert (v = None) as ->; [|reflexivity].
    remember None as v0 eqn:Hv. by induction Hc; simplify_eq; auto.
Qed.

(** The connect handler. *)
Lemma complete_effect alive x pr b w :
  let w' := complete alive x pr [b] w in
  mSessionCount w'.1 = mSessionCount w.1 ∧ mOpenSessions w'.1 = mOpenSessions w.1
  ∧ (mSession w'.1 = mSession w.1
     ∨ b = false ∧ mSession w.1 = Some x ∧ mSession w'.1 = None)
  ∧ ∃ ops, w'.2 = w.2 ++ ops ∧ Forall (λ o, plain o = true) ops
           ∧ ∀ q c, promise_sets q c ops = if bool_decide (pr = Some q ∧ b = c) then 1 else 0.
Proof.
  destruct w as [s ops]. unfold complete, on_client. cbn. rewrite ConnectCompleted_effects.
  split_and!.
  - destruct alive, b; cbn; try case_bool_decide; by destruct (mOnConnect s), (mOnDisconnect s).
  - destruct alive, b; cbn; try case_bool_decide; by destruct (mOnConnect s), (mOnDisconnect s).
  - destruct alive, b; cbn; try case_bool_decide;
      destruct (mOnConnect s), (mOnDisconnect s); cbn; auto.
  - eexists. split_and!; [done| |].
    + apply Forall_app_2; [|by destruct pr; repeat constructor].
      destruct alive, b, (mOnConnect s), (mOnDisconnect s); by repeat constructor.
    + intros q c. rewrite promise_sets_app.
      replace (promise_sets q c (_ <$> _)) with 0
        by (destruct alive, b, (mOnConnect s), (mOnDisconnect s); done).
      destruct pr as [p|]; cbn; [|by rewrite bool_decide_false by naive_solver].
      unfold promise_sets. cbn. repeat case_bool_decide; destruct b, c; naive_solver.
Qed.

Lemma set_cli_inv v x se :
  session_inv x se → session_inv x (mkCSess (se_ssl se) (se_promise se) (set_cli v (se_rt se))).
Proof. by destruct se as [? [pr|] []]. Qed.

(** A step completes the connect at most once, and only of a session that is connecting. *)
Lemma session_progress l x se r new :
  session_inv x se → cs_own_label l = true → cs_exec (se_ssl se) l (se_rt se) = Some r →
  cs_events r = cs_events (se_rt se) ++ new →
  session_inv x (mkCSess (se_ssl se) (se_promise se) r)
  ∧ (completions new = []
     ∨ ∃ pr b, se_promise se = Some pr ∧ completions new = [b]
               ∧ completions (cs_events (se_rt se)) = [] ∧ (b = false → cs_over r)).
Proof.
  intros Hinv Hl He Hnew. pose proof (ce_settings _ _ (cs_exec_effect _ _ _ _ Hl He)) as Hset.
  pose proof (completions_app (cs_events (se_rt se)) new) as Happ. rewrite <-Hnew in Happ.
  unfold session_inv in *. cbn. destruct (se_promise se) as [pr|].
  - rewrite Hset. assert (Hinv' : cs_inv (ClientSession.mSettings (cs_session (se_rt se))) x r).
    { eapply cs_inv_step; [|exact Hinv|exact He]. by destruct l. }
    split; [done|].
    destruct (cs_inv_completed _ _ _ Hinv) as [(H0 & _)|[(H0 & _)|(H0 & _)]];
      rewrite H0 in Happ |- *;
      destruct (cs_inv_completed _ _ _ Hinv') as [(H1 & _)|[(H1 & _ & Ho)|(H1 & _)]];
      rewrite H1 in Happ; cbn in Happ; simplify_eq; rewrite <-?Happ; auto.
    + right. exists pr, false. by split_and!.
    + right. exists pr, true. by split_and!.
  - rewrite Hset. pose proof (idle_exec _ _ _ _ _ Hl Hinv He) as Hinv'. split; [done|]. left.
    rewrite (idle_completions _ _ Hinv), (idle_completions _ _ Hinv') in Happ. done.
Qed.

(** The client after a step of session [x]. *)
Lemma session_client l x se r new (alive : bool) (s : CImpl) (w' : client_world) :
  session_inv x se → cs_own_label l = true →
  cs_cli (se_rt se) = (if alive then Some (s, []) else None) →
  cs_exec (se_ssl se) l (se_rt se) = Some r → cs_events r = cs_events (se_rt se) ++ new →
  w' = complete alive x (default None (se_promise se)) (completions new)
         (default (s, []) (cs_cli r)) →
  mSessionCount w'.1 = mSessionCount s ∧ mOpenSessions w'.1 = mOpenSessions s
  ∧ (mSession w'.1 = mSession s
     ∨ mSession s = Some x ∧ mSession w'.1 = None ∧ cs_over r ∧ se_promise se ≠ None)
  ∧ Forall (λ o, plain o = true) w'.2
  ∧ ∀ q b, promise_sets q b w'.2 + contribution q b (Some se)
           = contribution q b (Some (mkCSess (se_ssl se) (se_promise se) r)).
Proof.
  intros Hinv Hl Hcli He Hnew ->.
  destruct (ce_called _ _ (cs_exec_effect _ _ _ _ Hl He)) as (new' & Hnew' & Hcalled).
  assert (new' = new) as -> by (rewrite Hnew in Hnew'; by simplify_list_eq).
  rewrite Hcli in Hcalled. apply called_same in Hcalled as [Hs Hc Ho _ (ops & Hops & Hp & Hn)].
  cbn in Hs, Hc, Ho, Hops.
  pose proof (completions_app (cs_events (se_rt se)) new) as Happ. rewrite <-Hnew in Happ.
  unfold contribution, completed_with. cbn. rewrite Happ.
  destruct (session_progress l x se r new Hinv Hl He Hnew)
    as [_ [-> |(pr & b & Hpr & -> & -> & Hover)]].
  - cbn [complete foldl]. rewrite Hs, Hc, Ho, Hops, app_nil_r. split_and!; auto. intros q b. by rewrite Hn.
  - rewrite Hpr. destruct (complete_effect alive x pr b (default (s, []) (cs_cli r)))
      as (Hc' & Ho' & Hs' & ops' & Hops' & Hp' & Hn'). cbn in *.
    split_and!; [congruence|congruence| | |].
    + destruct Hs' as [?|(? & ? & ?)]; [left; congruence|right]. split_and!; [congruence|done|by auto|congruence].
    + rewrite Hops', Hops. by apply Forall_app.
    + intros q c. rewrite Hops', promise_sets_app, Hops, Hn, Hn'.
      rewrite (bool_decide_false ([] =@{list bool} [c])), andb_false_r by done.
      repeat case_bool_decide; naive_solver.
Qed.

Lemma set_cli_same v (r : cs_rt client_world) :
  cs_session (set_cli v r) = cs_session r ∧ cs_events (set_cli v r) = cs_events r
  ∧ cs_cli (set_cli v r) = v ∧ (cs_closing r → cs_closing (set_cli v r))
  ∧ (cs_over r → cs_over (set_cli v r)).
Proof. by destruct r. Qed.

(** Session [x] has changed, and the client's copy of its flag with it. *)
Lemma inv_session_changed ts s s' ps tr tr' alive ss x se r :
  ss !! x = Some se → cl_inv ts (mkClientSystem (mkConfig s ps tr) alive ss) →
  let se' := mkCSess (se_ssl se) (se_promise se) r in
  session_inv x se' → (cs_closing (se_rt se) → cs_closing r) → (cs_over (se_rt se) → cs_over r) →
  mSessionCount s' = mSessionCount s → mOpenSessions s' = mOpenSessions s →
  (mSession s' = mSession s
   ∨ mSession s = Some x ∧ mSession s' = None ∧ cs_over r ∧ se_promise se ≠ None) →
  (∀ q b, promise_sets q b tr' + contribution q b (Some se) = contribution q b (Some se')) →
  cl_inv ts (mkClientSystem (mkConfig (note_open x (mOpen (cs_session r)) s') ps (tr ++ tr')) alive
               (<[x := se']> ss)).
Proof.
  intros Hx [I1 I2 I3 I4 I5 I6 I7 I8 I9] se' Hinv Hcl Hov Hc Ho Hs Hn. cbn in *.
  set (s2 := note_open x (mOpen (cs_session r)) s').
  assert (Hs2 : mSession s2 = mSession s' ∧ mSessionCount s2 = mSessionCount s
    ∧ mOpenSessions s2 = if mOpen (cs_session r) then {[x]} ∪ mOpenSessions s
                         else mOpenSessions s ∖ {[x]}) by (by rewrite <-Ho).
  destruct Hs2 as (Hs2 & Hc2 & Ho2). clearbody s2.
  assert (Hother : ∀ y q, y ≠ x → linked s ps y q → linked s2 ps y q).
  { intros y q Hne [Hcur|?]; [|by right]. left. rewrite Hs2.
    destruct Hs as [->|(? & _)]; congruence. }
  assert (Hself : linked s ps x (se_rt se) →
    cs_over r ∧ se_promise se ≠ None ∨ linked s2 ps x r).
  { intros [Hcur|[?|?]]; [|right; right; left; auto|by right; right; right].
    destruct Hs as [Heq|(_ & _ & ? & ?)]; [right; left; congruence|by left]. }
  split; cbn; try done.
  - intros j t Hj. rewrite <-(map_alter_insert (λ _, se') ss x se Hx).
    apply (phase_alter s s2 ps ps ss t x _ (I3 j t Hj) Hc2 Hother).
    intros q Hq Hown. assert (q = se) as -> by congruence.
    assert (Hpr : se_promise se = None).
    { specialize (I3 j t Hj). destruct t; cbn in *; simplify_eq; destruct I3; naive_solver congruence. }
    split; [done|]. intros Hl. by destruct (Hself Hl) as [[_ ?]|?].
  - intros y [<-|?]%lookup_insert_is_Some'; rewrite Hc2; eauto.
  - intros y Hy. rewrite lookup_insert_is_Some'. right. apply I5. rewrite Hs2 in Hy.
    destruct Hs as [?|(_ & ? & _)]; congruence.
  - intros y q [[<- <-]|[Hne Hy]]%lookup_insert_Some; [done|by apply I6].
  - intros y q [[<- <-]|[Hne Hy]]%lookup_insert_Some Hpr.
    + destruct (I7 x se Hx Hpr) as [?|[[? _]|?]%Hself]; auto.
    + destruct (I7 y q Hy Hpr); [by left|right]. by apply Hother.
  - intros y. rewrite Ho2. destruct (decide (y = x)) as [->|Hne].
    + rewrite lookup_insert_eq. destruct (mOpen (cs_session r)) eqn:Hop; split.
      * intros _. by exists se'.
      * intros _. set_solver.
      * set_solver.
      * intros (q & ? & Hq). simplify_eq. cbn in Hq. congruence.
    + rewrite lookup_insert_ne by done. rewrite <-I8. destruct (mOpen (cs_session r)); set_solver.
  - intros q b. rewrite promise_sets_app, I9.
    pose proof (completed_change q b ss x se') as Hch. rewrite Hx in Hch. cbn in Hch.
    specialize (Hn q b). lia.
Qed.

Lemma cl_inv_session ts s ps tr alive ss x l st' :
  cs_own_label l = true → cl_inv ts (mkClientSystem (mkConfig s ps tr) alive ss) →
  cl_exec (ClSession x l) (mkClientSystem (mkConfig s ps tr) alive ss) = Some st' →
  cl_inv ts st'
  ∧ ∃ ops, trace (cl_client st') = tr ++ ops ∧ Forall (λ o, plain o = true) ops.
Proof.
  intros Hl Hcl He. pose proof (ci_sessions _ _ Hcl) as I6.
  cbn -[cs_exec complete] in *. destruct (ss !! x) as [se|] eqn:Hx; [|done]. cbn -[cs_exec complete] in He.
  set (v := if alive then Some _ else None) in *.
  set (se0 := mkCSess (se_ssl se) (se_promise se) (set_cli v (se_rt se))).
  destruct (cs_exec _ l _) as [r|] eqn:Hr; [|done]. cbn -[cs_exec complete] in He.
  destruct (set_cli_same v (se_rt se)) as (Hss & Hev & Hcli & Hcls & Hovs).
  assert (Hinv : session_inv x se0) by (by apply set_cli_inv, I6).
  pose proof (cs_exec_effect _ l _ r Hl Hr) as [(new & Hnew & _) _ Hclose Hover].
  rewrite Hnew, drop_app_length in He.
  destruct (session_client l x se0 r new alive s _ Hinv Hl Hcli Hr Hnew eq_refl)
    as (Hc & Ho & Hs & Hp & Hn).
  destruct (session_progress l x se0 r new Hinv Hl Hr Hnew) as [Hinv' _].
  rewrite deliver_plain in He by done. injection He as <-.
  split; [|by eexists]. eapply inv_session_changed; eauto.
  intros q b. rewrite <-Hn. unfold contribution, completed_with. cbn. by rewrite Hev.
Qed.

Lemma cl_inv_step ts st st' : cl_inv ts st → cl_step st st' → ∃ ts', cl_inv ts' st'.
Proof.
  intros Hinv (l & Hok & He). destruct st as [[s ps tr] alive ss].
  destruct l as [l|x l|]; cbn in Hok.
  - cbn -[exec_sched] in He. destruct l as [p|i]; cbn in He.
    + rewrite drop_all in He. cbn in He. simplify_eq. eexists.
      apply cl_inv_call; [by eapply client_thread_orderly|exact Hinv].
    + destruct (ps !! i) as [[r|upd next|e p]|] eqn:Hi; cbn in He; simplify_eq.
      * rewrite drop_all in He. cbn in He. simplify_eq. by eapply cl_inv_atomic.
      * rewrite drop_app_length in He. destruct (forallb _ _); simplify_eq. by eapply cl_inv_emit.
  - exists ts. by eapply cl_inv_session in He as [? _].
  - cbn in He. injection He as <-. exists ts. destruct Hinv. by split.
Qed.

(** What a thread found was there. *)
Definition answered (tr : list client_op) : Prop :=
  ∀ p sec b, Wait p sec (Ready (Some b)) ∈ tr → promise_sets p b tr ≠ 0.

Lemma answered_app tr new :
  answered tr → forallb (finds tr) new = true → answered (tr ++ new).
Proof.
  intros Ha Hn p sec b [Hin|Hin]%elem_of_app; rewrite promise_sets_app.
  - specialize (Ha p sec b Hin). lia.
  - rewrite List.forallb_forall in Hn. apply list_elem_of_In in Hin. specialize (Hn _ Hin). cbn in Hn.
    apply negb_true_iff, Nat.eqb_neq in Hn. lia.
Qed.

Lemma plain_finds tr ops : Forall (λ o, plain o = true) ops → forallb (finds tr) ops = true.
Proof. induction 1 as [|[] ops Ho _ IH]; cbn in *; try done. Qed.

Lemma answered_step ts st st' :
  cl_inv ts st → cl_step st st' →
  answered (trace (cl_client st)) → answered (trace (cl_client st')).
Proof.
  intros Hinv (l & Hok & He) Ha. destruct st as [[s ps tr] alive ss].
  destruct l as [l|x l|]; cbn in Hok.
  - cbn -[exec_sched finds] in He. destruct (exec_sched l _) as [c'|] eqn:Hx; [|done].
    cbn -[finds] in He. destruct (forallb _ _) eqn:Hf; simplify_eq. cbn in *.
    destruct l as [p|i]; cbn in Hx; simplify_eq; [done|].
    destruct (ps !! i) as [[r|upd next|e p]|]; simplify_eq; [done|]. cbn in *.
    rewrite drop_app_length in Hf. by apply answered_app.
  - destruct (cl_inv_session _ _ _ _ _ _ _ _ _ Hok Hinv He) as (_ & ops & -> & Hp).
    cbn in *. by apply answered_app, plain_finds.
  - cbn in He. by injection He as <-.
Qed.

Lemma cl_inv_init name settings : cl_inv [] (cl_init name settings).
Proof.
  split; cbn; try done.
  - intros x [? Hx]. by rewrite lookup_empty in Hx.
  - intros x. split; [set_solver|]. intros (se & Hx & _). by rewrite lookup_empty in Hx.
Qed.

Lemma cl_reachable_all name settings st :
  cl_reachable name settings st → (∃ ts, cl_inv ts st) ∧ answered (trace (cl_client st)).
Proof.
  intros Hr.
  apply (star_invariant (λ st, (∃ ts, cl_inv ts st) ∧ answered (trace (cl_client st))) _ _) in Hr;
    [done| |].
  - intros x y [[ts Hx] Ha] Hstep. split; [by eapply cl_inv_step|by eapply answered_step].
  - split; [eexists; apply cl_inv_init|]. by intros p sec b ?%not_elem_of_nil.
Qed.

Lemma cl_reachable_inv name settings st :
  cl_reachable name settings st → ∃ ts, cl_inv ts st.
Proof. intros Hr. by destruct (cl_reachable_all name settings st Hr). Qed.

End System.

(** When all calls have returned, a session that is not the current one and that is still
    connecting or open closes by itself: when its strand has run what is posted, its
    connect stages succeed and its writes complete, its close frame has been sent. *)
Lemma client_forgotten_sessions_close app `{!Behaves app} name settings st x se :
  cl_reachable app name settings st → settled (cl_client st) →
  mSession (shared (cl_client st)) ≠ Some x →
  cl_sessions st !! x = Some se → se_promise se ≠ None → ¬ cs_over (se_rt se) →
  ∃ m n r', cs_steps (se_ssl se) (replicate (length (cs_tasks (se_rt se))) CTask
              ++ replicate m (CStage None None) ++ replicate n (CWritten None)) (se_rt se) = Some r'
            ∧ mCloseSent (cs_session r') = true
            ∧ ClientSession.mWriteQueue (cs_session r') = [].
Proof.
  intros Hr Hset Hcur Hx Hpr Hno. destruct (cl_reachable_inv app name settings st Hr) as [ts Hinv].
  pose proof (ci_sessions _ _ Hinv x se Hx) as Hs. unfold session_inv in Hs.
  destruct (se_promise se) as [pr|] eqn:Hp; [|done].
  eapply cs_closing_sends; [exact Hs|done|].
  destruct (ci_links _ _ Hinv x se Hx) as [?|[?|[?|Hw]]]; [congruence|done..|].
  by apply will_emit_done in Hw.
Qed.

(** ** Properties *)

(** C16. In every interleaving: the current session exists; [IsOpen] as the client reads it is
    the sessions' own flag; and a session that is connecting or open is the current one,
    or its close is requested or posted, or a thread is about to close it.  So no
    connection stays open that the client has replaced. *)
Theorem client_connections app `{!Behaves app} name settings st :
  cl_reachable app name settings st →
  let s := shared (cl_client st) in
  (∀ x, mSession s = Some x → is_Some (cl_sessions st !! x))
  ∧ (∀ x, session_open s x = true ↔
       ∃ se, cl_sessions st !! x = Some se ∧ mOpen (cs_session (se_rt se)) = true)
  ∧ (∀ x se, cl_sessions st !! x = Some se → se_promise se ≠ None →
       cs_over (se_rt se) ∨ mSession s = Some x ∨ cs_closing (se_rt se)
       ∨ ∃ p, p ∈ pool (cl_client st) ∧ will_emit (SessionClose x) p).
Proof.
  intros Hr s. destruct (cl_reachable_inv app name settings st Hr) as [ts Hinv].
  split_and!; [by apply (ci_current ts st)| |by apply (ci_links ts st)].
  intros x. unfold session_open. rewrite bool_decide_eq_true. apply (ci_open ts st Hinv).
Qed.

(** C15. [Connect] gets its answer.  A promise is set as often, and to what, as the sessions
    it was given to completed their connect; a session completes at most once, with true
    if it has been connected, and has completed when it has nothing left to do.  What a
    waiting thread found in its future is how one of those sessions completed. *)
Theorem connect_gets_answer app `{!Behaves app} name settings st p :
  cl_reachable app name settings st →
  let ss := cl_sessions st in
  let tr := trace (cl_client st) in
  (∀ b, promise_sets p b tr = size (completed p b ss))
  ∧ (∀ x, x ∈ completed p true ss → x ∉ completed p false ss)
  ∧ (∀ x se, ss !! x = Some se → se_promise se = Some (Some p) →
       (mOpen (cs_session (se_rt se)) = true → x ∈ completed p true ss)
       ∧ (cs_tasks (se_rt se) = [] → cs_stages (se_rt se) = [] →
          x ∈ completed p true ss ∪ completed p false ss))
  ∧ (∀ sec b, Wait p sec (Ready (Some b)) ∈ tr → ∃ x, x ∈ completed p b ss).
Proof.
  intros Hr ss tr. destruct (cl_reachable_all app name settings st Hr) as [[ts Hinv] Ha].
  assert (Hin : ∀ x b, x ∈ completed p b ss ↔
    ∃ se, ss !! x = Some se ∧ se_promise se = Some (Some p)
          ∧ completions (cs_events (se_rt se)) = [b]).
  { intros x b. unfold completed. rewrite elem_of_dom. unfold is_Some.
    setoid_rewrite map_lookup_filter_Some. unfold completed_with.
    setoid_rewrite andb_true_iff. by setoid_rewrite bool_decide_eq_true. }
  split_and!; [by apply (ci_promises ts st)|..].
  - intros x (se & Hx & _ & Ht)%Hin (se' & Hx' & _ & Hf)%Hin. congruence.
  - intros x se Hx Hp. pose proof (ci_sessions _ _ Hinv x se Hx) as Hs. unfold session_inv in Hs.
    rewrite Hp in Hs. rewrite elem_of_union, !Hin.
    destruct (cs_inv_completed _ _ _ Hs) as [(Hc & Ho & Hn)|[(Hc & Ho & _)|(Hc & _)]].
    + split; [congruence|]. intros Htk Hst. exfalso. apply Hn. unfold cs_over, no_connect. rewrite Htk.
      by split_and!.
    + split; [congruence|]. intros _ _. right. by exists se.
    + split; intros; [|left]; by exists se.
  - intros sec b Hw. specialize (Ha p sec b Hw). rewrite (ci_promises ts st Hinv) in Ha.
    apply set_choose_L. intros He. apply Ha. unfold ss in He. by rewrite He, size_empty.
Qed.

(** C18. A message for the connection goes to the strand of the current session, behind what
    is posted there, and to no other; while it is not open, nothing is posted. *)
Theorem client_send_reaches_session app `{!Behaves app} name settings st m :
  cl_reachable app name settings st →
  let s := shared (cl_client st) in
  let ss := cl_sessions st in
  ∃ ops, run (Send m) s = (Ok tt, s, ops)
  ∧ ((∃ x se, mSession s = Some x ∧ ss !! x = Some se ∧ mOpen (cs_session (se_rt se)) = true
             ∧ deliver ops ss = <[x := post_to (TaskSend m) se]> ss
             ∧ cs_tasks (se_rt (post_to (TaskSend m) se)) = cs_tasks (se_rt se) ++ [TaskSend m])
     ∨ ((∀ x se, mSession s = Some x → ss !! x = Some se → mOpen (cs_session (se_rt se)) = false)
        ∧ deliver ops ss = ss
        ∧ ops = [Stderr (log_line (mName s) "Cannot send: not connected")])).
Proof.
  intros Hr s ss. destruct (cl_reachable_inv app name settings st Hr) as [ts Hinv].
  rewrite Send_effects. destruct (mSession s) as [x|] eqn:Hcur.
  - destruct (ci_current _ _ Hinv x Hcur) as [se Hx].
    destruct (session_open s x) eqn:Ho; (eexists; split; [done|]).
    + left. unfold session_open in Ho. apply bool_decide_eq_true in Ho.
      apply (ci_open _ _ Hinv) in Ho as (se' & Hx' & Ho). simplify_eq.
      exists x, se. split_and!; try done; [|by destruct se as [? ? []]].
      by apply (map_alter_insert _ ss).
    + right. split_and!; [|done|done]. intros y q [= <-] Hy. apply not_true_iff_false. intros Hop.
      unfold session_open in Ho. apply bool_decide_eq_false in Ho. apply Ho, (ci_open _ _ Hinv).
      by exists q.
  - eexists. split; [done|]. right. by split_and!.
Qed.

(** ** After [Shutdown] *)

(** A client that is shut down and has no session keeps neither from a thread. *)
Definition down (s : CImpl) : Prop := mShutdown s = true ∧ mSession s = None.

Abbreviation inert := (keeps down (λ _, True)).

Lemma inert_LogError m : inert (LogError m).
Proof. by apply keeps_bind; [apply keeps_locked|]. Qed.

Lemma client_api_inert {A} (p : CLI A) : client_api p → inert p.
Proof.
  induction 1; auto using keeps_bind, keeps_catch; try done; try by apply keeps_locked.
  - cbn. intros s Hs. pose proof Hs as [-> _]. by split.
  - cbn. intros s Hs. pose proof Hs as [-> _]. by split.
  - apply keeps_bind; [by apply keeps_locked|]. by intros [].
  - apply keeps_bind; [by apply keeps_locked|]. intros [x|]; [|apply inert_LogError].
    apply keeps_bind; [by apply keeps_locked|]. intros []; [done|apply inert_LogError].
  - cbn. intros s [Hsd Hs]. rewrite Hsd. split; [by split|done].
Qed.

Lemma client_thread_inert app `{!Behaves app} p : client_thread app p → inert p.
Proof.
  intros [|q Hq]; [|by apply client_api_inert]. apply keeps_bind.
  - apply keeps_locked. intros s Hs. by destruct (Run_locked (mWorkQueue s)).
  - intros [t|]; [|done]. cbn. split; [done|]. apply keeps_bind.
    + apply keeps_catch; [apply client_api_inert, behaves|done].
    + intros _. destruct (app (task_call t)); [done|apply inert_LogError..].
Qed.

Definition all_down (st : client_system) : Prop :=
  down (shared (cl_client st)) ∧ Forall inert (pool (cl_client st)).

Lemma complete_down alive x pr bs w : down w.1 → down (complete alive x pr bs w).1.
Proof.
  unfold complete. revert w. induction bs as [|b bs IH]; intros w Hw; [done|]. cbn. apply IH.
  destruct w as [s ops], Hw as [Hsd Hs]. unfold on_client. cbn in *. rewrite ConnectCompleted_effects, Hs.
  cbn. rewrite andb_false_r. unfold down.
  destruct alive, b, (mOnConnect s), (mOnDisconnect s); done.
Qed.

Lemma all_down_step app `{!Behaves app} st st' : all_down st → cl_step app st st' → all_down st'.
Proof.
  intros [Hd Hth] (l & Hok & He). destruct st as [[s ps tr] alive ss]. cbn in Hd, Hth.
  destruct l as [l|x l|]; cbn in Hok.
  - cbn -[exec_sched] in He. destruct l as [p|i]; cbn in He.
    + rewrite drop_all in He. cbn in He. simplify_eq. split; [done|].
      apply Forall_app_2; [done|]. constructor; [|done]. by eapply client_thread_inert.
    + destruct (ps !! i) as [[r|upd next|e p]|] eqn:Hi; cbn in He; simplify_eq;
        destruct (forallb _ _); simplify_eq; cbn.
      * destruct (proj1 (Forall_lookup _ _) Hth _ _ Hi s Hd) as [? ?]. split; [done|].
        by apply Forall_insert.
      * split; [done|]. apply Forall_insert; [done|]. apply (proj1 (Forall_lookup _ _) Hth _ _ Hi).
  - cbn -[cs_exec complete] in He. destruct (ss !! x) as [se|]; [|done]. cbn -[cs_exec complete] in He.
    destruct (cs_exec _ l _) as [r|] eqn:Hr; [|done]. cbn -[cs_exec complete] in He. injection He as <-.
    split; [|done]. destruct (ce_called _ _ (cs_exec_effect _ l _ r Hok Hr)) as (new & _ & Hc).
    rewrite (proj1 (proj2 (proj2 (set_cli_same _ _)))) in Hc. apply called_same in Hc as [Hs _ _ Hsd _].
    eapply (complete_down alive x (default None (se_promise se))). destruct Hd as [Hd1 Hd2].
    cbn in Hs, Hsd. split; [exact (eq_trans Hsd Hd1)|exact (eq_trans Hs Hd2)].
  - cbn in He. injection He as <-. by split.
Qed.

Lemma settled_inert (ps : list (CLI unit)) : Forall (λ p, ∃ r, p = Done r) ps → Forall inert ps.
Proof. intros Hp. eapply Forall_impl; [exact Hp|]. by intros p [r ->]. Qed.

(** C17. The destructor's work is final: when [Shutdown] has run while no other call was in
    progress, then whatever is called later, and once those calls have returned, every
    session that is still connecting or open closes by itself. *)
Theorem shutdown_disconnects app `{!Behaves app} name settings st st' x se :
  cl_reachable app name settings st → settled (cl_client st) → down (shared (cl_client st)) →
  star (cl_step app) st st' → settled (cl_client st') →
  cl_sessions st' !! x = Some se → se_promise se ≠ None → ¬ cs_over (se_rt se) →
  ∃ m n r', cs_steps (se_ssl se) (replicate (length (cs_tasks (se_rt se))) CTask
              ++ replicate m (CStage None None) ++ replicate n (CWritten None)) (se_rt se) = Some r'
            ∧ mCloseSent (cs_session r') = true
            ∧ ClientSession.mWriteQueue (cs_session r') = [].
Proof.
  intros Hr Hset Hd Hrun Hset' Hx Hpr Hno.
  assert (Hdown : all_down st') .
  { apply (star_invariant all_down _ _) in Hrun; [done|by intros; eapply all_down_step|].
    split; [done|by apply settled_inert]. }
  eapply (client_forgotten_sessions_close app); [by eapply star_trans|done| |done..].
  destruct Hdown as [[_ ->] _]. done.
Qed.

(** ** Concrete runs *)

Definition quiet_app : application := passive (λ _, Returns).

Definition demo_client_run (ls : list cl_label) : client_system :=
  default (cl_init "demo" default_client_settings)
    (cl_exec_all ls (cl_init "demo" default_client_settings)).

Lemma cl_exec_all_star app ls st st' :
  Forall (cl_ok app) ls → cl_exec_all ls st = Some st' → star (cl_step app) st st'.
Proof.
  revert st. induction ls as [|l ls IH]; intros st Hls He; cbn in He; [simplify_eq; constructor|].
  apply Forall_cons in Hls as [Hl Hls].
  destruct (cl_exec l st) as [st1|] eqn:H1; [|done]. cbn in He.
  econstructor; [by exists l|by apply IH].
Qed.

Lemma demo_client_reachable app ls :
  Forall (cl_ok app) ls → cl_reachable app "demo" default_client_settings (demo_client_run ls).
Proof.
  intros Hls. unfold demo_client_run, cl_reachable.
  destruct (cl_exec_all ls _) as [st|] eqn:He; [|constructor]. by eapply cl_exec_all_star.
Qed.

Definition steps (n i : nat) : list cl_label := replicate n (ClThread (SStep i)).

(** Connect and wait; connect again while the first connection is open; shut down. *)
Definition demo_first : list cl_label :=
  ClThread (SCall (call (Connect 7 "localhost" 8080 "/" (Ready (Some true))))) :: steps 7 0
  ++ [ClSession 0 CTask; ClSession 0 (CStage None None); ClSession 0 (CStage None None);
      ClSession 0 (CStage None None)] ++ steps 1 0.
Definition demo_second : list cl_label :=
  demo_first ++ ClThread (SCall (AsyncConnect "localhost" 8080 "/")) :: steps 7 1.
Definition demo_shutdown : list cl_label :=
  demo_second ++ ClThread (SCall CWebsocketClient_delete) :: steps 4 2.

Lemma demo_labels_ok app : Forall (cl_ok app) demo_shutdown.
Proof. repeat (first [apply Forall_cons_2; [by repeat constructor|]|constructor]). Qed.

Lemma demo_second_ok app : Forall (cl_ok app) demo_second.
Proof. pose proof (demo_labels_ok app) as H. unfold demo_shutdown in H. by apply Forall_app in H as []. Qed.

Lemma demo_first_ok app : Forall (cl_ok app) demo_first.
Proof. pose proof (demo_second_ok app) as H. unfold demo_second in H. by apply Forall_app in H as []. Qed.

(** A callback reconnects while the destructor runs: [AsyncConnect] finds the client still
    up, the destructor takes the (missing) session, and then the new session is installed.
    The callback returns, the destructor goes on to stop the queue, the client is gone. *)
Definition demo_race : list cl_label :=
  [ClThread (SCall (AsyncConnect "localhost" 8080 "/")); ClThread (SStep 0);
   ClThread (SCall CWebsocketClient_delete)]
  ++ steps 2 1 ++ steps 5 0 ++ steps 1 1
  ++ [ClGone; ClSession 0 CTask; ClSession 0 (CStage None None); ClSession 0 (CStage None None);
      ClSession 0 (CStage None None)].

Definition demo_session_at (ls : list cl_label) (x : nat) : client_session :=
  default (fresh_session PlainSession default_client_settings)
    (cl_sessions (demo_client_run ls) !! x).

(** A client whose destructor ran while a callback reconnected leaves a connection behind:
    every call has returned and the client is gone, but the session is open, nothing has
    asked it to close and nothing will. *)
Theorem reconnect_outlives_client :
  ∃ ls, Forall (cl_ok quiet_app) ls
    ∧ cl_reachable quiet_app "demo" default_client_settings (demo_client_run ls)
    ∧ settled (cl_client (demo_client_run ls))
    ∧ mShutdown (shared (cl_client (demo_client_run ls))) = true
    ∧ cl_alive (demo_client_run ls) = false
    ∧ ∃ se, cl_sessions (demo_client_run ls) !! 0 = Some se
            ∧ mOpen (cs_session (se_rt se)) = true ∧ ¬ cs_closing (se_rt se).
Proof.
  assert (Hls : Forall (cl_ok quiet_app) demo_race)
    by (repeat (first [apply Forall_cons_2; [by repeat constructor|]|constructor])).
  exists demo_race. split_and!; [done|by apply demo_client_reachable| |by vm_compute|by vm_compute|].
  - unfold settled. vm_compute. repeat constructor; by eexists.
  - exists (demo_session_at demo_race 0). split_and!; [by vm_compute|by vm_compute|].
    unfold cs_closing. vm_compute. intros [?|Hin]; [done|]. by apply not_elem_of_nil in Hin.
Qed.

Lemma client_connections_witness :
  mSession (shared (cl_client (demo_client_run demo_second))) = Some 1
  ∧ is_Some (cl_sessions (demo_client_run demo_second) !! 1)
  ∧ session_open (shared (cl_client (demo_client_run demo_second))) 0 = true.
Proof.
  destruct (client_connections quiet_app "demo" default_client_settings
              (demo_client_run demo_second)) as (Hcur & Hopen & _).
  - apply demo_client_reachable, demo_second_ok.
  - split_and!; [by vm_compute|apply Hcur; by vm_compute|].
    apply Hopen. exists (demo_session_at demo_second 0). split; by vm_compute.
Defined.

Lemma connect_gets_answer_witness :
  promise_sets 7 true (trace (cl_client (demo_client_run demo_second))) = 1
  ∧ promise_sets 7 true (trace (cl_client (demo_client_run demo_second)))
    = size (completed 7 true (cl_sessions (demo_client_run demo_second)))
  ∧ ∃ x, x ∈ completed 7 true (cl_sessions (demo_client_run demo_second)).
Proof.
  destruct (connect_gets_answer quiet_app "demo" default_client_settings
              (demo_client_run demo_second) 7) as (Hn & _ & _ & Hw).
  - apply demo_client_reachable, demo_second_ok.
  - split_and!; [by vm_compute|apply Hn|]. apply (Hw (Some 95%Z)).
    apply list_elem_of_In. vm_compute. tauto.
Defined.

Lemma client_send_reaches_session_witness :
  mSession (shared (cl_client (demo_client_run demo_first))) = Some 0
  ∧ ∃ ops, run (Send demo_out) (shared (cl_client (demo_client_run demo_first)))
           = (Ok tt, shared (cl_client (demo_client_run demo_first)), ops).
Proof.
  split; [by vm_compute|].
  destruct (client_send_reaches_session quiet_app "demo" default_client_settings
              (demo_client_run demo_first) demo_out) as (ops & Hrun & _).
  - apply demo_client_reachable, demo_first_ok.
  - by exists ops.
Defined.

Lemma shutdown_disconnects_witness :
  down (shared (cl_client (demo_client_run demo_shutdown)))
  ∧ mOpen (cs_session (se_rt (demo_session_at demo_shutdown 0))) = true
  ∧ ∃ m n r', cs_steps false
      (replicate (length (cs_tasks (se_rt (demo_session_at demo_shutdown 1)))) CTask
       ++ replicate m (CStage None None) ++ replicate n (CWritten None))
      (se_rt (demo_session_at demo_shutdown 1)) = Some r'
    ∧ mCloseSent (cs_session r') = true ∧ ClientSession.mWriteQueue (cs_session r') = [].
Proof.
  split; [by vm_compute|]. split; [by vm_compute|].
  apply (shutdown_disconnects quiet_app "demo" default_client_settings
           (demo_client_run demo_shutdown) (demo_client_run demo_shutdown) 1
           (demo_session_at demo_shutdown 1)).
  - apply demo_client_reachable, demo_labels_ok.
  - unfold settled. vm_compute. repeat constructor; by eexists.
  - by vm_compute.
  - constructor.
  - unfold settled. vm_compute. repeat constructor; by eexists.
  - by vm_compute.
  - by vm_compute.
  - intros (_ & _ & Hn). vm_compute in Hn. inversion Hn as [|? ? Hx]. discriminate Hx.
Defined.
