(* ===== verification/EndToEnd.v ===== *)
(** * One websocket connection, both ends

    A session of the client ([ClientSession.v]) and the session of the server it is
    connected to ([WsSession.v]), joined by the stream between them.  The stream is not part
    of the repository; what is assumed of it is what a websocket over TCP documents:
    messages arrive once and in the order they were written, possibly not all of them, and a
    read ends with [websocket::error::closed] only when the peer's close frame has arrived,
    which follows all its messages (or when this end has sent one, and the peer's stream
    answers it).  Every other error may end either side at any moment, and the owners of
    the two sessions may call, change state or go away as in the two files. *)

From S2P Require Import Prelude CppString Net Events.
From S2P Require Import WsSession.
From S2P Require Import ClientSession.
From S2P Require Import ClientSteps.

(** ** What each end has received *)

(** The message the server was given by a call of [OnWsMessage] or [OnWsContent]. *)
Definition ws_received (ev : list ws_event) : list frame :=
  omap (λ e, match e with
             | WsSession.EvMessage _ m => Some (true, bytes_of_string m)
             | WsSession.EvContent _ b => Some (false, b)
             | _ => None
             end) ev.

Definition cs_received (ev : list cs_event) : list frame :=
  omap (λ e, match e with
             | EvMessage m => Some (true, bytes_of_string m)
             | EvContent b => Some (false, b)
             | _ => None
             end) ev.

(** What [got_text()] and the buffer hold once the message has been read. *)
Definition ws_got (f : frame) : received := if f.1 then GotText f.2 else GotBinary f.2.

(** The message a step of a session reads. *)
Definition cs_read {Cli} (l : cs_label (Cli:=Cli)) : option frame :=
  match l with CRead (inr f) => Some f | _ => None end.
Definition ws_read {Srv} (l : ws_label (Srv:=Srv)) : option frame :=
  match l with
  | WRead (inr (GotText d)) => Some (true, d)
  | WRead (inr (GotBinary d)) => Some (false, d)
  | _ => None
  end.

Lemma ws_received_app ev ev' : ws_received (ev ++ ev') = ws_received ev ++ ws_received ev'.
Proof. apply omap_app. Qed.

Lemma cs_received_app ev ev' : cs_received (ev ++ ev') = cs_received ev ++ cs_received ev'.
Proof. apply omap_app. Qed.

(** What a step adds to [got] is the message it read, if its owner is there to be told. *)
Definition told {Own} (own : option Own) (f : option frame) : list frame :=
  match own, f with Some _, Some f => [f] | _, _ => [] end.

Lemma told_nothing {Own} (own : option Own) : told own None = [].
Proof. by destruct own. Qed.

Ltac flow_done :=
  split; cbn;
  [first [reflexivity | by apply prefix_app_r]
  | rewrite ?cs_received_app, ?ws_received_app, ?told_nothing; cbn;
    rewrite ?bytes_of_string_of_bytes, ?app_nil_r; done
  | done].

Section ClientFlow.
#[local] Arguments Nat.ltb : simpl never.
#[local] Arguments Nat.eqb : simpl never.
Context {Cli : Type} `{SessionEventsLaws Cli} (IS_SSL : bool).
Implicit Type r : cs_rt Cli.

Record cs_flow (f : option frame) r r' : Prop := {
  cf_wire : cs_wire r `prefix_of` cs_wire r';
  cf_received : cs_received (cs_events r')
                = cs_received (cs_events r) ++ told (cs_cli r) f;
  cf_owner : cs_cli r = None → cs_cli r' = None
}.

Lemma cs_exec_flow l r r' :
  cs_exec IS_SSL l r = Some r' → cs_flow (cs_read l) r r'.
Proof.
  destruct r as [[se q ho po re hh hs oc op cr cs] v tk g rd tx w c fl ft ev wi ac].
  destruct l as [x| |ec sni|[e|[[] b]]|ec| |cli|]; cbn [cs_exec].
  - intros; simplify_eq; flow_done.
  - destruct tk as [|[h p rs hd k0|m|] tk]; intros; simplify_eq; cs_unfold; cs_split; flow_done.
  - destruct g as [|[] g]; intros; simplify_eq; cs_unfold; cs_split; flow_done.
  - destruct rd as [|rd]; [done|]. destruct (fl && _); intros; simplify_eq; cs_unfold; cs_split; flow_done.
  - destruct rd as [|rd]; [done|]. destruct (fl && _); intros; simplify_eq; cs_unfold; cs_split; flow_done.
  - destruct rd as [|rd]; [done|]. destruct (fl && _); intros; simplify_eq; cs_unfold; cs_split; flow_done.
  - destruct w as [|f w]; [done|]. destruct (fl && _); intros; simplify_eq; cs_unfold; cs_split; flow_done.
  - destruct c; intros; simplify_eq; flow_done.
  - destruct v; intros; simplify_eq; flow_done.
  - intros; simplify_eq; flow_done.
Qed.

(** Only an open session writes, accepts messages and sends its close frame. *)
Definition cs_wrote (l : cs_label (Cli:=Cli)) : bool :=
  match l with CWritten None => true | _ => false end.

Lemma cs_exec_frozen l r r' :
  cs_exec IS_SSL l r = Some r' → cs_wrote l = false → mOpen (cs_session r') = false →
  cs_wire r' = cs_wire r ∧ cs_accepted r' = cs_accepted r
  ∧ mCloseSent (cs_session r') = mCloseSent (cs_session r).
Proof.
  destruct r as [[se q ho po re hh hs oc op cr cs] v tk g rd tx w c fl ft ev wi ac].
  destruct l as [x| |ec sni|x|[e|]|cl|cli|]; cbn [cs_exec]; try done.
  - intros; by simplify_eq.
  - destruct tk as [|[h p rs hd k0|m|] tk]; intros ? _; simplify_eq; destruct op.
    3: cs_unfold; cs_split; done.
    3: set (r0 := mkCsRt _ _ _ _ _ _ _ _ _ _ _ _ _);
       by destruct (cs_run_Send_closed m r0 eq_refl) as (v' & ev' & -> & _).
    all: cs_unfold; cs_split; done.
  - destruct g as [|[] g]; intros ? _; simplify_eq; cs_unfold; cs_split; done.
  - destruct rd as [|rd]; [done|]. destruct (fl && _); intros ? _; simplify_eq; cs_unfold; cs_split;
      done.
  - destruct w as [|f w]; [done|]. rewrite andb_false_r. intros ? _; simplify_eq; cs_unfold;
      cs_split; done.
  - destruct c; intros; by simplify_eq.
  - destruct v; intros; by simplify_eq.
  - intros; by simplify_eq.
Qed.

Lemma cs_exec_wrote settings k l r r' :
  cs_inv settings k r → cs_wrote l = true → cs_exec IS_SSL l r = Some r' →
  mOpen (cs_session r') = true.
Proof.
  intros [Hs Hph] Hl He. destruct l as [x| |ec sni|x|[e|]|cl|cli|]; try done.
  destruct (cs_writes r) as [|f w'] eqn:Hw; [destruct r; cbn in *; by subst|].
  destruct Hph as [[Hn _]|[[Hn _]|[[Hn _]|[Ho|Hsh]]]].
  1-3: destruct (not_open_no_read r Hn) as (_ & ? & _); congruence.
  - destruct (cs_run_OnWrite_ok settings k r f w' (conj Hs Ho) Hw) as [_ (Hop & _)].
    pose proof Ho as (_ & _ & _ & _ & Hfl & _). destruct r. cbn in *. subst. cbn in He. by simplify_eq.
  - destruct Hsh as (_ & _ & _ & _ & Hfl & _). destruct r. cbn in *. subst. cbn in He. by simplify_eq.
Qed.

(** Once the close frame is out, everything accepted had been written. *)
Definition cs_flushed r : Prop :=
  mCloseSent (cs_session r) = true → out_frame <$> cs_accepted r = cs_wire r.

Lemma cs_flushed_step settings k l r r' :
  cs_inv settings k r → cs_label_ok l = true → cs_exec IS_SSL l r = Some r' →
  cs_flushed r → cs_flushed r'.
Proof.
  intros Hinv Hl He Hf Hs. pose proof (cs_inv_step IS_SSL settings k l r r' Hl Hinv He) as [_ Hph].
  destruct (mOpen (cs_session r')) eqn:Ho.
  - destruct Hph as [[Hn _]|[[Hn _]|[[Hn _]|[Hop|[Hn _]]]]];
      try (destruct Hn as (? & _)); try congruence.
    destruct Hop as (_ & _ & _ & _ & _ & _ & _ & _ & -> & [_ Hc] & _).
    destruct (Hc Hs) as (_ & -> & _). by rewrite app_nil_r.
  - destruct (cs_wrote l) eqn:Hw.
    + rewrite (cs_exec_wrote settings k l r r') in Ho by done. done.
    + destruct (cs_exec_frozen l r r' He Hw Ho) as (-> & -> & Hcs). apply Hf. congruence.
Qed.

(** The messages posted ahead of the first close. *)
Fixpoint sends_before_close (tk : list cs_task) : list SOutgoingMessage :=
  match tk with
  | [] => []
  | TaskSend m :: tk' => m :: sends_before_close tk'
  | TaskClose :: _ => []
  | TaskConnect _ _ _ _ _ :: tk' => sends_before_close tk'
  end.

(** What an open session has accepted or, unless asked to close, is about to accept. *)
Definition promised r : list SOutgoingMessage :=
  cs_accepted r
  ++ if mCloseRequested (cs_session r) then [] else sends_before_close (cs_tasks r).

Lemma exec_task_promised settings k x tk r :
  live settings k r → cs_tasks r = x :: tk →
  ∃ r', cs_exec IS_SSL CTask r = Some r' ∧ live settings k r' ∧ cs_tasks r' = tk
        ∧ promised r' = promised r ∧ (cs_closing r → cs_closing r').
Proof.
  intros Hl Htk. pose proof Hl as [Hs Ho].
  assert (Hinv : cs_inv settings k r) by (split; auto).
  destruct (cs_exec IS_SSL CTask r) as [r'|] eqn:He; [|destruct r; cbn in Htk; subst; by destruct x].
  pose proof (cs_inv_step IS_SSL settings k CTask r r' eq_refl Hinv He) as Hinv'.
  destruct (exec_task_same IS_SSL r r' He) as (_ & Hop & Htl & _).
  exists r'. split; [done|]. split.
  { apply inv_cases in Hinv' as [Hs' [?|Hc]]; [by split|].
    apply closed_not_open in Hc. destruct Ho as (Ho & _). congruence. }
  split; [by rewrite Htl, Htk|]. split; [|by apply (cs_exec_effect IS_SSL CTask)].
  destruct Ho as (Hopen & _ & _ & Hnc & _). rewrite Htk in Hnc. apply Forall_cons in Hnc as [Hx _].
  clear Hl Hinv Hinv' Hop Htl.
  destruct r as [[se q ho po re hh hs oc op cr cs] v tk' g rd tx w c fl ft ev wi ac].
  cbn in Htk, Hopen. subst. cbn [cs_exec] in He. unfold promised.
  destruct x as [|m|]; [done|injection He as <-..].
  - cs_unfold. destruct cr; cbn; [destruct v; cbn; try cs_calls; by rewrite Nat.ltb_irrefl|].
    destruct Hs as (_ & _ & Hm). specialize (Hm m ltac:(left)).
    destruct q as [|p q]; cbn.
    + change (1 =? 1) with true. cbn. rewrite (out_ok_buffer m Hm). cbn.
      rewrite (proj2 (Nat.ltb_lt _ _)) by lia. by rewrite <-app_assoc.
    + rewrite length_app, Nat.add_1_r. change (S (S (length q)) =? 1) with false. cbn.
      rewrite length_app, Nat.add_1_r, (proj2 (Nat.ltb_lt _ _)) by lia. cbn. by rewrite <-app_assoc.
  - cs_unfold. destruct cr; cs_split; cbn; by rewrite ?app_nil_r.
Qed.

(** All that was promised is accepted once the posted closures have run. *)
Lemma run_promised settings k tk r :
  live settings k r → cs_tasks r = tk → cs_closing r →
  ∃ r', cs_steps IS_SSL (replicate (length tk) CTask) r = Some r' ∧ live settings k r'
        ∧ mCloseRequested (cs_session r') = true ∧ cs_accepted r' = promised r.
Proof.
  revert r. induction tk as [|x tk IH]; intros r Hl Htk Hc.
  - destruct Hc as [Hcr|Hin]; [|by rewrite Htk in Hin; apply not_elem_of_nil in Hin].
    exists r. unfold promised. rewrite Hcr, app_nil_r. by split_and!.
  - destruct (exec_task_promised settings k x tk r Hl Htk) as (r1 & He & Hl1 & Htk1 & Hp & Hc1).
    destruct (IH r1 Hl1 Htk1 (Hc1 Hc)) as (r' & Hr' & ? & ? & ?). exists r'.
    cbn [length replicate cs_steps]. rewrite He. split_and!; [done..|congruence].
Qed.

(** A closing session writes all it promised, then its close frame. *)
Lemma cs_flush settings k r :
  live settings k r → cs_closing r →
  ∃ n r', cs_steps IS_SSL (replicate (length (cs_tasks r)) CTask ++ replicate n (CWritten None)) r
            = Some r'
          ∧ live settings k r' ∧ mCloseSent (cs_session r') = true
          ∧ cs_wire r' = out_frame <$> promised r.
Proof.
  intros Hl Hc. destruct (run_promised settings k _ r Hl eq_refl Hc) as (r1 & He & Hl1 & Hcr & Hp).
  destruct (cs_drain IS_SSL settings k _ r1 Hl1 eq_refl Hcr) as (r' & He' & Hs & Hq & Hl' & Ha).
  exists (length (mWriteQueue (cs_session r1))), r'.
  rewrite (cs_steps_app _ _ _ _ _ He). split_and!; [done..|].
  destruct Hl' as (_ & _ & _ & _ & _ & _ & _ & _ & _ & Hw & _). rewrite Hq, app_nil_r in Hw.
  by rewrite <-Hw, Ha, Hp.
Qed.
End ClientFlow.

Section ServerFlow.
#[local] Arguments Nat.ltb : simpl never.
#[local] Arguments Nat.eqb : simpl never.
Context {Srv : Type} `{ServerEventsLaws Srv} (IS_SSL : bool) (self : nat).
Implicit Type r : ws_rt Srv.

Record ws_flow (f : option frame) r r' : Prop := {
  wf_wire : rt_wire r `prefix_of` rt_wire r';
  wf_received : ws_received (rt_events r')
                = ws_received (rt_events r) ++ told (rt_srv r) f;
  wf_owner : rt_srv r = None → rt_srv r' = None
}.

Lemma ws_exec_flow l r r' :
  ws_exec IS_SSL self true l r = Some r' → ws_flow (ws_read l) r r'.
Proof.
  destruct r as [[st q tg id op cr cs dl] v tk a rd tx w c fl ft ev wi ac].
  destruct l as [x| |ec|[e|[b|b]]|ec| |srv|]; cbn [ws_exec].
  - intros; simplify_eq; flow_done.
  - destruct tk as [|[m|] tk]; intros; simplify_eq; ws_run; ws_cases; flow_done.
  - destruct a; intros; simplify_eq; ws_run; ws_cases; flow_done.
  - destruct rd as [|rd]; [done|]. destruct (_ && _); intros; simplify_eq; destruct op, v; unfold WsSession.OnRead, WsSession.HandleClosed; ws_run; ws_cases; flow_done.
  - destruct rd as [|rd]; [done|]. destruct (_ && _); intros; simplify_eq; ws_run; ws_cases; flow_done.
  - destruct rd as [|rd]; [done|]. destruct (_ && _); intros; simplify_eq; ws_run; ws_cases; flow_done.
  - destruct w as [|f w]; [done|]. destruct (_ && _); intros; simplify_eq; destruct op, v; unfold WsSession.OnWrite, WsSession.HandleClosed; ws_run; ws_cases; flow_done.
  - destruct c; intros; simplify_eq; flow_done.
  - destruct v; intros; simplify_eq; flow_done.
  - intros; simplify_eq; flow_done.
Qed.

Definition ws_wrote (l : ws_label (Srv:=Srv)) : bool :=
  match l with WWritten None => true | _ => false end.

Lemma ws_exec_frozen l r r' :
  ws_exec IS_SSL self true l r = Some r' → ws_wrote l = false →
  WsSession.mOpen (rt_session r') = false →
  rt_wire r' = rt_wire r ∧ rt_accepted r' = rt_accepted r
  ∧ WsSession.mCloseSent (rt_session r') = WsSession.mCloseSent (rt_session r).
Proof.
  destruct r as [[st q tg id op cr cs dl] v tk a rd tx w c fl ft ev wi ac].
  destruct l as [x| |ec|[e|[b|b]]|[e|]| |srv|]; cbn [ws_exec]; try done.
  - intros; by simplify_eq.
  - destruct tk as [|[m|] tk]; intros ? _; simplify_eq; destruct op.
    2: rewrite run_Send_closed by done;
       unfold note_accepted; cbn; by rewrite Nat.ltb_irrefl.
    all: ws_run; ws_cases; done.
  - destruct a; intros ? _; simplify_eq; ws_run; ws_cases; done.
  - destruct rd as [|rd]; [done|]. destruct (_ && _); intros ? _; simplify_eq.
    destruct op, v; unfold WsSession.OnRead, WsSession.HandleClosed; ws_run; ws_cases; done.
  - destruct rd as [|rd]; [done|]. destruct (_ && _); intros ? _; simplify_eq; ws_run; ws_cases; done.
  - destruct rd as [|rd]; [done|]. destruct (_ && _); intros ? _; simplify_eq; ws_run; ws_cases; done.
  - destruct w as [|f w]; [done|]. rewrite andb_false_r. intros ? _; simplify_eq.
    destruct op, v; unfold WsSession.OnWrite, WsSession.HandleClosed; ws_run; ws_cases; done.
  - destruct c; intros; by simplify_eq.
  - destruct v; intros; by simplify_eq.
  - intros; by simplify_eq.
Qed.

Lemma ws_exec_wrote settings l r r' :
  ws_inv settings r → ws_wrote l = true → ws_exec IS_SSL self true l r = Some r' →
  WsSession.mOpen (rt_session r') = true.
Proof.
  intros [Hs Hph] Hl He. destruct l as [x| |ec|x|[e|]| |srv|]; try done.
  destruct (rt_writes r) as [|f w'] eqn:Hw; [destruct r; cbn in *; by subst|].
  destruct Hph as [Hi|[Ho|Hsh]].
  - destruct Hi as (_ & _ & _ & _ & _ & ? & _). congruence.
  - destruct (run_OnWrite_ok settings r w' (conj Hs Ho) (ex_intro _ f Hw)) as [_ (Hop & _)].
    pose proof Ho as (_ & _ & Hfl & _). destruct r. cbn in *. subst. cbn in He. by simplify_eq.
  - destruct Hsh as (_ & _ & Hfl & _). destruct r. cbn in *. subst. cbn in He. by simplify_eq.
Qed.

Definition ws_flushed r : Prop :=
  WsSession.mCloseSent (rt_session r) = true → frame_of <$> rt_accepted r = rt_wire r.

Lemma ws_flushed_step settings l r r' :
  ws_inv settings r → label_ok l = true → ws_exec IS_SSL self true l r = Some r' →
  ws_flushed r → ws_flushed r'.
Proof.
  intros Hinv Hl He Hf Hs. pose proof (ws_inv_step IS_SSL self settings l r r' Hl Hinv He) as [_ Hph].
  destruct (WsSession.mOpen (rt_session r')) eqn:Ho.
  - destruct Hph as [(? & _)|[Hop|(? & _)]]; try congruence.
    destruct Hop as (_ & _ & _ & _ & _ & _ & -> & [_ Hc] & _).
    destruct (Hc Hs) as (_ & -> & _). by rewrite app_nil_r.
  - destruct (ws_wrote l) eqn:Hw.
    + rewrite (ws_exec_wrote settings l r r') in Ho by done. done.
    + destruct (ws_exec_frozen l r r' He Hw Ho) as (-> & -> & Hcs). apply Hf. congruence.
Qed.

(** An open session that is reading is reading again after each message. *)
Definition ws_listening settings r : Prop :=
  WsSession.live settings r ∧ 0 < rt_reads r ∧ is_Some (rt_srv r).

Lemma ws_exec_listening settings got r :
  ws_listening settings r →
  ∃ r', ws_exec IS_SSL self true (WRead (inr got)) r = Some r' ∧ ws_listening settings r'
        ∧ WsSession.mClientId (rt_session r') = WsSession.mClientId (rt_session r).
Proof.
  intros (Hl & Hrd & [v Hv]). pose proof (run_OnRead_got settings got r Hl Hrd) as Hl'.
  destruct Hl as (_ & _ & _ & Hfl & _). eexists.
  split; [|split; [split; [exact Hl'|]|]]; clear Hl';
    destruct r as [s ? tk a rd tx w c fl ft ev wi ac]; cbn in *; subst;
    (destruct rd as [|rd]; [lia|]); [done|..]; destruct got; ws_run; ws_cases; split; eauto; lia.
Qed.

(** The peer's close frame ends the read: the session reports it and is closed. *)
Lemma ws_exec_closed settings ec r :
  ws_listening settings r → ec_is EcClosed ec = true →
  ∃ r', ws_exec IS_SSL self true (WRead (inl ec)) r = Some r'
        ∧ rt_events r' = rt_events r ++ [WsSession.EvClosed (WsSession.mClientId (rt_session r))]
        ∧ WsSession.mOpen (rt_session r') = false.
Proof.
  intros ((_ & Hop & _) & Hrd & [v Hv]) Hec.
  destruct r as [s ? tk a rd tx w c fl ft ev wi ac]. cbn in Hop, Hrd, Hv. subst.
  destruct rd as [|rd]; [lia|]. destruct (HandleClosed_reports s v ec Hop) as [v' Hc].
  cbn [ws_exec]. rewrite andb_false_r. eexists. split; [reflexivity|].
  unfold run_handler, WsSession.OnRead. rewrite Hc, apply_events.
  unfold close_report, expected_close. by rewrite Hec.
Qed.
End ServerFlow.

(** ** The connection *)

Section Link.
Context {Cli : Type} `{SessionEventsLaws Cli} {Srv : Type} `{ServerEventsLaws Srv}.
Context (IS_SSL : bool) (self k : nat).
Context (client_settings : CClientSettings) (server_settings : CServerSettings).

(** The two sessions, and how many of the messages each wrote have been read. *)
Record link := mkLink {
  lk_client : cs_rt Cli;
  lk_server : ws_rt Srv;
  lk_up : nat;       (** client to server *)
  lk_down : nat      (** server to client *)
}.
Implicit Type q : link.

Inductive lk_label :=
  | LkClient (l : cs_label (Cli:=Cli))  (** any step of the client's side but a message read *)
  | LkServer (l : ws_label (Srv:=Srv))  (** the same of the server's *)
  | LkUp                                (** the server reads the client's next message *)
  | LkDown.                             (** the client reads the server's next message *)

(** Whether a read may end with [ec] at the side whose own close frame is [own_sent],
    after [arrived] of the messages [wire] of its peer. *)
Definition end_ok (ec : error_code) (own_sent peer_sent : bool) (arrived : nat)
    (wire : list frame) : bool :=
  negb (ec_is EcClosed ec) || own_sent || (peer_sent && Nat.eqb arrived (length wire)).

Definition lk_exec (l : lk_label) q : option link :=
  let '(mkLink c s up down) := q in
  match l with
  | LkClient (CRead (inr _)) | LkServer (WRead (inr _)) => None
  | LkClient l =>
      if match l with
         | CRead (inl ec) => end_ok ec (mCloseSent (cs_session c))
                               (WsSession.mCloseSent (rt_session s)) down (rt_wire s)
         | _ => true
         end
      then match cs_exec IS_SSL l c with Some c' => Some (mkLink c' s up down) | None => None end
      else None
  | LkServer l =>
      if match l with
         | WRead (inl ec) => end_ok ec (WsSession.mCloseSent (rt_session s))
                               (mCloseSent (cs_session c)) up (cs_wire c)
         | _ => true
         end
      then match ws_exec IS_SSL self true l s with
           | Some s' => Some (mkLink c s' up down)
           | None => None
           end
      else None
  | LkUp =>
      match cs_wire c !! up with
      | Some f =>
          match ws_exec IS_SSL self true (WRead (inr (ws_got f))) s with
          | Some s' => Some (mkLink c s' (S up) down)
          | None => None
          end
      | None => None
      end
  | LkDown =>
      match rt_wire s !! down with
      | Some f =>
          match cs_exec IS_SSL (CRead (inr f)) c with
          | Some c' => Some (mkLink c' s up (S down))
          | None => None
          end
      | None => None
      end
  end.

Fixpoint lk_exec_all (ls : list lk_label) q : option link :=
  match ls with
  | [] => Some q
  | l :: ls' => match lk_exec l q with Some q' => lk_exec_all ls' q' | None => None end
  end.

Definition lk_label_ok (l : lk_label) : bool :=
  match l with LkClient l => cs_label_ok l | LkServer l => label_ok l | _ => true end.

Definition lk_step q q' : Prop := ∃ l, lk_label_ok l = true ∧ lk_exec l q = Some q'.

(** The client's session starts with [AsyncConnect], the server's with [Accept]. *)
Definition lk_start (cli : option Cli) (host : string) (port : Z) (resource : string)
    (headers : CHandshakeHeaders) (srv : option Srv) (target : string) : link :=
  mkLink (cs_start client_settings cli host port resource headers k)
    (ws_start server_settings srv target) 0 0.

Definition lk_reachable q : Prop :=
  ∃ cli host port resource headers srv target,
    star lk_step (lk_start cli host port resource headers srv target) q.

(** *** Invariant *)

(** [got] is what the owner of one side was given of the first [n] messages of [wire]:
    all of them while it is there. *)
Definition arrived {Own} (own : option Own) (got : list frame) (n : nat) (wire : list frame)
    : Prop :=
  n ≤ length wire ∧ got `prefix_of` take n wire ∧ (is_Some own → got = take n wire).

Record lk_inv q : Prop := {
  li_client : cs_inv client_settings k (lk_client q);
  li_server : ws_inv server_settings (lk_server q);
  li_client_flushed : cs_flushed (lk_client q);
  li_server_flushed : ws_flushed (lk_server q);
  li_up : arrived (rt_srv (lk_server q)) (ws_received (rt_events (lk_server q))) (lk_up q)
            (cs_wire (lk_client q));
  li_down : arrived (cs_cli (lk_client q)) (cs_received (cs_events (lk_client q))) (lk_down q)
              (rt_wire (lk_server q))
}.

(** The sender writes more. *)
Lemma arrived_wire {Own} (own : option Own) got n wire wire' :
  wire `prefix_of` wire' → arrived own got n wire → arrived own got n wire'.
Proof.
  intros [w ->] (Hn & Hp & Hall). unfold arrived.
  rewrite length_app, take_app_le by lia. split_and!; [lia|done|done].
Qed.

(** The receiver reads nothing; its owner may go away. *)
Lemma arrived_quiet {Own} (own own' : option Own) got n wire :
  (own = None → own' = None) → arrived own got n wire → arrived own' got n wire.
Proof.
  intros Ho (Hn & Hp & Hall). split_and!; [done|done|]. intros [x ->]. apply Hall.
  destruct own; [done|]. by specialize (Ho eq_refl).
Qed.

(** The receiver reads the next message. *)
Lemma arrived_next {Own} (own own' : option Own) got n wire f :
  (own = None → own' = None) → wire !! n = Some f → arrived own got n wire →
  arrived own' (got ++ told own (Some f)) (S n) wire.
Proof.
  intros Ho Hf (Hn & Hp & Hall). pose proof (lookup_lt_Some _ _ _ Hf).
  unfold arrived. rewrite (take_S_r _ _ _ Hf). destruct own as [x|]; cbn.
  - rewrite Hall by done. split_and!; [lia|done|done].
  - rewrite app_nil_r, (Ho eq_refl). split_and!; [lia|by apply prefix_app_r|by intros [? ?]].
Qed.

Lemma lk_exec_client l q q' :
  lk_exec (LkClient l) q = Some q' →
  cs_read l = None
  ∧ (∃ c', cs_exec IS_SSL l (lk_client q) = Some c'
           ∧ q' = mkLink c' (lk_server q) (lk_up q) (lk_down q))
  ∧ (∀ ec, l = CRead (inl ec) →
     end_ok ec (mCloseSent (cs_session (lk_client q)))
       (WsSession.mCloseSent (rt_session (lk_server q))) (lk_down q) (rt_wire (lk_server q)) = true).
Proof.
  destruct q as [c s up down]. unfold lk_exec.
  destruct l as [x| |ec sni|[e|f]|[e|]| |cli|]; try done; cbn [lk_client lk_server lk_up lk_down].
  4: destruct (end_ok _ _ _ _ _) eqn:Hok; [|done].
  all: destruct (cs_exec _ _ c) as [c'|]; [|done]; intros; simplify_eq;
    split_and!; [done|by exists c'|intros; by simplify_eq].
Qed.

Lemma lk_exec_server l q q' :
  lk_exec (LkServer l) q = Some q' →
  ws_read l = None
  ∧ (∃ s', ws_exec IS_SSL self true l (lk_server q) = Some s'
           ∧ q' = mkLink (lk_client q) s' (lk_up q) (lk_down q))
  ∧ (∀ ec, l = WRead (inl ec) →
     end_ok ec (WsSession.mCloseSent (rt_session (lk_server q)))
       (mCloseSent (cs_session (lk_client q))) (lk_up q) (cs_wire (lk_client q)) = true).
Proof.
  destruct q as [c s up down]. unfold lk_exec.
  destruct l as [x| |ec|[e|f]|[e|]| |srv|]; try done; cbn [lk_client lk_server lk_up lk_down].
  4: destruct (end_ok _ _ _ _ _) eqn:Hok; [|done].
  all: destruct (ws_exec _ _ _ _ s) as [s'|]; [|done]; intros; simplify_eq;
    split_and!; [done|by exists s'|intros; by simplify_eq].
Qed.

(** Either side moves; [f] is what it read. *)
Lemma lk_inv_client l q c' down' :
  lk_inv q → cs_label_ok l = true → cs_exec IS_SSL l (lk_client q) = Some c' →
  arrived (cs_cli c') (cs_received (cs_events (lk_client q)) ++ told (cs_cli (lk_client q)) (cs_read l))
    down' (rt_wire (lk_server q)) →
  lk_inv (mkLink c' (lk_server q) (lk_up q) down').
Proof.
  intros [Hc Hs Hfc Hfs Hup Hdown] Hl He Ha.
  destruct (cs_exec_flow IS_SSL l _ _ He) as [Hw Hr Ho]. split; cbn; try done.
  - by eapply cs_inv_step.
  - by eapply cs_flushed_step.
  - by eapply arrived_wire.
  - by rewrite Hr.
Qed.

Lemma lk_inv_server l q s' up' :
  lk_inv q → label_ok l = true → ws_exec IS_SSL self true l (lk_server q) = Some s' →
  arrived (rt_srv s') (ws_received (rt_events (lk_server q)) ++ told (rt_srv (lk_server q)) (ws_read l))
    up' (cs_wire (lk_client q)) →
  lk_inv (mkLink (lk_client q) s' up' (lk_down q)).
Proof.
  intros [Hc Hs Hfc Hfs Hup Hdown] Hl He Ha.
  destruct (ws_exec_flow IS_SSL self l _ _ He) as [Hw Hr Ho]. split; cbn; try done.
  - by eapply ws_inv_step.
  - by eapply ws_flushed_step.
  - by rewrite Hr.
  - by eapply arrived_wire.
Qed.

Lemma ws_read_got (f : frame) : ws_read (Srv:=Srv) (WRead (inr (ws_got f))) = Some f.
Proof. by destruct f as [[] b]. Qed.

Lemma lk_inv_step l q q' :
  lk_label_ok l = true → lk_inv q → lk_exec l q = Some q' → lk_inv q'.
Proof.
  intros Hl Hinv He. destruct l as [l|l| |].
  - destruct (lk_exec_client l q q' He) as (Hr & (c' & Hc & ->) & _).
    eapply lk_inv_client; [done..|]. rewrite Hr, told_nothing, app_nil_r.
    eapply arrived_quiet; [|apply Hinv]. apply (cs_exec_flow IS_SSL l _ _ Hc).
  - destruct (lk_exec_server l q q' He) as (Hr & (s' & Hs & ->) & _).
    eapply lk_inv_server; [done..|]. rewrite Hr, told_nothing, app_nil_r.
    eapply arrived_quiet; [|apply Hinv]. apply (ws_exec_flow IS_SSL self l _ _ Hs).
  - destruct q as [c s up down]. cbn in He. destruct (cs_wire c !! up) as [f|] eqn:Hf; [|done].
    destruct (ws_exec _ _ _ _ s) as [s'|] eqn:Hs; [|done]. simplify_eq.
    eapply (lk_inv_server _ (mkLink c s up down)); [done| |exact Hs|]; [done|].
    rewrite ws_read_got. eapply arrived_next; [|done|apply (li_up _ Hinv)].
    apply (ws_exec_flow IS_SSL self _ _ _ Hs).
  - destruct q as [c s up down]. cbn in He. destruct (rt_wire s !! down) as [f|] eqn:Hf; [|done].
    destruct (cs_exec _ _ c) as [c'|] eqn:Hc; [|done]. simplify_eq.
    eapply (lk_inv_client _ (mkLink c s up down)); [done| |exact Hc|]; [done|].
    eapply arrived_next; [|done|apply (li_down _ Hinv)].
    apply (cs_exec_flow IS_SSL _ _ _ Hc).
Qed.

Lemma lk_reachable_inv q : lk_reachable q → lk_inv q.
Proof.
  intros (cli & host & port & resource & headers & srv & target & Hrun).
  apply (star_invariant lk_inv _ _) in Hrun; [done| |].
  - intros x y Hx (l & Hl & He). by eapply lk_inv_step.
  - unfold lk_start. split; cbn; [apply cs_inv_start|apply inv_start|done..| |].
    all: split_and!; [lia|done|done].
Qed.

Lemma lk_exec_all_app ls1 ls2 q q1 :
  lk_exec_all ls1 q = Some q1 → lk_exec_all (ls1 ++ ls2) q = lk_exec_all ls2 q1.
Proof.
  revert q. induction ls1 as [|l ls1 IH]; intros q He; cbn in *; [by simplify_eq|].
  destruct (lk_exec l q); [by apply IH|done].
Qed.

Lemma lk_exec_all_inv ls q q' :
  forallb lk_label_ok ls = true → lk_inv q → lk_exec_all ls q = Some q' → lk_inv q'.
Proof.
  revert q. induction ls as [|l ls IH]; intros q Hok Hinv He; cbn in *; [by simplify_eq|].
  apply andb_prop in Hok as [Hl Hok]. destruct (lk_exec l q) as [q1|] eqn:Hq; [|done].
  eapply IH; [done| |done]. by eapply lk_inv_step.
Qed.

(** Steps of the client's session that read nothing are steps of the connection. *)
Lemma lk_client_steps ls c c' s up down :
  forallb (λ l, match l with CRead _ => false | _ => true end) ls = true →
  cs_steps IS_SSL ls c = Some c' →
  lk_exec_all (LkClient <$> ls) (mkLink c s up down) = Some (mkLink c' s up down).
Proof.
  revert c. induction ls as [|l ls IH]; intros c Hok He; cbn -[lk_exec] in *; [by simplify_eq|].
  apply andb_prop in Hok as [Hl Hok]. destruct (cs_exec IS_SSL l c) as [c1|] eqn:Hc; [|done].
  assert (lk_exec (LkClient l) (mkLink c s up down) = Some (mkLink c1 s up down)) as ->.
  { cbn. destruct l; try done; by rewrite Hc. }
  by apply IH.
Qed.

(** A server that is reading gets everything its client wrote. *)
Lemma lk_deliver n c s up down :
  ws_listening server_settings s → up + n = length (cs_wire c) →
  ∃ s', lk_exec_all (replicate n LkUp) (mkLink c s up down)
          = Some (mkLink c s' (length (cs_wire c)) down)
        ∧ ws_listening server_settings s'
        ∧ WsSession.mClientId (rt_session s') = WsSession.mClientId (rt_session s).
Proof.
  revert s up. induction n as [|n IH]; intros s up Hs Hn.
  - exists s. rewrite <-Hn, Nat.add_0_r. by split_and!.
  - destruct (lookup_lt_is_Some_2 (cs_wire c) up) as [f Hf]; [lia|].
    destruct (ws_exec_listening IS_SSL self server_settings (ws_got f) s Hs) as (s1 & He & Hs1 & Hid).
    destruct (IH s1 (S up) Hs1) as (s' & Hr & Hs' & Hid'); [lia|]. exists s'.
    cbn [replicate lk_exec_all lk_exec]. rewrite Hf, He. split_and!; [done..|congruence].
Qed.

(** A closing client gets everything it promised across. *)
Lemma lk_flush q :
  lk_inv q → live client_settings k (lk_client q) → cs_closing (lk_client q) →
  ws_listening server_settings (lk_server q) →
  ∃ ls q', forallb lk_label_ok ls = true ∧ lk_exec_all ls q = Some q'
    ∧ mCloseSent (cs_session (lk_client q')) = true
    ∧ cs_wire (lk_client q') = out_frame <$> promised (lk_client q)
    ∧ lk_up q' = length (cs_wire (lk_client q'))
    ∧ ws_listening server_settings (lk_server q')
    ∧ WsSession.mClientId (rt_session (lk_server q'))
      = WsSession.mClientId (rt_session (lk_server q)).
Proof.
  intros Hinv Hlc Hcl Hls. destruct q as [c s up down]. cbn in *.
  destruct (cs_flush IS_SSL client_settings k c Hlc Hcl) as (n & c' & Hsteps & _ & Hsent & Hw).
  set (ls := replicate _ CTask ++ replicate n (CWritten None)) in Hsteps.
  assert (He : lk_exec_all (LkClient <$> ls) (mkLink c s up down) = Some (mkLink c' s up down)).
  { apply lk_client_steps; [|done]. subst ls. by rewrite forallb_app, !forallb_replicate. }
  assert (Hok : forallb lk_label_ok (LkClient <$> ls) = true).
  { subst ls. by rewrite fmap_app, !fmap_replicate, forallb_app, !forallb_replicate. }
  destruct (li_up _ (lk_exec_all_inv _ _ _ Hok Hinv He)) as [Hup _]. cbn in Hup.
  destruct (lk_deliver (length (cs_wire c') - up) c' s up down Hls) as (s' & He' & Hs' & Hid);
    [lia|].
  eexists ((LkClient <$> ls) ++ replicate _ LkUp), _.
  rewrite forallb_app, Hok, forallb_replicate, (lk_exec_all_app _ _ _ _ He) by done.
  split; [done|]. split; [exact He'|]. by split_and!.
Qed.

End Link.

Lemma cs_wire_accepted {Cli} settings k (r : cs_rt Cli) :
  cs_inv settings k r → cs_wire r `prefix_of` (out_frame <$> cs_accepted r).
Proof.
  intros [_ [[Hn _]|[[Hn _]|[[Hn _]|[Ho|Hsh]]]]].
  1-3: by destruct Hn as (_ & _ & _ & _ & _ & _ & _ & -> & ->).
  - destruct Ho as (_ & _ & _ & _ & _ & _ & _ & _ & -> & _). by apply prefix_app_r.
  - by destruct Hsh as (_ & _ & _ & _ & _ & _ & _ & _ & ? & _).
Qed.

Lemma ws_wire_accepted {Srv} settings (r : ws_rt Srv) :
  ws_inv settings r → rt_wire r `prefix_of` (frame_of <$> rt_accepted r).
Proof.
  intros [_ [Hi|[Ho|Hsh]]].
  - by destruct Hi as (_ & _ & _ & _ & _ & _ & _ & _ & _ & -> & -> & _).
  - destruct Ho as (_ & _ & _ & _ & _ & _ & -> & _). by apply prefix_app_r.
  - by destruct Hsh as (_ & _ & _ & _ & _ & _ & ? & _).
Qed.

(** ** Properties of the connection *)

Section Properties.
Context {Cli : Type} `{SessionEventsLaws Cli} {Srv : Type} `{ServerEventsLaws Srv}.
Context (IS_SSL : bool) (self k : nat).
Context (client_settings : CClientSettings) (server_settings : CServerSettings).
Implicit Type q : link (Cli:=Cli) (Srv:=Srv).

(** C12. Whatever fails on either side and however the steps interleave, each side's
    application is given messages the other side accepted, unchanged, in the order they
    were accepted, without a gap and without a repetition. *)
Theorem messages_arrive_in_order q :
  lk_reachable IS_SSL self k client_settings server_settings q →
  ws_received (rt_events (lk_server q))
    `prefix_of` (out_frame <$> cs_accepted (lk_client q))
  ∧ cs_received (cs_events (lk_client q))
    `prefix_of` (frame_of <$> rt_accepted (lk_server q)).
Proof.
  intros [Hc Hs _ _ (_ & Hu & _) (_ & Hd & _)]%lk_reachable_inv. split.
  - rewrite Hu, prefix_take. by eapply cs_wire_accepted.
  - rewrite Hd, prefix_take. by eapply ws_wire_accepted.
Qed.

(** C13. A side that reads the end of the connection without having closed it itself has been
    given, if its owner is still there, every message the other side ever accepted. *)
Theorem closed_means_complete q q' ec :
  lk_reachable IS_SSL self k client_settings server_settings q → ec_is EcClosed ec = true →
  (lk_exec IS_SSL self (LkServer (WRead (inl ec))) q = Some q' →
   WsSession.mCloseSent (rt_session (lk_server q)) = false → is_Some (rt_srv (lk_server q)) →
   ws_received (rt_events (lk_server q')) = out_frame <$> cs_accepted (lk_client q'))
  ∧ (lk_exec IS_SSL self (LkClient (CRead (inl ec))) q = Some q' →
     mCloseSent (cs_session (lk_client q)) = false → is_Some (cs_cli (lk_client q)) →
     cs_received (cs_events (lk_client q')) = frame_of <$> rt_accepted (lk_server q')).
Proof.
  intros [_ _ Hfc Hfs (_ & _ & Hu) (_ & _ & Hd)]%lk_reachable_inv Hec. split; intros He Hno Ho.
  - destruct (lk_exec_server _ _ _ _ _ He) as (_ & (s' & Hs & ->) & Hok).
    specialize (Hok ec eq_refl). unfold end_ok in Hok. rewrite Hec, Hno in Hok.
    apply andb_prop in Hok as [Hsent Hall%Nat.eqb_eq]. cbn.
    destruct (ws_exec_flow _ _ _ _ _ Hs) as [_ -> _].
    rewrite told_nothing, app_nil_r, Hu, take_ge by (done || lia). symmetry. by apply Hfc.
  - destruct (lk_exec_client _ _ _ _ _ He) as (_ & (c' & Hc & ->) & Hok).
    specialize (Hok ec eq_refl). unfold end_ok in Hok. rewrite Hec, Hno in Hok.
    apply andb_prop in Hok as [Hsent Hall%Nat.eqb_eq]. cbn.
    destruct (cs_exec_flow _ _ _ _ Hc) as [_ -> _].
    rewrite told_nothing, app_nil_r, Hd, take_ge by (done || lia). symmetry. by apply Hfs.
Qed.

(** C14. A close of the client loses nothing: from every reachable state in which the client's
    session is open and about to close and the server's is reading, the connection can run
    to a state in which the server's application was given everything the client had
    accepted and everything posted ahead of the close, and then the end of the connection. *)
Theorem close_delivers_everything q :
  lk_reachable IS_SSL self k client_settings server_settings q →
  mOpen (cs_session (lk_client q)) = true → cs_closing (lk_client q) →
  WsSession.mOpen (rt_session (lk_server q)) = true → 0 < rt_reads (lk_server q) →
  is_Some (rt_srv (lk_server q)) →
  ∃ ls q', forallb lk_label_ok ls = true ∧ lk_exec_all IS_SSL self ls q = Some q'
    ∧ ws_received (rt_events (lk_server q')) = out_frame <$> promised (lk_client q)
    ∧ last (rt_events (lk_server q'))
      = Some (WsSession.EvClosed (WsSession.mClientId (rt_session (lk_server q))))
    ∧ WsSession.mOpen (rt_session (lk_server q')) = false.
Proof.
  intros Hinv%lk_reachable_inv Hoc Hcl Hos Hrd Hsrv.
  assert (Hlc : live client_settings k (lk_client q)).
  { destruct (li_client _ _ _ _ Hinv) as [? [[[? _] _]|[[[? _] _]|[[[? _] _]|[?|[? _]]]]]];
      [congruence..|by split|congruence]. }
  assert (Hls : ws_listening server_settings (lk_server q)).
  { split_and!; [|done..].
    destruct (li_server _ _ _ _ Hinv) as [? [[? _]|[?|[? _]]]]; [congruence|by split|congruence]. }
  destruct (lk_flush IS_SSL self k _ _ q Hinv Hlc Hcl Hls)
    as (ls & q1 & Hok & He & Hsent & Hw & Hup & Hls1 & Hid).
  set (eof := mkEc EcClosed "closed" "closed").
  destruct (ws_exec_closed IS_SSL self server_settings eof _ Hls1 eq_refl) as (s' & Hs' & Hev & Ho').
  exists (ls ++ [LkServer (WRead (inl eof))]),
    (mkLink (lk_client q1) s' (lk_up q1) (lk_down q1)).
  rewrite forallb_app, Hok, (lk_exec_all_app _ _ _ _ _ _ He). cbn [lk_server].
  split; [done|]. split; [|split; [|split; [|done]]].
  - destruct q1 as [c1 s1 up1 down1]. cbn in *. unfold end_ok.
    by rewrite Hsent, Hup, Nat.eqb_refl, orb_true_r, Hs'.
  - rewrite Hev, ws_received_app. cbn. rewrite app_nil_r, <-Hw.
    destruct (li_up _ _ _ _ (lk_exec_all_inv IS_SSL self k _ _ ls q q1 Hok Hinv He)) as (_ & _ & ->);
      [|apply Hls1].
    by rewrite Hup, take_ge.
  - by rewrite Hev, last_snoc, Hid.
Qed.
End Properties.

(** ** A concrete connection *)

Lemma lk_exec_all_reachable {Cli Srv} `{SessionEventsLaws Cli} `{ServerEventsLaws Srv} isSsl self k
    cset sset ls (q q' : link (Cli:=Cli) (Srv:=Srv)) :
  lk_reachable isSsl self k cset sset q → forallb lk_label_ok ls = true →
  lk_exec_all isSsl self ls q = Some q' → lk_reachable isSsl self k cset sset q'.
Proof.
  revert q. induction ls as [|l ls IH]; intros q Hq Hok He; cbn -[lk_exec] in *; [by simplify_eq|].
  apply andb_prop in Hok as [Hl Hok]. destruct (lk_exec isSsl self l q) as [q1|] eqn:Hq1; [|done].
  eapply IH; [|done..]. destruct Hq as (cli & h & p & re & hd & srv & t & Hq).
  exists cli, h, p, re, hd, srv, t. eapply star_trans; [done|]. apply star_one. by exists l.
Qed.

(** A client without state and the recording server. *)
Definition demo_link : link (Cli:=unit) (Srv:=recorder) :=
  lk_start 3 default_client_settings demo_settings (Some tt) "localhost" 8080 "/chat" ∅
    (Some (mkRecorder 1 [])) "/chat".

(** Both sides connect; each sends "hello"; the client posts another message and closes. *)
Definition demo_link_run : list (lk_label (Cli:=unit) (Srv:=recorder)) :=
  [LkServer (WAccepted None); LkClient CTask; LkClient (CStage None None);
   LkClient (CStage None None); LkClient (CStage None None);
   LkClient (CPost (TaskSend demo_out)); LkClient CTask; LkUp;
   LkServer (WPost (WsSession.TaskSend demo_text)); LkServer WTask; LkDown;
   LkClient (CPost (TaskSend demo_out)); LkClient (CPost TaskClose)].

(** And the client's side gets its close out, and the message across. *)
Definition demo_link_close : list (lk_label (Cli:=unit) (Srv:=recorder)) :=
  demo_link_run ++ [LkClient CTask; LkClient CTask; LkClient (CWritten None);
                    LkClient (CWritten None); LkUp].

Definition demo_link_after (ls : list lk_label) : link (Cli:=unit) (Srv:=recorder) :=
  default demo_link (lk_exec_all false 0 ls demo_link).

Lemma demo_link_reachable ls :
  forallb lk_label_ok ls = true → is_Some (lk_exec_all false 0 ls demo_link) →
  lk_reachable false 0 3 default_client_settings demo_settings (demo_link_after ls).
Proof.
  intros Hok [q Hq]. unfold demo_link_after. rewrite Hq. cbn.
  eapply lk_exec_all_reachable; [|done..].
  exists (Some tt), "localhost", 8080%Z, "/chat", ∅, (Some (mkRecorder 1 [])), "/chat".
  apply star_refl.
Qed.

Lemma messages_arrive_in_order_witness :
  ws_received (rt_events (lk_server (demo_link_after demo_link_run))) = [out_frame demo_out]
  ∧ ws_received (rt_events (lk_server (demo_link_after demo_link_run)))
      `prefix_of` (out_frame <$> cs_accepted (lk_client (demo_link_after demo_link_run))).
Proof.
  split; [by vm_compute|].
  apply (messages_arrive_in_order false 0 3 default_client_settings demo_settings
           (demo_link_after demo_link_run)).
  apply demo_link_reachable; [by vm_compute|eexists; by vm_compute].
Defined.

Lemma closed_means_complete_witness :
  ∃ q', lk_exec false 0 (LkServer (WRead (inl (demo_ec EcClosed))))
          (demo_link_after demo_link_close) = Some q'
        ∧ ws_received (rt_events (lk_server q')) = out_frame <$> cs_accepted (lk_client q')
        ∧ length (cs_accepted (lk_client q')) = 2.
Proof.
  eexists. split; [by vm_compute|]. split; [|by vm_compute].
  apply (closed_means_complete false 0 3 default_client_settings demo_settings
           (demo_link_after demo_link_close) _ (demo_ec EcClosed));
    [|by vm_compute|by vm_compute|by vm_compute|eexists; by vm_compute].
  apply demo_link_reachable; [by vm_compute|eexists; by vm_compute].
Defined.

Lemma close_delivers_everything_witness :
  length (promised (lk_client (demo_link_after demo_link_run))) = 2
  ∧ ∃ ls q', forallb lk_label_ok ls = true
    ∧ lk_exec_all false 0 ls (demo_link_after demo_link_run) = Some q'
    ∧ ws_received (rt_events (lk_server q')) = [out_frame demo_out; out_frame demo_out].
Proof.
  split; [by vm_compute|].
  destruct (close_delivers_everything false 0 3 default_client_settings demo_settings
              (demo_link_after demo_link_run)) as (ls & q' & Hok & He & Hr & _).
  - apply demo_link_reachable; [by vm_compute|eexists; by vm_compute].
  - by vm_compute.
  - right. vm_compute. right. by left.
  - by vm_compute.
  - apply Nat.ltb_lt. by vm_compute.
  - eexists. by vm_compute.
  - exists ls, q'. split_and!; [done|done|]. rewrite Hr. by vm_compute.
Defined.
